(* ===== verification/_CoqProject ===== *)
-Q . S2P
Prelude.v
PyStr.v
Sha256.v
PyTime.v
Json.v
Canonical.v
Digest.v
Values.v
States.v
Actions.v
Gate.v
Aggregate.v
Text.v
Outbox.v
PaymentLinks.v
References.v
Reader.v
Limits.v
Ledger.v
Webhooks.v
Inbox.v
WebhookIngress.v
Effects.v
CommandCodec.v
Executor.v
Adapter.v
ProviderPort.v
CreateCommand.v
Cancellation.v
CancelCommand.v
PgOutbox.v
OutboxWorker.v
EffectRows.v
CreateStore.v
CreateHandler.v
CreateSystem.v
ApprovalCommand.v
FreshTruth.v
ApprovalRows.v
ApprovalService.v
ApprovalRequest.v
ApprovalEffect.v
ApprovalWorker.v
ApprovalSystem.v
