(* ===== verification/Prelude.v ===== *)
(** * RetryWise: a verification library

    RetryWise recovers failed payments.  Signed provider webhooks enter
    through an ingress that authenticates, normalises and deduplicates them;
    a recovery case is a versioned aggregate whose commands follow a closed
    state machine; every action the service wants to take is a proposal that a
    deterministic gate must authorize twice, as a plan and again immediately
    before the effect; an allowed action travels as a durable outbox job under
    a fenced lease to an executor that creates or cancels one Payment Link;
    and every decision is recorded in a hash-chained ledger.

    This library models that path from the Python source and proves the
    properties its safety rests on.  Paths below are relative to [src/].

    ** Files, in dependency order

    - [Prelude]: exceptions, the [result] monad, tactics, shared lemmas.
    - [PyStr], [PyTime], [Json], [Sha256], [Text]: the parts of Python and its
      standard library the code uses: [str], [bytes] and UTF-8; [datetime] and
      the calendar; [json.dumps] and [json.loads]; [hashlib.sha256], [hmac];
      the clean-text checks.  All of them are executable.
    - [Canonical], [Digest] (packages/domain/canonical.py): canonical JSON, and
      what equality of two digests says about the digested values.
    - [Values], [States], [Actions] (packages/domain/values.py, states.py,
      actions.py): identifiers, money, probabilities; the three state machines;
      proposals, approvals, action keys.
    - [Gate] (packages/domain/gate.py, services/control_plane/policy.py): the
      two-stage authorization gate and its pinned policy.
    - [Aggregate] (packages/domain/aggregate.py): the recovery case, one
      function per command.
    - [Limits], [Ledger] (packages/domain/ledger.py): reading and re-encoding
      stored text within what is left of the recursion limits; the decision
      ledger.
    - [Outbox] (services/control_plane/outbox.py): one outbox job: claim,
      complete, requeue, dead-letter, backoff.
    - [PaymentLinks], [References] (packages/razorpay/payment_links.py,
      references.py): Payment Link requests and their wire form, the decision
      after an ambiguous create, the stable reference.
    - [Reader]: [json.loads] with the hooks of its caller: the strict one of the
      two readers of outside input (no duplicate keys, scalars checked one by
      one) and the plain one, which reads bytes of a detected encoding.
    - [Webhooks], [Inbox], [WebhookIngress] (packages/razorpay/webhooks.py,
      inbox.py, services/control_plane/webhook_ingress.py): verification and
      normalisation of provider events, their deduplication, the ingress.
    - [Effects], [Executor] (services/control_plane/executor.py): programs over
      a trace of port calls, and the executor that creates a Payment Link.
    - [Adapter], [ProviderPort]
      (services/control_plane/razorpay_test_adapter.py): the provider's HTTP
      adapter: requests, classification of answers, the lookup by reference;
      the executor on top of it.
    - [Cancellation] (services/control_plane/cancellation.py): the executor
      that cancels one.
    - [CommandCodec], [CreateCommand], [CancelCommand]
      (services/control_plane/effect_command_codec.py,
      cancellation_command_codec.py): the commands on the wire; what the two
      codecs share, then each of them.
    - [PgOutbox] (services/control_plane/postgres_outbox.py with its SQL
      migrations under infrastructure/postgres/): the table, its constraints
      and triggers, and the repository methods.
    - [OutboxWorker] (services/control_plane/outbox_worker.py): the polling
      worker, proved against the interface [OutboxRepository].
    - [EffectRows] (infrastructure/postgres/migrations/): the rows of one
      action, its case and its instrument, with the constraints and triggers
      that guard their updates, and transactions over them.
    - [CreateStore], [CreateHandler]
      (services/control_plane/create_effect_worker.py): the transactions that
      authorize an effect and store its result; the outbox handler that
      decodes a command, executes it and stores the result.
    - [CreateSystem]: many workers on one action's job, over the outbox table
      and the rows, interleaved with everything else.
    - [ApprovalCommand] (services/control_plane/approval_command.py): the
      command an approval is queued as, with its codec.
    - [FreshTruth] (services/control_plane/assessment_intent.py, in part): the
      fresh reads of payment truth and method health, with their checks.
    - [ApprovalRows] (infrastructure/postgres/migrations/): the rows of one
      approval, its decision and case, and the tables it inserts into, with
      constraints, triggers and transactions.
    - [ApprovalService], [ApprovalEffect], [ApprovalRequest], [ApprovalWorker]
      (services/control_plane/approval_service.py, approval_request.py,
      approval_worker.py): the service that decides an approval and
      materializes its action; what it inserts against what the create worker
      reads; the operator's request; the outbox handler.
    - [ApprovalSystem]: requests, deliveries and everything else interleaved.

    ** How the code is rendered

    A dataclass is a record; a frozen value that the program holds is a fixed
    point of its [__post_init__], which is the function [*_post_init] on the
    raw arguments.  A method is a function from the record; [replace] builds a
    new record.  An exception is a value of [py_error] in [result].  Code that
    calls injected ports runs over the sequence of the calls made so far
    ([Effects.prog]): a port may answer anything, raise, and see every earlier
    call.  A database method is a function from the table to the table and a
    result.  Interfaces ([Protocol] classes) are type classes: the client is
    proved against the class and its laws, the implementation is an instance
    that discharges them ([OutboxWorker.OutboxRepository],
    [WebhookIngress.WebhookInbox]).

    ** The theorems

    - Effects: a provider create happens only under an allowed effect decision
      for exactly the durable intent, at most once per delivery, and never
      while an earlier create is unresolved ([Executor]); a cancellation runs
      only under the two agreeing allowed decisions for exactly its target and
      after provider truth, at most once, and is re-read, and its result rests
      on the truth and the binding read last ([Cancellation]).
      However workers claim, crash and lose leases, at most one create is sent
      per action ([CreateSystem]); an authorization needs untouched, unpaid
      rows and a live fence, a result moves action, case and instrument
      together along an abstract table ([CreateStore]), and a job is settled
      for good only after its result is stored ([CreateHandler]).
    - Approvals: an approval becomes an action only by the operator's word, a
      gate decision on reads of that very call and unchanged locked rows; the
      service refines an abstract decision; what it inserts is what the create
      worker reads ([ApprovalService], [ApprovalEffect]).  In any interleaving an
      approval is decided once and has at most one action; a request is queued
      once; a committed decision is recognised by the next delivery
      ([ApprovalSystem], [ApprovalWorker]).
    - Delivery: a live lease is held by one worker; a settlement is a
      compare-and-swap on the fencing token; deliveries are bounded by the
      attempt budget; due jobs are delivered; the worker settles every row it
      claimed and stops when told to ([PgOutbox], [OutboxWorker], [Outbox]).
    - Commands on the wire: a command is read back from its encoding when its
      plan carries legal versions, which the encoder does not check; an
      accepted payload is the one canonical encoding, of at most 16 KiB, of
      the command returned, which is bound to its proposal, its allowed plan
      and its request or target; whatever the payload, a decoder returns or
      raises what its caller handles ([CreateCommand], [CancelCommand]).
    - Decisions: the gate allows exactly what an independent specification of
      it allows; the aggregate refines its transition graph and never executes
      after payment truth ([Gate], [Aggregate]).
    - Evidence: whenever the ledger verifier returns, it decides the inductive
      chain; it returns when the payloads fit the interpreter's limits, and
      otherwise may raise; tampering needs a hash collision; canonical JSON is read back; keys and references
      identify what they name ([Ledger], [Canonical], [Actions], [References]).
    - Provider: what a create, a lookup or a cancel reports is what the provider
      answered, an answer that proves nothing is ambiguous, a record is taken
      only from a complete and bound response, every request is pinned to the
      test account ([Adapter]); a result of the executor rests on such an answer
      ([ProviderPort]).
    - Ingress: an accepted webhook is authentic, accepted once, and carries
      nothing but allow-listed fields of its signed body ([WebhookIngress],
      [Webhooks], [Inbox]).

    Where modelling showed a fault (an action that cannot be executed again, a
    result that cannot be stored, an exception that escapes), a lemma states it
    beside the guarantees: [CreateStore.second_execution_refused],
    [CreateStore.queued_escalation_not_stored], [Ledger.deep_payload_escapes],
    [CreateCommand.unreadable_plan_encoded] and others named in the findings.

    Each property is stated with its hypotheses and has a witness that applies
    it to a concrete input.  Statements about digests are of the form "equal,
    or here are two byte strings with one SHA-256".

    ** Fuel and bounds

    [PyStr.digits] takes its fuel from the binary length, which bounds the
    decimal one.  The JSON readers take two units per character: every two
    nested calls consume a character ([Reader.strict_value_fuel]).
    [Outbox.double_delay] doubles at most as often as the loop it models.  The
    worker loop takes the iteration limit plus one ([run_until_stopped_terminates]).
    [int(datetime.timestamp())] is taken exactly: binary floating point holds
    every integral second of the calendar.

    ** Assumptions

    [unicodedata.normalize("NFKD", .)] and the interpreter's recursion limit
    are parameters.  [str.lower] is modelled on ASCII, which decides every
    comparison the code makes, and so is [str.casefold], with the characters
    outside ASCII whose fold contains ASCII.  Memory is unbounded: rendering a
    decimal of a huge exponent is a long text here and a [MemoryError] there.
    Checks of the form [isinstance] are not
    modelled where the argument is typed.  An SQL statement is atomic and reads
    one clock value; the driver returns the declared column types; the database
    clock is monotone and within year 9999.  An integer of more than 4300
    digits and nesting beyond the recursion limit are modelled where outside
    input can reach them ([Reader], [Webhooks]) and where stored text is read
    back and verified ([Limits], [Ledger]), and nowhere else: the payload given
    to [Ledger.append] has no longer integer.  In [Limits] what is left of the
    limits is three numbers: containers [json.loads] can nest, nested calls of
    [to_canonical_primitive] (the frames [isinstance] needs inside a call are
    taken off), containers [json.dumps] can nest; they differ between a method
    and [_entry_hash], which runs on a deeper stack.

    [EffectRows] holds the joined rows of one action; the row locks of a
    transaction make it one step.  What a connection may do to a commit (fail
    before it, or lose its acknowledgement) and what the audit appender
    answers are parts of a session.  [CreateSystem] runs the deliveries of one
    job: the idempotency key, which the table makes unique, names the action.
    What other components may do to the rows is the relation
    [CreateSystem.elsewhere]: anything but move the action into EXECUTING, which
    only the authorization does, and undo its end, erase recorded evidence or
    lower a version, which the triggers refuse everyone.
    The read-only loads of the handler are ports that answer anything.

    [ApprovalRows] holds one approval with the rows its joins find, and whole
    tables of actions, instruments and jobs.  The clock of a session has three
    readings (lock, triggers, stamps).  The completion probe may find any of the
    matching rows.  The two fresh readers are ports that answer anything or
    raise.  What others may do to an approval is [ApprovalSystem.elsewhere]:
    nothing to its row, which only the two services write after it was
    requested, and no action of its own.  Key order inside stored JSON is kept.

    [Adapter] sends through an HTTP client that is a port: it may answer any
    status, headers and body or raise any transport error, but a pool timeout
    only before a request is sent.  [OtherTransport] stands for the transport
    classes the adapter does not tell apart; closing a response does not raise.

    ** Not modelled

    Pure input and output (HTTP routes, settings, secret files, logging, the
    process runtime), the database repositories
    other than those of the outbox, of creating a link and of approvals, the
    projectors, the planner of the assessment pipeline and the cancellation
    worker, which read and write many further tables in one transaction, the
    offline diagnosis models and
    the simulator, the console, and the infrastructure scripts.  The component
    list of the manifest gives the reason for each. *)
From Stdlib Require Export ZArith Lia Bool.
From stdpp Require Export base option decidable numbers gmap strings list.

#[export] Set Default Proof Using "Type".
Open Scope Z_scope.

(** * Errors

    The exceptions the modelled code raises, with the class names of
    [packages/domain/errors.py], [services/control_plane/*.py],
    [packages/razorpay/*.py], of Python itself and of the HTTP client, whose
    transport errors have a class of their own.  Each carries the
    attributes (or message) the code gives it. *)
Inductive transport_error :=
  | ConnectTimeout | ReadTimeout | WriteTimeout | PoolTimeout | OtherTimeout | OtherTransport.

Inductive py_error : Type :=
  | DomainError (message : string)
  | InvalidValue (message : string)
  | VersionConflict (expected actual : Z)
  | InvalidTransition (machine current target : string)
  | AuthorizationBindingError (message : string)
  | LedgerIntegrityError (message : string)
  | OutboxTransitionError (message : string)
  | OutboxVersionConflict (message : string)
  | OutboxLeaseError (message : string)
  | OutboxNotReady (message : string)
  | PaymentLinkValidationError (message : string)
  | InboxConflictError (message : string)
  | ReferenceIdError (message : string)
  | WebhookVerificationError (message : string)
  | WebhookDecodeError (message : string)
  | AccountMismatchError (message : string)
  | IngressError (message : string)
  | PayloadTooLarge (message : string)
  | UnsupportedMediaType (message : string)
  | EndpointNotFound (message : string)
  | EffectCommandSizeError (message : string)
  | EffectCommandSchemaError (message : string)
  | EffectCommandIntegrityError (message : string)
  | EffectCommandBindingError (message : string)
  | EffectCommandPrivacyError (message : string)
  | ApprovalCommandCodecError (message : string)
  | ReplayIdempotencyConflict (message : string)
  | CreateEffectPersistenceError (message : string)
  | CancellationPersistenceError (message : string)
  | ApprovalNotFound (message : string)
  | ApprovalConflict (message : string)
  | ApprovalRequestNotFound (message : string)
  | ApprovalRequestConflict (message : string)
  | OutboxFenceLost (message : string)
  | RazorpayAdapterError (message : string)
  | RazorpayReadError (message : string)
  | ProviderAccountMismatchError (message : string)
  | MalformedProviderResponse (message : string)
  | TransportError (class : transport_error)
  | HTTPError (message : string)
  | DatabaseError (message : string)
  | RuntimeError (message : string)
  | ValueError (message : string)
  | TypeError (message : string)
  | KeyError (key : string)
  | AssertionError (message : string)
  | UnicodeEncodeError
  | UnicodeDecodeError
  | JSONDecodeError
  | RecursionError
  | OverflowError.

(** [type(exc).__name__]. *)
Definition error_name (e : py_error) : string :=
  match e with
  | DomainError _ => "DomainError" | InvalidValue _ => "InvalidValue"
  | VersionConflict _ _ => "VersionConflict" | InvalidTransition _ _ _ => "InvalidTransition"
  | AuthorizationBindingError _ => "AuthorizationBindingError"
  | LedgerIntegrityError _ => "LedgerIntegrityError"
  | OutboxTransitionError _ => "OutboxTransitionError"
  | OutboxVersionConflict _ => "OutboxVersionConflict" | OutboxLeaseError _ => "OutboxLeaseError"
  | OutboxNotReady _ => "OutboxNotReady"
  | PaymentLinkValidationError _ => "PaymentLinkValidationError"
  | InboxConflictError _ => "InboxConflictError" | ReferenceIdError _ => "ReferenceIdError"
  | WebhookVerificationError _ => "WebhookVerificationError"
  | WebhookDecodeError _ => "WebhookDecodeError" | AccountMismatchError _ => "AccountMismatchError"
  | RazorpayAdapterError _ => "RazorpayAdapterError" | RazorpayReadError _ => "RazorpayReadError"
  | ProviderAccountMismatchError _ => "ProviderAccountMismatchError"
  | MalformedProviderResponse _ => "_MalformedProviderResponse"
  | TransportError c =>
      match c with
      | ConnectTimeout => "ConnectTimeout" | ReadTimeout => "ReadTimeout" | WriteTimeout => "WriteTimeout"
      | PoolTimeout => "PoolTimeout" | OtherTimeout => "TimeoutException" | OtherTransport => "TransportError"
      end
  | HTTPError _ => "HTTPError"
  | OutboxFenceLost _ => "OutboxFenceLost" | DatabaseError _ => "DatabaseError"
  | RuntimeError _ => "RuntimeError" | ValueError _ => "ValueError" | TypeError _ => "TypeError"
  | KeyError _ => "KeyError" | AssertionError _ => "AssertionError"
  | UnicodeEncodeError => "UnicodeEncodeError" | UnicodeDecodeError => "UnicodeDecodeError"
  | IngressError _ => "IngressError"
  | PayloadTooLarge _ => "PayloadTooLarge"
  | UnsupportedMediaType _ => "UnsupportedMediaType"
  | EndpointNotFound _ => "EndpointNotFound"
  | EffectCommandSizeError _ => "EffectCommandSizeError"
  | EffectCommandSchemaError _ => "EffectCommandSchemaError"
  | EffectCommandIntegrityError _ => "EffectCommandIntegrityError"
  | EffectCommandBindingError _ => "EffectCommandBindingError"
  | EffectCommandPrivacyError _ => "EffectCommandPrivacyError"
  | ApprovalCommandCodecError _ => "ApprovalCommandCodecError"
  | ReplayIdempotencyConflict _ => "ReplayIdempotencyConflict"
  | CreateEffectPersistenceError _ => "CreateEffectPersistenceError"
  | CancellationPersistenceError _ => "CancellationPersistenceError"
  | ApprovalNotFound _ => "ApprovalNotFound"
  | ApprovalConflict _ => "ApprovalConflict"
  | ApprovalRequestNotFound _ => "ApprovalRequestNotFound" | ApprovalRequestConflict _ => "ApprovalRequestConflict"
  | JSONDecodeError => "JSONDecodeError" | RecursionError => "RecursionError"
  | OverflowError => "OverflowError"
  end.

(** * The result monad: a value or a raised exception *)
Inductive result (A : Type) : Type :=
  | Ok (a : A)
  | Raise (e : py_error).
Arguments Ok {A} a.
Arguments Raise {A} e.

#[export] Instance result_ret : MRet result := @Ok.
#[export] Instance result_bind : MBind result := fun A B f m =>
  match m with Ok a => f a | Raise e => Raise e end.
#[export] Instance result_fmap : FMap result := fun A B f m =>
  match m with Ok a => Ok (f a) | Raise e => Raise e end.

Declare Scope py_scope.
Delimit Scope py_scope with py.
Open Scope py_scope.

(** [raise_if b e]: the guard [if b: raise e]. *)
Definition raise_if (b : bool) (e : py_error) : result unit :=
  if b then Raise e else Ok tt.

Definition is_ok {A} (r : result A) : bool :=
  match r with Ok _ => true | Raise _ => false end.

(** The right-biased choice [match r with Ok | Raise] used by [try/except]. *)
Definition result_option {A} (r : result A) : option A :=
  match r with Ok a => Some a | Raise _ => None end.

Section result_lemmas.
Context {A B : Type}.

Lemma bind_Ok (m : result A) (f : A → result B) b :
  m ≫= f = Ok b ↔ ∃ a, m = Ok a ∧ f a = Ok b.
Proof. destruct m; cbn; naive_solver. Qed.

Lemma Ok_inj (a b : A) : Ok a = Ok b → a = b.
Proof. by intros [=]. Qed.

Lemma bind_Ok_l (a : A) (f : A → result B) : Ok a ≫= f = f a.
Proof. done. Qed.

Lemma bind_Raise_l e (f : A → result B) : Raise e ≫= f = Raise e.
Proof. done. Qed.

Lemma bind_assoc {C} (m : result A) (f : A → result B) (g : B → result C) :
  (m ≫= f) ≫= g = m ≫= (λ a, f a ≫= g).
Proof. by destruct m. Qed.

Lemma raise_if_Ok b e u : raise_if b e = Ok u ↔ b = false.
Proof. destruct b, u; cbn; naive_solver. Qed.

Lemma raise_if_false e : raise_if false e = Ok tt.
Proof. done. Qed.

Lemma raise_if_true e : raise_if true e = Raise e.
Proof. done. Qed.

Lemma bind_Some_l (a : A) (f : A → option B) : Some a ≫= f = f a.
Proof. done. Qed.

Lemma is_ok_true (r : result A) : is_ok r = true ↔ ∃ a, r = Ok a.
Proof. destruct r; naive_solver. Qed.
End result_lemmas.

Create Rewrite HintDb py.
#[export] Hint Rewrite @bind_Ok_l @bind_Raise_l @bind_Some_l raise_if_false raise_if_true : py.

(** * Booleans *)
Lemma bool_decide_false_1 (P : Prop) `{!Decision P} : bool_decide P = false → ¬ P.
Proof. by rewrite bool_decide_eq_false. Qed.

Lemma bool_decide_true_1 (P : Prop) `{!Decision P} : bool_decide P = true → P.
Proof. by rewrite bool_decide_eq_true. Qed.

(** One step of the analysis of hypotheses about booleans, guards and
    successful computations. *)
Ltac bool_step H :=
  lazymatch type of H with
  | negb _ = true => apply negb_true_iff in H
  | negb _ = false => apply negb_false_iff in H
  | _ && _ = true =>
      let H2 := fresh H in apply andb_true_iff in H as [H H2]
  | _ || _ = false =>
      let H2 := fresh H in apply orb_false_iff in H as [H H2]
  | (_ <? _) = true => apply Z.ltb_lt in H
  | (_ <? _) = false => apply Z.ltb_ge in H
  | (_ <=? _) = true => apply Z.leb_le in H
  | (_ <=? _) = false => apply Z.leb_gt in H
  | (_ =? _) = true => apply Z.eqb_eq in H
  | (_ =? _) = false => apply Z.eqb_neq in H
  | bool_decide _ = true => apply bool_decide_true_1 in H
  | bool_decide _ = false => apply bool_decide_false_1 in H
  end.

(** [inv_ok]: decompose every hypothesis [m = Ok v] along the binds of [m],
    turning guards into facts. *)
Ltac inv_ok_step :=
  match goal with
  | H : _ ≫= _ = Ok _ |- _ =>
      apply bind_Ok in H;
      let a := fresh "r" in let H1 := fresh "Hr" in destruct H as (a & H1 & H)
  | H : raise_if _ _ = Ok _ |- _ => apply raise_if_Ok in H
  | H : Ok _ = Ok _ |- _ => apply Ok_inj in H
  | H : mret _ = Ok _ |- _ => apply Ok_inj in H
  | H : Raise _ = Ok _ |- _ => discriminate H
  | H : Ok _ = Raise _ |- _ => discriminate H
  end.
Ltac inv_ok := repeat inv_ok_step.
Ltac bools := repeat match goal with H : _ = _ :> bool |- _ => bool_step H end.

(** * Lists *)

(** [if b: reasons.append(x)] on the list built so far. *)
Definition append_if {A} (b : bool) (x : A) : list A := if b then [x] else [].

Section append_if.
Context {A : Type}.

Lemma append_if_nil b (x : A) : append_if b x = [] ↔ b = false.
Proof. by destruct b. Qed.

Lemma elem_of_append_if b (x y : A) : y ∈ append_if b x ↔ b = true ∧ y = x.
Proof. destruct b; cbn; set_solver. Qed.

Lemma append_if_sublist b (x : A) : append_if b x `sublist_of` [x].
Proof. destruct b; cbn; [done|]. apply sublist_nil_l. Qed.
End append_if.

(** The first option that holds a value: an [if/elif] chain of [return]s. *)
Fixpoint first_some {A} (l : list (option A)) : option A :=
  match l with
  | [] => None
  | Some a :: _ => Some a
  | None :: l => first_some l
  end.

(** [forallb] as a proposition. *)
Lemma forallb_Forall {A} (p : A → bool) l : forallb p l = true ↔ Forall (λ x, p x = true) l.
Proof. rewrite forallb_forall, Forall_forall. by setoid_rewrite <- list_elem_of_In. Qed.

(** Linear arithmetic with division and remainder by constants. *)
Ltac dlia := Z.to_euclidean_division_equations; lia.
