(* ===== verification/PyStr.v ===== *)
(** Python strings and bytes, as far as the modelled code uses them: [str] as
    the list of its code points, [bytes] as a list of integers in 0..255,
    decimal and hexadecimal rendering, [str.strip], the ordering of [str],
    and the UTF-8 codec.  Strings that the code writes as literals are
    written [$"..."]. *)
From S2P Require Import Prelude.

Abbreviation pystr := (list Z) (only parsing).
Abbreviation bytes := (list Z) (only parsing).

Fixpoint lit (s : string) : pystr :=
  match s with
  | EmptyString => []
  | String c s => Z.of_N (Ascii.N_of_ascii c) :: lit s
  end.
Notation "$ s" := (lit s%string) (at level 1, s at level 0, format "$ s") : py_scope.

(** An ASCII [str] inside an error message. *)
Fixpoint string_of (s : pystr) : string :=
  match s with
  | [] => EmptyString
  | c :: s => String (Ascii.ascii_of_N (Z.to_N c)) (string_of s)
  end.

Definition str_len (s : pystr) : Z := Z.of_nat (length s).
Definition starts_with (prefix s : pystr) : bool := bool_decide (take (length prefix) s = prefix).

(** * Character classes *)
Definition between (a b c : Z) : bool := (a <=? c) && (c <=? b).
Definition is_digit (c : Z) : bool := between 48 57 c.
Definition is_lower (c : Z) : bool := between 97 122 c.
Definition is_upper (c : Z) : bool := between 65 90 c.
Definition is_alnum (c : Z) : bool := is_upper c || is_lower c || is_digit c.
Definition is_lower_hex (c : Z) : bool := is_digit c || between 97 102 c.
Definition one_of (s : pystr) (c : Z) : bool := bool_decide (c ∈ s).

(** [str.isspace] for one code point: what [str.strip] removes. *)
Definition is_space (c : Z) : bool :=
  between 9 13 c || between 28 32 c || (c =? 133) || (c =? 160) || (c =? 5760)
  || between 8192 8202 c || (c =? 8232) || (c =? 8233) || (c =? 8239)
  || (c =? 8287) || (c =? 12288).

Fixpoint drop_while (p : Z → bool) (s : pystr) : pystr :=
  match s with
  | [] => []
  | c :: s' => if p c then drop_while p s' else s
  end.
(** [str.rstrip(chars)] and [str.strip()]. *)
Definition rstrip_chars (p : Z → bool) (s : pystr) : pystr := reverse (drop_while p (reverse s)).
Definition strip (s : pystr) : pystr := rstrip_chars is_space (drop_while is_space s).

(** [str.lower] on ASCII.  The only other character that lowers to an ASCII
    one is the Kelvin sign, which lowers to k. *)
Definition lower_ascii (s : pystr) : pystr := map (λ c, if is_upper c then c + 32 else c) s.

(** * Decimal rendering of integers *)
Definition digit_char (d : Z) : Z := 48 + d.
Definition char_digit (c : Z) : Z := c - 48.

Fixpoint digits_fuel (fuel : nat) (n : Z) : list Z :=
  match fuel with
  | O => []
  | S fuel => if n <? 10 then [n] else digits_fuel fuel (n / 10) ++ [n mod 10]
  end.
(** The fuel is the number of binary digits, which bounds the decimal ones. *)
Definition digits (n : Z) : list Z := digits_fuel (S (Z.to_nat (Z.log2 n))) n.

Definition undigits (ds : list Z) : Z := foldl (λ acc d, acc * 10 + d) 0 ds.

(** [str(n)] for an [int]. *)
Definition str_of_Z (n : Z) : pystr :=
  if n <? 0 then $"-" ++ map digit_char (digits (- n)) else map digit_char (digits n).

(** [n] on exactly [k] decimal places, zero-padded. *)
Fixpoint padded (k : nat) (n : Z) : list Z :=
  match k with
  | O => []
  | S k => padded k (n / 10) ++ [n mod 10]
  end.

Lemma undigits_app ds d : undigits (ds ++ [d]) = undigits ds * 10 + d.
Proof. unfold undigits. by rewrite foldl_app. Qed.

Lemma digits_fuel_value fuel n :
  0 <= n < 2 ^ Z.of_nat fuel → undigits (digits_fuel fuel n) = n.
Proof.
  revert n; induction fuel as [|fuel IH]; intros n Hn; cbn [digits_fuel].
  { change (2 ^ Z.of_nat 0) with 1 in Hn. cbn. lia. }
  destruct (Z.ltb_spec n 10); [done|].
  rewrite undigits_app, IH.
  - pose proof (Z.div_mod n 10). lia.
  - rewrite Nat2Z.inj_succ, Z.pow_succ_r in Hn by lia.
    split; [apply Z.div_pos; lia|]. apply Z.div_lt_upper_bound; lia.
Qed.

Lemma digits_value n : 0 <= n → undigits (digits n) = n.
Proof.
  intros Hn. apply digits_fuel_value. split; [done|].
  destruct (decide (n = 0)) as [->|Hn0]; [done|].
  rewrite Nat2Z.inj_succ, Z2Nat.id by apply Z.log2_nonneg.
  apply Z.log2_spec. lia.
Qed.

Lemma digits_fuel_range fuel n : 0 <= n → Forall (λ d, 0 <= d < 10) (digits_fuel fuel n).
Proof.
  revert n; induction fuel as [|fuel IH]; intros n Hn; cbn; [done|].
  destruct (Z.ltb_spec n 10); [by repeat constructor|].
  apply Forall_app; split; [apply IH, Z.div_pos; lia|].
  repeat constructor; pose proof (Z.mod_pos_bound n 10); lia.
Qed.

Lemma digits_range n : 0 <= n → Forall (λ d, 0 <= d < 10) (digits n).
Proof. apply digits_fuel_range. Qed.

Lemma digits_nonempty n : digits n ≠ [].
Proof.
  unfold digits; cbn. destruct (n <? 10); [done|].
  intros H%app_nil. naive_solver.
Qed.

(** No leading zero except for the number zero itself. *)
Lemma digits_fuel_head fuel n ds :
  0 < n < 2 ^ Z.of_nat fuel → digits_fuel fuel n = 0 :: ds → False.
Proof.
  revert n ds; induction fuel as [|fuel IH]; intros n ds Hn H; cbn in H; [done|].
  destruct (Z.ltb_spec n 10); [simplify_eq; lia|].
  rewrite Nat2Z.inj_succ, Z.pow_succ_r in Hn by lia.
  assert (0 < n / 10) by (apply Z.div_str_pos; lia).
  assert (n / 10 < 2 ^ Z.of_nat fuel) by (apply Z.div_lt_upper_bound; lia).
  destruct (digits_fuel fuel (n / 10)) as [|d ds'] eqn:E.
  - destruct fuel as [|fuel']; [change (2 ^ Z.of_nat 0) with 1 in *; lia|].
    cbn in E. destruct (_ <? 10); [done|]. by apply app_nil in E as [_ ?].
  - cbn in H. simplify_eq. by eapply IH.
Qed.

Lemma digits_head n ds : 0 <= n → digits n = 0 :: ds → n = 0 ∧ ds = [].
Proof.
  intros Hn H. destruct (decide (n = 0)) as [->|Hn0]; [by cbn in H; simplify_eq|].
  exfalso. eapply digits_fuel_head; [|exact H].
  rewrite Nat2Z.inj_succ, Z2Nat.id by apply Z.log2_nonneg.
  split; [lia|]. apply Z.log2_spec. lia.
Qed.

Lemma digits_fuel_length fuel k n :
  0 <= n < 10 ^ Z.of_nat (S k) → (length (digits_fuel fuel n) <= S k)%nat.
Proof.
  revert k n; induction fuel as [|fuel IH]; intros k n Hn; cbn [digits_fuel length]; [lia|].
  destruct (Z.ltb_spec n 10); [cbn; lia|].
  destruct k as [|k]; [change (10 ^ Z.of_nat 1) with 10 in Hn; lia|].
  rewrite length_app. cbn [length]. rewrite Nat2Z.inj_succ, Z.pow_succ_r in Hn by lia.
  assert (length (digits_fuel fuel (n / 10)) <= S k)%nat; [|lia]. apply IH.
  split; [apply Z.div_pos; lia|]. apply Z.div_lt_upper_bound; lia.
Qed.

Lemma str_of_Z_length k n :
  0 <= n < 10 ^ Z.of_nat (S k) → str_len (str_of_Z n) <= Z.of_nat (S k).
Proof.
  intros Hn. unfold str_of_Z, str_len. destruct (Z.ltb_spec n 0); [lia|].
  rewrite length_map. unfold digits. pose proof (digits_fuel_length (S (Z.to_nat (Z.log2 n))) k n Hn). lia.
Qed.

(** A decimal numeral holds digits and the sign only. *)
Lemma not_in_int c z : c ≠ 45 → is_digit c = false → c ∉ str_of_Z z.
Proof.
  intros Hc Hd. assert (∀ n, 0 <= n → c ∉ map digit_char (digits n)) as H.
  { intros n Hn Hin. apply list_elem_of_fmap in Hin as (d & -> & Hin).
    assert (0 <= d < 10) by exact (proj1 (Forall_forall _ _) (digits_range n Hn) d Hin).
    unfold digit_char, is_digit, between in Hd. lia. }
  unfold str_of_Z. destruct (Z.ltb_spec z 0) as [Hz|Hz]; [|by apply H].
  intros [Hin|Hin]%elem_of_app; [|revert Hin; apply H; lia].
  apply list_elem_of_singleton in Hin. done.
Qed.

Lemma padded_length k n : length (padded k n) = k.
Proof. revert n; induction k; intros n; cbn; [done|]. rewrite length_app, IHk. cbn. lia. Qed.

Lemma padded_range k n : Forall (λ d, 0 <= d < 10) (padded k n).
Proof.
  revert n; induction k; intros n; cbn; [done|]. apply Forall_app; split; [done|].
  repeat constructor; pose proof (Z.mod_pos_bound n 10); lia.
Qed.

Lemma padded_value k n : 0 <= n < 10 ^ Z.of_nat k → undigits (padded k n) = n.
Proof.
  revert n; induction k as [|k IH]; intros n Hn; cbn [padded].
  { change (10 ^ Z.of_nat 0) with 1 in Hn. cbn. lia. }
  rewrite undigits_app, IH.
  - pose proof (Z.div_mod n 10). lia.
  - rewrite Nat2Z.inj_succ, Z.pow_succ_r in Hn by lia.
    split; [apply Z.div_pos; lia|]. apply Z.div_lt_upper_bound; lia.
Qed.

Lemma digit_char_is_digit d : 0 <= d < 10 → is_digit (digit_char d) = true.
Proof. unfold is_digit, between, digit_char. lia. Qed.

Lemma char_digit_char d : char_digit (digit_char d) = d.
Proof. unfold char_digit, digit_char. lia. Qed.

Lemma map_char_digit_char ds : map char_digit (map digit_char ds) = ds.
Proof.
  rewrite map_map. rewrite <- (map_id ds) at 2. apply map_ext, char_digit_char.
Qed.

Lemma map_digit_char_is_digit ds :
  Forall (λ d, 0 <= d < 10) ds → Forall (λ c, is_digit c = true) (map digit_char ds).
Proof.
  induction 1; cbn; constructor; [by apply digit_char_is_digit|done].
Qed.

(** * Hexadecimal *)
Definition hex_char (d : Z) : Z := if d <? 10 then 48 + d else 87 + d.
Definition hex_byte (b : Z) : pystr := [hex_char (b / 16); hex_char (b mod 16)].
Definition hexlify (bs : bytes) : pystr := concat (map hex_byte bs).

Lemma hex_char_lower d : 0 <= d < 16 → is_lower_hex (hex_char d) = true.
Proof. unfold hex_char, is_lower_hex, is_digit, between. destruct (Z.ltb_spec d 10); lia. Qed.

Lemma hexlify_length bs : length (hexlify bs) = (2 * length bs)%nat.
Proof. induction bs; cbn in *; [done|]. unfold hexlify in *. lia. Qed.

Definition is_byte (b : Z) : Prop := 0 <= b < 256.

Lemma hexlify_lower bs : Forall is_byte bs → Forall (λ c, is_lower_hex c = true) (hexlify bs).
Proof.
  unfold is_byte. induction 1 as [|b bs Hb _ IH]; [done|]. cbn. constructor; [|constructor; [|done]].
  - apply hex_char_lower. split; [apply Z.div_pos; lia|]. apply Z.div_lt_upper_bound; lia.
  - apply hex_char_lower. apply Z.mod_pos_bound. lia.
Qed.

Lemma hex_char_inj c d : 0 <= c < 16 → 0 <= d < 16 → hex_char c = hex_char d → c = d.
Proof. unfold hex_char. destruct (Z.ltb_spec c 10), (Z.ltb_spec d 10); lia. Qed.

Lemma hexlify_inj bs bs' :
  Forall is_byte bs → Forall is_byte bs' → hexlify bs = hexlify bs' → bs = bs'.
Proof.
  intros H. revert bs'. induction H as [|b bs Hb _ IH]; intros bs' H'; destruct H' as [|b' bs' Hb' H'];
    cbn; intros E; try done.
  injection E as E1 E2 E. apply IH in E as ->; [|done]. f_equal.
  unfold is_byte in *. apply hex_char_inj in E1, E2; dlia.
Qed.

(** * Ordering of strings, by code point *)
Fixpoint str_ltb (s t : pystr) : bool :=
  match s, t with
  | _, [] => false
  | [], _ :: _ => true
  | x :: s, y :: t => (x <? y) || ((x =? y) && str_ltb s t)
  end.

Lemma str_ltb_irrefl s : str_ltb s s = false.
Proof. induction s; cbn; [done|]. rewrite Z.ltb_irrefl, Z.eqb_refl. done. Qed.

Lemma str_ltb_trans s t u : str_ltb s t = true → str_ltb t u = true → str_ltb s u = true.
Proof.
  revert t u; induction s as [|x s IH]; intros [|y t] [|z u]; cbn; try done.
  rewrite !orb_true_iff, !andb_true_iff, !Z.ltb_lt, !Z.eqb_eq.
  intros [?|[-> ?]] [?|[-> ?]]; auto with lia. right; eauto.
Qed.

Lemma str_ltb_total s t : str_ltb s t = false → str_ltb t s = false → s = t.
Proof.
  revert t; induction s as [|x s IH]; intros [|y t]; cbn; try done.
  rewrite !orb_false_iff, !andb_false_iff, !Z.ltb_ge, !Z.eqb_neq.
  intros [? H1] [? H2]. assert (x = y) as -> by lia. f_equal. apply IH; naive_solver.
Qed.

Lemma str_ltb_asym s t : str_ltb s t = true → str_ltb t s = false.
Proof.
  intros H. destruct (str_ltb t s) eqn:E; [|done].
  pose proof (str_ltb_trans _ _ _ H E). by rewrite str_ltb_irrefl in *.
Qed.

(** * UTF-8 *)
Definition is_surrogate (c : Z) : bool := between 55296 57343 c.

Definition utf8_encode_char (c : Z) : result bytes :=
  if between 0 127 c then Ok [c]
  else if between 128 2047 c then Ok [192 + c / 64; 128 + c mod 64]
  else if is_surrogate c then Raise UnicodeEncodeError
  else if between 2048 65535 c then
    Ok [224 + c / 4096; 128 + (c / 64) mod 64; 128 + c mod 64]
  else if between 65536 1114111 c then
    Ok [240 + c / 262144; 128 + (c / 4096) mod 64; 128 + (c / 64) mod 64; 128 + c mod 64]
  else Raise UnicodeEncodeError.

(** [s.encode("utf-8")]. *)
Fixpoint utf8_encode (s : pystr) : result bytes :=
  match s with
  | [] => Ok []
  | c :: s => b ← utf8_encode_char c; bs ← utf8_encode s; Ok (b ++ bs)
  end.

(** [s.encode("ascii")]. *)
Definition ascii_encode (s : pystr) : result bytes :=
  if forallb (between 0 127) s then Ok s else Raise UnicodeEncodeError.

Definition is_cont (b : Z) : bool := between 128 191 b.

(** [bs.decode("utf-8")], strict: overlong forms, surrogates and values past
    U+10FFFF are rejected. *)
Fixpoint utf8_decode (bs : bytes) : option pystr :=
  match bs with
  | [] => Some []
  | b :: r1 =>
      if between 0 127 b then cons b <$> utf8_decode r1
      else match r1 with
      | [] => None
      | b1 :: r2 =>
          if between 194 223 b && is_cont b1
          then cons ((b - 192) * 64 + (b1 - 128)) <$> utf8_decode r2
          else match r2 with
          | [] => None
          | b2 :: r3 =>
              let c := (b - 224) * 4096 + (b1 - 128) * 64 + (b2 - 128) in
              if between 224 239 b && is_cont b1 && is_cont b2
                 && between 2048 65535 c && negb (is_surrogate c)
              then cons c <$> utf8_decode r3
              else match r3 with
              | [] => None
              | b3 :: r4 =>
                  let c := (b - 240) * 262144 + (b1 - 128) * 4096
                           + (b2 - 128) * 64 + (b3 - 128) in
                  if between 240 244 b && is_cont b1 && is_cont b2 && is_cont b3
                     && between 65536 1114111 c
                  then cons c <$> utf8_decode r4
                  else None
              end
          end
      end
  end.

Ltac between_tac := unfold is_cont, is_surrogate, between in *; lia.

(** Decoding reads back one encoded character and goes on with the rest. *)
Lemma utf8_decode_char c b rest :
  utf8_encode_char c = Ok b → utf8_decode (b ++ rest) = cons c <$> utf8_decode rest.
Proof.
  unfold utf8_encode_char. intros H.
  pose proof (Z.div_mod c 64 ltac:(lia)). pose proof (Z.mod_pos_bound c 64 ltac:(lia)).
  pose proof (Z.div_mod (c / 64) 64 ltac:(lia)). pose proof (Z.mod_pos_bound (c / 64) 64 ltac:(lia)).
  pose proof (Z.div_mod (c / 4096) 64 ltac:(lia)).
  pose proof (Z.mod_pos_bound (c / 4096) 64 ltac:(lia)).
  pose proof (Z.div_div c 64 64 ltac:(lia) ltac:(lia)) as D1. change (64 * 64) with 4096 in D1.
  pose proof (Z.div_div c 4096 64 ltac:(lia) ltac:(lia)) as D2. change (4096 * 64) with 262144 in D2.
  destruct (between 0 127 c) eqn:E1.
  { injection H as <-. cbn [app utf8_decode]. by rewrite E1. }
  destruct (between 128 2047 c) eqn:E2.
  { injection H as <-. cbn [app utf8_decode].
    replace (between 0 127 _) with false by between_tac.
    replace (between 194 223 _ && is_cont _) with true by between_tac.
    by replace ((192 + c / 64 - 192) * 64 + (128 + c mod 64 - 128)) with c by lia. }
  destruct (is_surrogate c) eqn:E3; [done|].
  destruct (between 2048 65535 c) eqn:E4.
  { injection H as <-. cbn [app utf8_decode].
    replace (between 0 127 _) with false by between_tac.
    replace (between 194 223 _ && is_cont _) with false by between_tac.
    replace (_ * 4096 + _ * 64 + _) with c by lia. rewrite E4, E3.
    by replace (between 224 239 _ && is_cont _ && is_cont _ && _ && _) with true by between_tac. }
  destruct (between 65536 1114111 c) eqn:E5; [|done].
  injection H as <-. cbn [app utf8_decode].
  replace (between 0 127 _) with false by between_tac.
  replace (between 194 223 _ && is_cont _) with false by between_tac.
  replace (between 224 239 _ && is_cont _ && is_cont _ && _ && _) with false by between_tac.
  replace (_ * 262144 + _ * 4096 + _ * 64 + _) with c by lia. rewrite E5.
  by replace (between 240 244 _ && is_cont _ && is_cont _ && is_cont _ && _) with true by between_tac.
Qed.

Lemma utf8_roundtrip s bs : utf8_encode s = Ok bs → utf8_decode bs = Some s.
Proof.
  revert bs; induction s as [|c s IH]; cbn; intros bs H; inv_ok; [by subst|]. subst.
  rewrite (utf8_decode_char c) by done. by erewrite IH.
Qed.

Lemma utf8_encode_inj s t bs : utf8_encode s = Ok bs → utf8_encode t = Ok bs → s = t.
Proof. intros ?%utf8_roundtrip ?%utf8_roundtrip. congruence. Qed.

Lemma utf8_encode_char_byte c b : utf8_encode_char c = Ok b → Forall is_byte b.
Proof.
  unfold utf8_encode_char, is_byte. intros H.
  pose proof (Z.mod_pos_bound c 64 ltac:(lia)).
  pose proof (Z.mod_pos_bound (c / 64) 64 ltac:(lia)).
  pose proof (Z.mod_pos_bound (c / 4096) 64 ltac:(lia)).
  repeat case_match; simplify_eq; repeat constructor; try between_tac.
  all: unfold between in *; try (apply Z.add_nonneg_nonneg; [lia|apply Z.div_pos; lia]).
  all: match goal with |- ?k + ?x / ?d < 256 =>
    assert (x / d < 256 - k) by (apply Z.div_lt_upper_bound; lia); lia end.
Qed.

Lemma utf8_encode_byte s bs : utf8_encode s = Ok bs → Forall is_byte bs.
Proof.
  revert bs; induction s; cbn; intros bs H; inv_ok; subst; [done|].
  apply Forall_app; split; eauto using utf8_encode_char_byte.
Qed.

(** ASCII text is its own UTF-8 encoding. *)
Definition is_ascii (c : Z) : bool := between 0 127 c.

Lemma utf8_encode_ascii s : Forall (λ c, is_ascii c = true) s → utf8_encode s = Ok s.
Proof.
  induction 1 as [|c s Hc _ IH]; cbn; [done|].
  unfold utf8_encode_char. unfold is_ascii in Hc. by rewrite Hc, IH.
Qed.

Lemma ascii_encode_Ok s bs : ascii_encode s = Ok bs → bs = s.
Proof. unfold ascii_encode. case_match; naive_solver. Qed.

Definition ascii_str (s : pystr) : bool := forallb is_ascii s.

#[global] Arguments ascii_str : simpl never.

Lemma ascii_str_Forall s : ascii_str s = true ↔ Forall (λ c, is_ascii c = true) s.
Proof. apply forallb_Forall. Qed.

Lemma ascii_str_app s t : ascii_str (s ++ t) = ascii_str s && ascii_str t.
Proof. apply forallb_app. Qed.

Lemma Forall_ascii (p : Z → bool) s :
  (∀ c, p c = true → is_ascii c = true) → Forall (λ c, p c = true) s → ascii_str s = true.
Proof. intros Hp H. apply ascii_str_Forall. by eapply Forall_impl. Qed.

Lemma is_digit_ascii c : is_digit c = true → is_ascii c = true.
Proof. unfold is_digit, is_ascii, between. lia. Qed.
Lemma is_lower_hex_ascii c : is_lower_hex c = true → is_ascii c = true.
Proof. unfold is_lower_hex, is_digit, is_ascii, between. lia. Qed.

Lemma ascii_digits ds : Forall (λ d, 0 <= d < 10) ds → ascii_str (map digit_char ds) = true.
Proof. intros H. eapply Forall_ascii; [apply is_digit_ascii|by apply map_digit_char_is_digit]. Qed.

Lemma ascii_str_of_Z z : ascii_str (str_of_Z z) = true.
Proof.
  unfold str_of_Z. destruct (Z.ltb_spec z 0); rewrite ?ascii_str_app; [apply andb_true_iff; split; [done|]|];
    apply ascii_digits, digits_range; lia.
Qed.

Lemma ascii_hexlify bs : Forall is_byte bs → ascii_str (hexlify bs) = true.
Proof. intros H. eapply Forall_ascii; [apply is_lower_hex_ascii|by apply hexlify_lower]. Qed.
