(* ===== verification/Sha256.v ===== *)
(** [hashlib.sha256] and [hmac] over it (FIPS 180-4, RFC 2104), executable on
    [bytes].  The round constants are computed from their definition: the
    first 32 bits of the fractional parts of the cube (square) roots of the
    first primes.  Test vectors at the end evaluate the definitions. *)
From S2P Require Import Prelude PyStr.

Definition word_mask : Z := 4294967295.
Definition word (x : Z) : Z := Z.land x word_mask.
Definition rotr (n x : Z) : Z := Z.lor (Z.shiftr x n) (word (Z.shiftl x (32 - n))).
Definition word_not (x : Z) : Z := Z.lxor x word_mask.

Lemma word_mod x : word x = x mod 2 ^ 32.
Proof. exact (Z.land_ones x 32 ltac:(lia)). Qed.

Definition choice (x y z : Z) : Z := Z.lxor (Z.land x y) (Z.land (word_not x) z).
Definition majority (x y z : Z) : Z :=
  Z.lxor (Z.lxor (Z.land x y) (Z.land x z)) (Z.land y z).
Definition big_sigma0 (x : Z) : Z := Z.lxor (Z.lxor (rotr 2 x) (rotr 13 x)) (rotr 22 x).
Definition big_sigma1 (x : Z) : Z := Z.lxor (Z.lxor (rotr 6 x) (rotr 11 x)) (rotr 25 x).
Definition small_sigma0 (x : Z) : Z := Z.lxor (Z.lxor (rotr 7 x) (rotr 18 x)) (Z.shiftr x 3).
Definition small_sigma1 (x : Z) : Z := Z.lxor (Z.lxor (rotr 17 x) (rotr 19 x)) (Z.shiftr x 10).

(** The largest [r] below [2^bits] added to [acc] with [r^3 <= n]. *)
Fixpoint cube_root (bits : nat) (acc n : Z) : Z :=
  match bits with
  | O => acc
  | S bits =>
      let r := acc + 2 ^ Z.of_nat bits in
      cube_root bits (if r * r * r <=? n then r else acc) n
  end.

Definition is_prime (n : Z) : bool :=
  (1 <? n) && forallb (λ d, negb (n mod d =? 0))
                (map Z.of_nat (seq 2 (Z.to_nat (Z.sqrt n) - 1))).
Definition first_primes (count : nat) : list Z :=
  take count (List.filter is_prime (map Z.of_nat (seq 2 320))).

Definition round_constants : list Z :=
  Eval vm_compute in map (λ p, word (cube_root 36 0 (p * 2 ^ 96))) (first_primes 64).
Definition initial_hash : list Z :=
  Eval vm_compute in map (λ p, word (Z.sqrt (p * 2 ^ 64))) (first_primes 8).

Fixpoint be_bytes (n : nat) (x : Z) : bytes :=
  match n with
  | O => []
  | S n => be_bytes n (x / 256) ++ [x mod 256]
  end.

Definition be_word (bs : bytes) : Z := foldl (λ acc b, acc * 256 + b) 0 bs.

Definition padding (len : Z) : bytes :=
  128 :: repeat 0 (Z.to_nat ((55 - len) mod 64)) ++ be_bytes 8 (8 * len).

Fixpoint chunks (fuel size : nat) (bs : bytes) : list bytes :=
  match fuel, bs with
  | O, _ | _, [] => []
  | S fuel, _ => take size bs :: chunks fuel size (drop size bs)
  end.

Definition words_of_block (block : bytes) : list Z := map be_word (chunks 16 4 block).

(** The 64 rounds, with the message schedule kept as a sliding window of its
    next sixteen words. *)
Fixpoint rounds (ks ws : list Z) (st : list Z) : list Z :=
  match ks, ws, st with
  | k :: ks, w0 :: w1 :: ws', [a; b; c; d; e; f; g; h] =>
      let w16 := word (small_sigma1 (nth 12 ws' 0) + nth 7 ws' 0 + small_sigma0 w1 + w0) in
      let t1 := h + big_sigma1 e + choice e f g + k + w0 in
      let t2 := big_sigma0 a + majority a b c in
      rounds ks (w1 :: ws' ++ [w16]) [word (t1 + t2); a; b; c; word (d + t1); e; f; g]
  | _, _, _ => st
  end.

Definition compress (h : list Z) (block : bytes) : list Z :=
  zip_with (λ x y, word (x + y)) h (rounds round_constants (words_of_block block) h).

Definition sha256 (msg : bytes) : bytes :=
  let padded := msg ++ padding (Z.of_nat (length msg)) in
  concat (map (be_bytes 4) (foldl compress initial_hash (chunks (length padded) 64 padded))).

(** [hashlib.sha256(msg).hexdigest()]. *)
Definition sha256_hex (msg : bytes) : pystr := hexlify (sha256 msg).

(** [hmac.new(key, msg, hashlib.sha256).hexdigest()]. *)
Definition hmac_sha256_hex (key msg : bytes) : pystr :=
  let key := if 64 <? Z.of_nat (length key) then sha256 key else key in
  let key := key ++ repeat 0 (64 - length key) in
  let pad (x : Z) := map (Z.lxor x) key in
  sha256_hex (pad 92 ++ sha256 (pad 54 ++ msg)).

(** * Shape of the digest *)
Lemma be_bytes_length n x : length (be_bytes n x) = n.
Proof. revert x; induction n; intros x; cbn; [done|]. rewrite length_app, IHn. cbn. lia. Qed.

Lemma be_bytes_byte n x : Forall is_byte (be_bytes n x).
Proof.
  revert x; induction n; intros x; cbn; [done|]. apply Forall_app; split; [done|].
  repeat constructor; pose proof (Z.mod_pos_bound x 256); unfold is_byte; lia.
Qed.

Lemma rounds_length ks ws st : length st = 8%nat → length (rounds ks ws st) = 8%nat.
Proof.
  revert ws st; induction ks as [|k ks IH]; intros ws st Hst; [done|].
  destruct ws as [|w0 [|w1 ws]]; [done..|].
  destruct st as [|a [|b [|c [|d [|e [|f [|g [|h [|]]]]]]]]]; try done.
  cbn [rounds]. by apply IH.
Qed.

Lemma compress_length h block : length h = 8%nat → length (compress h block) = 8%nat.
Proof. intros H. unfold compress. rewrite length_zip_with, rounds_length by done. lia. Qed.

Lemma sha256_state_length blocks h :
  length h = 8%nat → length (foldl compress h blocks) = 8%nat.
Proof. revert h; induction blocks; intros h H; cbn; [done|]. auto using compress_length. Qed.

Lemma sha256_length msg : length (sha256 msg) = 32%nat.
Proof.
  unfold sha256. rewrite length_concat, map_map.
  assert (∀ l : list Z, sum_list (map (λ x, length (be_bytes 4 x)) l) = 4 * length l)%nat as ->.
  { induction l as [|x l IH]; [done|]. cbn [map sum_list]. rewrite IH, be_bytes_length. cbn. lia. }
  by rewrite sha256_state_length.
Qed.

Lemma sha256_byte msg : Forall is_byte (sha256 msg).
Proof.
  unfold sha256. apply Forall_concat, Forall_fmap, Forall_true. intros x. apply be_bytes_byte.
Qed.

Lemma sha256_hex_length msg : length (sha256_hex msg) = 64%nat.
Proof. unfold sha256_hex. by rewrite hexlify_length, sha256_length. Qed.

Lemma sha256_hex_lower msg : Forall (λ c, is_lower_hex c = true) (sha256_hex msg).
Proof. apply hexlify_lower, sha256_byte. Qed.

(** * Test vectors *)
Example sha256_abc :
  sha256_hex ($"abc") = $"ba7816bf8f01cfea414140de5dae2223b00361a396177a9cb410ff61f20015ad".
Proof. vm_compute. reflexivity. Qed.

Example hmac_jefe :
  hmac_sha256_hex ($"Jefe") ($"what do ya want for nothing?")
  = $"5bdcc146bf60754e6a042426089575c75a003f089d2739839dec58b964ec3843".
Proof. vm_compute. reflexivity. Qed.
