(* ===== verification/PyTime.v ===== *)
(** Python's [datetime] and [timedelta], as far as the modelled code uses
    them.  A [timedelta] is its number of microseconds; a [datetime] is its
    wall-clock microseconds since 0001-01-01T00:00 with its UTC offset
    ([None] for a naive value), so that the representable range is
    [0 <= wall < max_wall].  The calendar is the proleptic Gregorian one. *)
From S2P Require Import Prelude PyStr.

Abbreviation timedelta := Z (only parsing).
Definition microseconds (n : Z) : timedelta := n.
Definition seconds (n : Z) : timedelta := n * 1000000.
Definition minutes (n : Z) : timedelta := n * 60000000.
Definition us_per_day : Z := 86400000000.

Record datetime := mkDatetime { wall : Z; utcoffset : option timedelta }.

#[export] Instance datetime_eq_dec : EqDecision datetime.
Proof. solve_decision. Defined.

Definition max_wall : Z := 3652059 * us_per_day.
Definition in_range (w : Z) : bool := (0 <=? w) && (w <? max_wall).

(** A value at UTC. *)
Definition utc (w : Z) : datetime := mkDatetime w (Some 0).
Definition is_utc (d : datetime) : bool := bool_decide (utcoffset d = Some 0).
Definition is_aware (d : datetime) : bool := bool_decide (is_Some (utcoffset d)).

(** The instant a value denotes; comparisons and differences of aware values
    are those of their instants. *)
Definition instant (d : datetime) : Z := wall d - default 0 (utcoffset d).
Definition dt_ltb (a b : datetime) : bool := instant a <? instant b.
Definition dt_leb (a b : datetime) : bool := instant a <=? instant b.
Definition dt_sub (a b : datetime) : timedelta := instant a - instant b.

(** [a + delta]; leaving the years 1..9999 raises [OverflowError]. *)
Definition dt_add (a : datetime) (delta : timedelta) : result datetime :=
  let w := wall a + delta in
  if in_range w then Ok (mkDatetime w (utcoffset a)) else Raise OverflowError.

(** [a.astimezone(UTC)]; a value whose offset is already zero is unchanged. *)
Definition astimezone_utc (a : datetime) : result datetime :=
  if is_utc a then Ok a
  else if in_range (instant a) then Ok (utc (instant a)) else Raise OverflowError.

Lemma is_utc_eq d : is_utc d = true ↔ d = utc (wall d).
Proof. destruct d as [w o]. unfold is_utc, utc. rewrite bool_decide_eq_true. cbn. split; congruence. Qed.

Lemma instant_utc w : instant (utc w) = w.
Proof. unfold instant, utc. cbn. lia. Qed.

Lemma dt_add_Ok a delta b :
  dt_add a delta = Ok b → instant b = instant a + delta ∧ is_utc b = is_utc a.
Proof. unfold dt_add. case_match; [|done]. intros [= <-]. unfold instant. cbn. split; [lia|done]. Qed.

Lemma astimezone_utc_Ok a b :
  is_aware a = true → astimezone_utc a = Ok b → is_utc b = true ∧ instant b = instant a.
Proof.
  unfold astimezone_utc. intros Ha. destruct (is_utc a) eqn:E; [by intros [= <-]|].
  case_match; [|done]. intros [= <-]. split; [done|]. by rewrite instant_utc.
Qed.

Lemma astimezone_utc_id a : is_utc a = true → astimezone_utc a = Ok a.
Proof. unfold astimezone_utc. by intros ->. Qed.

(** * The calendar *)
Definition is_leap (y : Z) : bool :=
  (y mod 4 =? 0) && (negb (y mod 100 =? 0) || (y mod 400 =? 0)).
Definition month_lengths (leap : bool) : list Z :=
  [31; if leap then 29 else 28; 31; 30; 31; 30; 31; 31; 30; 31; 30; 31].
(** [calendar.monthrange(y, m)[1]]. *)
Definition days_in_month (y m : Z) : Z := nth (Z.to_nat (m - 1)) (month_lengths (is_leap y)) 0.
Definition sum_Z (l : list Z) : Z := foldr Z.add 0 l.
Definition days_before_month (y m : Z) : Z :=
  sum_Z (take (Z.to_nat (m - 1)) (month_lengths (is_leap y))).
Definition days_before_year (y : Z) : Z :=
  let y := y - 1 in y * 365 + y / 4 - y / 100 + y / 400.

(** Days since 0001-01-01 of a date, and back. *)
Definition days_of_ymd (y m d : Z) : Z := days_before_year y + days_before_month y m + (d - 1).

Fixpoint split_month (lens : list Z) (m n : Z) : Z * Z :=
  match lens with
  | [] => (m, n)
  | len :: lens => if n <? len then (m, n) else split_month lens (m + 1) (n - len)
  end.

Definition ymd_of_days (n : Z) : Z * Z * Z :=
  let n400 := n / 146097 in let n := n mod 146097 in
  let n100 := n / 36524 in let n := n mod 36524 in
  let n4 := n / 1461 in let n := n mod 1461 in
  let n1 := n / 365 in let n := n mod 365 in
  let y := n400 * 400 + n100 * 100 + n4 * 4 + n1 + 1 in
  if (n1 =? 4) || (n100 =? 4) then (y - 1, 12, 31)
  else let '(m, d) := split_month (month_lengths (is_leap y)) 1 n in (y, m, d + 1).

Definition valid_ymd (y m d : Z) : bool :=
  between 1 9999 y && between 1 12 m && between 1 (days_in_month y m) d.

Lemma split_month_spec lens m n m' n' :
  0 <= n < sum_Z lens → split_month lens m n = (m', n') →
  m <= m' < m + Z.of_nat (length lens)
  ∧ n = sum_Z (take (Z.to_nat (m' - m)) lens) + n'
  ∧ 0 <= n' < nth (Z.to_nat (m' - m)) lens 0.
Proof.
  revert m n; induction lens as [|len lens IH]; intros m n Hn H; cbn [sum_Z foldr] in Hn; [lia|].
  cbn [split_month] in H. destruct (Z.ltb_spec n len).
  - simplify_eq. rewrite Z.sub_diag. change (Z.to_nat 0) with 0%nat. cbn [take nth sum_Z foldr length]. lia.
  - apply IH in H as (H1 & H2 & H3); [|unfold sum_Z; lia].
    replace (Z.to_nat (m' - m)) with (S (Z.to_nat (m' - (m + 1)))) by lia.
    cbn [length take nth sum_Z foldr]. unfold sum_Z in *. lia.
Qed.

Lemma month_lengths_sum leap : sum_Z (month_lengths leap) = if leap then 366 else 365.
Proof. by destruct leap. Qed.

(** Day numbers and dates correspond, over the representable years. *)
Lemma ymd_of_days_spec n y m d :
  0 <= n < 3652059 → ymd_of_days n = (y, m, d) →
  valid_ymd y m d = true ∧ days_of_ymd y m d = n.
Proof.
  intros Hn. unfold ymd_of_days.
  set (n400 := n / 146097). set (r400 := n mod 146097).
  set (n100 := r400 / 36524). set (r100 := r400 mod 36524).
  set (n4 := r100 / 1461). set (r4 := r100 mod 1461).
  set (n1 := r4 / 365). set (r1 := r4 mod 365).
  assert (E400 : n = 146097 * n400 + r400 ∧ 0 <= r400 < 146097) by (unfold n400, r400; clear; dlia).
  assert (E100 : r400 = 36524 * n100 + r100 ∧ 0 <= r100 < 36524) by (unfold n100, r100; clear; dlia).
  assert (E4 : r100 = 1461 * n4 + r4 ∧ 0 <= r4 < 1461) by (unfold n4, r4; clear; dlia).
  assert (E1 : r4 = 365 * n1 + r1 ∧ 0 <= r1 < 365) by (unfold n1, r1; clear; dlia).
  clearbody n400 r400 n100 r100 n4 r4 n1 r1.
  set (y0 := n400 * 400 + n100 * 100 + n4 * 4 + n1).
  destruct ((n1 =? 4) || (n100 =? 4)) eqn:Eend.
  - intros [= <- <- <-].
    assert (Hleap : is_leap (y0 + 1 - 1) = true).
    { unfold is_leap, y0. destruct (Z.eqb_spec n100 4); destruct (Z.eqb_spec n1 4); cbn in Eend; try done; dlia. }
    unfold valid_ymd, days_of_ymd, days_in_month, days_before_month. rewrite Hleap.
    change (nth (Z.to_nat (12 - 1)) (month_lengths true) 0) with 31.
    change (sum_Z (take (Z.to_nat (12 - 1)) (month_lengths true))) with 335.
    unfold between, days_before_year, y0 in *.
    apply orb_true_iff in Eend. rewrite !Z.eqb_eq in Eend. destruct Eend; dlia.
  - apply orb_false_iff in Eend. rewrite !Z.eqb_neq in Eend. destruct Eend.
    destruct (split_month _ 1 r1) as [m' d'] eqn:Es. intros [= <- <- <-].
    assert (Hy : days_before_year (y0 + 1) = n - r1).
    { unfold days_before_year, y0. dlia. }
    apply split_month_spec in Es as (Hm & Hr & Hd).
    2: { rewrite month_lengths_sum. destruct (is_leap (y0 + 1)); lia. }
    change (Z.of_nat (length (month_lengths (is_leap (y0 + 1))))) with 12 in Hm.
    unfold valid_ymd, days_of_ymd, days_in_month, days_before_month, between. rewrite Hy. lia.
Qed.

(** * Text forms *)
Definition str_padded (k : nat) (n : Z) : pystr := map digit_char (padded k n).

Definition time_of_day (w : Z) : Z := w mod us_per_day.
Definition hour_of (w : Z) : Z := time_of_day w / 3600000000.
Definition minute_of (w : Z) : Z := (time_of_day w / 60000000) mod 60.
Definition second_of (w : Z) : Z := (time_of_day w / 1000000) mod 60.
Definition microsecond_of (w : Z) : Z := time_of_day w mod 1000000.

(** [d.strftime("%Y-%m-%dT%H:%M:%S.%fZ")], with [%Y] on four digits as
    documented. *)
Definition strftime_utc (w : Z) : pystr :=
  let '(y, m, d) := ymd_of_days (w / us_per_day) in
  str_padded 4 y ++ $"-" ++ str_padded 2 m ++ $"-" ++ str_padded 2 d ++ $"T"
  ++ str_padded 2 (hour_of w) ++ $":" ++ str_padded 2 (minute_of w) ++ $":"
  ++ str_padded 2 (second_of w) ++ $"." ++ str_padded 6 (microsecond_of w) ++ $"Z".

(** [d.isoformat()] of a UTC value. *)
Definition isoformat_utc (w : Z) : pystr :=
  let '(y, m, d) := ymd_of_days (w / us_per_day) in
  str_padded 4 y ++ $"-" ++ str_padded 2 m ++ $"-" ++ str_padded 2 d ++ $"T"
  ++ str_padded 2 (hour_of w) ++ $":" ++ str_padded 2 (minute_of w) ++ $":"
  ++ str_padded 2 (second_of w)
  ++ (if microsecond_of w =? 0 then [] else $"." ++ str_padded 6 (microsecond_of w))
  ++ $"+00:00".

(** Up to [max] leading decimal digits. *)
Fixpoint take_digits (max : nat) (s : pystr) : list Z * pystr :=
  match max, s with
  | S max, c :: s' =>
      if is_digit c
      then let '(ds, r) := take_digits max s' in (char_digit c :: ds, r)
      else ([], s)
  | _, _ => ([], s)
  end.

(** A [strptime] number field of [min] to [max] digits with a value in
    [lo..hi]; the separators that follow the fields are no digits, so taking
    the digits greedily is what the matching does. *)
Definition number_field (min max : nat) (lo hi : Z) (s : pystr) : option (Z * pystr) :=
  let '(ds, r) := take_digits max s in
  if (min <=? length ds)%nat && between lo hi (undigits ds) then Some (undigits ds, r) else None.

Definition expect (cs s : pystr) : option pystr :=
  match s with c :: r => if one_of cs c then Some r else None | [] => None end.

(** [%d] also admits a space before a single digit. *)
Definition day_field (s : pystr) : option (Z * pystr) :=
  match s with
  | 32 :: s' => number_field 1 1 1 9 s'
  | _ => number_field 1 2 1 31 s
  end.

Definition fraction_field (s : pystr) : option (Z * pystr) :=
  let '(ds, r) := take_digits 6 s in
  if (1 <=? length ds)%nat then Some (undigits ds * 10 ^ (6 - Z.of_nat (length ds)), r) else None.

Definition wall_of (y m d h mi s us : Z) : Z :=
  days_of_ymd y m d * us_per_day + ((h * 60 + mi) * 60 + s) * 1000000 + us.

(** [datetime.strptime(s, "%Y-%m-%dT%H:%M:%S.%fZ")] with the result taken as
    UTC; [None] is the [ValueError].  Letters match in either case; decimal
    digits outside ASCII are not modelled. *)
Definition strptime_utc (s : pystr) : option Z :=
  '(y, s) ← number_field 4 4 0 9999 s; s ← expect ($"-") s;
  '(m, s) ← number_field 1 2 1 12 s; s ← expect ($"-") s;
  '(d, s) ← day_field s; s ← expect ($"Tt") s;
  '(h, s) ← number_field 1 2 0 23 s; s ← expect ($":") s;
  '(mi, s) ← number_field 1 2 0 59 s; s ← expect ($":") s;
  '(sec, s) ← number_field 1 2 0 61 s; s ← expect ($".") s;
  '(us, s) ← fraction_field s; s ← expect ($"Zz") s;
  if bool_decide (s = []) && valid_ymd y m d && (sec <=? 59)
  then Some (wall_of y m d h mi sec us) else None.

Lemma take_digits_app ds r :
  Forall (λ d, 0 <= d < 10) ds →
  take_digits (length ds) (map digit_char ds ++ r) = (ds, r).
Proof.
  induction 1 as [|d ds Hd _ IH]; [by destruct r|].
  cbn [length take_digits map app]. rewrite digit_char_is_digit, IH by done.
  by rewrite char_digit_char.
Qed.

Lemma number_field_padded k lo hi n r :
  0 <= n < 10 ^ Z.of_nat k → lo <= n <= hi → ∀ min, (min <= k)%nat →
  number_field min k lo hi (str_padded k n ++ r) = Some (n, r).
Proof.
  intros Hn Hlo min Hmin. unfold number_field, str_padded.
  rewrite <- (padded_length k n) at 1.
  rewrite take_digits_app by apply padded_range. rewrite padded_value, padded_length by done.
  unfold between. destruct (Nat.leb_spec min k); [|lia]. cbn.
  by replace ((lo <=? n) && (n <=? hi)) with true by lia.
Qed.

Lemma day_field_padded n r :
  1 <= n <= 31 → day_field (str_padded 2 n ++ r) = Some (n, r).
Proof.
  intros Hn. rewrite <- (number_field_padded 2 1 31 n r) with (min := 1%nat) by (cbn; lia).
  unfold day_field, str_padded. cbn [padded app map].
  assert (digit_char ((n / 10) mod 10) ≠ 32) by (unfold digit_char; dlia).
  destruct (digit_char _) as [|p|p]; try done. repeat (destruct p as [p|p|]; try done).
Qed.

Lemma fraction_field_padded n r :
  0 <= n < 1000000 → fraction_field (str_padded 6 n ++ r) = Some (n, r).
Proof.
  intros Hn. unfold fraction_field, str_padded.
  rewrite <- (padded_length 6 n) at 1.
  rewrite take_digits_app by apply padded_range. rewrite padded_value, padded_length by done.
  cbn. do 2 f_equal. lia.
Qed.

Lemma wall_split w :
  w = (w / us_per_day) * us_per_day
      + ((hour_of w * 60 + minute_of w) * 60 + second_of w) * 1000000 + microsecond_of w.
Proof. unfold hour_of, minute_of, second_of, microsecond_of, time_of_day, us_per_day. dlia. Qed.

Lemma time_fields_range w :
  0 <= hour_of w < 24 ∧ 0 <= minute_of w < 60 ∧ 0 <= second_of w < 60
  ∧ 0 <= microsecond_of w < 1000000.
Proof. unfold hour_of, minute_of, second_of, microsecond_of, time_of_day, us_per_day. dlia. Qed.

Lemma expect_lit a cs r :
  one_of cs (Z.of_N (Ascii.N_of_ascii a)) = true → expect cs ($(String a EmptyString) ++ r) = Some r.
Proof. intros H. cbn. by rewrite H. Qed.

Lemma days_in_month_le y m : days_in_month y m <= 31.
Proof.
  unfold days_in_month. generalize (Z.to_nat (m - 1)). intros n.
  destruct (is_leap y); do 12 (destruct n as [|n]; cbn; [lia|]); destruct n; cbn; lia.
Qed.

Lemma valid_ymd_range y m d :
  valid_ymd y m d = true → 1 <= y <= 9999 ∧ 1 <= m <= 12 ∧ 1 <= d <= 31.
Proof.
  unfold valid_ymd, between. intros H. pose proof (days_in_month_le y m). bools. lia.
Qed.

(** Parsing reads back what formatting wrote. *)
Lemma strptime_strftime w : in_range w = true → strptime_utc (strftime_utc w) = Some w.
Proof.
  intros Hw. unfold in_range, max_wall in Hw. bools.
  assert (0 <= w / us_per_day < 3652059) by (unfold us_per_day in *; dlia).
  unfold strptime_utc, strftime_utc.
  destruct (ymd_of_days (w / us_per_day)) as [[y m] d] eqn:E.
  apply ymd_of_days_spec in E as [Hv Hd]; [|done].
  pose proof (time_fields_range w) as (? & ? & ? & ?).
  pose proof (valid_ymd_range _ _ _ Hv) as (? & ? & ?).
  rewrite <- (app_nil_r ($"Z")).
  repeat first
    [ rewrite number_field_padded by lia
    | rewrite day_field_padded by lia
    | rewrite fraction_field_padded by lia
    | rewrite expect_lit by reflexivity
    | rewrite bind_Some_l; cbv beta iota ].
  rewrite bool_decide_true by done. rewrite Hv.
  destruct (Z.leb_spec (second_of w) 59); [|lia]. cbn [andb].
  unfold wall_of. rewrite Hd. f_equal. symmetry. apply wall_split.
Qed.

(** ** What parsing returns is in [datetime]'s range *)
Lemma day_of_year_range y m d :
  valid_ymd y m d = true → 0 <= days_before_month y m + (d - 1) < (if is_leap y then 366 else 365).
Proof.
  unfold valid_ymd, days_before_month, days_in_month, between. intros H. bools.
  assert (∃ k, m = Z.of_nat k + 1 ∧ (k < 12)%nat) as (k & -> & Hk) by (exists (Z.to_nat (m - 1)); lia).
  replace (Z.to_nat (Z.of_nat k + 1 - 1)) with k in * by lia.
  destruct (is_leap y); do 12 (destruct k as [|k]; [cbn in *; lia|]); lia.
Qed.

Lemma days_of_ymd_range y m d : valid_ymd y m d = true → 0 <= days_of_ymd y m d < 3652059.
Proof.
  intros H. pose proof (day_of_year_range y m d H) as Hd. pose proof (valid_ymd_range y m d H) as [Hy _].
  unfold days_of_ymd, days_before_year. destruct (Z.eq_dec y 9999) as [->|Hne].
  - change (is_leap 9999) with false in Hd. cbv iota in Hd. dlia.
  - destruct (is_leap y); dlia.
Qed.

Lemma number_field_range min max lo hi s n r :
  number_field min max lo hi s = Some (n, r) → lo <= n <= hi.
Proof.
  unfold number_field. destruct (take_digits max s) as [ds r']. destruct (_ && _) eqn:E; [|done].
  intros [= <- _]. unfold between in E. bools. lia.
Qed.

Lemma take_digits_range k s ds r :
  take_digits k s = (ds, r) → Forall (λ d, 0 <= d < 10) ds ∧ (length ds <= k)%nat.
Proof.
  revert s ds r. induction k as [|k IH]; intros s ds r; cbn.
  - destruct s; intros [= <- <-]; split; cbn; auto; lia.
  - destruct s as [|c s]; [intros [= <- <-]; split; cbn; auto; lia|].
    destruct (is_digit c) eqn:E; [|intros [= <- <-]; split; cbn; auto; lia].
    destruct (take_digits k s) as [ds' r'] eqn:E'. intros [= <- <-]. apply IH in E' as [? ?].
    split; [|cbn; lia]. constructor; [|done]. unfold is_digit, between, char_digit in *. bools. lia.
Qed.

Lemma undigits_range ds : Forall (λ d, 0 <= d < 10) ds → 0 <= undigits ds < 10 ^ Z.of_nat (length ds).
Proof.
  induction ds as [|d ds IH] using rev_ind; intros H; [cbn; lia|].
  apply Forall_app in H as [H Hd]. inversion Hd; subst. specialize (IH H).
  unfold undigits in *. rewrite foldl_app, length_app, Nat2Z.inj_add, Z.pow_add_r by lia. cbn. lia.
Qed.

Lemma fraction_field_range s n r : fraction_field s = Some (n, r) → 0 <= n < 1000000.
Proof.
  unfold fraction_field. destruct (take_digits 6 s) as [ds r'] eqn:E. apply take_digits_range in E as [Hd Hl].
  destruct (1 <=? length ds)%nat; [|done]. intros [= <- _]. apply undigits_range in Hd as [H1 H2].
  assert (1000000 = 10 ^ Z.of_nat (length ds) * 10 ^ (6 - Z.of_nat (length ds))) as ->.
  { rewrite <- Z.pow_add_r by lia. by replace (_ + _) with 6 by lia. }
  assert (0 < 10 ^ (6 - Z.of_nat (length ds))) by (apply Z.pow_pos_nonneg; lia). nia.
Qed.

Lemma strptime_in_range s w : strptime_utc s = Some w → in_range w = true.
Proof.
  unfold strptime_utc. intros H.
  repeat match goal with
  | H : (_ ≫= _) = Some _ |- _ => apply bind_Some in H as (? & ? & H)
  | H : (let '(_, _) := ?x in _) = Some _ |- _ => destruct x
  end.
  repeat match goal with
  | E : number_field _ _ _ _ _ = Some _ |- _ => apply number_field_range in E
  | E : fraction_field _ = Some _ |- _ => apply fraction_field_range in E
  end.
  destruct (_ && _ && _) eqn:E in H; [|done]. injection H as <-. bools.
  match goal with E : valid_ymd _ _ _ = true |- _ => apply days_of_ymd_range in E end.
  unfold in_range, max_wall, wall_of, us_per_day. lia.
Qed.
