(* ===== verification/Json.v ===== *)
(** Python's [json] module on the values the modelled code serialises:
    [json.dumps(sort_keys=True, separators=(",", ":"), ensure_ascii=False)]
    and [json.loads].  A [dict] is an association list in insertion order.
    Integers longer than CPython's int/str conversion limit and nesting beyond
    its recursion limit are not modelled. *)
From S2P Require Import Prelude PyStr.

Inductive json :=
  | JNull
  | JBool (b : bool)
  | JInt (z : Z)
  | JFloat (text : pystr)
  | JStr (s : pystr)
  | JList (l : list json)
  | JDict (d : list (pystr * json)).

(** Induction through the nested lists. *)
Section json_induction.
Context (P : json → Prop).
Context (Hnull : P JNull) (Hbool : ∀ b, P (JBool b)) (Hint : ∀ z, P (JInt z))
        (Hfloat : ∀ t, P (JFloat t)) (Hstr : ∀ s, P (JStr s))
        (Hlist : ∀ l, Forall P l → P (JList l))
        (Hdict : ∀ d, Forall (λ kv, P kv.2) d → P (JDict d)).

Fixpoint json_nested_ind (j : json) : P j :=
  match j with
  | JNull => Hnull
  | JBool b => Hbool b
  | JInt z => Hint z
  | JFloat t => Hfloat t
  | JStr s => Hstr s
  | JList l => Hlist l
      ((fix go l : Forall P l := match l with
        | [] => Forall_nil_2 P
        | j :: l => Forall_cons_2 P j l (json_nested_ind j) (go l)
        end) l)
  | JDict d => Hdict d
      ((fix go d : Forall (λ kv, P kv.2) d := match d with
        | [] => Forall_nil_2 _
        | (k, j) :: d => Forall_cons_2 (λ kv, P kv.2) (k, j) d (json_nested_ind j) (go d)
        end) d)
  end.
End json_induction.

#[export] Instance json_eq_dec : EqDecision json.
Proof.
  refine (fix go (a b : json) : Decision (a = b) :=
    match a, b with
    | JNull, JNull => left _
    | JBool x, JBool y => cast_if (decide (x = y))
    | JInt x, JInt y => cast_if (decide (x = y))
    | JFloat x, JFloat y => cast_if (decide (x = y))
    | JStr x, JStr y => cast_if (decide (x = y))
    | JList l, JList k => cast_if (list_eq_dec (dec := go) l k)
    | JDict d, JDict e =>
        cast_if (list_eq_dec (dec := λ p q,
          match p, q with
          | (k, v), (k', v') => cast_if_and (decide (k = k')) (go v v')
          end) d e)
    | _, _ => right _
    end); clear go; abstract congruence.
Defined.

(** * Dictionaries *)
Section dict.
Context {A : Type}.

(** [d[k] = v]: an existing key keeps its position. *)
Fixpoint dict_set (k : pystr) (v : A) (d : list (pystr * A)) : list (pystr * A) :=
  match d with
  | [] => [(k, v)]
  | (k', v') :: d => if decide (k = k') then (k, v) :: d else (k', v') :: dict_set k v d
  end.

Fixpoint dict_get (k : pystr) (d : list (pystr * A)) : option A :=
  match d with
  | [] => None
  | (k', v) :: d => if decide (k = k') then Some v else dict_get k d
  end.

Definition dict_of_pairs (l : list (pystr * A)) : list (pystr * A) :=
  foldl (λ d '(k, v), dict_set k v d) [] l.

(** [sorted(d.items())] for distinct keys. *)
Fixpoint insert_item (kv : pystr * A) (d : list (pystr * A)) : list (pystr * A) :=
  match d with
  | [] => [kv]
  | kv' :: d' => if str_ltb kv.1 kv'.1 then kv :: d else kv' :: insert_item kv d'
  end.
Definition sort_items (d : list (pystr * A)) : list (pystr * A) := foldr insert_item [] d.

(** Strictly increasing keys. *)
Fixpoint sorted_items (d : list (pystr * A)) : Prop :=
  match d with
  | [] => True
  | kv :: d => Forall (λ kv', str_ltb kv.1 kv'.1 = true) d ∧ sorted_items d
  end.

Lemma dict_set_fresh k v d : k ∉ d.*1 → dict_set k v d = d ++ [(k, v)].
Proof.
  induction d as [|[k' v'] d IH]; cbn; [done|]. rewrite not_elem_of_cons. intros [? ?].
  rewrite decide_False by done. by rewrite IH.
Qed.

Lemma dict_get_elem k v d : dict_get k d = Some v → (k, v) ∈ d.
Proof.
  induction d as [|[k' v'] d IH]; cbn; [done|]. case_decide as E; [intros [= ->]; subst; left|right; auto].
Qed.

Lemma elem_dict_get k v d : NoDup d.*1 → (k, v) ∈ d → dict_get k d = Some v.
Proof.
  induction d as [|[k' v'] d IH]; cbn; [by intros _ ?%elem_of_nil|].
  intros [Hk Hd]%NoDup_cons [Heq|Hin]%elem_of_cons.
  - injection Heq as -> ->. by rewrite decide_True.
  - rewrite decide_False; [by apply IH|]. intros ->. apply Hk. by apply (list_elem_of_fmap_2 fst _ (k', v)).
Qed.

Lemma dict_get_iff k v d : NoDup d.*1 → dict_get k d = Some v ↔ (k, v) ∈ d.
Proof. split; [apply dict_get_elem|by apply elem_dict_get]. Qed.

Lemma dict_of_pairs_NoDup l : NoDup l.*1 → dict_of_pairs l = l.
Proof.
  assert (H : ∀ l d : list (pystr * A), NoDup (d ++ l).*1 →
    foldl (λ d '(k, v), dict_set k v d) d l = d ++ l).
  { clear l. induction l as [|[k v] l IH]; intros d Hnd; cbn; [by rewrite app_nil_r|].
    rewrite fmap_app in Hnd. rewrite dict_set_fresh.
    - rewrite IH; [by rewrite <- app_assoc|]. by rewrite <- app_assoc, fmap_app.
    - apply NoDup_app in Hnd as (_ & Hnd & _). intros Hk. eapply Hnd; [done|]. cbn. left. }
  intros Hnd. apply (H l []). done.
Qed.

Lemma dict_set_keys k v d : NoDup d.*1 → NoDup (dict_set k v d).*1 ∧ ∀ k', k' ∈ (dict_set k v d).*1 → k' = k ∨ k' ∈ d.*1.
Proof.
  induction d as [|[k' v'] d IH]; cbn; intros Hnd; [split; [apply NoDup_singleton|set_solver]|].
  apply NoDup_cons in Hnd as [Hk Hnd]. destruct (IH Hnd) as [IH1 IH2]. case_decide as E; cbn.
  - split; [apply NoDup_cons; by subst|set_solver].
  - split; [|set_solver]. apply NoDup_cons. split; [|done]. intros [->|H]%IH2; done.
Qed.

Lemma NoDup_dict_of_pairs l : NoDup (dict_of_pairs l).*1.
Proof.
  assert (∀ d, NoDup d.*1 → NoDup (foldl (λ d '(k, v), dict_set k v d) d l).*1) as H.
  { induction l as [|[k v] l IH]; intros d Hd; cbn; [done|]. by apply IH, dict_set_keys. }
  apply H. constructor.
Qed.

Lemma Forall_dict_set (P : pystr * A → Prop) k v d : P (k, v) → Forall P d → Forall P (dict_set k v d).
Proof.
  intros Hv. induction 1 as [|[k' v'] d Hk Hd IH]; cbn; [by repeat constructor|].
  case_decide; constructor; by subst.
Qed.

Lemma Forall_dict_of_pairs (P : pystr * A → Prop) l : Forall P l → Forall P (dict_of_pairs l).
Proof.
  assert (∀ d, Forall P d → Forall P l → Forall P (foldl (λ d '(k, v), dict_set k v d) d l)) as H.
  { induction l as [|[k v] l IH]; intros d Hd Hl; cbn; [done|]. inversion Hl; subst.
    apply IH; [|done]. by apply Forall_dict_set. }
  intros Hl. by apply H.
Qed.

Lemma insert_item_Permutation kv d : insert_item kv d ≡ₚ kv :: d.
Proof.
  induction d as [|kv' d IH]; cbn; [done|]. case_match; [done|]. rewrite IH. constructor.
Qed.

Lemma sort_items_Permutation d : sort_items d ≡ₚ d.
Proof. induction d as [|kv d IH]; cbn; [done|]. by rewrite insert_item_Permutation, IH. Qed.

Lemma insert_item_sorted kv d :
  sorted_items d → kv.1 ∉ d.*1 → sorted_items (insert_item kv d).
Proof.
  induction d as [|kv' d IH]; cbn; [done|]. rewrite not_elem_of_cons. intros [Hd Hs] [Hne Hin].
  destruct (str_ltb kv.1 kv'.1) eqn:E; cbn.
  - split; [|done]. constructor; [done|]. eapply Forall_impl; [exact Hd|].
    intros x Hx. by eapply str_ltb_trans.
  - split; [|by apply IH]. rewrite insert_item_Permutation. constructor; [|done].
    destruct (str_ltb kv'.1 kv.1) eqn:E'; [done|]. destruct Hne. by apply str_ltb_total.
Qed.

Lemma sort_items_sorted d : NoDup d.*1 → sorted_items (sort_items d).
Proof.
  induction d as [|kv d IH]; cbn; [done|]. intros [Hn Hd]%NoDup_cons.
  fold (sort_items d). apply insert_item_sorted; [by apply IH|].
  by rewrite sort_items_Permutation.
Qed.

Lemma sort_items_id d : sorted_items d → sort_items d = d.
Proof.
  induction d as [|kv d IH]; cbn; [done|]. intros [Hd Hs]. fold (sort_items d). rewrite IH by done.
  destruct d as [|kv' d]; [done|]. cbn. inversion Hd as [|?? H _]; subst. by rewrite H.
Qed.

Lemma sorted_items_eq d d' : sorted_items d → sorted_items d' → d ≡ₚ d' → d = d'.
Proof.
  revert d'; induction d as [|kv d IH]; intros [|kv' d'] H H' HP.
  - done.
  - by apply Permutation_nil in HP.
  - symmetry in HP. by apply Permutation_nil in HP.
  - destruct H as [Hd Hs], H' as [Hd' Hs'].
    assert (kv = kv') as <-.
    { assert (kv ∈ kv' :: d') as Hin by (rewrite <- HP; left).
      assert (kv' ∈ kv :: d) as Hin' by (rewrite HP; left).
      apply elem_of_cons in Hin as [|Hin]; [done|].
      apply elem_of_cons in Hin' as [|Hin']; [done|].
      rewrite Forall_forall in Hd, Hd'. specialize (Hd _ Hin'). specialize (Hd' _ Hin).
      apply str_ltb_asym in Hd. congruence. }
    f_equal. apply IH; [done..|]. by eapply Permutation_cons_inv.
Qed.

Lemma sort_items_Permutation_eq d d' : NoDup d.*1 → d ≡ₚ d' → sort_items d = sort_items d'.
Proof.
  intros Hnd HP. apply sorted_items_eq.
  - by apply sort_items_sorted.
  - apply sort_items_sorted. by rewrite <- HP.
  - by rewrite !sort_items_Permutation.
Qed.

Lemma sorted_items_NoDup d : sorted_items d → NoDup d.*1.
Proof.
  induction d as [|kv d IH]; cbn; [constructor|]. intros [Hd Hs]. constructor; [|by apply IH].
  intros ([k v] & Heq & Hin)%list_elem_of_fmap. rewrite Forall_forall in Hd.
  specialize (Hd _ Hin). cbn in *. rewrite Heq in Hd. by rewrite str_ltb_irrefl in Hd.
Qed.
End dict.

Lemma insert_item_map {A B} (f : A → B) kv d :
  insert_item (kv.1, f kv.2) (map (λ kv, (kv.1, f kv.2)) d)
  = map (λ kv, (kv.1, f kv.2)) (insert_item kv d).
Proof. induction d as [|kv' d IH]; cbn; [done|]. case_match; cbn; [done|]. by rewrite IH. Qed.

Lemma sort_items_map {A B} (f : A → B) d :
  sort_items (map (λ kv, (kv.1, f kv.2)) d) = map (λ kv, (kv.1, f kv.2)) (sort_items d).
Proof.
  induction d as [|kv d IH]; [done|]. cbn [map sort_items foldr].
  change (foldr insert_item [] ?l) with (sort_items l). by rewrite IH, insert_item_map.
Qed.

(** * Serialisation *)
Definition escape_char (c : Z) : pystr :=
  if c =? 34 then $"\" ++ [34]
  else if c =? 92 then $"\\"
  else if c =? 10 then $"\n"
  else if c =? 13 then $"\r"
  else if c =? 9 then $"\t"
  else if c =? 12 then $"\f"
  else if c =? 8 then $"\b"
  else if c <? 32 then $"\u00" ++ hex_byte c
  else [c].

Definition quote (s : pystr) : pystr := [34] ++ concat (map escape_char s) ++ [34].

Fixpoint join (sep : pystr) (l : list pystr) : pystr :=
  match l with
  | [] => []
  | [s] => s
  | s :: l => s ++ sep ++ join sep l
  end.

Fixpoint dumps (j : json) : pystr :=
  match j with
  | JNull => $"null"
  | JBool b => if b then $"true" else $"false"
  | JInt z => str_of_Z z
  | JFloat t => t
  | JStr s => quote s
  | JList l => $"[" ++ join ($",") (map dumps l) ++ $"]"
  | JDict d =>
      $"{" ++ join ($",") (map (λ kv, quote kv.1 ++ $":" ++ kv.2)
                             (sort_items (map (λ kv, (kv.1, dumps kv.2)) d))) ++ $"}"
  end.

(** * Parsing *)
Definition is_ws (c : Z) : bool := one_of [32; 9; 10; 13] c.
Definition skip_ws (s : pystr) : pystr := drop_while is_ws s.

Definition hex_value (c : Z) : option Z :=
  if is_digit c then Some (c - 48)
  else if between 97 102 c then Some (c - 87)
  else if between 65 70 c then Some (c - 55) else None.

Definition hex4 (a b c d : Z) : option Z :=
  a ← hex_value a; b ← hex_value b; c ← hex_value c; d ← hex_value d;
  Some (((a * 16 + b) * 16 + c) * 16 + d).

Definition simple_escape (c : Z) : option Z :=
  if c =? 34 then Some 34 else if c =? 92 then Some 92 else if c =? 47 then Some 47
  else if c =? 98 then Some 8 else if c =? 102 then Some 12 else if c =? 110 then Some 10
  else if c =? 114 then Some 13 else if c =? 116 then Some 9 else None.

(** The rest of a string literal after its opening quote (strict mode). *)
Fixpoint scan_string (s : pystr) : option (pystr * pystr) :=
  match s with
  | [] => None
  | c :: s1 =>
      if c =? 34 then Some ([], s1)
      else if c =? 92 then
        match s1 with
        | [] => None
        | e :: s2 =>
            match simple_escape e with
            | Some x => '(t, r) ← scan_string s2; Some (x :: t, r)
            | None =>
                if e =? 117 then
                  match s2 with
                  | h1 :: h2 :: h3 :: h4 :: s3 =>
                      u ← hex4 h1 h2 h3 h4;
                      let single := '(t, r) ← scan_string s3; Some (u :: t, r) in
                      if between 55296 56319 u then
                        match s3 with
                        | b :: v :: g1 :: g2 :: g3 :: g4 :: s4 =>
                            match (if (b =? 92) && (v =? 117) then hex4 g1 g2 g3 g4 else None) with
                            | Some w =>
                                if between 56320 57343 w then
                                  '(t, r) ← scan_string s4;
                                  Some (65536 + (u - 55296) * 1024 + (w - 56320) :: t, r)
                                else single
                            | None => single
                            end
                        | _ => single
                        end
                      else single
                  | _ => None
                  end
                else None
            end
        end
      else if c <? 32 then None
      else '(t, r) ← scan_string s1; Some (c :: t, r)
  end.

Fixpoint span_digits (s : pystr) : pystr * pystr :=
  match s with
  | c :: s' => if is_digit c then let '(ds, r) := span_digits s' in (c :: ds, r) else ([], s)
  | [] => ([], [])
  end.

Definition int_part (s : pystr) : option (pystr * pystr) :=
  match s with
  | c :: s' =>
      if c =? 48 then Some ([48], s')
      else if is_digit c then Some (span_digits s) else None
  | [] => None
  end.

(** An optional [.digits] or [e[+-]digits] part. *)
Definition frac_part (s : pystr) : option (pystr * pystr) :=
  match s with
  | c :: s' =>
      if c =? 46 then
        let '(ds, r) := span_digits s' in
        if bool_decide (ds = []) then None else Some (c :: ds, r)
      else None
  | [] => None
  end.
Definition exp_part (s : pystr) : option (pystr * pystr) :=
  match s with
  | c :: s' =>
      if one_of ($"eE") c then
        let '(sign, s'') := match s' with
                            | g :: s'' => if one_of ($"+-") g then ([g], s'') else ([], s')
                            | [] => ([], []) end in
        let '(ds, r) := span_digits s'' in
        if bool_decide (ds = []) then None else Some (c :: sign ++ ds, r)
      else None
  | [] => None
  end.

Definition int_of_digits (s : pystr) : Z := undigits (map char_digit s).

Definition scan_number (s : pystr) : option (json * pystr) :=
  let '(neg, s) := match s with
                   | c :: s' => if c =? 45 then (true, s') else (false, s)
                   | [] => (false, []) end in
  '(ds, r) ← int_part s;
  let '(frac, r) := default ([], r) (frac_part r) in
  let '(exp, r) := default ([], r) (exp_part r) in
  if bool_decide (frac ++ exp = [])
  then Some (JInt (if neg then - int_of_digits ds else int_of_digits ds), r)
  else Some (JFloat ((if neg then $"-" else []) ++ ds ++ frac ++ exp), r).

Definition strip_prefix (p s : pystr) : option pystr :=
  if starts_with p s then Some (drop (length p) s) else None.

Definition scan_constant (p : pystr) (j : json) (s : pystr) : option (json * pystr) :=
  (λ r, (j, r)) <$> strip_prefix p s.

(** Constants that [json.loads] reads as floats. *)
Definition scan_other (s : pystr) : option (json * pystr) :=
  match scan_constant ($"null") JNull s with Some r => Some r | None =>
  match scan_constant ($"true") (JBool true) s with Some r => Some r | None =>
  match scan_constant ($"false") (JBool false) s with Some r => Some r | None =>
  match scan_constant ($"NaN") (JFloat ($"nan")) s with Some r => Some r | None =>
  match scan_constant ($"Infinity") (JFloat ($"inf")) s with Some r => Some r | None =>
  match scan_constant ($"-Infinity") (JFloat ($"-inf")) s with Some r => Some r | None =>
  scan_number s end end end end end end.

Fixpoint parse_value (fuel : nat) (s : pystr) : option (json * pystr) :=
  match fuel, s with
  | O, _ | _, [] => None
  | S fuel, c :: r =>
      if c =? 34 then '(t, r) ← scan_string r; Some (JStr t, r)
      else if c =? 91 then
        match skip_ws r with
        | [] => None
        | c' :: r' =>
            if c' =? 93 then Some (JList [], r')
            else '(l, r) ← parse_elements fuel (c' :: r'); Some (JList l, r)
        end
      else if c =? 123 then
        match skip_ws r with
        | [] => None
        | c' :: r' =>
            if c' =? 125 then Some (JDict [], r')
            else '(l, r) ← parse_members fuel (c' :: r'); Some (JDict (dict_of_pairs l), r)
        end
      else scan_other s
  end
with parse_elements (fuel : nat) (s : pystr) : option (list json * pystr) :=
  match fuel with
  | O => None
  | S fuel =>
      '(j, r) ← parse_value fuel s;
      match skip_ws r with
      | [] => None
      | c :: r =>
          if c =? 44 then '(l, r) ← parse_elements fuel (skip_ws r); Some (j :: l, r)
          else if c =? 93 then Some ([j], r) else None
      end
  end
with parse_members (fuel : nat) (s : pystr) : option (list (pystr * json) * pystr) :=
  match fuel, s with
  | O, _ | _, [] => None
  | S fuel, c :: r =>
      if c =? 34 then
        '(k, r) ← scan_string r;
        match skip_ws r with
        | [] => None
        | c :: r =>
            if c =? 58 then
              '(j, r) ← parse_value fuel (skip_ws r);
              match skip_ws r with
              | [] => None
              | c :: r =>
                  if c =? 44 then '(l, r) ← parse_members fuel (skip_ws r); Some ((k, j) :: l, r)
                  else if c =? 125 then Some ([(k, j)], r) else None
              end
            else None
        end
      else None
  end.

(** [json.loads(s)]; [None] is [JSONDecodeError].  Two units of fuel per
    character are enough: every two nested calls consume one. *)
Definition loads (s : pystr) : option json :=
  if starts_with [65279] s then None
  else
    '(j, r) ← parse_value (2 * length s) (skip_ws s);
    if bool_decide (skip_ws r = []) then Some j else None.


(** * Parsing reads back what serialisation wrote *)

(** Code points of a [str]; a dict's keys are distinct; no floats. *)
Definition str_ok (s : pystr) : Prop := Forall (λ c, 0 <= c) s.

Inductive json_ok : json → Prop :=
  | ok_null : json_ok JNull
  | ok_bool b : json_ok (JBool b)
  | ok_int z : json_ok (JInt z)
  | ok_str s : str_ok s → json_ok (JStr s)
  | ok_list l : Forall json_ok l → json_ok (JList l)
  | ok_dict d :
      NoDup d.*1 → Forall (λ kv, str_ok kv.1 ∧ json_ok kv.2) d → json_ok (JDict d).

Lemma json_ok_list l : json_ok (JList l) ↔ Forall json_ok l.
Proof. split; [by inversion 1|by constructor]. Qed.
Lemma json_ok_dict d :
  json_ok (JDict d) ↔ NoDup d.*1 ∧ Forall (λ kv, str_ok kv.1 ∧ json_ok kv.2) d.
Proof. split; [by inversion 1|by intros []; constructor]. Qed.
Lemma json_ok_str s : json_ok (JStr s) ↔ str_ok s.
Proof. split; [by inversion 1|by constructor]. Qed.

(** The value with every dictionary in key order. *)
Fixpoint sort_keys (j : json) : json :=
  match j with
  | JList l => JList (map sort_keys l)
  | JDict d => JDict (sort_items (map (λ kv, (kv.1, sort_keys kv.2)) d))
  | _ => j
  end.

(** What follows a value inside a larger document. *)
Definition delimited (r : pystr) : Prop :=
  match r with [] => True | c :: _ => c = 44 ∨ c = 93 ∨ c = 125 end.

Lemma hex_value_char d : 0 <= d < 16 → hex_value (hex_char d) = Some d.
Proof.
  intros Hd. unfold hex_value, hex_char, is_digit, between.
  destruct (Z.ltb_spec d 10).
  - replace ((48 <=? 48 + d) && (48 + d <=? 57)) with true by lia. f_equal; lia.
  - replace ((48 <=? 87 + d) && (87 + d <=? 57)) with false by lia.
    replace ((97 <=? 87 + d) && (87 + d <=? 102)) with true by lia. f_equal; lia.
Qed.


Lemma hex4_00 a b :
  0 <= a < 16 → 0 <= b < 16 → hex4 48 48 (hex_char a) (hex_char b) = Some (a * 16 + b).
Proof.
  intros Ha Hb. unfold hex4. change (hex_value 48) with (Some 0).
  rewrite !hex_value_char by done. done.
Qed.

Lemma scan_string_escape c t :
  0 <= c → scan_string (escape_char c ++ t) = ('(u, r) ← scan_string t; Some (c :: u, r)).
Proof.
  intros Hc. unfold escape_char.
  repeat match goal with
  | |- context [if c =? ?k then _ else _] => destruct (Z.eqb_spec c k) as [->|?]; [reflexivity|]
  end.
  destruct (Z.ltb_spec c 32).
  - change (($"\u00" ++ hex_byte c) ++ t)
      with (92 :: 117 :: 48 :: 48 :: hex_char (c / 16) :: hex_char (c mod 16) :: t).
    cbn [scan_string Z.eqb Pos.eqb simple_escape].
    rewrite hex4_00 by dlia. rewrite bind_Some_l. cbv beta zeta.
    replace (c / 16 * 16 + c mod 16) with c by dlia. by replace (between 55296 56319 c) with false by (unfold between; lia).
  - cbn [app scan_string].
    rewrite (proj2 (Z.eqb_neq c 34)), (proj2 (Z.eqb_neq c 92)) by done.
    by rewrite (proj2 (Z.ltb_ge c 32)) by done.
Qed.

Lemma scan_string_quoted s r :
  str_ok s → scan_string (concat (map escape_char s) ++ [34] ++ r) = Some (s, r).
Proof.
  induction 1 as [|c s Hc _ IH]; [done|]. cbn [map concat]. rewrite <- app_assoc.
  rewrite scan_string_escape by done. by rewrite IH.
Qed.

Lemma span_digits_app ds r :
  Forall (λ c, is_digit c = true) ds → delimited r → span_digits (ds ++ r) = (ds, r).
Proof.
  intros Hds Hr. induction Hds as [|c ds Hc _ IH]; cbn [app].
  - destruct r as [|c r]; [done|]. cbn. by destruct Hr as [->|[->| ->]].
  - cbn [span_digits]. by rewrite Hc, IH.
Qed.

Lemma int_part_digits n r :
  0 <= n → delimited r → int_part (map digit_char (digits n) ++ r) = Some (map digit_char (digits n), r).
Proof.
  intros Hn Hr. pose proof (digits_range n Hn) as Hrange.
  destruct (digits n) as [|d ds] eqn:E; [by destruct (digits_nonempty n)|].
  inversion Hrange as [|? ? Hd Hds]; subst. cbn [map app int_part].
  destruct (Z.eqb_spec (digit_char d) 48) as [H0|H0].
  - assert (d = 0) as -> by (unfold digit_char in H0; lia).
    apply digits_head in E as [-> ->]; [done|lia].
  - rewrite digit_char_is_digit by done.
    change (digit_char d :: map digit_char ds ++ r) with (map digit_char (d :: ds) ++ r).
    rewrite span_digits_app; [done| |done]. by apply map_digit_char_is_digit.
Qed.

Lemma frac_exp_none r : delimited r → frac_part r = None ∧ exp_part r = None.
Proof. destruct r as [|c r]; [done|]. by intros [->|[->| ->]]. Qed.

Lemma scan_digits (neg : bool) n r :
  0 <= n → delimited r →
  scan_number ((if neg then $"-" else []) ++ map digit_char (digits n) ++ r)
  = Some (JInt (if neg then - n else n), r).
Proof.
  intros Hn Hr. unfold scan_number.
  assert ((match (if neg then $"-" else []) ++ map digit_char (digits n) ++ r with
           | c :: s' => if c =? 45 then (true, s') else (false, (if neg then $"-" else []) ++ map digit_char (digits n) ++ r)
           | [] => (false, []) end) = (neg, map digit_char (digits n) ++ r)) as ->.
  { destruct neg; [done|]. pose proof (digits_range n Hn) as Hrange.
    destruct (digits n) as [|d ds] eqn:E; [by destruct (digits_nonempty n)|].
    inversion Hrange; subst. cbn. unfold digit_char at 1.
    by rewrite (proj2 (Z.eqb_neq _ 45)) by lia. }
  rewrite int_part_digits by done. rewrite bind_Some_l. cbv beta iota.
  destruct (frac_exp_none r Hr) as [-> H]. cbn [default from_option id]. cbv beta iota. rewrite H.
  cbn [default from_option id]. cbv beta iota. rewrite bool_decide_true by done.
  unfold int_of_digits. rewrite map_char_digit_char, digits_value by done. by destruct neg.
Qed.

Lemma starts_with_cons c s c' s' :
  starts_with (c :: s) (c' :: s') = (c =? c') && starts_with s s'.
Proof.
  unfold starts_with. cbn [length take].
  destruct (Z.eqb_spec c c') as [->|Hne]; cbn.
  - apply bool_decide_ext. split; congruence.
  - apply bool_decide_eq_false. congruence.
Qed.

Lemma scan_constant_head c p j c' s : c <> c' → scan_constant (c :: p) j (c' :: s) = None.
Proof.
  intros H. unfold scan_constant, strip_prefix. rewrite starts_with_cons.
  by rewrite (proj2 (Z.eqb_neq _ _) H).
Qed.

Lemma scan_constant_head2 c c2 p j c' c2' s :
  c2 <> c2' → scan_constant (c :: c2 :: p) j (c' :: c2' :: s) = None.
Proof.
  intros H. unfold scan_constant, strip_prefix. rewrite !starts_with_cons.
  by rewrite (proj2 (Z.eqb_neq _ _) H), andb_false_r.
Qed.

Lemma scan_other_number c s :
  is_digit c = true ∨ (c = 45 ∧ ∃ d s', s = d :: s' ∧ is_digit d = true) →
  scan_other (c :: s) = scan_number (c :: s).
Proof.
  intros H. unfold scan_other.
  assert (c ≠ 110 ∧ c ≠ 116 ∧ c ≠ 102 ∧ c ≠ 78 ∧ c ≠ 73) as (? & ? & ? & ? & ?).
  { destruct H as [H|[-> _]]; [unfold is_digit, between in H|]; lia. }
  cbn [lit]. repeat rewrite scan_constant_head by (cbn; lia).
  destruct H as [H|(-> & d & s' & -> & Hd)].
  - rewrite scan_constant_head; [done|]. unfold is_digit, between in H. cbn. lia.
  - rewrite scan_constant_head2; [done|]. unfold is_digit, between in Hd. cbn. lia.
Qed.

Lemma scan_other_int z r : delimited r → scan_other (str_of_Z z ++ r) = Some (JInt z, r).
Proof.
  intros Hr. unfold str_of_Z. destruct (Z.ltb_spec z 0) as [Hz|Hz].
  - rewrite <- app_assoc. pose proof (scan_digits true (- z) r ltac:(lia) Hr) as H.
    rewrite Z.opp_involutive in H. rewrite <- H. cbn [lit app].
    apply scan_other_number. right. split; [done|].
    pose proof (digits_range (- z) ltac:(lia)) as Hrange.
    destruct (digits (- z)) as [|d ds] eqn:E; [by destruct (digits_nonempty (- z))|].
    inversion Hrange; subst. eexists _, _. split; [done|]. by apply digit_char_is_digit.
  - rewrite <- (scan_digits false z r Hz Hr). cbn [app].
    pose proof (digits_range z Hz) as Hrange.
    destruct (digits z) as [|d ds] eqn:E; [by destruct (digits_nonempty z)|].
    inversion Hrange; subst. apply scan_other_number. left. by apply digit_char_is_digit.
Qed.

(** The first character of a serialised value: no whitespace, no closing
    bracket, no comma. *)
Definition value_head (c : Z) : bool :=
  negb (is_ws c) && negb (c =? 93) && negb (c =? 125) && negb (c =? 65279).

Lemma str_of_Z_head z : ∃ c t, str_of_Z z = c :: t ∧ (is_digit c = true ∨ c = 45).
Proof.
  unfold str_of_Z. destruct (Z.ltb_spec z 0) as [Hz|Hz]; [by eexists 45, _; eauto|].
  pose proof (digits_range z Hz) as Hrange.
  destruct (digits z) as [|d ds] eqn:E; [by destruct (digits_nonempty z)|].
  inversion Hrange; subst. eexists _, _. split; [done|]. left. by apply digit_char_is_digit.
Qed.

Lemma dumps_head j : json_ok j → ∃ c t, dumps j = c :: t ∧ value_head c = true.
Proof.
  inversion 1; subst; cbn [dumps].
  - by eexists _, _.
  - destruct b; by eexists _, _.
  - destruct (str_of_Z_head z) as (c & t & -> & Hc). eexists _, _. split; [done|].
    unfold value_head, is_ws, one_of. rewrite bool_decide_false.
    + unfold is_digit, between in Hc. lia.
    + intros Hin. rewrite !elem_of_cons, elem_of_nil in Hin. unfold is_digit, between in Hc. lia.
  - by eexists _, _.
  - by eexists _, _.
  - by eexists _, _.
Qed.

Lemma skip_ws_head c s : is_ws c = false → skip_ws (c :: s) = c :: s.
Proof. unfold skip_ws. cbn. by intros ->. Qed.

Lemma value_head_spec c :
  value_head c = true → is_ws c = false ∧ (c =? 93) = false ∧ (c =? 125) = false ∧ c ≠ 65279.
Proof.
  unfold value_head. rewrite !andb_true_iff, !negb_true_iff. rewrite (Z.eqb_neq c 65279). tauto.
Qed.

Definition parses (j : json) : Prop := ∀ fuel r,
  (2 * length (dumps j) <= fuel)%nat → delimited r →
  parse_value fuel (dumps j ++ r) = Some (sort_keys j, r).

Lemma skip_ws_dumps j r : json_ok j → skip_ws (dumps j ++ r) = dumps j ++ r.
Proof.
  intros (c & t & -> & Hc)%dumps_head. apply value_head_spec in Hc as [Hc _].
  cbn [app]. by apply skip_ws_head.
Qed.

Lemma parse_elements_dumps l fuel r :
  l ≠ [] → Forall (λ j, json_ok j ∧ parses j) l →
  (2 * length (join ($",") (map dumps l) ++ $"]") <= fuel)%nat →
  parse_elements fuel (join ($",") (map dumps l) ++ $"]" ++ r) = Some (map sort_keys l, r).
Proof.
  intros Hne Hl. revert fuel Hne. induction Hl as [|j l [Hok Hj] Hl IH]; intros fuel Hne Hf; [done|].
  destruct l as [|j' l].
  - cbn [map join] in *. rewrite length_app in Hf. cbn [lit length] in Hf.
    destruct fuel as [|fuel]; [lia|]. cbn [parse_elements].
    rewrite Hj; [|lia|cbn; auto]. rewrite bind_Some_l. done.
  - cbn [map] in Hf |- *.
    change (join ($",") (dumps j :: dumps j' :: map dumps l))
      with (dumps j ++ $"," ++ join ($",") (map dumps (j' :: l))) in *.
    rewrite !length_app in Hf. cbn [lit length] in Hf.
    destruct fuel as [|fuel]; [lia|]. cbn [parse_elements].
    rewrite <- !app_assoc. rewrite Hj; [|lia|cbn; auto]. rewrite bind_Some_l. cbv beta iota.
    change (skip_ws ($"," ++ ?x)) with (44 :: x). cbv iota. cbn [Z.eqb Pos.eqb].
    assert (json_ok j') as Hok' by (inversion Hl; naive_solver).
    assert (∃ u, join ($",") (map dumps (j' :: l)) ++ $"]" ++ r = dumps j' ++ u) as [u Hu].
    { destruct l as [|j'' l]; cbn [map join]; [eauto|]. rewrite <- app_assoc. eauto. }
    rewrite Hu, skip_ws_dumps, <- Hu by done.
    rewrite IH; [done|done|]. rewrite length_app. cbn [lit length]. lia.
Qed.

Definition item_text (kv : pystr * json) : pystr := quote kv.1 ++ $":" ++ dumps kv.2.

Lemma item_text_app kv r :
  item_text kv ++ r = 34 :: concat (map escape_char kv.1) ++ [34] ++ 58 :: dumps kv.2 ++ r.
Proof. unfold item_text, quote. cbn [app lit]. by rewrite <- !app_assoc. Qed.

Lemma item_text_length kv : (length (dumps kv.2) + 3 <= length (item_text kv))%nat.
Proof. unfold item_text, quote. rewrite !length_app. cbn [lit length]. lia. Qed.

Lemma parse_members_dumps d fuel r :
  d ≠ [] → Forall (λ kv, str_ok kv.1 ∧ json_ok kv.2 ∧ parses kv.2) d →
  (2 * length (join ($",") (map item_text d) ++ $"}") <= fuel)%nat →
  parse_members fuel (join ($",") (map item_text d) ++ $"}" ++ r)
  = Some (map (λ kv, (kv.1, sort_keys kv.2)) d, r).
Proof.
  intros Hne Hd. revert fuel Hne.
  induction Hd as [|kv d (Hk & Hok & Hj) Hd IH]; intros fuel Hne Hf; [done|].
  pose proof (item_text_length kv) as Hlen.
  destruct d as [|kv' d].
  - cbn [map join] in *. rewrite length_app in Hf. cbn [lit length] in Hf.
    destruct fuel as [|fuel]; [lia|]. rewrite item_text_app. cbn [parse_members].
    rewrite Z.eqb_refl, scan_string_quoted, bind_Some_l by done. cbv beta iota.
    change (skip_ws (58 :: ?x)) with (58 :: x). cbv iota. rewrite Z.eqb_refl.
    rewrite skip_ws_dumps, Hj by (done || lia || (cbn; auto)). done.
  - cbn [map] in Hf |- *.
    change (join ($",") (item_text kv :: item_text kv' :: map item_text d))
      with (item_text kv ++ $"," ++ join ($",") (map item_text (kv' :: d))) in *.
    rewrite !length_app in Hf. cbn [lit length] in Hf.
    destruct fuel as [|fuel]; [lia|]. rewrite <- !app_assoc, item_text_app. cbn [parse_members].
    rewrite Z.eqb_refl, scan_string_quoted, bind_Some_l by done. cbv beta iota.
    change (skip_ws (58 :: ?x)) with (58 :: x). cbv iota. rewrite Z.eqb_refl.
    rewrite skip_ws_dumps, Hj by (done || lia || (cbn; auto)).
    rewrite bind_Some_l. cbv beta iota.
    change (skip_ws ($"," ++ ?x)) with (44 :: x). cbv iota. cbn [Z.eqb Pos.eqb].
    assert (∃ u, join ($",") (map item_text (kv' :: d)) ++ $"}" ++ r = 34 :: u) as [u Hu].
    { destruct d as [|kv'' d]; cbn [map join]; rewrite <- ?app_assoc, item_text_app; eauto. }
    rewrite Hu, skip_ws_head, <- Hu by done.
    rewrite IH; [done|done|]. rewrite length_app. cbn [lit length]. lia.
Qed.

Lemma dumps_dict d : dumps (JDict d) = $"{" ++ join ($",") (map item_text (sort_items d)) ++ $"}".
Proof. cbn [dumps]. rewrite sort_items_map, map_map. done. Qed.

Lemma dumps_parses j : json_ok j → parses j.
Proof.
  induction j as [| | | | |l IH|d IH] using json_nested_ind; intros Hj fuel r Hf Hr.
  - destruct fuel as [|fuel]; [cbn in Hf; lia|]. done.
  - destruct fuel as [|fuel]; [destruct b; cbn in Hf; lia|]. by destruct b.
  - cbn [dumps sort_keys] in *. destruct (str_of_Z_head z) as (c & t & E & Hc).
    rewrite <- (scan_other_int z r Hr). rewrite E in Hf |- *. cbn [length app] in Hf |- *.
    destruct fuel as [|fuel]; [lia|]. cbn [parse_value].
    unfold is_digit, between in Hc.
    rewrite (proj2 (Z.eqb_neq c 34)), (proj2 (Z.eqb_neq c 91)), (proj2 (Z.eqb_neq c 123)) by lia.
    done.
  - inversion Hj.
  - cbn [dumps sort_keys] in *. unfold quote in *. destruct fuel as [|fuel]; [cbn in Hf; lia|].
    apply json_ok_str in Hj.
    cbn [app parse_value]. rewrite Z.eqb_refl, <- app_assoc, scan_string_quoted by done. done.
  - destruct fuel as [|fuel]; [cbn in Hf; lia|]. destruct l as [|j l]; [done|].
    assert (Forall (λ j, json_ok j ∧ parses j) (j :: l)) as Hl.
    { apply json_ok_list in Hj. rewrite Forall_forall in IH, Hj |- *. auto. }
    assert (json_ok j) as Hok by (inversion Hl; naive_solver).
    destruct (dumps_head j Hok) as (c & t & E & (Hc & Hc' & _)%value_head_spec).
    change (dumps (JList (j :: l))) with ($"[" ++ join ($",") (map dumps (j :: l)) ++ $"]") in *.
    set (text := join ($",") (map dumps (j :: l))) in *.
    assert (∃ u, text = c :: u) as [u Hu].
    { unfold text. destruct l; cbn [map join]; rewrite E; cbn; eauto. }
    rewrite <- !app_assoc. change ($"[" ++ ?x) with (91 :: x). cbn [parse_value Z.eqb Pos.eqb].
    rewrite (length_app ($"[")) in Hf. change (length ($"[")) with 1%nat in Hf.
    rewrite Hu at 1. cbn [app]. rewrite skip_ws_head by done. rewrite Hc'.
    change (c :: u ++ $"]" ++ r) with ((c :: u) ++ $"]" ++ r). rewrite <- Hu.
    unfold text. rewrite parse_elements_dumps; [done|done|done|]. fold text. lia.
  - destruct fuel as [|fuel]; [cbn in Hf; lia|].
    apply json_ok_dict in Hj as [Hnd Hd]. rewrite dumps_dict in *. cbn [sort_keys]. rewrite sort_items_map.
    assert (Forall (λ kv, str_ok kv.1 ∧ json_ok kv.2 ∧ parses kv.2) (sort_items d)) as Hd'.
    { rewrite sort_items_Permutation. rewrite Forall_forall in IH, Hd |- *. naive_solver. }
    assert (NoDup (sort_items d).*1) as Hnd' by (by rewrite sort_items_Permutation).
    destruct (sort_items d) as [|kv d']; [done|].
    set (text := join ($",") (map item_text (kv :: d'))) in *.
    assert (∃ u, text = 34 :: u) as [u Hu].
    { unfold text. destruct d'; cbn [map join]; unfold item_text, quote; cbn; eauto. }
    rewrite <- !app_assoc. change ($"{" ++ ?x) with (123 :: x). cbn [parse_value Z.eqb Pos.eqb].
    rewrite (length_app ($"{")) in Hf. change (length ($"{")) with 1%nat in Hf.
    rewrite Hu at 1. cbn [app]. rewrite skip_ws_head by done. cbn [Z.eqb Pos.eqb].
    change (34 :: u ++ $"}" ++ r) with ((34 :: u) ++ $"}" ++ r). rewrite <- Hu.
    unfold text. rewrite parse_members_dumps; [|done|done|fold text; lia].
    rewrite bind_Some_l. cbv beta iota. rewrite dict_of_pairs_NoDup; [done|].
    rewrite <- list_fmap_compose. done.
Qed.

(** [json.loads] of a serialised value gives the value, dictionaries in key
    order. *)
Lemma loads_dumps j : json_ok j → loads (dumps j) = Some (sort_keys j).
Proof.
  intros Hok. unfold loads. pose proof (dumps_parses j Hok (2 * length (dumps j))%nat []) as H.
  rewrite app_nil_r in H.
  destruct (dumps_head j Hok) as (c & t & E & (Hc & _ & _ & Hne)%value_head_spec).
  rewrite E at 1. rewrite starts_with_cons, (proj2 (Z.eqb_neq _ _)) by done.
  rewrite <- (app_nil_r (dumps j)) at 2. rewrite skip_ws_dumps, app_nil_r by done.
  by rewrite H.
Qed.

Lemma sort_keys_ok j : json_ok j → json_ok (sort_keys j).
Proof.
  induction j as [| | | | |l IH|d IH] using json_nested_ind; cbn [sort_keys]; [done..| |].
  - rewrite !json_ok_list. intros Hl. apply Forall_fmap.
    rewrite Forall_forall in *. intros j Hj. cbn. auto.
  - rewrite !json_ok_dict. intros [Hnd Hd]. split.
    + rewrite sort_items_Permutation. by rewrite <- list_fmap_compose.
    + rewrite sort_items_Permutation. apply Forall_fmap. rewrite Forall_forall in *.
      intros kv Hkv. cbn. naive_solver.
Qed.

(** Dictionaries with distinct keys, all the way down. *)
Inductive json_nodup : json → Prop :=
  | nodup_null : json_nodup JNull
  | nodup_bool b : json_nodup (JBool b)
  | nodup_int z : json_nodup (JInt z)
  | nodup_float t : json_nodup (JFloat t)
  | nodup_str s : json_nodup (JStr s)
  | nodup_list l : Forall json_nodup l → json_nodup (JList l)
  | nodup_dict d : NoDup d.*1 → Forall (λ kv, json_nodup kv.2) d → json_nodup (JDict d).

Lemma json_ok_nodup j : json_ok j → json_nodup j.
Proof.
  induction j as [| | | | |l IH|d IH] using json_nested_ind; intros H; inversion H; subst; constructor;
    try done.
  - rewrite Forall_forall in *. auto.
  - rewrite Forall_forall in *. intros kv Hkv. apply IH; [done|].
    match goal with E : ∀ x, x ∈ d → _ ∧ _ |- _ => by apply E end.
Qed.

Lemma dumps_sort_nodup j : json_nodup j → dumps (sort_keys j) = dumps j.
Proof.
  induction j as [| | | | |l IH|d IH] using json_nested_ind; [done..| |]; inversion 1; subst.
  - cbn [sort_keys dumps]. rewrite map_map. do 3 f_equal.
    apply map_ext_in. intros j Hj%list_elem_of_In. rewrite Forall_forall in *. auto.
  - cbn [sort_keys]. rewrite !dumps_dict, sort_items_map. do 3 f_equal.
    rewrite sort_items_id.
    + rewrite map_map. apply map_ext_in. intros kv Hkv. apply list_elem_of_In in Hkv.
      rewrite sort_items_Permutation in Hkv. rewrite Forall_forall in *.
      unfold item_text. cbn. do 3 f_equal. apply IH; auto.
    + rewrite <- sort_items_map. apply sort_items_sorted. by rewrite <- list_fmap_compose.
Qed.

Lemma dumps_sort_keys j : json_ok j → dumps (sort_keys j) = dumps j.
Proof. intros H. by apply dumps_sort_nodup, json_ok_nodup. Qed.

Lemma dumps_inj j j' : json_ok j → json_ok j' → dumps j = dumps j' → sort_keys j = sort_keys j'.
Proof. intros H H' E. apply loads_dumps in H, H'. congruence. Qed.
