(* ===== verification/Canonical.v ===== *)
(** [packages/domain/canonical.py]: the canonical-JSON profile behind every
    domain hash, with UTC normalisation of timestamps.  Python values that
    reach it are modelled by [pyobj]; a [StrEnum] member is the [str] it is. *)
From S2P Require Import Prelude PyStr PyTime Json.

(** * Decimals *)
Inductive decimal :=
  | DFinite (negative : bool) (coefficient exponent : Z)
  | DInfinity (negative : bool)
  | DNaN.

#[export] Instance decimal_eq_dec : EqDecision decimal.
Proof. solve_decision. Defined.

Definition is_finite (d : decimal) : bool :=
  match d with DFinite _ _ _ => true | _ => false end.

Definition zeros (n : Z) : pystr := repeat 48 (Z.to_nat n).

(** [format(d, "f")] of a finite decimal. *)
Definition format_f (negative : bool) (coefficient exponent : Z) : pystr :=
  let s := map digit_char (digits coefficient) in
  let body :=
    if 0 <=? exponent
    then (if coefficient =? 0 then s else s ++ zeros exponent)
    else
      let left := str_len s + exponent in
      if 0 <? left then take (Z.to_nat left) s ++ $"." ++ drop (Z.to_nat left) s
      else $"0." ++ zeros (- left) ++ s in
  (if negative then $"-" else []) ++ body.

Definition trim_fraction (rendered : pystr) : pystr :=
  if one_of rendered 46
  then rstrip_chars (one_of ($".")) (rstrip_chars (one_of ($"0")) rendered)
  else rendered.

Definition _decimal_string (d : decimal) : result pystr :=
  match d with
  | DFinite negative coefficient exponent =>
      let rendered := trim_fraction (format_f negative coefficient exponent) in
      if bool_decide (rendered = []) || bool_decide (rendered = $"-0") then Ok ($"0")
      else Ok rendered
  | _ => Raise (InvalidValue "non-finite Decimal is not canonical JSON evidence")
  end.

(** * Timestamps *)
Definition require_utc (value : datetime) (field : string) : result datetime :=
  _ ← raise_if (negb (is_aware value)) (InvalidValue (field +:+ " must be timezone-aware"));
  astimezone_utc value.

Definition canonical_timestamp (value : datetime) : result pystr :=
  u ← require_utc value "timestamp"; Ok (strftime_utc (wall u)).

Definition parse_canonical_timestamp (value : pystr) : result datetime :=
  match strptime_utc value with
  | Some w => Ok (utc w)
  | None => Raise (InvalidValue "timestamp is not in canonical UTC format")
  end.

(** * Values *)
Inductive pyobj :=
  | PyNone
  | PyBool (b : bool)
  | PyInt (z : Z)
  | PyStr (s : pystr)
  | PyFloat (text : pystr)
  | PyDecimal (d : decimal)
  | PyDatetime (d : datetime)
  | PyEnum (value : pyobj)
  | PyPrimitive (p : pyobj)   (* an object whose [to_primitive()] is [p] *)
  | PyDict (items : list (pyobj * pyobj))
  | PyList (items : list pyobj)
  | PyOther (type_name : string).

Section pyobj_induction.
Context (P : pyobj → Prop).
Context (Hnone : P PyNone) (Hbool : ∀ b, P (PyBool b)) (Hint : ∀ z, P (PyInt z))
        (Hstr : ∀ s, P (PyStr s)) (Hfloat : ∀ t, P (PyFloat t))
        (Hdecimal : ∀ d, P (PyDecimal d)) (Hdatetime : ∀ d, P (PyDatetime d))
        (Henum : ∀ v, P v → P (PyEnum v)) (Hprim : ∀ v, P v → P (PyPrimitive v))
        (Hdict : ∀ l, Forall (λ kv, P kv.2) l → P (PyDict l))
        (Hlist : ∀ l, Forall P l → P (PyList l)) (Hother : ∀ t, P (PyOther t)).

Fixpoint pyobj_nested_ind (v : pyobj) : P v :=
  match v with
  | PyNone => Hnone
  | PyBool b => Hbool b
  | PyInt z => Hint z
  | PyStr s => Hstr s
  | PyFloat t => Hfloat t
  | PyDecimal d => Hdecimal d
  | PyDatetime d => Hdatetime d
  | PyEnum v => Henum v (pyobj_nested_ind v)
  | PyPrimitive v => Hprim v (pyobj_nested_ind v)
  | PyDict l => Hdict l
      ((fix go l : Forall (λ kv, P kv.2) l := match l with
        | [] => Forall_nil_2 _
        | (k, v) :: l => Forall_cons_2 (λ kv, P kv.2) (k, v) l (pyobj_nested_ind v) (go l)
        end) l)
  | PyList l => Hlist l
      ((fix go l : Forall P l := match l with
        | [] => Forall_nil_2 P
        | v :: l => Forall_cons_2 P v l (pyobj_nested_ind v) (go l)
        end) l)
  | PyOther t => Hother t
  end.
End pyobj_induction.

Fixpoint to_canonical_primitive (value : pyobj) : result json :=
  match value with
  | PyNone => Ok JNull
  | PyStr s => Ok (JStr s)
  | PyBool b => Ok (JBool b)
  | PyInt z => Ok (JInt z)
  | PyFloat _ => Raise (InvalidValue "float values are forbidden in canonical evidence")
  | PyDecimal d => s ← _decimal_string d; Ok (JStr s)
  | PyDatetime d => s ← canonical_timestamp d; Ok (JStr s)
  | PyEnum v => to_canonical_primitive v
  | PyPrimitive p => to_canonical_primitive p
  | PyDict items =>
      (fix go items normalized :=
         match items with
         | [] => Ok (JDict normalized)
         | (PyStr key, item) :: items =>
             j ← to_canonical_primitive item; go items (dict_set key j normalized)
         | _ :: _ => Raise (InvalidValue "canonical JSON object keys must be strings")
         end) items []
  | PyList items =>
      l ← (fix go items :=
             match items with
             | [] => Ok []
             | item :: items => j ← to_canonical_primitive item; l ← go items; Ok (j :: l)
             end) items;
      Ok (JList l)
  | PyOther type_name =>
      Raise (InvalidValue ("unsupported canonical JSON value type: " +:+ type_name))
  end.

(** [json.dumps(..., ensure_ascii=False, allow_nan=False, sort_keys=True)]. *)
Definition canonical_json (value : pyobj) : result pystr :=
  j ← to_canonical_primitive value; Ok (dumps j).

Definition canonical_json_bytes (value : pyobj) : result bytes :=
  s ← canonical_json value; utf8_encode s.

(** A value [json.loads] returned, handed back to [canonical_json]. *)
Fixpoint pyobj_of_json (j : json) : pyobj :=
  match j with
  | JNull => PyNone
  | JBool b => PyBool b
  | JInt z => PyInt z
  | JFloat t => PyFloat t
  | JStr s => PyStr s
  | JList l => PyList (map pyobj_of_json l)
  | JDict d => PyDict (map (λ kv, (PyStr kv.1, pyobj_of_json kv.2)) d)
  end.

(** * UTC normalisation *)
Lemma require_utc_Ok v f u :
  require_utc v f = Ok u → is_aware v = true ∧ is_utc u = true ∧ instant u = instant v.
Proof.
  unfold require_utc. intros H. inv_ok. bools. split; [done|]. by apply astimezone_utc_Ok.
Qed.

(** Collect what every successful time computation in scope says. *)
Ltac utc_facts := repeat match goal with
  | H : require_utc _ _ = Ok _ |- _ => apply require_utc_Ok in H as (? & ? & ?)
  | H : dt_add _ _ = Ok _ |- _ => apply dt_add_Ok in H as [? ?]
  end.

Lemma is_utc_aware v : is_utc v = true → is_aware v = true.
Proof. intros ->%is_utc_eq. done. Qed.

Lemma require_utc_id v f : is_utc v = true → require_utc v f = Ok v.
Proof.
  intros H. unfold require_utc. rewrite is_utc_aware by done. cbn. by apply astimezone_utc_id.
Qed.

Lemma utc_instant_wall v : is_utc v = true → instant v = wall v.
Proof. intros ->%is_utc_eq. apply instant_utc. Qed.

Lemma utc_eq v w : is_utc v = true → is_utc w = true → instant v = instant w → v = w.
Proof.
  intros Hv Hw H. rewrite !utc_instant_wall in H by done.
  apply is_utc_eq in Hv, Hw. congruence.
Qed.

(** * Well-formed values: code points, coefficients *)
Definition decimal_ok (d : decimal) : bool :=
  match d with DFinite _ c _ => 0 <=? c | _ => true end.

Fixpoint pyobj_ok (v : pyobj) : bool :=
  match v with
  | PyStr s => forallb (Z.leb 0) s
  | PyDecimal d => decimal_ok d
  | PyEnum v | PyPrimitive v => pyobj_ok v
  | PyDict items => forallb (λ kv, pyobj_ok kv.1 && pyobj_ok kv.2) items
  | PyList items => forallb pyobj_ok items
  | _ => true
  end.

Lemma str_ok_iff s : forallb (Z.leb 0) s = true ↔ str_ok s.
Proof.
  rewrite forallb_Forall. unfold str_ok. split; intros H; (eapply Forall_impl; [exact H|]);
    cbn; intros x; lia.
Qed.

(** The two loops of [to_canonical_primitive], named. *)
Fixpoint canonical_items (items : list (pyobj * pyobj)) (acc : list (pystr * json)) :
    result (list (pystr * json)) :=
  match items with
  | [] => Ok acc
  | (PyStr key, item) :: items =>
      j ← to_canonical_primitive item; canonical_items items (dict_set key j acc)
  | _ :: _ => Raise (InvalidValue "canonical JSON object keys must be strings")
  end.
Fixpoint canonical_list (items : list pyobj) : result (list json) :=
  match items with
  | [] => Ok []
  | item :: items => j ← to_canonical_primitive item; l ← canonical_list items; Ok (j :: l)
  end.

Lemma to_canonical_dict items :
  to_canonical_primitive (PyDict items) = d ← canonical_items items []; Ok (JDict d).
Proof.
  cbn [to_canonical_primitive]. generalize (@nil (pystr * json)).
  induction items as [|[k v] items IH]; intros acc; [done|]. cbn.
  destruct k; try done. destruct (to_canonical_primitive v); [|done]. cbn. apply IH.
Qed.

Lemma to_canonical_list items :
  to_canonical_primitive (PyList items) = l ← canonical_list items; Ok (JList l).
Proof. reflexivity. Qed.

Lemma elem_of_dict_set {A} k (v : A) d x : x ∈ (dict_set k v d).*1 ↔ x = k ∨ x ∈ d.*1.
Proof.
  induction d as [|[k' v'] d IH]; cbn; [set_solver|].
  case_decide; subst; cbn; rewrite !elem_of_cons; [tauto|]. rewrite IH. tauto.
Qed.

Lemma dict_set_NoDup {A} k (v : A) d : NoDup d.*1 → NoDup (dict_set k v d).*1.
Proof.
  induction d as [|[k' v'] d IH]; cbn; [intros; apply NoDup_singleton|].
  intros [Hn Hd]%NoDup_cons. case_decide; subst; cbn; constructor; auto.
  rewrite elem_of_dict_set. naive_solver.
Qed.

Lemma dict_set_Forall {A} (P : pystr * A → Prop) k v d :
  P (k, v) → Forall P d → Forall P (dict_set k v d).
Proof.
  intros Hkv. induction 1 as [|[k' v'] d]; cbn; [by constructor|].
  case_decide; subst; by constructor.
Qed.

Lemma drop_while_Forall p (P : Z → Prop) s : Forall P s → Forall P (drop_while p s).
Proof. induction 1; cbn; [done|]. case_match; [done|]. by constructor. Qed.

Lemma rstrip_Forall p (P : Z → Prop) s : Forall P s → Forall P (rstrip_chars p s).
Proof. intros H. unfold rstrip_chars. by apply Forall_reverse, drop_while_Forall, Forall_reverse. Qed.

Lemma lit_ok s : str_ok (lit s).
Proof. induction s; cbn; constructor; [lia|done]. Qed.

Lemma digit_chars_ok ds : Forall (λ d, 0 <= d < 10) ds → str_ok (map digit_char ds).
Proof. induction 1; cbn; constructor; [unfold digit_char; lia|done]. Qed.

Lemma str_padded_ok k n : str_ok (str_padded k n).
Proof. apply digit_chars_ok, padded_range. Qed.

Lemma strftime_ok w : str_ok (strftime_utc w).
Proof.
  unfold strftime_utc. destruct (ymd_of_days _) as [[y m] d]. unfold str_ok.
  rewrite !Forall_app. split_and!; first [apply str_padded_ok | apply lit_ok].
Qed.

Lemma format_f_ok n c e : 0 <= c → str_ok (format_f n c e).
Proof.
  intros Hc. assert (str_ok (map digit_char (digits c))) as Hs by (by apply digit_chars_ok, digits_range).
  assert (∀ k, str_ok (zeros k)) as Hz.
  { intros k. unfold zeros. induction (Z.to_nat k); cbn; constructor; [lia|done]. }
  unfold format_f, str_ok in *. apply Forall_app; split; [destruct n; [apply lit_ok|done]|].
  repeat case_match; rewrite ?Forall_app; split_and?; try done; try apply lit_ok;
    eauto using Forall_take, Forall_drop.
Qed.

Lemma decimal_string_ok d s : decimal_ok d = true → _decimal_string d = Ok s → str_ok s.
Proof.
  destruct d as [n c e| |]; cbn; [|done..]. intros Hc H. bools.
  case_match; simplify_eq; [repeat constructor; lia|].
  unfold trim_fraction. pose proof (format_f_ok n c e Hc).
  case_match; [by do 2 apply rstrip_Forall|done].
Qed.

Lemma canonical_items_ok items acc d :
  Forall (λ kv, ∀ j, to_canonical_primitive kv.2 = Ok j → pyobj_ok kv.2 = true → json_ok j) items →
  forallb (λ kv, pyobj_ok kv.1 && pyobj_ok kv.2) items = true →
  NoDup acc.*1 → Forall (λ kv, str_ok kv.1 ∧ json_ok kv.2) acc →
  canonical_items items acc = Ok d → json_ok (JDict d).
Proof.
  intros Hl. revert acc. induction Hl as [|[k v] items Hv _ IH]; intros acc Hok Hnd Hacc H; cbn in *.
  - simplify_eq. by apply json_ok_dict.
  - bools. destruct k as [| | |key| | | | | | | |]; try done. inv_ok.
    cbn in Hok. rewrite str_ok_iff in Hok.
    eapply IH; [done| | |exact H]; [by apply dict_set_NoDup|].
    apply dict_set_Forall; [|done]. cbn. eauto.
Qed.

(** What [to_canonical_primitive] produces is serialisable without floats,
    with distinct keys. *)
Lemma to_canonical_ok v j : pyobj_ok v = true → to_canonical_primitive v = Ok j → json_ok j.
Proof.
  revert j. induction v as [| | |s| |d|d|v IH|v IH|l IH|l IH|] using pyobj_nested_ind; intros j Hv H.
  all: try (injection H as <-; constructor).
  - by apply str_ok_iff.
  - done.
  - cbn in H. inv_ok. subst. constructor. by eapply decimal_string_ok.
  - cbn in H. unfold canonical_timestamp in H. inv_ok. subst. constructor. apply strftime_ok.
  - by apply IH.
  - by apply IH.
  - rewrite to_canonical_dict in H. inv_ok. subst.
    eapply (canonical_items_ok l []); [|done|constructor|constructor|done].
    eapply Forall_impl; [exact IH|]. cbn. auto.
  - rewrite to_canonical_list in H. inv_ok. subst. apply json_ok_list. cbn in Hv.
    revert r Hr Hv. induction IH as [|v l Hv' _ IH']; cbn; intros r Hr Hv; inv_ok; subst; [done|].
    bools. constructor; eauto.
  - done.
Qed.

Lemma canonical_items_nodup items acc d :
  Forall (λ kv, ∀ j, to_canonical_primitive kv.2 = Ok j → json_nodup j) items →
  NoDup acc.*1 → Forall (λ kv, json_nodup kv.2) acc →
  canonical_items items acc = Ok d → json_nodup (JDict d).
Proof.
  intros Hl. revert acc. induction Hl as [|[k v] items Hv _ IH]; intros acc Hnd Hacc H; cbn in *.
  - apply Ok_inj in H as <-. by constructor.
  - destruct k; try done. inv_ok. eapply IH; [| |exact H]; [by apply dict_set_NoDup|].
    apply (dict_set_Forall (λ kv, json_nodup kv.2)); [cbn; eauto|done].
Qed.

(** A canonical primitive has distinct keys in every dictionary. *)
Lemma to_canonical_nodup v j : to_canonical_primitive v = Ok j → json_nodup j.
Proof.
  revert j. induction v as [| | |s| |d|d|v IH|v IH|l IH|l IH|] using pyobj_nested_ind; intros j H.
  all: try (injection H as <-; constructor); try done; try by apply IH.
  - cbn in H. inv_ok. subst. constructor.
  - cbn in H. inv_ok. subst. constructor.
  - rewrite to_canonical_dict in H. inv_ok. subst. by eapply (canonical_items_nodup l []); try constructor.
  - rewrite to_canonical_list in H. inv_ok. subst. constructor. revert r Hr.
    induction IH as [|v l Hv _ IH']; cbn; intros r Hr; inv_ok; subst; constructor; auto.
Qed.

(** [canonical_json] is the identity on what [json.loads] can return for it. *)
Lemma to_canonical_of_json j : json_ok j → to_canonical_primitive (pyobj_of_json j) = Ok j.
Proof.
  induction j as [| | | | |l IH|d IH] using json_nested_ind; intros Hj; try done.
  - inversion Hj.
  - apply json_ok_list in Hj. cbn [pyobj_of_json]. rewrite to_canonical_list.
    assert (canonical_list (map pyobj_of_json l) = Ok l) as ->; [|done].
    induction IH as [|j l Hj' _ IH']; cbn; [done|]. inversion Hj; subst. by rewrite Hj', IH'.
  - apply json_ok_dict in Hj as [Hnd Hd]. cbn [pyobj_of_json]. rewrite to_canonical_dict.
    assert (∀ acc, NoDup (acc ++ d).*1 →
      canonical_items (map (λ kv, (PyStr kv.1, pyobj_of_json kv.2)) d) acc = Ok (acc ++ d)) as H.
    { clear Hnd. induction IH as [|[k j] d Hj _ IH']; intros acc Hnd; cbn in *; [by rewrite app_nil_r|].
      inversion Hd as [|? ? [_ Hok] Hd']; subst. rewrite Hj by done. cbn.
      rewrite dict_set_fresh.
      - rewrite IH'; rewrite <- ?app_assoc; done.
      - rewrite fmap_app in Hnd. apply NoDup_app in Hnd as (_ & Hnd & _). intros Hk.
        eapply Hnd; [done|]. cbn. left. }
    by rewrite (H []).
Qed.

(** With distinct keys the dictionary loop keeps every item, in order. *)
Definition canonical_item (kv : pyobj * pyobj) (kj : pystr * json) : Prop :=
  kv.1 = PyStr kj.1 ∧ to_canonical_primitive kv.2 = Ok kj.2.

Lemma canonical_items_spec items acc d :
  NoDup ((PyStr <$> acc.*1) ++ items.*1) →
  canonical_items items acc = Ok d ↔ ∃ d', d = acc ++ d' ∧ Forall2 canonical_item items d'.
Proof.
  revert acc. induction items as [|[k v] items IH]; intros acc Hnd; cbn.
  - split; [intros [= <-]; exists []; by rewrite app_nil_r|].
    intros (d' & -> & H%Forall2_nil_inv_l). subst. by rewrite app_nil_r.
  - assert (Hno : ∀ d', Forall2 canonical_item ((k, v) :: items) d' →
      ∃ key, k = PyStr key) by (intros d' H; inversion H as [|? [] ? ? [Hk _]]; eauto).
    destruct k as [| | |key| | | | | | | |];
      try (split; [done|]; intros (d' & _ & [? ?]%Hno); done).
    assert (key ∉ acc.*1) as Hkey.
    { apply NoDup_app in Hnd as (_ & Hnd & _). intros Hin. eapply (Hnd (PyStr key)).
      - by apply list_elem_of_fmap_2.
      - cbn. left. }
    destruct (to_canonical_primitive v) as [j|e] eqn:Ej; cbn.
    + rewrite dict_set_fresh by done. rewrite IH.
      2: { rewrite !fmap_app. cbn. rewrite <- app_assoc. done. }
      split.
      * intros (d' & -> & H). exists ((key, j) :: d'). rewrite <- app_assoc. split; [done|].
        by constructor.
      * intros (d' & -> & H). inversion H as [|? [key' j'] ? d'' [Hk Hj] H']; subst.
        cbn in *. simplify_eq. assert (j' = j) as -> by congruence. exists d''. by rewrite <- app_assoc.
    + split; [done|]. intros (d' & _ & H). inversion H as [|? [] ? ? [_ Hj]]; subst. cbn in Hj. congruence.
Qed.

(** What [json.loads] returns for a canonical text has that canonical text. *)
Lemma canonical_json_loads v s :
  pyobj_ok v = true → canonical_json v = Ok s →
  ∃ j, loads s = Some j ∧ canonical_json (pyobj_of_json j) = Ok s.
Proof.
  unfold canonical_json. intros Hv H. inv_ok. subst.
  assert (json_ok r) as Hr' by eauto using to_canonical_ok.
  exists (sort_keys r). split; [by apply loads_dumps|].
  rewrite to_canonical_of_json by (by apply sort_keys_ok). rewrite bind_Ok_l.
  by rewrite dumps_sort_keys.
Qed.

(** * Properties *)

(** The canonical text of a dictionary does not depend on the order in
    which its items were inserted. *)
Theorem canonical_json_key_order items items' s :
  NoDup items.*1 → items ≡ₚ items' →
  canonical_json (PyDict items) = Ok s → canonical_json (PyDict items') = Ok s.
Proof.
  unfold canonical_json. rewrite !to_canonical_dict. intros Hnd HP H. inv_ok. subst.
  apply canonical_items_spec in Hr0 as (d & -> & HF); [|done]. cbn [app].
  destruct (Permutation_Forall2 HP HF) as (d' & HPd & HF').
  assert (canonical_items items' [] = Ok d') as ->.
  { apply canonical_items_spec; [by rewrite <- HP|]. by exists d'. }
  rewrite !bind_Ok_l. f_equal. rewrite !dumps_dict. do 4 f_equal. symmetry.
  apply sort_items_Permutation_eq; [|done].
  assert (items.*1 = PyStr <$> d.*1) as E.
  { clear -HF. induction HF as [|[] [] ? ? [? _]]; cbn in *; [done|]. by f_equal. }
  rewrite E in Hnd. by apply NoDup_fmap_1 in Hnd.
Qed.

(** what [json.loads] reads back from a canonical text is a value whose
    canonical text is the same one. *)
Theorem canonical_json_roundtrip v s :
  pyobj_ok v = true → canonical_json v = Ok s →
  ∃ j, loads s = Some j ∧ canonical_json (pyobj_of_json j) = Ok s.
Proof. apply canonical_json_loads. Qed.

(** the canonical bytes determine the evidence: two values with the same
    bytes have the same canonical primitive up to the order of dict items. *)
Theorem canonical_json_bytes_injective v w bs :
  pyobj_ok v = true → pyobj_ok w = true →
  canonical_json_bytes v = Ok bs → canonical_json_bytes w = Ok bs →
  ∃ j k, to_canonical_primitive v = Ok j ∧ to_canonical_primitive w = Ok k
         ∧ sort_keys j = sort_keys k.
Proof.
  unfold canonical_json_bytes, canonical_json. intros Hv Hw H H'. inv_ok. subst.
  do 2 eexists. split_and!; [done..|]. apply dumps_inj; eauto using to_canonical_ok, utf8_encode_inj.
Qed.

(** * Witnesses *)
Lemma canonical_json_key_order_witness :
  canonical_json (PyDict [(PyStr ($"b"), PyInt 2); (PyStr ($"a"), PyInt 1)])
  = Ok ([123; 34] ++ $"a" ++ [34] ++ $":1," ++ [34] ++ $"b" ++ [34] ++ $":2}").
Proof.
  apply (canonical_json_key_order [(PyStr ($"a"), PyInt 1); (PyStr ($"b"), PyInt 2)]).
  - cbn. apply NoDup_cons. split; [|apply NoDup_singleton]. by intros ?%list_elem_of_singleton.
  - apply Permutation_swap.
  - vm_compute. reflexivity.
Defined.

Lemma canonical_json_roundtrip_witness :
  ∃ j, loads ($"[null,true,-12]") = Some j
       ∧ canonical_json (pyobj_of_json j) = Ok ($"[null,true,-12]").
Proof.
  apply (canonical_json_roundtrip (PyList [PyNone; PyBool true; PyInt (-12)])); vm_compute; reflexivity.
Defined.

Lemma canonical_json_bytes_injective_witness :
  ∃ j k, to_canonical_primitive (PyDecimal (DFinite false 150 (-2))) = Ok j
         ∧ to_canonical_primitive (PyStr ($"1.5")) = Ok k ∧ sort_keys j = sort_keys k.
Proof.
  apply (canonical_json_bytes_injective _ _ ([34] ++ $"1.5" ++ [34])); vm_compute; reflexivity.
Defined.
