(* ===== verification/Digest.v ===== *)
(** Digests of canonical evidence: the idiom
    [hashlib.sha256(canonical_json_bytes(material)).hexdigest()] the domain
    uses for action keys, proposal, decision, event and entry hashes.  ASCII
    evidence always has a digest, and two values with one digest either have
    the same canonical primitive or exhibit two byte strings that collide. *)
From S2P Require Import Prelude PyStr Sha256 PyTime Json Canonical.

Definition sha256_hexdigest (value : pyobj) : result pystr :=
  bs ← canonical_json_bytes value; Ok (sha256_hex bs).

(** Values built from ASCII text, integers, booleans, [None], dicts and lists. *)
Fixpoint evidence (v : pyobj) : bool :=
  match v with
  | PyNone | PyBool _ | PyInt _ => true
  | PyStr s => ascii_str s
  | PyEnum v | PyPrimitive v => evidence v
  | PyDict items =>
      forallb (λ kv, match kv.1 with PyStr s => ascii_str s | _ => false end && evidence kv.2) items
  | PyList items => forallb evidence items
  | PyFloat _ | PyDecimal _ | PyDatetime _ | PyOther _ => false
  end.

Fixpoint json_ascii (j : json) : bool :=
  match j with
  | JNull | JBool _ | JInt _ => true
  | JFloat _ => false
  | JStr s => ascii_str s
  | JList l => forallb json_ascii l
  | JDict d => forallb (λ kv, ascii_str kv.1 && json_ascii kv.2) d
  end.

(** Two values with the same canonical primitive, up to the order of dict items. *)
Definition canon_eq (v w : pyobj) : Prop :=
  ∃ j k, to_canonical_primitive v = Ok j ∧ to_canonical_primitive w = Ok k
         ∧ sort_keys j = sort_keys k.

Lemma evidence_str s : ascii_str s = true → evidence (PyStr s) = true.
Proof. done. Qed.
Lemma evidence_int z : evidence (PyInt z) = true.
Proof. done. Qed.

(** The two distinct messages that a digest confuses. *)
Definition collides (v w : pyobj) : Prop :=
  ∃ bs bs', canonical_json_bytes v = Ok bs ∧ canonical_json_bytes w = Ok bs'
            ∧ bs ≠ bs' ∧ sha256 bs = sha256 bs'.

(** * ASCII evidence serialises to ASCII *)
Lemma evidence_ok v : evidence v = true → pyobj_ok v = true.
Proof.
  induction v as [| | |s| | | |v IH|v IH|l IH|l IH|] using pyobj_nested_ind; cbn; try done.
  - intros H. apply str_ok_iff. apply ascii_str_Forall in H. eapply Forall_impl; [exact H|].
    cbn. unfold is_ascii, between. lia.
  - rewrite !forallb_Forall. intros H. induction IH as [|[k v] l Hv _ IH]; [done|].
    inversion H as [|? ? H1 H2]; subst. constructor; [|by apply IH]. cbn in *. bools.
    rewrite Hv by done. destruct k; try done. cbn. apply andb_true_iff; split; [|done].
    apply str_ok_iff. apply ascii_str_Forall in H1. eapply Forall_impl; [exact H1|].
    cbn. unfold is_ascii, between. lia.
  - rewrite !forallb_Forall. intros H. induction IH as [|v l Hv _ IH]; [done|].
    inversion H; subst. constructor; auto.
Qed.

Lemma evidence_canonical v :
  evidence v = true → ∃ j, to_canonical_primitive v = Ok j ∧ json_ascii j = true.
Proof.
  induction v as [| | |s| | | |v IH|v IH|l IH|l IH|] using pyobj_nested_ind; intros H;
    try done.
  - by exists JNull.
  - by exists (JBool b).
  - by exists (JInt z).
  - by exists (JStr s).
  - by apply IH.
  - by apply IH.
  - rewrite to_canonical_dict. cbn in H.
    assert (Hgo : ∀ acc, json_ascii (JDict acc) = true →
      ∃ d, canonical_items l acc = Ok d ∧ json_ascii (JDict d) = true); [|].
    { induction IH as [|[k v] l Hv _ IH']; intros acc Hacc; [by exists acc|].
      cbn in H. bools. destruct k; try done. destruct (Hv H1) as (j & Ej & Hj).
      cbn in *. rewrite Ej, bind_Ok_l. apply IH'; [done|].
      apply forallb_Forall. apply (dict_set_Forall (λ kv, ascii_str kv.1 && json_ascii kv.2 = true));
        [cbn; by rewrite H|by apply forallb_Forall]. }
    destruct (Hgo []) as (d & -> & Hd); [done|]. by exists (JDict d).
  - rewrite to_canonical_list. cbn in H.
    assert (∃ js, canonical_list l = Ok js ∧ forallb json_ascii js = true) as (js & -> & Hjs);
      [|by exists (JList js)].
    induction IH as [|v l Hv _ IH']; [by exists []|]. cbn in *. bools.
    destruct (Hv H) as (j & -> & Hj). destruct (IH' H0) as (js & -> & Hjs).
    exists (j :: js). cbn. by rewrite Hj.
Qed.

Lemma ascii_quote s : ascii_str s = true → ascii_str (quote s) = true.
Proof.
  intros H. unfold quote. rewrite !ascii_str_app. rewrite !andb_true_iff. split_and!; [done| |done].
  apply ascii_str_Forall in H. induction H as [|c s Hc _ IH]; [done|]. cbn [map concat].
  rewrite ascii_str_app. apply andb_true_iff. split; [|done]. unfold escape_char.
  repeat case_match; try done; [|unfold ascii_str; cbn; by rewrite Hc].
  assert (Hb : Forall is_byte [c]).
  { constructor; [|done]. unfold is_ascii, between, is_byte in *. lia. }
  apply ascii_hexlify in Hb. unfold hexlify in Hb. cbn [map concat] in Hb.
  rewrite app_nil_r in Hb. by rewrite ascii_str_app, Hb.
Qed.

Lemma ascii_join sep l :
  ascii_str sep = true → Forall (λ s, ascii_str s = true) l → ascii_str (join sep l) = true.
Proof.
  intros Hsep. induction 1 as [|s l Hs _ IH]; [done|]. cbn. destruct l; [done|].
  by rewrite !ascii_str_app, Hs, Hsep.
Qed.

Lemma dumps_ascii j : json_ascii j = true → ascii_str (dumps j) = true.
Proof.
  induction j as [|[]|z|t|s|l IH|d IH] using json_nested_ind; intros H; try done.
  - apply ascii_str_of_Z.
  - by apply ascii_quote.
  - cbn [dumps]. rewrite !ascii_str_app, !andb_true_iff. split_and!; [done| |done].
    apply ascii_join; [done|]. cbn in H. apply forallb_Forall in H. apply Forall_fmap.
    rewrite !Forall_forall in *. cbn. auto.
  - rewrite dumps_dict, !ascii_str_app, !andb_true_iff. split_and!; [done| |done].
    apply ascii_join; [done|]. cbn in H. apply forallb_Forall in H. apply Forall_fmap.
    rewrite sort_items_Permutation. rewrite !Forall_forall in *. intros kv Hin.
    specialize (H _ Hin). specialize (IH _ Hin). cbn beta in *. bools. unfold item_text, compose.
    rewrite !ascii_str_app, ascii_quote by done. by rewrite IH.
Qed.

(** * Totality and injectivity of the digest *)
Lemma evidence_bytes v : evidence v = true → ∃ bs, canonical_json_bytes v = Ok bs.
Proof.
  intros (j & Ej & Hj)%evidence_canonical. exists (dumps j).
  unfold canonical_json_bytes, canonical_json. rewrite Ej, !bind_Ok_l.
  apply utf8_encode_ascii, ascii_str_Forall. by apply dumps_ascii.
Qed.

Lemma sha256_hexdigest_total v : evidence v = true → ∃ h, sha256_hexdigest v = Ok h.
Proof.
  intros [bs H]%evidence_bytes. exists (sha256_hex bs). unfold sha256_hexdigest. by rewrite H.
Qed.

Lemma sha256_hex_inj m m' : sha256_hex m = sha256_hex m' → sha256 m = sha256 m'.
Proof. apply hexlify_inj; apply sha256_byte. Qed.

Definition is_digest (s : pystr) : bool := forallb is_lower_hex s && (str_len s =? 64).

Definition require_digest (value : pystr) (field : string) : result unit :=
  raise_if (negb (is_digest value)) (ValueError (field +:+ " must be a lowercase SHA-256 digest")).

Lemma is_digest_sha256 m : is_digest (sha256_hex m) = true.
Proof.
  unfold is_digest, str_len. rewrite sha256_hex_length, andb_true_iff. split; [|done].
  apply forallb_Forall, sha256_hex_lower.
Qed.

Lemma is_digest_ascii s : is_digest s = true → ascii_str s = true.
Proof.
  unfold is_digest. rewrite andb_true_iff, forallb_Forall. intros [H _].
  eapply Forall_ascii; [apply is_lower_hex_ascii|done].
Qed.

Lemma sha256_hexdigest_digest v h : sha256_hexdigest v = Ok h → is_digest h = true.
Proof. unfold sha256_hexdigest. intros H. inv_ok. subst. apply is_digest_sha256. Qed.

Lemma sha256_hexdigest_inj v w h :
  evidence v = true → evidence w = true →
  sha256_hexdigest v = Ok h → sha256_hexdigest w = Ok h →
  canon_eq v w ∨ collides v w.
Proof.
  intros Hv Hw H H'. unfold sha256_hexdigest in *. inv_ok. subst.
  destruct (decide (r0 = r)) as [->|Hne].
  - left. apply evidence_ok in Hv, Hw. unfold canonical_json_bytes, canonical_json in *. inv_ok. subst.
    do 2 eexists. split_and!; [done..|]. eapply dumps_inj; eauto using to_canonical_ok, utf8_encode_inj.
  - right. exists r0, r. split_and!; [done..|]. by apply sha256_hex_inj.
Qed.

(** * Reading the fields of a literal dictionary back from its primitive *)
Fixpoint str_eqb (s t : pystr) : bool :=
  match s, t with
  | [], [] => true
  | c :: s, d :: t => (c =? d) && str_eqb s t
  | _, _ => false
  end.

Lemma str_eqb_eq s t : str_eqb s t = true ↔ s = t.
Proof.
  revert t; induction s as [|c s IH]; intros [|d t]; cbn; try done.
  rewrite andb_true_iff, Z.eqb_eq, IH. naive_solver.
Qed.

Fixpoint field (key : pystr) (items : list (pyobj * pyobj)) : option pyobj :=
  match items with
  | [] => None
  | (PyStr k, v) :: items => if str_eqb k key then Some v else field key items
  | _ :: items => field key items
  end.

(** Every key is a string that occurs once. *)
Fixpoint literal_keys (items : list (pyobj * pyobj)) : bool :=
  match items with
  | [] => true
  | (PyStr k, _) :: items =>
      match field k items with None => literal_keys items | Some _ => false end
  | _ :: _ => false
  end.

Lemma field_None key items v : field key items = None → (PyStr key, v) ∉ items.
Proof.
  induction items as [|[k w] items IH]; cbn; [intros _; by intros ?%not_elem_of_nil|].
  intros H. apply not_elem_of_cons. destruct k; split; try done; try by apply IH.
  - destruct (str_eqb s key) eqn:E; [done|]. intros [= -> _].
    by rewrite (proj2 (str_eqb_eq _ _) eq_refl) in E.
  - destruct (str_eqb s key); [done|]. by apply IH.
Qed.

Lemma literal_keys_NoDup items : literal_keys items = true → NoDup items.*1.
Proof.
  induction items as [|[k v] items IH]; cbn; [constructor|].
  destruct k; try done. destruct (field s items) eqn:E; [done|]. intros H.
  constructor; [|by apply IH]. intros ([k w] & Hk & Hin)%list_elem_of_fmap. cbn in Hk. subst k.
  by apply (field_None _ _ w E).
Qed.

Lemma field_elem key items v : field key items = Some v → (PyStr key, v) ∈ items.
Proof.
  induction items as [|[k w] items IH]; cbn; [done|]. intros H.
  destruct k; try (by right; auto). destruct (str_eqb s key) eqn:E.
  - apply str_eqb_eq in E. simplify_eq. left.
  - right. auto.
Qed.

Lemma canonical_field key items v j :
  literal_keys items = true → field key items = Some v →
  to_canonical_primitive (PyDict items) = Ok j →
  ∃ d jv, j = JDict d ∧ NoDup d.*1 ∧ (key, jv) ∈ d ∧ to_canonical_primitive v = Ok jv.
Proof.
  intros Hk%literal_keys_NoDup Hf%field_elem H. rewrite to_canonical_dict in H. inv_ok. subst.
  apply canonical_items_spec in Hr as (d & -> & HF); [|done]. cbn [app]. exists d.
  assert (Hnd : NoDup d.*1).
  { assert (items.*1 = PyStr <$> d.*1) as E.
    { clear -HF. induction HF as [|[] [] ? ? [? _]]; cbn in *; [done|]. by f_equal. }
    rewrite E in Hk. by apply NoDup_fmap_1 in Hk. }
  apply list_elem_of_lookup in Hf as [i Hi].
  destruct (Forall2_lookup_l _ _ _ _ _ HF Hi) as ([k jv] & Hj & Hkey & Hv).
  cbn in *. injection Hkey as <-. exists jv. split_and!; [done..| |done].
  by eapply list_elem_of_lookup_2.
Qed.

Lemma sort_keys_elem d d' key jv jw :
  NoDup d.*1 → NoDup d'.*1 → sort_keys (JDict d) = sort_keys (JDict d') →
  (key, jv) ∈ d → (key, jw) ∈ d' → sort_keys jv = sort_keys jw.
Proof.
  intros Hnd Hnd' H Hin Hin'. cbn in H. injection H as H. set (f := λ kv : pystr * json, (kv.1, sort_keys kv.2)) in *.
  assert (HP : map f d ≡ₚ map f d').
  { rewrite <- (sort_items_Permutation (map f d)), H. apply sort_items_Permutation. }
  assert (Hn : NoDup (map f d).*1).
  { change (map f d) with (f <$> d). rewrite <- list_fmap_compose.
    rewrite (list_fmap_ext _ fst); [done|]. by intros ? []. }
  assert (H1 : (key, sort_keys jv) ∈ map f d) by (by apply (list_elem_of_fmap_2 f) in Hin).
  assert (H2 : (key, sort_keys jw) ∈ map f d).
  { rewrite HP. by apply (list_elem_of_fmap_2 f) in Hin'. }
  clear -Hn H1 H2. induction (map f d) as [|[k v] l IH]; [by apply not_elem_of_nil in H1|].
  cbn in Hn. apply NoDup_cons in Hn as [Hk Hn].
  assert (Hfst : ∀ x, (k, x) ∉ l) by (intros x Hx; apply Hk; by apply (list_elem_of_fmap_2 fst) in Hx).
  rewrite !elem_of_cons in *. destruct H1, H2; simplify_eq; naive_solver.
Qed.

Lemma canon_eq_field key items items' v w :
  literal_keys items = true → literal_keys items' = true →
  field key items = Some v → field key items' = Some w →
  canon_eq (PyDict items) (PyDict items') → canon_eq v w.
Proof.
  intros Hk Hk' Hv Hw (j & k & Hj & Hk2 & Hs).
  destruct (canonical_field key items v j) as (d & jv & -> & Hnd & Hin & Ev); [done..|].
  destruct (canonical_field key items' w k) as (d' & jw & -> & Hnd' & Hin' & Ew); [done..|].
  exists jv, jw. split_and!; [done..|]. by eapply (sort_keys_elem d d').
Qed.

Lemma canon_eq_str s t : canon_eq (PyStr s) (PyStr t) → s = t.
Proof. intros (j & k & Hj & Hk & E). cbn in *. by simplify_eq. Qed.
Lemma canon_eq_int s t : canon_eq (PyInt s) (PyInt t) → s = t.
Proof. intros (j & k & Hj & Hk & E). cbn in *. by simplify_eq. Qed.
Lemma canon_eq_bool s t : canon_eq (PyBool s) (PyBool t) → s = t.
Proof. intros (j & k & Hj & Hk & E). cbn in *. by simplify_eq. Qed.
Lemma canon_eq_strs (l l' : list pystr) :
  canon_eq (PyList (map PyStr l)) (PyList (map PyStr l')) → l = l'.
Proof.
  assert (Hl : ∀ l, canonical_list (map PyStr l) = Ok (map JStr l)) by (induction l0; cbn; [done|by rewrite IHl0]).
  intros (j & k & Hj & Hk & E). rewrite to_canonical_list, Hl in Hj, Hk. cbn in Hj, Hk.
  injection Hj as <-. injection Hk as <-. cbn in E. injection E as E. rewrite !map_map in E.
  revert l' E. induction l as [|s l IH]; intros [|s' l']; cbn; try done.
  intros [= -> H]. f_equal. by apply IH.
Qed.

(** Timestamps inside evidence. *)
Lemma ascii_strftime w : ascii_str (strftime_utc w) = true.
Proof.
  unfold strftime_utc. destruct (ymd_of_days _) as [[y m] d].
  rewrite !ascii_str_app, !andb_true_iff. unfold str_padded.
  split_and!; first [done | apply ascii_digits, padded_range].
Qed.

Lemma canonical_timestamp_utc d : is_utc d = true → canonical_timestamp d = Ok (strftime_utc (wall d)).
Proof. intros H. unfold canonical_timestamp. by rewrite require_utc_id. Qed.

Lemma canonical_timestamp_inj d d' s :
  is_utc d = true → is_utc d' = true → in_range (wall d) = true → in_range (wall d') = true →
  canonical_timestamp d = Ok s → canonical_timestamp d' = Ok s → d = d'.
Proof.
  intros Hd Hd' Hr Hr' H H'. rewrite !canonical_timestamp_utc in * by done.
  injection H as <-. injection H' as H'.
  apply is_utc_eq in Hd, Hd'. rewrite Hd, Hd'. f_equal.
  apply (f_equal strptime_utc) in H'. rewrite !strptime_strftime in H' by done. congruence.
Qed.

#[global] Arguments lit : simpl never.
#[global] Arguments sha256_hexdigest : simpl never.
(** Tactics leave digests folded; [vm_compute] evaluates them. *)
#[global] Opaque sha256_hexdigest.

(** Discharge [evidence _ = true] for a literal dictionary: the keys compute,
    the values are taken from the hint database. *)
Create HintDb evidence.
#[export] Hint Resolve is_digest_ascii ascii_strftime ascii_str_of_Z : evidence.
Ltac solve_evidence :=
  cbn -[ascii_str]; rewrite ?andb_true_iff; split_and?;
  first [reflexivity | assumption | solve [eauto with evidence]].

(** Add the equality of the two values of field [key] to the context. *)
Ltac same_field H key E :=
  lazymatch type of H with
  | canon_eq (PyDict ?a) (PyDict ?b) =>
      let va := eval hnf in (field key a) in
      let vb := eval hnf in (field key b) in
      lazymatch va with Some ?v => lazymatch vb with Some ?w =>
        assert (canon_eq v w) as E
          by (refine (canon_eq_field key a b v w _ _ _ _ H); reflexivity)
      end end
  end.
