(* ===== verification/Values.v ===== *)
(** [packages/domain/values.py]: identifiers, the late-capture policy, money
    in integer minor units and exact decimal probabilities. *)
From S2P Require Import Prelude PyStr PyTime Json Canonical Digest.

Definition identifier_char (c : Z) : bool := is_alnum c || one_of ($"_.:-") c.

(** [_IDENTIFIER_PATTERN]: [A-Za-z0-9][A-Za-z0-9_.:-]{0,127}. *)
Definition is_identifier (s : pystr) : bool :=
  match s with
  | [] => false
  | c :: r => is_alnum c && forallb identifier_char r && (str_len r <=? 127)
  end.

(** [_METHOD_PATTERN]: [a-z][a-z0-9_-]{0,31}. *)
Definition is_payment_method (s : pystr) : bool :=
  match s with
  | [] => false
  | c :: r =>
      is_lower c && forallb (λ c, is_lower c || is_digit c || one_of ($"_-") c) r
      && (str_len r <=? 31)
  end.

(** [_CURRENCY_PATTERN]: [A-Z]{3}. *)
Definition is_currency (s : pystr) : bool := forallb is_upper s && (str_len s =? 3).

Definition MINIMUM_LATE_CAPTURE_WINDOW : timedelta := minutes 2.

Definition require_identifier (value : pystr) (field : string) : result pystr :=
  _ ← raise_if (negb (is_identifier value))
        (InvalidValue (field +:+ " must be 1-128 safe identifier characters"));
  Ok value.

Definition require_payment_method (value : pystr) (field : string) : result pystr :=
  _ ← raise_if (negb (is_payment_method value))
        (InvalidValue (field +:+ " must be a canonical lowercase payment-method identifier"));
  Ok value.

(** * The late-capture policy *)
Record LateCapturePolicy := mkLateCapturePolicy { minimum_observation_window : timedelta }.

#[export] Instance LateCapturePolicy_eq_dec : EqDecision LateCapturePolicy.
Proof. solve_decision. Defined.

(** The constructor with its [__post_init__]. *)
Definition LateCapturePolicy_init (window : timedelta) : result LateCapturePolicy :=
  _ ← raise_if (window <? MINIMUM_LATE_CAPTURE_WINDOW)
        (InvalidValue "minimum_observation_window is below the safety floor");
  Ok (mkLateCapturePolicy window).

(** Python's [max(a, b)]: the first argument unless the second is greater. *)
Definition dt_max (a b : datetime) : datetime := if dt_ltb a b then b else a.

Definition policy_observation_deadline
    (self : LateCapturePolicy) (observed_at : datetime) (extend_until : option datetime) :
    result datetime :=
  observed ← require_utc observed_at "observed_at";
  policy_deadline ← dt_add observed (minimum_observation_window self);
  match extend_until with
  | None => Ok policy_deadline
  | Some until =>
      requested ← require_utc until "extend_observation_until";
      Ok (dt_max policy_deadline requested)
  end.

Definition LateCapturePolicy_to_primitive (self : LateCapturePolicy) : pyobj :=
  PyDict [(PyStr ($"minimum_observation_microseconds"), PyInt (minimum_observation_window self))].

(** * Money *)
Record Money := mkMoney { minor_units : Z; currency : pystr }.

#[export] Instance Money_eq_dec : EqDecision Money.
Proof. solve_decision. Defined.

Definition Money_valid (m : Money) : bool := (0 <=? minor_units m) && is_currency (currency m).

Definition Money_init (units : Z) (cur : pystr) : result Money :=
  _ ← raise_if (units <? 0) (InvalidValue "money cannot be negative");
  _ ← raise_if (negb (is_currency cur))
        (InvalidValue "currency must be three uppercase ASCII letters");
  Ok (mkMoney units cur).

Definition Money_zero (cur : pystr) : result Money := Money_init 0 cur.

Definition _require_same_currency (self other : Money) : result unit :=
  raise_if (bool_decide (currency self ≠ currency other)) 
    (InvalidValue ("currency mismatch: " +:+ string_of (currency self) +:+ " != "
                   +:+ string_of (currency other))).

Definition Money_add (self other : Money) : result Money :=
  _ ← _require_same_currency self other;
  Money_init (minor_units self + minor_units other) (currency self).

Definition Money_sub (self other : Money) : result Money :=
  _ ← _require_same_currency self other;
  let result := minor_units self - minor_units other in
  _ ← raise_if (result <? 0) (InvalidValue "money subtraction cannot produce a negative amount");
  Money_init result (currency self).

Definition Money_to_primitive (self : Money) : pyobj :=
  PyDict [(PyStr ($"currency"), PyStr (currency self));
          (PyStr ($"minor_units"), PyInt (minor_units self))].

(** * Probabilities *)

(** Exact comparison of finite decimals at their common exponent. *)
Definition signed_at (e : Z) (negative : bool) (coefficient exponent : Z) : Z :=
  (if negative then - coefficient else coefficient) * 10 ^ (exponent - e).
Definition dec_compare (a b : decimal) : option comparison :=
  match a, b with
  | DFinite n c e, DFinite n' c' e' =>
      let m := Z.min e e' in Some (signed_at m n c e ?= signed_at m n' c' e')
  | _, _ => None
  end.
Definition dec_ltb (a b : decimal) : bool := bool_decide (dec_compare a b = Some Lt).
Definition dec_leb (a b : decimal) : bool := dec_ltb a b || bool_decide (dec_compare a b = Some Eq).

Definition decimal_of_int (z : Z) : decimal := DFinite (z <? 0) (Z.abs z) 0.

(** [Decimal(s)] for a string; [None] is [InvalidOperation].  Exponents past
    the C library's limits and digits outside ASCII are not modelled. *)
Definition decimal_of_str (s : pystr) : option decimal :=
  let s := List.filter (λ c, negb (c =? 95)) (strip s) in
  let '(negative, s) :=
    match s with
    | c :: r => if c =? 45 then (true, r) else if c =? 43 then (false, r) else (false, s)
    | [] => (false, [])
    end in
  let lowered := lower_ascii s in
  if bool_decide (lowered = $"inf") || bool_decide (lowered = $"infinity")
  then Some (DInfinity negative)
  else match (match strip_prefix ($"nan") lowered with
              | Some r => Some r | None => strip_prefix ($"snan") lowered end) with
  | Some payload => if forallb is_digit payload then Some DNaN else None
  | None =>
      let '(whole, r) := span_digits s in
      let '(frac, r) := match r with
                        | c :: r' => if c =? 46 then span_digits r' else ([], r)
                        | [] => ([], []) end in
      let mantissa := whole ++ frac in
      if bool_decide (mantissa = []) then None
      else
        let finish (e : Z) := Some (DFinite negative (int_of_digits mantissa) (e - str_len frac)) in
        match r with
        | [] => finish 0
        | c :: r' =>
            if one_of ($"eE") c then
              let '(eneg, r'') := match r' with
                                  | g :: r'' => if g =? 45 then (true, r'')
                                                else if g =? 43 then (false, r'') else (false, r')
                                  | [] => (false, []) end in
              if bool_decide (r'' ≠ []) && forallb is_digit r''
              then finish (if eneg then - int_of_digits r'' else int_of_digits r'')
              else None
            else None
        end
  end.

Inductive probability_arg :=
  | FromDecimal (d : decimal) | FromStr (s : pystr) | FromInt (z : Z) | FromBool | FromFloat.

Record Probability := mkProbability { prob_value : decimal }.

#[export] Instance Probability_eq_dec : EqDecision Probability.
Proof. solve_decision. Defined.

Definition Probability_init (value : probability_arg) : result Probability :=
  parsed ← match value with
           | FromBool | FromFloat =>
               Raise (InvalidValue "probability must use Decimal, string, or integer")
           | FromDecimal d => Ok d
           | FromStr s =>
               match decimal_of_str s with
               | Some d => Ok d
               | None => Raise (InvalidValue "probability is not a valid decimal")
               end
           | FromInt z => Ok (decimal_of_int z)
           end;
  _ ← raise_if (negb (is_finite parsed) || dec_ltb parsed (decimal_of_int 0)
                || dec_ltb (decimal_of_int 1) parsed)
        (InvalidValue "probability must be finite and within [0, 1]");
  Ok (mkProbability parsed).

Definition Probability_lt (self other : Probability) : bool :=
  dec_ltb (prob_value self) (prob_value other).
Definition Probability_le (self other : Probability) : bool :=
  dec_leb (prob_value self) (prob_value other).

Definition Probability_to_primitive (self : Probability) : pyobj :=
  match prob_value self with
  | DFinite n c e =>
      let rendered := trim_fraction (format_f n c e) in
      PyStr (if bool_decide (rendered = []) then $"0" else rendered)
  | DInfinity _ => PyStr ($"Infinity")
  | DNaN => PyStr ($"NaN")
  end.

(** Equality of probabilities, numeric as in Python. *)
Definition Probability_eqb (a b : Probability) : bool :=
  bool_decide (dec_compare (prob_value a) (prob_value b) = Some Eq).

(** * Lemmas *)
Lemma require_identifier_Ok v f u : require_identifier v f = Ok u ↔ u = v ∧ is_identifier v = true.
Proof.
  unfold require_identifier. split.
  - intros H. inv_ok. bools. done.
  - intros [-> ->]. done.
Qed.

Lemma require_identifier_true v f : is_identifier v = true → require_identifier v f = Ok v.
Proof. intros H. by apply require_identifier_Ok. Qed.

Lemma require_payment_method_Ok v f u :
  require_payment_method v f = Ok u ↔ u = v ∧ is_payment_method v = true.
Proof.
  unfold require_payment_method. split.
  - intros H. inv_ok. bools. done.
  - intros [-> ->]. done.
Qed.

Lemma Money_init_Ok u c m : Money_init u c = Ok m ↔ m = mkMoney u c ∧ Money_valid m = true.
Proof.
  unfold Money_init, Money_valid. split.
  - intros H. inv_ok. bools. subst. cbn. split; [done|]. rewrite Hr0. lia.
  - intros [-> H]. cbn in H. bools. destruct (Z.ltb_spec u 0); [lia|]. by rewrite H0.
Qed.

Lemma dt_max_instant a b : instant (dt_max a b) = Z.max (instant a) (instant b).
Proof. unfold dt_max, dt_ltb. destruct (Z.ltb_spec (instant a) (instant b)); lia. Qed.

Lemma dt_max_utc a b : is_utc a = true → is_utc b = true → is_utc (dt_max a b) = true.
Proof. unfold dt_max. by case_match. Qed.

Lemma policy_observation_deadline_Ok p obs ext d :
  policy_observation_deadline p obs ext = Ok d →
  is_utc d = true ∧ instant obs + minimum_observation_window p <= instant d.
Proof.
  unfold policy_observation_deadline. intros H. inv_ok. utc_facts.
  assert (is_utc r0 = true) by congruence.
  destruct ext as [until|]; inv_ok; utc_facts; subst; [|split; [done|lia]].
  split; [by apply dt_max_utc|]. rewrite dt_max_instant. lia.
Qed.

(** ** ASCII renderings: these values are evidence *)
Lemma is_alnum_ascii c : is_alnum c = true → is_ascii c = true.
Proof. unfold is_alnum, is_upper, is_lower, is_digit, is_ascii, between. lia. Qed.

Lemma one_of_lit_ascii l c : forallb is_ascii l = true → one_of l c = true → is_ascii c = true.
Proof. unfold one_of. intros Hl Hc. bools. rewrite forallb_Forall, Forall_forall in Hl. auto. Qed.

Lemma identifier_ascii s : is_identifier s = true → ascii_str s = true.
Proof.
  destruct s as [|c r]; [done|]. cbn. intros H. bools. apply (Forall_ascii identifier_char).
  - intros x Hx. unfold identifier_char in Hx. apply orb_true_iff in Hx as [Hx|Hx];
      [by apply is_alnum_ascii|by apply (one_of_lit_ascii ($"_.:-"))].
  - constructor; [unfold identifier_char; by rewrite H|by apply forallb_Forall].
Qed.

Lemma payment_method_ascii s : is_payment_method s = true → ascii_str s = true.
Proof.
  destruct s as [|c r]; [done|]. cbn. intros H. bools.
  apply (Forall_ascii (λ c, is_lower c || is_digit c || one_of ($"_-") c)).
  - intros x. rewrite !orb_true_iff. intros [[Hx|Hx]|Hx].
    + apply is_alnum_ascii. unfold is_alnum. by rewrite Hx, orb_true_r.
    + by apply is_digit_ascii.
    + by apply (one_of_lit_ascii ($"_-")).
  - constructor; [by rewrite H|by apply forallb_Forall].
Qed.

Lemma currency_ascii s : is_currency s = true → ascii_str s = true.
Proof.
  unfold is_currency. intros H. bools. apply (Forall_ascii is_upper); [|by apply forallb_Forall].
  unfold is_upper, is_ascii, between. lia.
Qed.

#[export] Hint Resolve identifier_ascii payment_method_ascii currency_ascii : evidence.

Lemma Money_evidence m : Money_valid m = true → evidence (Money_to_primitive m) = true.
Proof. unfold Money_valid. intros H. bools. solve_evidence. Qed.

Definition Probability_valid (p : Probability) : bool :=
  is_finite (prob_value p) && decimal_ok (prob_value p).

Lemma Probability_init_valid d p :
  decimal_ok d = true → Probability_init (FromDecimal d) = Ok p → Probability_valid p = true.
Proof.
  unfold Probability_init, Probability_valid. intros Hd H. inv_ok. subst. bools. cbn.
  match goal with E : is_finite _ = true |- _ => rewrite E end. by rewrite Hd.
Qed.

Lemma format_f_ascii n c e : 0 <= c → ascii_str (format_f n c e) = true.
Proof.
  intros Hc. assert (Hs : ascii_str (map digit_char (digits c)) = true)
    by (by apply ascii_digits, digits_range).
  assert (Hz : ∀ k, ascii_str (zeros k) = true).
  { intros k. unfold zeros, ascii_str. by induction (Z.to_nat k). }
  unfold format_f. rewrite ascii_str_app. apply andb_true_iff; split; [by destruct n|].
  repeat case_match; rewrite ?ascii_str_app, ?Hz, ?Hs; try done.
  rewrite ascii_str_Forall in *. rewrite !andb_true_iff, !ascii_str_Forall.
  split_and!; [by apply Forall_take| |by apply Forall_drop]. by repeat constructor.
Qed.

Lemma Probability_evidence p :
  Probability_valid p = true → evidence (Probability_to_primitive p) = true.
Proof.
  unfold Probability_valid, Probability_to_primitive. destruct (prob_value p) as [n c e| |]; cbn; try done.
  intros Hc. bools. case_match; [done|]. unfold trim_fraction.
  pose proof (format_f_ascii n c e Hc) as Hf. case_match; [|done].
  rewrite ascii_str_Forall in *. by do 2 apply rstrip_Forall.
Qed.

#[export] Hint Resolve Money_evidence Probability_evidence : evidence.

(** * Properties *)

(** the observation deadline is the later of the policy floor and the
    caller's suggestion: whatever is suggested, it is at least 120 seconds
    after the observed failure. *)
Theorem observation_deadline_floor window p obs ext d :
  LateCapturePolicy_init window = Ok p → policy_observation_deadline p obs ext = Ok d →
  instant d = Z.max (instant obs + window) (default (instant obs + window) (instant <$> ext))
  ∧ instant obs + seconds 120 <= instant d.
Proof.
  unfold LateCapturePolicy_init. intros Hp Hd. inv_ok. bools. subst p.
  pose proof (policy_observation_deadline_Ok _ _ _ _ Hd) as [_ Hle]. cbn in Hle.
  unfold MINIMUM_LATE_CAPTURE_WINDOW, minutes, seconds in *. split; [|lia].
  unfold policy_observation_deadline in Hd.
  destruct ext as [until|]; inv_ok; utc_facts; subst; cbn in *; rewrite ?dt_max_instant; lia.
Qed.

(** money arithmetic is exact: addition and subtraction of valid amounts
    succeed exactly for equal currencies (and, for subtraction, a
    non-negative difference), keep amounts valid, and undo each other. *)
Theorem money_arithmetic a b :
  Money_valid a = true → Money_valid b = true →
  (currency a = currency b →
     Money_add a b = Ok (mkMoney (minor_units a + minor_units b) (currency a))
     ∧ (s ← Money_add a b; Money_sub s b) = Ok a
     ∧ (is_ok (Money_sub a b) = true ↔ minor_units b <= minor_units a))
  ∧ (currency a ≠ currency b →
     is_ok (Money_add a b) = false ∧ is_ok (Money_sub a b) = false).
Proof.
  intros Ha Hb. assert (Hinit : ∀ u, 0 <= u → Money_init u (currency a) = Ok (mkMoney u (currency a))).
  { intros u Hu. apply Money_init_Ok. split; [done|]. unfold Money_valid in *. cbn. bools. rewrite Ha0. lia. }
  unfold Money_valid in Ha, Hb. bools.
  unfold Money_add, Money_sub, _require_same_currency. split; intros Hc.
  - rewrite !bool_decide_false by congruence. rewrite !raise_if_false, !bind_Ok_l.
    rewrite Hinit by lia. rewrite bind_Ok_l. cbn [currency minor_units].
    rewrite bool_decide_false by congruence. rewrite raise_if_false, bind_Ok_l. split_and!; [done| |].
    + destruct (Z.ltb_spec (minor_units a + minor_units b - minor_units b) 0); [lia|].
      cbn [raise_if]. rewrite bind_Ok_l, Hinit by lia. destruct a; cbn. do 2 f_equal. lia.
    + destruct (Z.ltb_spec (minor_units a - minor_units b) 0); cbn [raise_if].
      * cbn. split; [done|lia].
      * rewrite bind_Ok_l, Hinit by lia. cbn. split; [lia|done].
  - by rewrite !bool_decide_true by done.
Qed.

(** A negative zero is accepted as a probability and is numerically equal
    to zero, but has another canonical rendering, hence other digests. *)
Theorem probability_negative_zero :
  ∃ p z, Probability_init (FromStr ($"-0")) = Ok p ∧ Probability_init (FromInt 0) = Ok z
    ∧ Probability_eqb p z = true
    ∧ Probability_to_primitive p = PyStr ($"-0") ∧ Probability_to_primitive z = PyStr ($"0").
Proof. by do 2 eexists. Qed.

(** * Witnesses *)
Lemma observation_deadline_floor_witness :
  instant (utc 200000000) = Z.max (instant (utc 0) + 120000000)
                              (default (instant (utc 0) + 120000000) (Some 200000000))
  ∧ instant (utc 0) + seconds 120 <= instant (utc 200000000).
Proof.
  apply (observation_deadline_floor 120000000 (mkLateCapturePolicy 120000000) (utc 0)
           (Some (utc 200000000)) (utc 200000000)); reflexivity.
Defined.

Lemma money_arithmetic_witness :
  Money_add (mkMoney 500 ($"INR")) (mkMoney 300 ($"INR")) = Ok (mkMoney 800 ($"INR")).
Proof.
  refine (proj1 (proj1 (money_arithmetic (mkMoney 500 ($"INR")) (mkMoney 300 ($"INR")) _ _) _));
    reflexivity.
Defined.
