(* ===== verification/States.v ===== *)
(** [packages/domain/states.py]: the closed state vocabularies and their
    transition graphs, with the reachability facts the aggregate relies on. *)
From stdpp Require Import relations.
From S2P Require Import Prelude PyStr.

Inductive CanonicalPaymentState :=
  | UNKNOWN | UNPAID | AUTHORIZED | PARTIALLY_PAID | PAID | OVERPAID | EXCEPTION.

Inductive RecoveryState :=
  | DORMANT | OBSERVING | ASSESSING | WAITING | APPROVAL_REQUIRED | ACTION_QUEUED
  | EXECUTING | ACTION_UNCERTAIN | ACTIVE | RECOVERED | SUPPRESSED_PAID
  | SUPPRESSED_POLICY | EXHAUSTED | FAILED_SAFE | ESCALATED | DUPLICATE_REVIEW.

Inductive IncidentState := NORMAL | SUSPECTED | CONFIRMED | COOLING.

#[export] Instance CanonicalPaymentState_eq_dec : EqDecision CanonicalPaymentState.
Proof. solve_decision. Defined.
#[export] Instance RecoveryState_eq_dec : EqDecision RecoveryState.
Proof. solve_decision. Defined.
#[export] Instance IncidentState_eq_dec : EqDecision IncidentState.
Proof. solve_decision. Defined.

(** The members' string values. *)
Definition payment_state_value (s : CanonicalPaymentState) : string :=
  match s with
  | UNKNOWN => "unknown" | UNPAID => "unpaid" | AUTHORIZED => "authorized"
  | PARTIALLY_PAID => "partially_paid" | PAID => "paid" | OVERPAID => "overpaid"
  | EXCEPTION => "exception"
  end.
Definition recovery_state_value (s : RecoveryState) : string :=
  match s with
  | DORMANT => "dormant" | OBSERVING => "observing" | ASSESSING => "assessing"
  | WAITING => "waiting" | APPROVAL_REQUIRED => "approval_required"
  | ACTION_QUEUED => "action_queued" | EXECUTING => "executing"
  | ACTION_UNCERTAIN => "action_uncertain" | ACTIVE => "active"
  | RECOVERED => "recovered" | SUPPRESSED_PAID => "suppressed_paid"
  | SUPPRESSED_POLICY => "suppressed_policy" | EXHAUSTED => "exhausted"
  | FAILED_SAFE => "failed_safe" | ESCALATED => "escalated"
  | DUPLICATE_REVIEW => "duplicate_review"
  end.
Definition incident_state_value (s : IncidentState) : string :=
  match s with
  | NORMAL => "normal" | SUSPECTED => "suspected" | CONFIRMED => "confirmed"
  | COOLING => "cooling"
  end.

Definition all_recovery_states : list RecoveryState :=
  [DORMANT; OBSERVING; ASSESSING; WAITING; APPROVAL_REQUIRED; ACTION_QUEUED; EXECUTING;
   ACTION_UNCERTAIN; ACTIVE; RECOVERED; SUPPRESSED_PAID; SUPPRESSED_POLICY; EXHAUSTED;
   FAILED_SAFE; ESCALATED; DUPLICATE_REVIEW].

Definition COLLECTION_TERMINAL_STATES : list RecoveryState :=
  [RECOVERED; SUPPRESSED_PAID; SUPPRESSED_POLICY; EXHAUSTED; FAILED_SAFE; ESCALATED;
   DUPLICATE_REVIEW].

Definition NONTERMINAL_RECOVERY_STATES : list RecoveryState :=
  List.filter (λ s, negb (bool_decide (s ∈ COLLECTION_TERMINAL_STATES))) all_recovery_states.

Definition _PAYMENT_TRANSITIONS (s : CanonicalPaymentState) : list CanonicalPaymentState :=
  match s with
  | UNKNOWN => [UNPAID; AUTHORIZED; PARTIALLY_PAID; PAID; OVERPAID; EXCEPTION]
  | UNPAID => [AUTHORIZED; PARTIALLY_PAID; PAID; OVERPAID; EXCEPTION]
  | AUTHORIZED => [PARTIALLY_PAID; PAID; OVERPAID; EXCEPTION]
  | PARTIALLY_PAID => [PAID; OVERPAID; EXCEPTION]
  | PAID => [OVERPAID; EXCEPTION]
  | OVERPAID => [EXCEPTION]
  | EXCEPTION => []
  end.

Definition _RECOVERY_TRANSITIONS (s : RecoveryState) : list RecoveryState :=
  match s with
  | DORMANT => [OBSERVING]
  | OBSERVING => [ASSESSING; SUPPRESSED_PAID]
  | ASSESSING => [WAITING; APPROVAL_REQUIRED; ACTION_QUEUED; EXHAUSTED; SUPPRESSED_POLICY;
                  SUPPRESSED_PAID; ESCALATED]
  | WAITING => [ASSESSING; SUPPRESSED_PAID; SUPPRESSED_POLICY; EXHAUSTED]
  | APPROVAL_REQUIRED => [ACTION_QUEUED; SUPPRESSED_POLICY; SUPPRESSED_PAID]
  | ACTION_QUEUED => [EXECUTING; SUPPRESSED_PAID; SUPPRESSED_POLICY]
  | EXECUTING => [ACTIVE; ACTION_UNCERTAIN; FAILED_SAFE; SUPPRESSED_PAID]
  | ACTION_UNCERTAIN => [ACTIVE; ACTION_QUEUED; ESCALATED; SUPPRESSED_PAID]
  | ACTIVE => [RECOVERED; SUPPRESSED_PAID; ASSESSING; EXHAUSTED]
  | RECOVERED | SUPPRESSED_PAID | SUPPRESSED_POLICY | EXHAUSTED | FAILED_SAFE | ESCALATED
  | DUPLICATE_REVIEW => []
  end.

Definition _INCIDENT_TRANSITIONS (s : IncidentState) : list IncidentState :=
  match s with
  | NORMAL => [SUSPECTED]
  | SUSPECTED => [CONFIRMED; NORMAL]
  | CONFIRMED => [COOLING]
  | COOLING => [CONFIRMED; NORMAL]
  end.

(** [true] when the state changes, [false] when it already is the target. *)
Definition _validate_transition {S} `{!EqDecision S}
    (machine : string) (value : S → string) (graph : S → list S) (current target : S) :
    result bool :=
  if decide (current = target) then Ok false
  else if decide (target ∈ graph current) then Ok true
  else Raise (InvalidTransition machine (value current) (value target)).

Definition validate_payment_transition (current target : CanonicalPaymentState) : result bool :=
  _validate_transition "payment" payment_state_value _PAYMENT_TRANSITIONS current target.

Definition validate_recovery_transition (current target : RecoveryState) : result bool :=
  if decide (current = target) then Ok false
  else if decide (target = DUPLICATE_REVIEW ∧ current ≠ DORMANT) then Ok true
  else _validate_transition "recovery" recovery_state_value _RECOVERY_TRANSITIONS current target.

Definition validate_incident_transition (current target : IncidentState) : result bool :=
  _validate_transition "incident" incident_state_value _INCIDENT_TRANSITIONS current target.

(** * Lemmas *)

(** The order payment truth moves in. *)
Definition payment_rank (s : CanonicalPaymentState) : Z :=
  match s with
  | UNKNOWN => 0 | UNPAID => 1 | AUTHORIZED => 2 | PARTIALLY_PAID => 3 | PAID => 4
  | OVERPAID => 5 | EXCEPTION => 6
  end.

Definition is_terminal (s : RecoveryState) : bool := bool_decide (s ∈ COLLECTION_TERMINAL_STATES).

Definition payment_step (s t : CanonicalPaymentState) : Prop :=
  validate_payment_transition s t = Ok true.
Definition recovery_step (s t : RecoveryState) : Prop :=
  validate_recovery_transition s t = Ok true.
#[export] Instance payment_step_dec : RelDecision payment_step.
Proof. intros s t. unfold payment_step. destruct (validate_payment_transition s t) as [[]|];
  [left|right|right]; congruence. Defined.
#[export] Instance recovery_step_dec : RelDecision recovery_step.
Proof. intros s t. unfold recovery_step. destruct (validate_recovery_transition s t) as [[]|];
  [left|right|right]; congruence. Defined.

Lemma payment_transition_Ok s t b :
  validate_payment_transition s t = Ok b →
  (b = false ∧ s = t) ∨ (b = true ∧ payment_rank s < payment_rank t).
Proof. destruct s, t; cbn; intros [= <-]; first [left; done | right; done]. Qed.

(** A validated transition either stays, follows the graph, or opens a
    duplicate review of a started case. *)
Lemma recovery_transition_Ok s t b :
  validate_recovery_transition s t = Ok b →
  (b = false ∧ s = t)
  ∨ (b = true ∧ s ≠ t ∧ (t ∈ _RECOVERY_TRANSITIONS s ∨ (t = DUPLICATE_REVIEW ∧ s ≠ DORMANT))).
Proof.
  unfold validate_recovery_transition, _validate_transition. intros H.
  repeat case_decide; simplify_eq; naive_solver.
Qed.

Lemma recovery_transition_terminal s t b :
  is_terminal s = true → validate_recovery_transition s t = Ok b →
  s = t ∨ t = DUPLICATE_REVIEW.
Proof. destruct s; cbn; try done; destruct t; cbn; auto; done. Qed.

Lemma is_terminal_nonterminal s :
  bool_decide (s ∈ NONTERMINAL_RECOVERY_STATES) = negb (is_terminal s).
Proof. by destruct s. Qed.

(** * Properties *)

(** payment truth only moves forward: along any sequence of allowed
    transitions its rank never decreases, so no earlier truth comes back. *)
Theorem payment_truth_monotone s t :
  rtc payment_step s t → payment_rank s <= payment_rank t ∧ (payment_rank s = payment_rank t → s = t).
Proof.
  induction 1 as [s|s u t Hst _ [IH IH']]; [done|].
  apply payment_transition_Ok in Hst as [[? _]|[_ Hst]]; [done|]. split; lia.
Qed.

(** a collection-terminal recovery state is never left except towards
    duplicate review, and duplicate review is final. *)
Theorem terminal_states_closed s t :
  is_terminal s = true → rtc recovery_step s t → t = s ∨ t = DUPLICATE_REVIEW.
Proof.
  intros Hs H. revert Hs. induction H as [s|s u t Hst _ IH]; intros Hs; [by left|].
  destruct (recovery_transition_terminal _ _ _ Hs Hst) as [<-| ->]; [auto|].
  destruct (IH eq_refl) as [->| ->]; auto.
Qed.

(** The states on one allowed path. *)
Fixpoint path_ok (s : RecoveryState) (path : list RecoveryState) : bool :=
  match path with
  | [] => true
  | t :: path => bool_decide (recovery_step s t) && path_ok t path
  end.
Definition path_end (s : RecoveryState) (path : list RecoveryState) : RecoveryState :=
  default s (last path).

(** A path from [DORMANT] to each state, and from each to a terminal one. *)
Definition path_to (s : RecoveryState) : list RecoveryState :=
  match s with
  | DORMANT => []
  | OBSERVING => [OBSERVING]
  | ASSESSING => [OBSERVING; ASSESSING]
  | DUPLICATE_REVIEW => [OBSERVING; DUPLICATE_REVIEW]
  | EXECUTING => [OBSERVING; ASSESSING; ACTION_QUEUED; EXECUTING]
  | ACTION_UNCERTAIN => [OBSERVING; ASSESSING; ACTION_QUEUED; EXECUTING; ACTION_UNCERTAIN]
  | ACTIVE => [OBSERVING; ASSESSING; ACTION_QUEUED; EXECUTING; ACTIVE]
  | RECOVERED => [OBSERVING; ASSESSING; ACTION_QUEUED; EXECUTING; ACTIVE; RECOVERED]
  | FAILED_SAFE => [OBSERVING; ASSESSING; ACTION_QUEUED; EXECUTING; FAILED_SAFE]
  | s => [OBSERVING; ASSESSING; s]
  end.
Definition path_from (s : RecoveryState) : list RecoveryState :=
  match s with
  | DORMANT => [OBSERVING; SUPPRESSED_PAID]
  | s => if is_terminal s then [] else [SUPPRESSED_PAID]
  end.

Lemma path_ok_rtc s path : path_ok s path = true → rtc recovery_step s (path_end s path).
Proof.
  unfold path_end. revert s. induction path as [|t path IH]; cbn -[recovery_step]; intros s H; [done|].
  bools. specialize (IH _ H0). rewrite last_cons. destruct (last path); eauto using rtc_l.
Qed.

(** the recovery graph is exactly the vocabulary: every state can be
    reached from [DORMANT], which is never re-entered, and from every state a
    collection-terminal one can be reached. *)
Theorem recovery_graph_complete s :
  rtc recovery_step DORMANT s
  ∧ ¬ recovery_step s DORMANT
  ∧ ∃ t, is_terminal t = true ∧ rtc recovery_step s t.
Proof.
  split_and!.
  - replace s with (path_end DORMANT (path_to s)) at 1 by (by destruct s).
    apply path_ok_rtc. by destruct s.
  - unfold recovery_step. by destruct s.
  - exists (path_end s (path_from s)). split; [by destruct s|].
    apply path_ok_rtc. by destruct s.
Qed.

(** * Witnesses *)
Lemma payment_truth_monotone_witness : payment_rank UNPAID <= payment_rank PAID.
Proof.
  apply (payment_truth_monotone UNPAID PAID). by apply rtc_once.
Defined.

Lemma terminal_states_closed_witness : DUPLICATE_REVIEW = RECOVERED ∨ DUPLICATE_REVIEW = DUPLICATE_REVIEW.
Proof.
  apply (terminal_states_closed RECOVERED DUPLICATE_REVIEW); [reflexivity|]. by apply rtc_once.
Defined.
