(* ===== verification/Actions.v ===== *)
(** [packages/domain/actions.py]: the closed action catalogue, proposals with
    their derived action key and digest, and approvals.  A record value is
    what the constructor stores; [*_post_init] is [__post_init__] on the raw
    arguments, and a value the program holds is a fixed point of it. *)
From S2P Require Import Prelude PyStr Sha256 PyTime Json Canonical Digest Values.

Inductive ActionType :=
  | WAIT | CREATE_STANDARD_PAYMENT_LINK | NOTIFY_EXISTING_LINK | CANCEL_PAYMENT_LINK
  | ESCALATE | STOP.

#[export] Instance ActionType_eq_dec : EqDecision ActionType.
Proof. solve_decision. Defined.

Definition action_type_value (a : ActionType) : pystr :=
  match a with
  | WAIT => $"wait"
  | CREATE_STANDARD_PAYMENT_LINK => $"create_standard_payment_link"
  | NOTIFY_EXISTING_LINK => $"notify_existing_link"
  | CANCEL_PAYMENT_LINK => $"cancel_payment_link"
  | ESCALATE => $"escalate"
  | STOP => $"stop"
  end.

Definition all_action_types : list ActionType :=
  [WAIT; CREATE_STANDARD_PAYMENT_LINK; NOTIFY_EXISTING_LINK; CANCEL_PAYMENT_LINK; ESCALATE; STOP].

Definition COLLECTION_ACTIONS : list ActionType :=
  [CREATE_STANDARD_PAYMENT_LINK; NOTIFY_EXISTING_LINK].
Definition CONTACT_ACTIONS : list ActionType := [NOTIFY_EXISTING_LINK].
Definition PROTECTIVE_ACTIONS : list ActionType := [CANCEL_PAYMENT_LINK].
Definition INTERNAL_ACTIONS : list ActionType := [WAIT; ESCALATE; STOP].
Definition EXTERNAL_ACTIONS : list ActionType := COLLECTION_ACTIONS ++ PROTECTIVE_ACTIONS.

(** [value in SET] for the frozen sets of the source. *)
Definition mem {A} `{!EqDecision A} (x : A) (l : list A) : bool := bool_decide (x ∈ l).

(** * Proposals *)
Record ActionProposal := mkActionProposal {
  proposal_id : pystr;
  proposal_merchant_id : pystr;
  proposal_case_id : pystr;
  proposal_decision_version : Z;
  action_type : ActionType;
  created_at : datetime;
  expires_at : datetime;
  attempt_ordinal : Z;
  amount : option Money;
  payment_method : option pystr;
  expected_value_minor : option Z;
  model_confidence : option Probability;
  requires_approval : bool;
  instrument_reference : option pystr
}.

#[export] Instance ActionProposal_eq_dec : EqDecision ActionProposal.
Proof. solve_decision. Defined.

(** [if x is not None: check(x)] *)
Definition when_some {A} (o : option A) (check : A → result A) : result (option A) :=
  match o with None => Ok None | Some a => v ← check a; Ok (Some v) end.

(** The checks on what an action of each class may carry. *)
Definition check_collection_fields (p : ActionProposal) : result unit :=
  if mem (action_type p) COLLECTION_ACTIONS then
    _ ← raise_if (match amount p with None => true | Some m => minor_units m =? 0 end)
          (InvalidValue "collection proposals require a positive amount");
    raise_if (bool_decide (payment_method p = None))
      (InvalidValue "collection proposals require a payment method")
  else
    raise_if (bool_decide (amount p ≠ None) || bool_decide (payment_method p ≠ None))
      (InvalidValue "non-collection proposals cannot carry amount or payment method").

Definition check_instrument_reference (p : ActionProposal) : result unit :=
  if decide (action_type p = CANCEL_PAYMENT_LINK) then
    raise_if (bool_decide (instrument_reference p = None))
      (InvalidValue "cancellation requires an instrument reference")
  else
    raise_if (bool_decide (instrument_reference p ≠ None))
      (InvalidValue "only cancellation proposals carry an instrument reference").

Definition ActionProposal_post_init (p : ActionProposal) : result ActionProposal :=
  _ ← require_identifier (proposal_id p) "proposal_id";
  _ ← require_identifier (proposal_merchant_id p) "merchant_id";
  _ ← require_identifier (proposal_case_id p) "case_id";
  _ ← raise_if (proposal_decision_version p <? 1)
        (InvalidValue "decision_version must be a positive integer");
  _ ← raise_if (attempt_ordinal p <? 1)
        (InvalidValue "attempt_ordinal must be a positive integer");
  created ← require_utc (created_at p) "created_at";
  expires ← require_utc (expires_at p) "expires_at";
  _ ← raise_if (dt_leb expires created)
        (InvalidValue "proposal expires_at must be after created_at");
  _ ← when_some (payment_method p) (λ m, require_payment_method m "payment_method");
  _ ← when_some (instrument_reference p) (λ i, require_identifier i "instrument_reference");
  _ ← check_collection_fields p;
  _ ← check_instrument_reference p;
  Ok (mkActionProposal (proposal_id p) (proposal_merchant_id p) (proposal_case_id p)
        (proposal_decision_version p) (action_type p) created expires (attempt_ordinal p)
        (amount p) (payment_method p) (expected_value_minor p) (model_confidence p)
        (requires_approval p) (instrument_reference p)).

Definition action_key_material (p : ActionProposal) : pyobj :=
  PyDict [(PyStr ($"action_type"), PyStr (action_type_value (action_type p)));
          (PyStr ($"attempt_ordinal"), PyInt (attempt_ordinal p));
          (PyStr ($"case_id"), PyStr (proposal_case_id p));
          (PyStr ($"decision_version"), PyInt (proposal_decision_version p));
          (PyStr ($"merchant_id"), PyStr (proposal_merchant_id p));
          (PyStr ($"schema"), PyStr ($"retrywise-action-key-v1"))].

Definition action_key (p : ActionProposal) : result pystr :=
  digest ← sha256_hexdigest (action_key_material p);
  Ok ($"act_" ++ digest).

(** [None if x is None else f(x)] inside a primitive. *)
Definition opt_prim {A} (f : A → pyobj) (o : option A) : pyobj :=
  match o with None => PyNone | Some a => f a end.

Definition ActionProposal_to_primitive (p : ActionProposal) : result pyobj :=
  key ← action_key p;
  created ← canonical_timestamp (created_at p);
  expires ← canonical_timestamp (expires_at p);
  Ok (PyDict
    [(PyStr ($"action_key"), PyStr key);
     (PyStr ($"action_type"), PyStr (action_type_value (action_type p)));
     (PyStr ($"amount"), opt_prim Money_to_primitive (amount p));
     (PyStr ($"attempt_ordinal"), PyInt (attempt_ordinal p));
     (PyStr ($"case_id"), PyStr (proposal_case_id p));
     (PyStr ($"created_at"), PyStr created);
     (PyStr ($"decision_version"), PyInt (proposal_decision_version p));
     (PyStr ($"expected_value_minor"), opt_prim PyInt (expected_value_minor p));
     (PyStr ($"expires_at"), PyStr expires);
     (PyStr ($"instrument_reference"), opt_prim PyStr (instrument_reference p));
     (PyStr ($"merchant_id"), PyStr (proposal_merchant_id p));
     (PyStr ($"model_confidence"), opt_prim Probability_to_primitive (model_confidence p));
     (PyStr ($"payment_method"), opt_prim PyStr (payment_method p));
     (PyStr ($"proposal_id"), PyStr (proposal_id p));
     (PyStr ($"requires_approval"), PyBool (requires_approval p))]).

Definition proposal_digest (p : ActionProposal) : result pystr :=
  prim ← ActionProposal_to_primitive p; sha256_hexdigest prim.

(** * Approvals *)
Record Approval := mkApproval {
  approval_id : pystr;
  approval_merchant_id : pystr;
  approval_case_id : pystr;
  approval_action_key : pystr;
  approval_proposal_digest : pystr;
  approval_decision_version : Z;
  approved_by : pystr;
  approved_at : datetime;
  approval_expires_at : datetime;
  granted : bool
}.

#[export] Instance Approval_eq_dec : EqDecision Approval.
Proof. solve_decision. Defined.

Definition Approval_post_init (a : Approval) : result Approval :=
  _ ← require_identifier (approval_id a) "approval_id";
  _ ← require_identifier (approval_merchant_id a) "merchant_id";
  _ ← require_identifier (approval_case_id a) "case_id";
  _ ← require_identifier (approved_by a) "approved_by";
  _ ← raise_if (negb (starts_with ($"act_") (approval_action_key a)))
        (InvalidValue "approval action_key is invalid");
  _ ← raise_if (negb (is_digest (approval_proposal_digest a)))
        (InvalidValue "approval proposal_digest is invalid");
  _ ← raise_if (approval_decision_version a <? 1)
        (InvalidValue "approval decision_version must be positive");
  approved ← require_utc (approved_at a) "approved_at";
  expires ← require_utc (approval_expires_at a) "expires_at";
  _ ← raise_if (dt_leb expires approved)
        (InvalidValue "approval expires_at must be after approved_at");
  Ok (mkApproval (approval_id a) (approval_merchant_id a) (approval_case_id a)
        (approval_action_key a) (approval_proposal_digest a) (approval_decision_version a)
        (approved_by a) approved expires (granted a)).

Definition Approval_to_primitive (a : Approval) : result pyobj :=
  approved ← canonical_timestamp (approved_at a);
  expires ← canonical_timestamp (approval_expires_at a);
  Ok (PyDict
    [(PyStr ($"action_key"), PyStr (approval_action_key a));
     (PyStr ($"approval_id"), PyStr (approval_id a));
     (PyStr ($"approved_at"), PyStr approved);
     (PyStr ($"approved_by"), PyStr (approved_by a));
     (PyStr ($"case_id"), PyStr (approval_case_id a));
     (PyStr ($"decision_version"), PyInt (approval_decision_version a));
     (PyStr ($"expires_at"), PyStr expires);
     (PyStr ($"granted"), PyBool (granted a));
     (PyStr ($"merchant_id"), PyStr (approval_merchant_id a));
     (PyStr ($"proposal_digest"), PyStr (approval_proposal_digest a))]).

#[global] Arguments action_key : simpl never.
#[global] Arguments ActionProposal_to_primitive : simpl never.
#[global] Arguments proposal_digest : simpl never.

(** * Values the program holds *)

(** A stored timestamp: normalised to UTC, inside [datetime]'s range. *)
Definition stored (d : datetime) : bool := is_utc d && in_range (wall d).

Record ActionProposal_valid (p : ActionProposal) : Prop := {
  valid_init : ActionProposal_post_init p = Ok p;
  valid_created : stored (created_at p) = true;
  valid_expires : stored (expires_at p) = true;
  valid_amount : ∀ m, amount p = Some m → Money_valid m = true;
  valid_confidence : ∀ c, model_confidence p = Some c → Probability_valid c = true
}.

Lemma when_some_Ok {A} (o : option A) (check : A → result A) r :
  when_some o check = Ok r → ∀ a, o = Some a → is_ok (check a) = true.
Proof. destruct o; cbn; intros H b Hb; inv_ok; simplify_eq. by rewrite Hr. Qed.

(** What the constructor guarantees. *)
Record proposal_facts (p : ActionProposal) : Prop := {
  fact_id : is_identifier (proposal_id p) = true;
  fact_merchant : is_identifier (proposal_merchant_id p) = true;
  fact_case : is_identifier (proposal_case_id p) = true;
  fact_version : 1 <= proposal_decision_version p;
  fact_ordinal : 1 <= attempt_ordinal p;
  fact_created : is_utc (created_at p) = true;
  fact_expires : is_utc (expires_at p) = true;
  fact_window : instant (created_at p) < instant (expires_at p);
  fact_method : ∀ m, payment_method p = Some m → is_payment_method m = true;
  fact_instrument : ∀ i, instrument_reference p = Some i → is_identifier i = true;
  fact_collection : mem (action_type p) COLLECTION_ACTIONS = true →
    ∃ m, amount p = Some m ∧ minor_units m ≠ 0 ∧ payment_method p ≠ None;
  fact_other : mem (action_type p) COLLECTION_ACTIONS = false →
    amount p = None ∧ payment_method p = None;
  fact_cancel : action_type p = CANCEL_PAYMENT_LINK ↔ instrument_reference p ≠ None
}.

Lemma check_collection_Ok p :
  check_collection_fields p = Ok tt →
  (mem (action_type p) COLLECTION_ACTIONS = true →
     ∃ m, amount p = Some m ∧ minor_units m ≠ 0 ∧ payment_method p ≠ None)
  ∧ (mem (action_type p) COLLECTION_ACTIONS = false → amount p = None ∧ payment_method p = None).
Proof.
  unfold check_collection_fields. case_match; intros H1; inv_ok; bools.
  - split; [|done]. intros _. destruct (amount p) as [m|]; [|done]. bools. by exists m.
  - split; [done|]. intros _. split; by apply dec_stable.
Qed.

Lemma check_instrument_Ok p :
  check_instrument_reference p = Ok tt →
  action_type p = CANCEL_PAYMENT_LINK ↔ instrument_reference p ≠ None.
Proof. unfold check_instrument_reference. case_decide; intros H1; inv_ok; bools; [done|]. split; naive_solver. Qed.

Lemma ActionProposal_post_init_Ok p q :
  ActionProposal_post_init p = Ok q →
  proposal_facts q ∧ ActionProposal_post_init q = Ok q ∧ action_type q = action_type p.
Proof.
  unfold ActionProposal_post_init. intros H. inv_ok. subst q.
  repeat match goal with u : unit |- _ => destruct u end.
  rewrite !require_identifier_Ok in *. destruct_and!. subst. utc_facts. unfold dt_leb in *. bools.
  split_and!; [| |done].
  - split; cbn; try done; try lia; try by (apply check_collection_Ok || apply check_instrument_Ok).
    + intros m Hm. eapply (when_some_Ok (payment_method p)) in Hm as [? Hm]%is_ok_true; [|done].
      by apply require_payment_method_Ok in Hm as [_ ?].
    + intros m Hm. eapply (when_some_Ok (instrument_reference p)) in Hm as [? Hm]%is_ok_true; [|done].
      by apply require_identifier_Ok in Hm as [_ ?].
  - cbn. rewrite !require_identifier_true by done.
    repeat match goal with |- context [?a <? ?b] => destruct (Z.ltb_spec a b); [lia|] end.
    cbn. rewrite !require_utc_id by done. cbn. unfold dt_leb. 
    match goal with |- context [?a <=? ?b] => destruct (Z.leb_spec a b); [lia|] end. cbn.
    rewrite Hr7, bind_Ok_l, Hr8, bind_Ok_l.
    match goal with |- context [check_collection_fields ?x] =>
      change (check_collection_fields x) with (check_collection_fields p) end.
    rewrite Hr9, bind_Ok_l.
    match goal with |- context [check_instrument_reference ?x] =>
      change (check_instrument_reference x) with (check_instrument_reference p) end.
    by rewrite Hr10.
Qed.

Lemma valid_facts p : ActionProposal_valid p → proposal_facts p.
Proof. intros [H _ _ _ _]. by apply ActionProposal_post_init_Ok in H as [? _]. Qed.

(** ** Digests of a held proposal *)
Lemma action_type_value_inj a b : action_type_value a = action_type_value b → a = b.
Proof. by destruct a, b. Qed.

Lemma ascii_action_type a : ascii_str (action_type_value a) = true.
Proof. by destruct a. Qed.

Lemma ascii_act_key h : is_digest h = true → ascii_str ($"act_" ++ h) = true.
Proof. intros H%is_digest_ascii. by rewrite ascii_str_app, H. Qed.

Lemma stored_timestamp d : stored d = true → canonical_timestamp d = Ok (strftime_utc (wall d)).
Proof. unfold stored. intros H. bools. by apply canonical_timestamp_utc. Qed.

#[export] Hint Resolve ascii_action_type ascii_act_key : evidence.

Lemma action_key_evidence p : proposal_facts p → evidence (action_key_material p) = true.
Proof. intros []. solve_evidence. Qed.

Lemma action_key_total p :
  proposal_facts p → ∃ h, action_key p = Ok ($"act_" ++ h) ∧ is_digest h = true.
Proof.
  intros Hp%action_key_evidence. destruct (sha256_hexdigest_total _ Hp) as [h Hh].
  exists h. unfold action_key. rewrite Hh. split; [done|]. by eapply sha256_hexdigest_digest.
Qed.

Lemma action_key_Ok p k : action_key p = Ok k → ∃ h, k = $"act_" ++ h ∧ is_digest h = true.
Proof.
  unfold action_key. intros H. inv_ok. subst. eexists. split; [done|].
  by eapply sha256_hexdigest_digest.
Qed.

Lemma evidence_opt {A} (f : A → pyobj) o :
  (∀ a, o = Some a → evidence (f a) = true) → evidence (opt_prim f o) = true.
Proof. destruct o; cbn; auto. Qed.

Lemma ActionProposal_primitive p :
  ActionProposal_valid p → ∃ prim, ActionProposal_to_primitive p = Ok prim ∧ evidence prim = true.
Proof.
  intros Hp. pose proof (valid_facts _ Hp) as Hf. destruct Hp.
  destruct (action_key_total p Hf) as (h & Hk & Hh). destruct Hf.
  unfold ActionProposal_to_primitive. rewrite Hk, !stored_timestamp by done.
  rewrite !bind_Ok_l. eexists. split; [done|].
  cbn -[ascii_str opt_prim]. rewrite !andb_true_iff. split_and!; try reflexivity;
    try (apply evidence_opt; intros); eauto using evidence_str, evidence_int with evidence.
Qed.

Lemma proposal_digest_total p :
  ActionProposal_valid p → ∃ h, proposal_digest p = Ok h ∧ is_digest h = true.
Proof.
  intros (prim & Hp & He)%ActionProposal_primitive. destruct (sha256_hexdigest_total _ He) as [h Hh].
  exists h. unfold proposal_digest. rewrite Hp. split; [done|]. by eapply sha256_hexdigest_digest.
Qed.

(** * Properties *)

(** What an action key stands for. *)
Definition same_action (p q : ActionProposal) : Prop :=
  action_type p = action_type q ∧ attempt_ordinal p = attempt_ordinal q
  ∧ proposal_case_id p = proposal_case_id q
  ∧ proposal_decision_version p = proposal_decision_version q
  ∧ proposal_merchant_id p = proposal_merchant_id q.

(** the action key is the identity of the action: proposals for the same
    merchant, case, decision version, action and attempt have one key whatever
    else they carry, and proposals with one key agree on all five unless
    SHA-256 confuses their two key materials. *)
Theorem action_key_identity p q k :
  ActionProposal_valid p → ActionProposal_valid q → action_key p = Ok k →
  (same_action p q → action_key q = Ok k)
  ∧ (action_key q = Ok k →
     same_action p q ∨ collides (action_key_material p) (action_key_material q)).
Proof.
  intros Hp%valid_facts Hq%valid_facts H. split.
  - intros (Ha & Ho & Hc & Hv & Hm). unfold action_key, action_key_material in *.
    by rewrite <- Ha, <- Ho, <- Hc, <- Hv, <- Hm.
  - unfold action_key in *. intros H'. inv_ok. subst.
    apply app_inv_head in H'. subst.
    destruct (sha256_hexdigest_inj (action_key_material p) (action_key_material q) r0) as [E|]; auto
      using action_key_evidence.
    left. unfold action_key_material in E.
    same_field E ($"action_type") E1. same_field E ($"attempt_ordinal") E2.
    same_field E ($"case_id") E3. same_field E ($"decision_version") E4.
    same_field E ($"merchant_id") E5. unfold same_action.
    apply canon_eq_str in E1, E3, E5. apply canon_eq_int in E2, E4.
    auto using action_type_value_inj.
Qed.

(** A proposal up to the model's confidence. *)
Definition without_confidence (p : ActionProposal) : ActionProposal :=
  mkActionProposal (proposal_id p) (proposal_merchant_id p) (proposal_case_id p)
    (proposal_decision_version p) (action_type p) (created_at p) (expires_at p)
    (attempt_ordinal p) (amount p) (payment_method p) (expected_value_minor p) None
    (requires_approval p) (instrument_reference p).

Lemma canon_eq_opt {A} (f : A → pyobj) o o' :
  (∀ a, to_canonical_primitive (f a) ≠ Ok JNull) → (∀ a b, canon_eq (f a) (f b) → a = b) →
  canon_eq (opt_prim f o) (opt_prim f o') → o = o'.
Proof.
  intros Hnull Hinj. destruct o as [a|], o' as [b|]; cbn; intros H; try done.
  - f_equal. by apply Hinj.
  - destruct H as (j & k & Hj & Hk & E). cbn in Hk. injection Hk as <-. cbn in E.
    destruct j; try done. by apply Hnull in Hj.
  - destruct H as (j & k & Hj & Hk & E). cbn in Hj. injection Hj as <-. cbn in E.
    destruct k; try done. by apply Hnull in Hk.
Qed.

Lemma canon_eq_money a b : canon_eq (Money_to_primitive a) (Money_to_primitive b) → a = b.
Proof.
  unfold Money_to_primitive. intros E. same_field E ($"currency") E1. same_field E ($"minor_units") E2.
  apply canon_eq_str in E1. apply canon_eq_int in E2. destruct a, b; cbn in *; congruence.
Qed.

Lemma dict_not_null items : to_canonical_primitive (PyDict items) ≠ Ok JNull.
Proof. rewrite to_canonical_dict. intros H. by inv_ok. Qed.

Lemma stored_strftime_inj d d' :
  stored d = true → stored d' = true → strftime_utc (wall d) = strftime_utc (wall d') → d = d'.
Proof.
  unfold stored. intros Hd Hd' H. bools.
  apply (canonical_timestamp_inj _ _ (strftime_utc (wall d))); rewrite ?canonical_timestamp_utc by done;
    congruence.
Qed.

Lemma canon_eq_timestamp d d' :
  stored d = true → stored d' = true →
  canon_eq (PyStr (strftime_utc (wall d))) (PyStr (strftime_utc (wall d'))) → d = d'.
Proof. intros Hd Hd' H%canon_eq_str. by apply stored_strftime_inj. Qed.

(** the digest an approval signs binds the whole proposal: two proposals
    with one digest differ at most in how a numerically rendered confidence is
    stored, unless SHA-256 confuses their two primitives. *)
Theorem proposal_digest_binding p q h :
  ActionProposal_valid p → ActionProposal_valid q →
  proposal_digest p = Ok h → proposal_digest q = Ok h →
  (without_confidence p = without_confidence q
   ∧ canon_eq (opt_prim Probability_to_primitive (model_confidence p))
              (opt_prim Probability_to_primitive (model_confidence q)))
  ∨ ∃ v w, ActionProposal_to_primitive p = Ok v ∧ ActionProposal_to_primitive q = Ok w
           ∧ collides v w.
Proof.
  intros Hp Hq H H'.
  destruct (ActionProposal_primitive p Hp) as (v & Hv & Hve).
  destruct (ActionProposal_primitive q Hq) as (w & Hw & Hwe).
  unfold proposal_digest in H, H'. rewrite Hv in H. rewrite Hw in H'. cbn in H, H'.
  destruct (sha256_hexdigest_inj v w h) as [E|E]; auto; [left|right; eauto].
  destruct (valid_facts p Hp), (valid_facts q Hq), Hp, Hq.
  unfold ActionProposal_to_primitive in *. rewrite !stored_timestamp in * by done.
  inv_ok. subst.
  same_field E ($"action_type") E1. same_field E ($"amount") E2. same_field E ($"attempt_ordinal") E3.
  same_field E ($"case_id") E4. same_field E ($"created_at") E5.
  same_field E ($"decision_version") E6. same_field E ($"expected_value_minor") E7.
  same_field E ($"expires_at") E8. same_field E ($"instrument_reference") E9.
  same_field E ($"merchant_id") E10. same_field E ($"model_confidence") E11.
  same_field E ($"payment_method") E12. same_field E ($"proposal_id") E13.
  same_field E ($"requires_approval") E14. split; [|done].
  apply canon_eq_opt in E2, E7, E9, E12;
    auto using canon_eq_money, canon_eq_int, canon_eq_str, dict_not_null; try done.
  apply canon_eq_timestamp in E5, E8; [|done..].
  apply canon_eq_str in E1, E4, E10, E13. apply canon_eq_int in E3, E6. apply canon_eq_bool in E14.
  apply action_type_value_inj in E1. unfold without_confidence. f_equal; done.
Qed.

(** * Witnesses *)
Definition sample_proposal : ActionProposal :=
  mkActionProposal ($"prop_1") ($"merchant_1") ($"case_1") 1 CREATE_STANDARD_PAYMENT_LINK
    (utc 63082281600000000) (utc 63082282500000000) 1 (Some (mkMoney 10000 ($"INR")))
    (Some ($"upi")) (Some 2500) (Some (mkProbability (DFinite false 90 (-2)))) false None.

Lemma sample_proposal_valid : ActionProposal_valid sample_proposal.
Proof. split; [reflexivity..| |]; intros ? [= <-]; reflexivity. Qed.

(** The same action, proposed again later. *)
Definition sample_proposal' : ActionProposal :=
  mkActionProposal ($"prop_2") ($"merchant_1") ($"case_1") 1 CREATE_STANDARD_PAYMENT_LINK
    (utc 63082281700000000) (utc 63082282500000000) 1 (Some (mkMoney 10000 ($"INR")))
    (Some ($"upi")) None None true None.

Lemma sample_proposal'_valid : ActionProposal_valid sample_proposal'.
Proof. split; [reflexivity..| |]; intros ? [= <-]; reflexivity. Qed.

Lemma action_key_identity_witness :
  action_key sample_proposal' = action_key sample_proposal.
Proof.
  destruct (action_key_total sample_proposal (valid_facts _ sample_proposal_valid)) as (h & Hh & _).
  rewrite Hh. refine (proj1 (action_key_identity sample_proposal sample_proposal' _ _ _ Hh) _);
    [exact sample_proposal_valid|exact sample_proposal'_valid|]. repeat split.
Defined.

(** The same proposal with its confidence stored as [0.9] instead of [0.90]. *)
Definition sample_proposal_09 : ActionProposal :=
  mkActionProposal ($"prop_1") ($"merchant_1") ($"case_1") 1 CREATE_STANDARD_PAYMENT_LINK
    (utc 63082281600000000) (utc 63082282500000000) 1 (Some (mkMoney 10000 ($"INR")))
    (Some ($"upi")) (Some 2500) (Some (mkProbability (DFinite false 9 (-1)))) false None.

Lemma sample_proposal_09_valid : ActionProposal_valid sample_proposal_09.
Proof. split; [reflexivity..| |]; intros ? [= <-]; reflexivity. Qed.

Lemma sample_proposal_09_digest : proposal_digest sample_proposal_09 = proposal_digest sample_proposal.
Proof.
  unfold proposal_digest.
  assert (ActionProposal_to_primitive sample_proposal_09 = ActionProposal_to_primitive sample_proposal) as ->;
    [|done].
  unfold ActionProposal_to_primitive. reflexivity.
Qed.

Lemma proposal_digest_binding_witness :
  (without_confidence sample_proposal = without_confidence sample_proposal_09
   ∧ canon_eq (opt_prim Probability_to_primitive (model_confidence sample_proposal))
              (opt_prim Probability_to_primitive (model_confidence sample_proposal_09)))
  ∨ ∃ v w, ActionProposal_to_primitive sample_proposal = Ok v
           ∧ ActionProposal_to_primitive sample_proposal_09 = Ok w ∧ collides v w.
Proof.
  destruct (proposal_digest_total sample_proposal sample_proposal_valid) as (h & Hh & _).
  exact (proposal_digest_binding sample_proposal sample_proposal_09 h
           sample_proposal_valid sample_proposal_09_valid Hh
           (eq_trans sample_proposal_09_digest Hh)).
Defined.
