(* ===== verification/Gate.v ===== *)
(** [packages/domain/gate.py] and [services/control_plane/policy.py]: the
    two-stage authorization gate.  [_evaluate] is the concatenation, in source
    order, of one definition per block of [if] statements; each returns the
    reasons its block appends. *)
From S2P Require Import Prelude PyStr PyTime Json Canonical Digest Values States Actions.

Inductive GateStage := POLICY | EFFECT.

Inductive GateReason :=
  | PROPOSAL_MERCHANT_MISMATCH | PROPOSAL_CASE_MISMATCH | ACTION_NOT_YET_VALID | ACTION_EXPIRED
  | ACTION_NOT_ALLOWED | ENVIRONMENT_EFFECTS_DISABLED | GLOBAL_KILL_SWITCH_ACTIVE
  | MERCHANT_KILL_SWITCH_ACTIVE | AGGREGATE_VERSION_MISMATCH | RECOVERY_STATE_NOT_ACTIONABLE
  | OBSERVATION_DEADLINE_MISSING | OBSERVATION_WINDOW_ACTIVE | PAYMENT_TRUTH_NOT_UNPAID
  | PROVIDER_SNAPSHOT_FROM_FUTURE | PROVIDER_SNAPSHOT_STALE | ACTIVE_INSTRUMENT_EXISTS
  | ACTIVE_INSTRUMENT_REQUIRED | POLICY_CURRENCY_MISMATCH | CURRENCY_MISMATCH | AMOUNT_MISMATCH
  | PAYMENT_METHOD_MISMATCH | CONSENT_MISSING | CUSTOMER_OPTED_OUT | COOLDOWN_ACTIVE
  | CONTACT_CAP_REACHED | QUIET_HOURS_ACTIVE | INCIDENT_HEALTH_FROM_FUTURE | INCIDENT_HEALTH_STALE
  | PAYMENT_METHOD_UNHEALTHY | ATTEMPT_BUDGET_EXHAUSTED | CONFIDENCE_UNAVAILABLE
  | CONFIDENCE_BELOW_THRESHOLD | ABSTENTION_REQUIRES_APPROVAL
  | EXTERNAL_DIAGNOSIS_REQUIRES_APPROVAL | HIGH_VALUE_REQUIRES_APPROVAL | REASON_APPROVAL_REQUIRED
  | APPROVAL_REJECTED | APPROVAL_EXPIRED | APPROVAL_NOT_YET_VALID | APPROVAL_BINDING_MISMATCH
  | PLAN_AUTHORIZATION_MISSING | PLAN_BINDING_MISMATCH | DURABLE_INTENT_MISSING.

#[export] Instance GateStage_eq_dec : EqDecision GateStage.
Proof. solve_decision. Defined.
#[export] Instance GateReason_eq_dec : EqDecision GateReason.
Proof. intros x y. unfold Decision. decide equality. Defined.

Definition stage_value (s : GateStage) : pystr :=
  match s with POLICY => $"policy" | EFFECT => $"effect" end.

Definition reason_value (r : GateReason) : pystr :=
  match r with
  | PROPOSAL_MERCHANT_MISMATCH => $"PROPOSAL_MERCHANT_MISMATCH"
  | PROPOSAL_CASE_MISMATCH => $"PROPOSAL_CASE_MISMATCH"
  | ACTION_NOT_YET_VALID => $"ACTION_NOT_YET_VALID"
  | ACTION_EXPIRED => $"ACTION_EXPIRED"
  | ACTION_NOT_ALLOWED => $"ACTION_NOT_ALLOWED"
  | ENVIRONMENT_EFFECTS_DISABLED => $"ENVIRONMENT_EFFECTS_DISABLED"
  | GLOBAL_KILL_SWITCH_ACTIVE => $"GLOBAL_KILL_SWITCH_ACTIVE"
  | MERCHANT_KILL_SWITCH_ACTIVE => $"MERCHANT_KILL_SWITCH_ACTIVE"
  | AGGREGATE_VERSION_MISMATCH => $"AGGREGATE_VERSION_MISMATCH"
  | RECOVERY_STATE_NOT_ACTIONABLE => $"RECOVERY_STATE_NOT_ACTIONABLE"
  | OBSERVATION_DEADLINE_MISSING => $"OBSERVATION_DEADLINE_MISSING"
  | OBSERVATION_WINDOW_ACTIVE => $"OBSERVATION_WINDOW_ACTIVE"
  | PAYMENT_TRUTH_NOT_UNPAID => $"PAYMENT_TRUTH_NOT_UNPAID"
  | PROVIDER_SNAPSHOT_FROM_FUTURE => $"PROVIDER_SNAPSHOT_FROM_FUTURE"
  | PROVIDER_SNAPSHOT_STALE => $"PROVIDER_SNAPSHOT_STALE"
  | ACTIVE_INSTRUMENT_EXISTS => $"ACTIVE_INSTRUMENT_EXISTS"
  | ACTIVE_INSTRUMENT_REQUIRED => $"ACTIVE_INSTRUMENT_REQUIRED"
  | POLICY_CURRENCY_MISMATCH => $"POLICY_CURRENCY_MISMATCH"
  | CURRENCY_MISMATCH => $"CURRENCY_MISMATCH"
  | AMOUNT_MISMATCH => $"AMOUNT_MISMATCH"
  | PAYMENT_METHOD_MISMATCH => $"PAYMENT_METHOD_MISMATCH"
  | CONSENT_MISSING => $"CONSENT_MISSING"
  | CUSTOMER_OPTED_OUT => $"CUSTOMER_OPTED_OUT"
  | COOLDOWN_ACTIVE => $"COOLDOWN_ACTIVE"
  | CONTACT_CAP_REACHED => $"CONTACT_CAP_REACHED"
  | QUIET_HOURS_ACTIVE => $"QUIET_HOURS_ACTIVE"
  | INCIDENT_HEALTH_FROM_FUTURE => $"INCIDENT_HEALTH_FROM_FUTURE"
  | INCIDENT_HEALTH_STALE => $"INCIDENT_HEALTH_STALE"
  | PAYMENT_METHOD_UNHEALTHY => $"PAYMENT_METHOD_UNHEALTHY"
  | ATTEMPT_BUDGET_EXHAUSTED => $"ATTEMPT_BUDGET_EXHAUSTED"
  | CONFIDENCE_UNAVAILABLE => $"CONFIDENCE_UNAVAILABLE"
  | CONFIDENCE_BELOW_THRESHOLD => $"CONFIDENCE_BELOW_THRESHOLD"
  | ABSTENTION_REQUIRES_APPROVAL => $"ABSTENTION_REQUIRES_APPROVAL"
  | EXTERNAL_DIAGNOSIS_REQUIRES_APPROVAL => $"EXTERNAL_DIAGNOSIS_REQUIRES_APPROVAL"
  | HIGH_VALUE_REQUIRES_APPROVAL => $"HIGH_VALUE_REQUIRES_APPROVAL"
  | REASON_APPROVAL_REQUIRED => $"APPROVAL_REQUIRED"
  | APPROVAL_REJECTED => $"APPROVAL_REJECTED"
  | APPROVAL_EXPIRED => $"APPROVAL_EXPIRED"
  | APPROVAL_NOT_YET_VALID => $"APPROVAL_NOT_YET_VALID"
  | APPROVAL_BINDING_MISMATCH => $"APPROVAL_BINDING_MISMATCH"
  | PLAN_AUTHORIZATION_MISSING => $"PLAN_AUTHORIZATION_MISSING"
  | PLAN_BINDING_MISMATCH => $"PLAN_BINDING_MISMATCH"
  | DURABLE_INTENT_MISSING => $"DURABLE_INTENT_MISSING"
  end.

Definition APPROVAL_BLOCKING_REASONS : list GateReason :=
  [CONFIDENCE_UNAVAILABLE; CONFIDENCE_BELOW_THRESHOLD; ABSTENTION_REQUIRES_APPROVAL;
   EXTERNAL_DIAGNOSIS_REQUIRES_APPROVAL; HIGH_VALUE_REQUIRES_APPROVAL; REASON_APPROVAL_REQUIRED;
   APPROVAL_REJECTED; APPROVAL_EXPIRED; APPROVAL_NOT_YET_VALID; APPROVAL_BINDING_MISMATCH].

(** * The policy, the provider snapshot and the context *)
Record GatePolicy := mkGatePolicy {
  policy_version : pystr;
  allowed_actions : list ActionType;
  provider_snapshot_max_age : timedelta;
  incident_health_max_age : timedelta;
  max_attempts : Z;
  max_contacts_in_window : Z;
  approval_threshold : Money;
  min_confidence : Probability;
  allowed_clock_skew : timedelta
}.

Definition non_negative_duration (name : string) (d : timedelta) : result unit :=
  raise_if (d <? 0) (InvalidValue (name +:+ " must be a non-negative timedelta")).
Definition non_negative_integer (name : string) (z : Z) : result unit :=
  raise_if (z <? 0) (InvalidValue (name +:+ " must be a non-negative integer")).

Definition GatePolicy_post_init (p : GatePolicy) : result GatePolicy :=
  _ ← require_identifier (policy_version p) "policy version";
  _ ← raise_if (bool_decide (allowed_actions p = []))
        (InvalidValue "allowed_actions must contain ActionType values");
  _ ← non_negative_duration "provider_snapshot_max_age" (provider_snapshot_max_age p);
  _ ← non_negative_duration "incident_health_max_age" (incident_health_max_age p);
  _ ← non_negative_duration "allowed_clock_skew" (allowed_clock_skew p);
  _ ← non_negative_integer "max_attempts" (max_attempts p);
  _ ← non_negative_integer "max_contacts_in_window" (max_contacts_in_window p);
  Ok p.

Record ProviderSnapshot := mkProviderSnapshot {
  payment_state : CanonicalPaymentState;
  amount_due : Money;
  snapshot_payment_method : pystr;
  observed_at : datetime;
  active_instrument_count : Z;
  incident_state : IncidentState;
  method_health_observed_at : datetime
}.

Definition ProviderSnapshot_post_init (s : ProviderSnapshot) : result ProviderSnapshot :=
  _ ← require_payment_method (snapshot_payment_method s) "snapshot payment_method";
  _ ← raise_if (active_instrument_count s <? 0)
        (InvalidValue "active_instrument_count cannot be negative");
  observed ← require_utc (observed_at s) "observed_at";
  health ← require_utc (method_health_observed_at s) "method_health_observed_at";
  Ok (mkProviderSnapshot (payment_state s) (amount_due s) (snapshot_payment_method s) observed
        (active_instrument_count s) (incident_state s) health).

Record GateContext := mkGateContext {
  ctx_merchant_id : pystr;
  ctx_case_id : pystr;
  evaluated_at : datetime;
  aggregate_version : Z;
  expected_aggregate_version : Z;
  recovery_state : RecoveryState;
  snapshot : ProviderSnapshot;
  environment_effects_enabled : bool;
  observation_deadline : option datetime;
  global_kill_switch : bool;
  merchant_kill_switch : bool;
  consent_granted : bool;
  opted_out : bool;
  cooldown_until : option datetime;
  contacts_in_window : Z;
  quiet_hours_active : bool;
  attempts_used : Z;
  abstention_required : bool;
  external_diagnosis_review_required : bool;
  approval : option Approval;
  durable_intent_recorded : bool
}.

Definition GateContext_post_init (c : GateContext) : result GateContext :=
  _ ← require_identifier (ctx_merchant_id c) "merchant_id";
  _ ← require_identifier (ctx_case_id c) "case_id";
  evaluated ← require_utc (evaluated_at c) "evaluated_at";
  _ ← non_negative_integer "aggregate_version" (aggregate_version c);
  _ ← non_negative_integer "expected_aggregate_version" (expected_aggregate_version c);
  _ ← non_negative_integer "contacts_in_window" (contacts_in_window c);
  _ ← non_negative_integer "attempts_used" (attempts_used c);
  cooldown ← when_some (cooldown_until c) (λ d, require_utc d "cooldown_until");
  deadline ← when_some (observation_deadline c) (λ d, require_utc d "observation_deadline");
  Ok (mkGateContext (ctx_merchant_id c) (ctx_case_id c) evaluated (aggregate_version c)
        (expected_aggregate_version c) (recovery_state c) (snapshot c)
        (environment_effects_enabled c) deadline (global_kill_switch c) (merchant_kill_switch c)
        (consent_granted c) (opted_out c) cooldown (contacts_in_window c) (quiet_hours_active c)
        (attempts_used c) (abstention_required c) (external_diagnosis_review_required c)
        (approval c) (durable_intent_recorded c)).

(** * Decisions *)
Record GateDecision := mkGateDecision {
  stage : GateStage;
  decision_policy_version : pystr;
  decision_proposal_id : pystr;
  decision_action_key : pystr;
  decision_proposal_digest : pystr;
  decision_case_id : pystr;
  decision_version : Z;
  decision_aggregate_version : Z;
  decision_evaluated_at : datetime;
  reasons : list GateReason
}.

#[export] Instance GateDecision_eq_dec : EqDecision GateDecision.
Proof. solve_decision. Defined.

Definition allowed (d : GateDecision) : bool := bool_decide (reasons d = []).

Definition GateDecision_to_primitive (d : GateDecision) : result pyobj :=
  evaluated ← canonical_timestamp (decision_evaluated_at d);
  Ok (PyDict
    [(PyStr ($"action_key"), PyStr (decision_action_key d));
     (PyStr ($"aggregate_version"), PyInt (decision_aggregate_version d));
     (PyStr ($"allowed"), PyBool (allowed d));
     (PyStr ($"case_id"), PyStr (decision_case_id d));
     (PyStr ($"decision_version"), PyInt (decision_version d));
     (PyStr ($"evaluated_at"), PyStr evaluated);
     (PyStr ($"policy_version"), PyStr (decision_policy_version d));
     (PyStr ($"proposal_digest"), PyStr (decision_proposal_digest d));
     (PyStr ($"proposal_id"), PyStr (decision_proposal_id d));
     (PyStr ($"reasons"), PyList (map PyStr (map reason_value (reasons d))));
     (PyStr ($"stage"), PyStr (stage_value (stage d)))]).

Definition decision_digest (d : GateDecision) : result pystr :=
  prim ← GateDecision_to_primitive d; sha256_hexdigest prim.

(** * The states each action is actionable in *)
Definition _POLICY_ACTIONABLE_STATES (a : ActionType) : list RecoveryState :=
  match a with
  | CREATE_STANDARD_PAYMENT_LINK => [ASSESSING; APPROVAL_REQUIRED]
  | NOTIFY_EXISTING_LINK => [ASSESSING; APPROVAL_REQUIRED; ACTIVE]
  | CANCEL_PAYMENT_LINK => [EXECUTING; ACTION_UNCERTAIN; ACTIVE; SUPPRESSED_PAID; DUPLICATE_REVIEW]
  | WAIT => [ASSESSING]
  | ESCALATE => [ASSESSING; WAITING; ACTION_UNCERTAIN]
  | STOP => [ASSESSING; WAITING; APPROVAL_REQUIRED; ACTION_QUEUED]
  end.

Definition _EFFECT_ACTIONABLE_STATES (a : ActionType) : list RecoveryState :=
  match a with
  | CREATE_STANDARD_PAYMENT_LINK => [ACTION_QUEUED; EXECUTING; ACTION_UNCERTAIN]
  | NOTIFY_EXISTING_LINK => [ACTION_QUEUED; EXECUTING; ACTIVE]
  | CANCEL_PAYMENT_LINK => _POLICY_ACTIONABLE_STATES CANCEL_PAYMENT_LINK
  | WAIT | ESCALATE | STOP => []
  end.

(** * The blocks of [DeterministicGate._evaluate]

    [horizon] is [context.evaluated_at + policy.allowed_clock_skew]. *)
Definition is_collection (p : ActionProposal) : bool := mem (action_type p) COLLECTION_ACTIONS.
Definition is_contact (p : ActionProposal) : bool := mem (action_type p) CONTACT_ACTIONS.
Definition is_external (p : ActionProposal) : bool := mem (action_type p) EXTERNAL_ACTIONS.

Definition binding_reasons (self : GatePolicy) (p : ActionProposal) (c : GateContext)
    (horizon : datetime) : list GateReason :=
  append_if (bool_decide (proposal_merchant_id p ≠ ctx_merchant_id c)) PROPOSAL_MERCHANT_MISMATCH
  ++ append_if (bool_decide (proposal_case_id p ≠ ctx_case_id c)) PROPOSAL_CASE_MISMATCH
  ++ append_if (dt_ltb horizon (created_at p)) ACTION_NOT_YET_VALID
  ++ append_if (dt_leb (expires_at p) (evaluated_at c)) ACTION_EXPIRED
  ++ append_if (negb (mem (action_type p) (allowed_actions self))) ACTION_NOT_ALLOWED
  ++ append_if (is_external p && negb (environment_effects_enabled c)) ENVIRONMENT_EFFECTS_DISABLED
  ++ append_if (is_collection p && global_kill_switch c) GLOBAL_KILL_SWITCH_ACTIVE
  ++ append_if (is_collection p && merchant_kill_switch c) MERCHANT_KILL_SWITCH_ACTIVE
  ++ append_if (bool_decide (aggregate_version c ≠ expected_aggregate_version c))
       AGGREGATE_VERSION_MISMATCH.

Definition actionable_states (st : GateStage) (a : ActionType) : list RecoveryState :=
  match st with POLICY => _POLICY_ACTIONABLE_STATES a | EFFECT => _EFFECT_ACTIONABLE_STATES a end.

Definition state_reasons (st : GateStage) (p : ActionProposal) (c : GateContext) : list GateReason :=
  append_if (negb (mem (recovery_state c) (actionable_states st (action_type p))))
    RECOVERY_STATE_NOT_ACTIONABLE.

(** [if a: append(x) elif b: append(y)]. *)
Definition append_elif (a : bool) (x : GateReason) (b : bool) (y : GateReason) : list GateReason :=
  if a then [x] else append_if b y.

(** [if guard: block]. *)
Definition when (guard : bool) (block : list GateReason) : list GateReason :=
  if guard then block else [].

Definition observation_reasons (p : ActionProposal) (c : GateContext) : list GateReason :=
  when (is_collection p)
    match observation_deadline c with
    | None => [OBSERVATION_DEADLINE_MISSING]
    | Some deadline => append_if (dt_ltb (evaluated_at c) deadline) OBSERVATION_WINDOW_ACTIVE
    end.

Definition snapshot_reasons (self : GatePolicy) (p : ActionProposal) (c : GateContext)
    (horizon : datetime) : list GateReason :=
  let s := snapshot c in
  when (is_collection p)
    (append_if (bool_decide (payment_state s ≠ UNPAID)) PAYMENT_TRUTH_NOT_UNPAID
     ++ append_elif (dt_ltb horizon (observed_at s)) PROVIDER_SNAPSHOT_FROM_FUTURE
          (provider_snapshot_max_age self <? dt_sub (evaluated_at c) (observed_at s))
          PROVIDER_SNAPSHOT_STALE).

Definition instrument_reasons (p : ActionProposal) (c : GateContext) : list GateReason :=
  if decide (action_type p = CREATE_STANDARD_PAYMENT_LINK)
  then append_if (0 <? active_instrument_count (snapshot c)) ACTIVE_INSTRUMENT_EXISTS
  else append_if (mem (action_type p) [NOTIFY_EXISTING_LINK; CANCEL_PAYMENT_LINK]
                  && (active_instrument_count (snapshot c) =? 0)) ACTIVE_INSTRUMENT_REQUIRED.

Definition amount_reasons (p : ActionProposal) (c : GateContext) : list GateReason :=
  let s := snapshot c in
  match amount p with
  | None => []
  | Some m =>
      when (is_collection p)
        (append_elif (bool_decide (currency m ≠ currency (amount_due s))) CURRENCY_MISMATCH
           (bool_decide (minor_units m ≠ minor_units (amount_due s))) AMOUNT_MISMATCH
         ++ append_if (bool_decide (payment_method p ≠ Some (snapshot_payment_method s)))
              PAYMENT_METHOD_MISMATCH)
  end.

Definition contact_reasons (self : GatePolicy) (p : ActionProposal) (c : GateContext) :
    list GateReason :=
  when (is_contact p)
    (append_if (negb (consent_granted c)) CONSENT_MISSING
     ++ append_if (opted_out c) CUSTOMER_OPTED_OUT
     ++ append_if (match cooldown_until c with
                   | None => false | Some until => dt_ltb (evaluated_at c) until end) COOLDOWN_ACTIVE
     ++ append_if (max_contacts_in_window self <=? contacts_in_window c) CONTACT_CAP_REACHED
     ++ append_if (quiet_hours_active c) QUIET_HOURS_ACTIVE).

Definition health_reasons (self : GatePolicy) (p : ActionProposal) (c : GateContext)
    (horizon : datetime) : list GateReason :=
  let s := snapshot c in
  when (is_collection p)
    (append_elif (dt_ltb horizon (method_health_observed_at s)) INCIDENT_HEALTH_FROM_FUTURE
       (incident_health_max_age self <? dt_sub (evaluated_at c) (method_health_observed_at s))
       INCIDENT_HEALTH_STALE
     ++ append_if (bool_decide (incident_state s = CONFIRMED)) PAYMENT_METHOD_UNHEALTHY
     ++ append_if (max_attempts self <=? attempts_used c) ATTEMPT_BUDGET_EXHAUSTED).

(** [b and m] / [b or m] with the short circuit of the source. *)
Definition and_then (b : bool) (m : result bool) : result bool := if b then m else Ok false.
Definition or_else (b : bool) (m : result bool) : result bool := if b then Ok true else m.

Definition _approval_failure (p : ActionProposal) (c : GateContext) : result (option GateReason) :=
  match approval c with
  | None => Ok (Some REASON_APPROVAL_REQUIRED)
  | Some a =>
      if negb (granted a) then Ok (Some APPROVAL_REJECTED)
      else if dt_ltb (evaluated_at c) (approved_at a) then Ok (Some APPROVAL_NOT_YET_VALID)
      else if dt_leb (approval_expires_at a) (evaluated_at c) then Ok (Some APPROVAL_EXPIRED)
      else
        mismatch ←
          or_else (bool_decide (approval_merchant_id a ≠ proposal_merchant_id p)
                   || bool_decide (approval_case_id a ≠ proposal_case_id p))
            (key ← action_key p;
             or_else (bool_decide (approval_action_key a ≠ key))
               (digest ← proposal_digest p;
                Ok (bool_decide (approval_proposal_digest a ≠ digest)
                    || bool_decide (approval_decision_version a ≠ proposal_decision_version p))));
        Ok (if mismatch : bool then Some APPROVAL_BINDING_MISMATCH else None)
  end.

(** The reasons appended at once, and the causes collected for an approval. *)
Definition amount_causes (self : GatePolicy) (p : ActionProposal) :
    list GateReason * list GateReason :=
  match amount p with
  | None => ([], [])
  | Some m =>
      if bool_decide (currency m ≠ currency (approval_threshold self))
      then ([POLICY_CURRENCY_MISMATCH], [])
      else ([], append_if (minor_units (approval_threshold self) <=? minor_units m)
                  HIGH_VALUE_REQUIRES_APPROVAL)
  end.

Definition approval_causes (self : GatePolicy) (p : ActionProposal) (c : GateContext) :
    list GateReason :=
  snd (amount_causes self p)
  ++ match model_confidence p with
     | None => [CONFIDENCE_UNAVAILABLE]
     | Some confidence =>
         append_if (Probability_lt confidence (min_confidence self)) CONFIDENCE_BELOW_THRESHOLD
     end
  ++ append_if (abstention_required c) ABSTENTION_REQUIRES_APPROVAL
  ++ append_if (external_diagnosis_review_required c) EXTERNAL_DIAGNOSIS_REQUIRES_APPROVAL.

Definition approval_needed (self : GatePolicy) (p : ActionProposal) (c : GateContext) : bool :=
  requires_approval p || bool_decide (approval_causes self p c ≠ []).

Definition approval_reasons (self : GatePolicy) (p : ActionProposal) (c : GateContext) :
    result (list GateReason) :=
  if is_collection p then
    failure ← (if approval_needed self p c then _approval_failure p c else Ok None);
    Ok (fst (amount_causes self p)
        ++ match failure with
           | None => []
           | Some reason => approval_causes self p c ++ [reason]
           end)
  else Ok [].

Definition _plan_matches (self : GatePolicy) (prior_plan : GateDecision) (p : ActionProposal)
    (c : GateContext) : result bool :=
  and_then (bool_decide (stage prior_plan = POLICY) && allowed prior_plan
            && bool_decide (decision_policy_version prior_plan = policy_version self)
            && bool_decide (decision_proposal_id prior_plan = proposal_id p))
    (key ← action_key p;
     and_then (bool_decide (decision_action_key prior_plan = key))
       (digest ← proposal_digest p;
        Ok (bool_decide (decision_proposal_digest prior_plan = digest)
            && bool_decide (decision_case_id prior_plan = proposal_case_id p)
            && bool_decide (decision_version prior_plan = proposal_decision_version p)
            && (decision_aggregate_version prior_plan <=? aggregate_version c)
            && dt_leb (decision_evaluated_at prior_plan) (evaluated_at c)))).

Definition plan_reasons (self : GatePolicy) (st : GateStage) (p : ActionProposal) (c : GateContext)
    (prior_plan : option GateDecision) : result (list GateReason) :=
  if bool_decide (st = EFFECT) && is_external p then
    plan ← match prior_plan with
           | None => Ok [PLAN_AUTHORIZATION_MISSING]
           | Some prior =>
               matches ← _plan_matches self prior p c;
               Ok (append_if (negb matches) PLAN_BINDING_MISMATCH)
           end;
    Ok (plan ++ append_if (negb (durable_intent_recorded c)) DURABLE_INTENT_MISSING)
  else Ok [].

Definition _evaluate (self : GatePolicy) (st : GateStage) (p : ActionProposal) (c : GateContext)
    (prior_plan : option GateDecision) : result GateDecision :=
  horizon ← dt_add (evaluated_at c) (allowed_clock_skew self);
  approvals ← approval_reasons self p c;
  plan ← plan_reasons self st p c prior_plan;
  key ← action_key p;
  digest ← proposal_digest p;
  Ok (mkGateDecision st (policy_version self) (proposal_id p) key digest (proposal_case_id p)
        (proposal_decision_version p) (aggregate_version c) (evaluated_at c)
        (binding_reasons self p c horizon
         ++ state_reasons st p c
         ++ observation_reasons p c
         ++ snapshot_reasons self p c horizon
         ++ instrument_reasons p c
         ++ amount_reasons p c
         ++ contact_reasons self p c
         ++ health_reasons self p c horizon
         ++ approvals
         ++ plan)).

Definition evaluate_policy (self : GatePolicy) (p : ActionProposal) (c : GateContext) :
    result GateDecision := _evaluate self POLICY p c None.

Definition evaluate_effect (self : GatePolicy) (p : ActionProposal) (c : GateContext)
    (prior_plan : option GateDecision) : result GateDecision := _evaluate self EFFECT p c prior_plan.

(** [replace(context, evaluated_at=now, durable_intent_recorded=proved)]. *)
Definition effect_context (fresh : GateContext) (now : datetime) (proved : bool) : result GateContext :=
  GateContext_post_init
    (mkGateContext (ctx_merchant_id fresh) (ctx_case_id fresh) now (aggregate_version fresh)
       (expected_aggregate_version fresh) (recovery_state fresh) (snapshot fresh)
       (environment_effects_enabled fresh) (observation_deadline fresh) (global_kill_switch fresh)
       (merchant_kill_switch fresh) (consent_granted fresh) (opted_out fresh) (cooldown_until fresh)
       (contacts_in_window fresh) (quiet_hours_active fresh) (attempts_used fresh)
       (abstention_required fresh) (external_diagnosis_review_required fresh) (approval fresh) proved).

(** * [services/control_plane/policy.py] *)
Definition PINNED_POLICY_VERSION : pystr := $"policy-v1".

Definition production_gate : result GatePolicy :=
  threshold ← Money_init 500000 ($"INR");
  confidence ← Probability_init (FromStr ($"0.75"));
  GatePolicy_post_init
    (mkGatePolicy PINNED_POLICY_VERSION all_action_types (seconds 30) (minutes 2) 3 2
       threshold confidence (seconds 5)).

#[global] Arguments decision_digest : simpl never.

(** * What an allowed decision promises *)
Record approval_authorizes (p : ActionProposal) (c : GateContext) (a : Approval) : Prop := {
  auth_granted : granted a = true;
  auth_from : instant (approved_at a) <= instant (evaluated_at c);
  auth_until : instant (evaluated_at c) < instant (approval_expires_at a);
  auth_merchant : approval_merchant_id a = proposal_merchant_id p;
  auth_case : approval_case_id a = proposal_case_id p;
  auth_key : action_key p = Ok (approval_action_key a);
  auth_digest : proposal_digest p = Ok (approval_proposal_digest a);
  auth_version : approval_decision_version a = proposal_decision_version p
}.

(** The circumstances that ask for a human approval. *)
Definition needs_approval (self : GatePolicy) (p : ActionProposal) (c : GateContext) : Prop :=
  requires_approval p = true
  ∨ (∃ m, amount p = Some m ∧ currency m = currency (approval_threshold self)
          ∧ minor_units (approval_threshold self) <= minor_units m)
  ∨ model_confidence p = None
  ∨ (∃ f, model_confidence p = Some f ∧ Probability_lt f (min_confidence self) = true)
  ∨ abstention_required c = true
  ∨ external_diagnosis_review_required c = true.

(** A fact observed at [at_] is neither from the future nor older than [age]. *)
Definition fresh (self : GatePolicy) (c : GateContext) (at_ : datetime) (age : timedelta) : Prop :=
  instant at_ <= instant (evaluated_at c) + allowed_clock_skew self
  ∧ instant (evaluated_at c) <= instant at_ + age.

(** Money may be asked for only under these circumstances. *)
Record collection_spec (self : GatePolicy) (p : ActionProposal) (c : GateContext) : Prop := {
  coll_switches : global_kill_switch c = false ∧ merchant_kill_switch c = false;
  coll_deadline : ∃ d, observation_deadline c = Some d ∧ instant d <= instant (evaluated_at c);
  coll_unpaid : payment_state (snapshot c) = UNPAID;
  coll_snapshot : fresh self c (observed_at (snapshot c)) (provider_snapshot_max_age self);
  coll_amount : ∀ m, amount p = Some m →
    m = amount_due (snapshot c) ∧ payment_method p = Some (snapshot_payment_method (snapshot c))
    ∧ currency m = currency (approval_threshold self);
  coll_health : fresh self c (method_health_observed_at (snapshot c)) (incident_health_max_age self);
  coll_incident : incident_state (snapshot c) ≠ CONFIRMED;
  coll_attempts : attempts_used c < max_attempts self;
  coll_approval : needs_approval self p c →
    ∃ a, approval c = Some a ∧ approval_authorizes p c a
}.

Record contact_spec (self : GatePolicy) (c : GateContext) : Prop := {
  contact_consent : consent_granted c = true ∧ opted_out c = false;
  contact_cooldown : ∀ d, cooldown_until c = Some d → instant d <= instant (evaluated_at c);
  contact_cap : contacts_in_window c < max_contacts_in_window self;
  contact_quiet : quiet_hours_active c = false
}.

(** The planning decision an effect relies on. *)
Record plan_spec (self : GatePolicy) (p : ActionProposal) (c : GateContext) (prior : GateDecision) :
    Prop := {
  plan_stage : stage prior = POLICY ∧ reasons prior = [];
  plan_policy : decision_policy_version prior = policy_version self;
  plan_proposal : decision_proposal_id prior = proposal_id p;
  plan_key : action_key p = Ok (decision_action_key prior);
  plan_digest : proposal_digest p = Ok (decision_proposal_digest prior);
  plan_case : decision_case_id prior = proposal_case_id p;
  plan_version : decision_version prior = proposal_decision_version p;
  plan_order : decision_aggregate_version prior <= aggregate_version c
               ∧ instant (decision_evaluated_at prior) <= instant (evaluated_at c)
}.

Record gate_spec (self : GatePolicy) (st : GateStage) (p : ActionProposal) (c : GateContext)
    (prior_plan : option GateDecision) : Prop := {
  spec_subject : proposal_merchant_id p = ctx_merchant_id c ∧ proposal_case_id p = ctx_case_id c;
  spec_window : instant (created_at p) <= instant (evaluated_at c) + allowed_clock_skew self
                ∧ instant (evaluated_at c) < instant (expires_at p);
  spec_action : action_type p ∈ allowed_actions self;
  spec_effects : is_external p = true → environment_effects_enabled c = true;
  spec_version : aggregate_version c = expected_aggregate_version c;
  spec_state : recovery_state c ∈ actionable_states st (action_type p);
  spec_collection : is_collection p = true → collection_spec self p c;
  spec_create : action_type p = CREATE_STANDARD_PAYMENT_LINK →
    active_instrument_count (snapshot c) <= 0;
  spec_existing : action_type p = NOTIFY_EXISTING_LINK ∨ action_type p = CANCEL_PAYMENT_LINK →
    active_instrument_count (snapshot c) ≠ 0;
  spec_contact : is_contact p = true → contact_spec self c;
  spec_plan : st = EFFECT → is_external p = true →
    (∃ prior, prior_plan = Some prior ∧ plan_spec self p c prior)
    ∧ durable_intent_recorded c = true
}.

(** * Lemmas: each block is empty exactly when its part of the promise holds *)
Lemma append_elif_nil a x b y : append_elif a x b y = [] ↔ a = false ∧ b = false.
Proof. destruct a, b; cbn; naive_solver. Qed.

Lemma when_nil g block : when g block = [] ↔ (g = true → block = []).
Proof. destruct g; cbn; naive_solver. Qed.

Lemma mem_true {A} `{!EqDecision A} (x : A) l : mem x l = true ↔ x ∈ l.
Proof. apply bool_decide_eq_true. Qed.

Lemma mem_false {A} `{!EqDecision A} (x : A) l : mem x l = false ↔ x ∉ l.
Proof. apply bool_decide_eq_false. Qed.

Lemma bool_decide_ne_false {A} `{!EqDecision A} (x y : A) : bool_decide (x ≠ y) = false ↔ x = y.
Proof. rewrite bool_decide_eq_false. split; [by intros ?%dec_stable|naive_solver]. Qed.

Lemma implb_false b b' : b && b' = false ↔ (b = true → b' = false).
Proof. destruct b; naive_solver. Qed.

#[local] Ltac nil_facts :=
  rewrite ?when_nil, ?app_nil, ?append_if_nil, ?append_elif_nil, ?implb_false, ?negb_false_iff,
    ?bool_decide_ne_false, ?mem_true.

Lemma dt_ltb_false a b : dt_ltb a b = false ↔ instant b <= instant a.
Proof. apply Z.ltb_ge. Qed.
Lemma dt_leb_false a b : dt_leb a b = false ↔ instant b < instant a.
Proof. apply Z.leb_gt. Qed.

Lemma fresh_nil self c h at_ age x y :
  instant h = instant (evaluated_at c) + allowed_clock_skew self →
  append_elif (dt_ltb h at_) x (age <? dt_sub (evaluated_at c) at_) y = [] ↔ fresh self c at_ age.
Proof.
  intros Hh. rewrite append_elif_nil, dt_ltb_false, Z.ltb_ge. unfold dt_sub, fresh. lia.
Qed.

Lemma instrument_nil p c :
  instrument_reasons p c = [] ↔
  (action_type p = CREATE_STANDARD_PAYMENT_LINK → active_instrument_count (snapshot c) <= 0)
  ∧ (action_type p = NOTIFY_EXISTING_LINK ∨ action_type p = CANCEL_PAYMENT_LINK →
     active_instrument_count (snapshot c) ≠ 0).
Proof.
  unfold instrument_reasons. case_decide as E; nil_facts.
  - rewrite Z.ltb_ge, E. naive_solver.
  - rewrite Z.eqb_neq. set_solver.
Qed.

Lemma imp_iff (P Q R : Prop) : (P → (Q ↔ R)) → (P → Q) ↔ (P → R).
Proof. tauto. Qed.

Lemma contact_nil self p c :
  contact_reasons self p c = [] ↔ (is_contact p = true → contact_spec self c).
Proof.
  unfold contact_reasons. nil_facts. apply imp_iff. intros _. rewrite Z.leb_gt.
  assert (match cooldown_until c with None => false | Some u => dt_ltb (evaluated_at c) u end = false
          ↔ ∀ d, cooldown_until c = Some d → instant d <= instant (evaluated_at c)) as ->.
  { destruct (cooldown_until c) as [u|]; [rewrite dt_ltb_false|]; naive_solver. }
  split; [intros (? & ? & ? & ? & ?); by split|intros [[] ? ? ?]; tauto].
Qed.

Lemma observation_nil p c :
  observation_reasons p c = [] ↔
  (is_collection p = true →
   ∃ d, observation_deadline c = Some d ∧ instant d <= instant (evaluated_at c)).
Proof.
  unfold observation_reasons. nil_facts. apply imp_iff. intros _.
  destruct (observation_deadline c) as [d|]; [nil_facts; rewrite dt_ltb_false|]; naive_solver.
Qed.

Lemma snapshot_nil self p c h :
  instant h = instant (evaluated_at c) + allowed_clock_skew self →
  snapshot_reasons self p c h = [] ↔
  (is_collection p = true → payment_state (snapshot c) = UNPAID
   ∧ fresh self c (observed_at (snapshot c)) (provider_snapshot_max_age self)).
Proof.
  intros Hh. unfold snapshot_reasons. rewrite when_nil, app_nil, fresh_nil by done. by nil_facts.
Qed.

Lemma health_nil self p c h :
  instant h = instant (evaluated_at c) + allowed_clock_skew self →
  health_reasons self p c h = [] ↔
  (is_collection p = true →
   fresh self c (method_health_observed_at (snapshot c)) (incident_health_max_age self)
   ∧ incident_state (snapshot c) ≠ CONFIRMED ∧ attempts_used c < max_attempts self).
Proof.
  intros Hh. unfold health_reasons. rewrite when_nil, app_nil, fresh_nil by done.
  nil_facts. by rewrite Z.leb_gt, bool_decide_eq_false.
Qed.

Lemma amount_nil p c :
  amount_reasons p c = [] ↔
  (is_collection p = true → ∀ m, amount p = Some m →
   m = amount_due (snapshot c) ∧ payment_method p = Some (snapshot_payment_method (snapshot c))).
Proof.
  unfold amount_reasons. destruct (amount p) as [[u cur]|]; [|naive_solver].
  nil_facts. apply imp_iff. intros _. destruct (amount_due (snapshot c)) as [u' cur']. cbn. split.
  - intros [[-> ->] ?] m [= <-]. done.
  - intros H. destruct (H _ eq_refl) as [[= -> ->] ?]. done.
Qed.

Lemma binding_nil self p c h :
  instant h = instant (evaluated_at c) + allowed_clock_skew self →
  binding_reasons self p c h = [] ↔
  (proposal_merchant_id p = ctx_merchant_id c ∧ proposal_case_id p = ctx_case_id c)
  ∧ (instant (created_at p) <= instant (evaluated_at c) + allowed_clock_skew self
     ∧ instant (evaluated_at c) < instant (expires_at p))
  ∧ action_type p ∈ allowed_actions self
  ∧ (is_external p = true → environment_effects_enabled c = true)
  ∧ (is_collection p = true → global_kill_switch c = false ∧ merchant_kill_switch c = false)
  ∧ aggregate_version c = expected_aggregate_version c.
Proof.
  intros Hh. unfold binding_reasons. nil_facts. rewrite dt_ltb_false, dt_leb_false, Hh. tauto.
Qed.

(** ** Approvals and plans *)
Lemma approval_failure_None p c :
  _approval_failure p c = Ok None ↔ ∃ a, approval c = Some a ∧ approval_authorizes p c a.
Proof.
  unfold _approval_failure. destruct (approval c) as [a|]; [|naive_solver].
  destruct (granted a) eqn:Hg; cbn; [|split; [done|intros (? & [= <-] & [])]; congruence].
  destruct (dt_ltb _ _) eqn:Hfrom.
  { split; [done|]. intros (? & [= <-] & []). unfold dt_ltb in *. bools. lia. }
  destruct (dt_leb _ _) eqn:Huntil.
  { split; [done|]. intros (? & [= <-] & []). unfold dt_leb in *. bools. lia. }
  rewrite dt_ltb_false in Hfrom. rewrite dt_leb_false in Huntil. split.
  - intros H. inv_ok. destruct r; [done|]. exists a. split; [done|].
    unfold or_else in *. case_match; inv_ok; [done|]. case_match; inv_ok; [done|]. subst.
    rewrite !orb_false_iff, !bool_decide_ne_false in *. destruct_and!. subst. by split.
  - intros (? & [= <-] & []). unfold or_else.
    rewrite auth_key0, auth_digest0, auth_merchant0, auth_case0, auth_version0. cbn.
    by rewrite !bool_decide_false by tauto.
Qed.


Lemma approval_needed_iff self p c : approval_needed self p c = true ↔ needs_approval self p c.
Proof.
  unfold approval_needed, needs_approval, approval_causes, amount_causes.
  rewrite orb_true_iff, bool_decide_eq_true.
  assert (Hne : ∀ l l' : list GateReason, l ++ l' ≠ [] ↔ l ≠ [] ∨ l' ≠ []).
  { intros [|] [|]; cbn; naive_solver. }
  assert (Hif : ∀ b (x : GateReason), append_if b x ≠ [] ↔ b = true) by (intros [] ?; cbn; naive_solver).
  rewrite !Hne, !Hif. apply or_iff_compat_l. rewrite (or_assoc (model_confidence p = None)).
  apply Morphisms_Prop.or_iff_morphism; [|apply or_iff_compat_r].
  - destruct (amount p) as [m|]; [|naive_solver]. case_bool_decide; cbn; rewrite ?Hif, ?Z.leb_le;
      naive_solver.
  - destruct (model_confidence p) as [f|]; rewrite ?Hif; naive_solver.
Qed.

Lemma approval_reasons_nil self p c rs :
  approval_reasons self p c = Ok rs →
  rs = [] ↔
  (is_collection p = true →
     (∀ m, amount p = Some m → currency m = currency (approval_threshold self))
     ∧ (needs_approval self p c → ∃ a, approval c = Some a ∧ approval_authorizes p c a)).
Proof.
  unfold approval_reasons. destruct (is_collection p); intros H; inv_ok; subst; [|naive_solver].
  assert (Hfst : fst (amount_causes self p) = [] ↔
                 ∀ m, amount p = Some m → currency m = currency (approval_threshold self)).
  { unfold amount_causes. destruct (amount p) as [m|]; [|naive_solver].
    case_bool_decide; naive_solver. }
  rewrite app_nil, Hfst, <- approval_needed_iff, <- approval_failure_None.
  destruct (approval_needed self p c).
  - rewrite Hr. destruct r; [|naive_solver]. rewrite app_nil. naive_solver.
  - apply Ok_inj in Hr as <-. naive_solver.
Qed.

Lemma plan_matches_true self prior p c :
  _plan_matches self prior p c = Ok true ↔ plan_spec self p c prior.
Proof.
  unfold _plan_matches, and_then. split.
  - intros H. case_match eqn:E; [|done]. inv_ok. case_match eqn:E'; inv_ok; [|done].
    unfold allowed, dt_leb in *. bools. subst. by split.
  - intros [[Hs Hr] Hp Hi Hk Hd Hc Hv [Ha He]]. unfold allowed, dt_leb.
    rewrite Hk, Hd. rewrite !bind_Ok_l. rewrite !bool_decide_true by done. cbn [andb].
    by rewrite (proj2 (Z.leb_le _ _) Ha), (proj2 (Z.leb_le _ _) He).
Qed.

Lemma plan_reasons_nil self st p c prior rs :
  plan_reasons self st p c prior = Ok rs →
  rs = [] ↔
  (st = EFFECT → is_external p = true →
   (∃ d, prior = Some d ∧ plan_spec self p c d) ∧ durable_intent_recorded c = true).
Proof.
  unfold plan_reasons. destruct (decide (st = EFFECT)) as [->|Hst].
  2: { rewrite bool_decide_false by done. intros [= <-]. naive_solver. }
  rewrite bool_decide_true by done. destruct (is_external p); cbn [andb]; intros H; inv_ok; [|naive_solver]. subst.
  nil_facts. destruct prior as [d|]; inv_ok; subst; [|naive_solver].
  nil_facts. match goal with E : _plan_matches _ _ _ _ = Ok ?b |- _ => rename E into Hm; destruct b end.
  - apply plan_matches_true in Hm. naive_solver.
  - split; [naive_solver|]. intros Hd. destruct (Hd eq_refl eq_refl) as [(? & [= <-] & Hm') _].
    apply plan_matches_true in Hm'. congruence.
Qed.

Lemma evaluate_allowed self st p c prior d :
  _evaluate self st p c prior = Ok d → (allowed d = true ↔ gate_spec self st p c prior).
Proof.
  unfold _evaluate, allowed. intros H. inv_ok. apply dt_add_Ok in Hr as [Hh _]. subst d.
  rewrite bool_decide_eq_true. cbn [reasons].
  rewrite !app_nil, binding_nil, observation_nil, snapshot_nil, instrument_nil, amount_nil,
    contact_nil, health_nil by done.
  rewrite (approval_reasons_nil _ _ _ _ Hr0), (plan_reasons_nil _ _ _ _ _ _ Hr1).
  unfold state_reasons. rewrite append_if_nil, negb_false_iff, mem_true. split.
  - intros. destruct_and!. split; try tauto. intros Hc.
    repeat match goal with E : is_collection p = true → _ |- _ => specialize (E Hc) end.
    destruct_and!. split; try done. intros m Hm.
    match goal with E : ∀ m, amount p = Some m → _ ∧ _ |- _ => destruct (E m Hm) end. auto.
  - intros []. assert (Hcoll : is_collection p = true → collection_spec self p c) by done.
    split_and!; try tauto; intros Hc; specialize (Hcoll Hc); destruct Hcoll; try done; try tauto.
    + intros m Hm. by destruct (coll_amount0 m Hm) as (? & ? & ?).
    + split; [|done]. intros m Hm. by destruct (coll_amount0 m Hm) as (? & ? & ?).
Qed.

(** ** The order of emission *)
Definition emission_order : list GateReason :=
  [PROPOSAL_MERCHANT_MISMATCH; PROPOSAL_CASE_MISMATCH; ACTION_NOT_YET_VALID; ACTION_EXPIRED;
   ACTION_NOT_ALLOWED; ENVIRONMENT_EFFECTS_DISABLED; GLOBAL_KILL_SWITCH_ACTIVE;
   MERCHANT_KILL_SWITCH_ACTIVE; AGGREGATE_VERSION_MISMATCH]
  ++ [RECOVERY_STATE_NOT_ACTIONABLE]
  ++ [OBSERVATION_DEADLINE_MISSING; OBSERVATION_WINDOW_ACTIVE]
  ++ [PAYMENT_TRUTH_NOT_UNPAID; PROVIDER_SNAPSHOT_FROM_FUTURE; PROVIDER_SNAPSHOT_STALE]
  ++ [ACTIVE_INSTRUMENT_EXISTS; ACTIVE_INSTRUMENT_REQUIRED]
  ++ [CURRENCY_MISMATCH; AMOUNT_MISMATCH; PAYMENT_METHOD_MISMATCH]
  ++ [CONSENT_MISSING; CUSTOMER_OPTED_OUT; COOLDOWN_ACTIVE; CONTACT_CAP_REACHED; QUIET_HOURS_ACTIVE]
  ++ [INCIDENT_HEALTH_FROM_FUTURE; INCIDENT_HEALTH_STALE; PAYMENT_METHOD_UNHEALTHY;
      ATTEMPT_BUDGET_EXHAUSTED]
  ++ ([POLICY_CURRENCY_MISMATCH]
      ++ ([HIGH_VALUE_REQUIRES_APPROVAL; CONFIDENCE_UNAVAILABLE; CONFIDENCE_BELOW_THRESHOLD;
           ABSTENTION_REQUIRES_APPROVAL; EXTERNAL_DIAGNOSIS_REQUIRES_APPROVAL]
          ++ [REASON_APPROVAL_REQUIRED; APPROVAL_REJECTED; APPROVAL_NOT_YET_VALID;
              APPROVAL_EXPIRED; APPROVAL_BINDING_MISMATCH]))
  ++ [PLAN_AUTHORIZATION_MISSING; PLAN_BINDING_MISMATCH; DURABLE_INTENT_MISSING].

Lemma append_if_cons b (x : GateReason) l l' :
  l `sublist_of` l' → append_if b x ++ l `sublist_of` x :: l'.
Proof. intros H. destruct b; cbn; [by apply sublist_skip|by apply sublist_cons]. Qed.

Lemma append_elif_cons a x b y l l' :
  l `sublist_of` l' → append_elif a x b y ++ l `sublist_of` x :: y :: l'.
Proof.
  intros H. destruct a; cbn; [apply sublist_skip; by apply sublist_cons|].
  apply sublist_cons. by apply append_if_cons.
Qed.

Lemma when_sublist g block l : block `sublist_of` l → when g block `sublist_of` l.
Proof. destruct g; [done|]. intros _. apply sublist_nil_l. Qed.

(** Each appended reason in turn, from the front. *)
#[local] Ltac emission :=
  repeat first [ apply append_if_cons | apply append_elif_cons | apply append_if_sublist
               | apply when_sublist | apply sublist_nil_l ].

Lemma append_if_sublist2 b (x y : GateReason) : append_if b y `sublist_of` [x; y].
Proof. apply sublist_cons, append_if_sublist. Qed.

Lemma binding_order self p c h : binding_reasons self p c h `sublist_of`
  [PROPOSAL_MERCHANT_MISMATCH; PROPOSAL_CASE_MISMATCH; ACTION_NOT_YET_VALID; ACTION_EXPIRED;
   ACTION_NOT_ALLOWED; ENVIRONMENT_EFFECTS_DISABLED; GLOBAL_KILL_SWITCH_ACTIVE;
   MERCHANT_KILL_SWITCH_ACTIVE; AGGREGATE_VERSION_MISMATCH].
Proof. unfold binding_reasons. emission. Qed.

Lemma observation_order p c :
  observation_reasons p c `sublist_of` [OBSERVATION_DEADLINE_MISSING; OBSERVATION_WINDOW_ACTIVE].
Proof.
  unfold observation_reasons. apply when_sublist. case_match; [apply append_if_sublist2|].
  apply sublist_skip, sublist_nil_l.
Qed.

Lemma snapshot_order self p c h : snapshot_reasons self p c h `sublist_of`
  [PAYMENT_TRUTH_NOT_UNPAID; PROVIDER_SNAPSHOT_FROM_FUTURE; PROVIDER_SNAPSHOT_STALE].
Proof.
  unfold snapshot_reasons. emission. rewrite <- (app_nil_r (append_elif _ _ _ _)). emission.
Qed.

Lemma instrument_order p c :
  instrument_reasons p c `sublist_of` [ACTIVE_INSTRUMENT_EXISTS; ACTIVE_INSTRUMENT_REQUIRED].
Proof.
  unfold instrument_reasons. case_decide; [|apply append_if_sublist2].
  rewrite <- (app_nil_r (append_if _ _)). emission.
Qed.

Lemma amount_order p c : amount_reasons p c `sublist_of`
  [CURRENCY_MISMATCH; AMOUNT_MISMATCH; PAYMENT_METHOD_MISMATCH].
Proof. unfold amount_reasons. case_match; [|apply sublist_nil_l]. emission. Qed.

Lemma contact_order self p c : contact_reasons self p c `sublist_of`
  [CONSENT_MISSING; CUSTOMER_OPTED_OUT; COOLDOWN_ACTIVE; CONTACT_CAP_REACHED; QUIET_HOURS_ACTIVE].
Proof. unfold contact_reasons. emission. Qed.

Lemma health_order self p c h : health_reasons self p c h `sublist_of`
  [INCIDENT_HEALTH_FROM_FUTURE; INCIDENT_HEALTH_STALE; PAYMENT_METHOD_UNHEALTHY;
   ATTEMPT_BUDGET_EXHAUSTED].
Proof. unfold health_reasons. emission. Qed.

Lemma causes_order self p c : approval_causes self p c `sublist_of`
  [HIGH_VALUE_REQUIRES_APPROVAL; CONFIDENCE_UNAVAILABLE; CONFIDENCE_BELOW_THRESHOLD;
   ABSTENTION_REQUIRES_APPROVAL; EXTERNAL_DIAGNOSIS_REQUIRES_APPROVAL].
Proof.
  unfold approval_causes.
  change [HIGH_VALUE_REQUIRES_APPROVAL; CONFIDENCE_UNAVAILABLE; CONFIDENCE_BELOW_THRESHOLD;
    ABSTENTION_REQUIRES_APPROVAL; EXTERNAL_DIAGNOSIS_REQUIRES_APPROVAL]
  with ([HIGH_VALUE_REQUIRES_APPROVAL] ++ [CONFIDENCE_UNAVAILABLE; CONFIDENCE_BELOW_THRESHOLD]
        ++ [ABSTENTION_REQUIRES_APPROVAL; EXTERNAL_DIAGNOSIS_REQUIRES_APPROVAL]).
  apply sublist_app; [|apply sublist_app].
  - unfold amount_causes. case_match; cbn; [case_match|]; cbn; emission.
  - case_match; [apply append_if_sublist2|]. apply sublist_skip, sublist_nil_l.
  - emission.
Qed.

Definition approval_failures : list GateReason :=
  [REASON_APPROVAL_REQUIRED; APPROVAL_REJECTED; APPROVAL_NOT_YET_VALID; APPROVAL_EXPIRED;
   APPROVAL_BINDING_MISMATCH].

Lemma approval_failure_kind p c r : _approval_failure p c = Ok (Some r) → r ∈ approval_failures.
Proof.
  unfold _approval_failure, approval_failures. rewrite !elem_of_cons. intros H.
  repeat case_match; inv_ok; try (simplify_eq; tauto). case_match; simplify_eq; tauto.
Qed.

Lemma approvals_order self p c rs :
  approval_reasons self p c = Ok rs →
  rs `sublist_of` [POLICY_CURRENCY_MISMATCH]
    ++ ([HIGH_VALUE_REQUIRES_APPROVAL; CONFIDENCE_UNAVAILABLE; CONFIDENCE_BELOW_THRESHOLD;
         ABSTENTION_REQUIRES_APPROVAL; EXTERNAL_DIAGNOSIS_REQUIRES_APPROVAL]
        ++ approval_failures).
Proof.
  unfold approval_reasons. destruct (is_collection p); intros H; inv_ok; subst;
    [|apply sublist_nil_l]. apply sublist_app.
  - unfold amount_causes. repeat case_match; cbn; first [apply sublist_nil_l | apply sublist_skip, sublist_nil_l].
  - destruct r as [r|]; [|apply sublist_nil_l].
    assert (r ∈ approval_failures) as Hr'.
    { destruct (approval_needed self p c); inv_ok; [by eapply approval_failure_kind|done]. }
    apply sublist_app; [apply causes_order|]. by apply singleton_sublist_l.
Qed.

Lemma plan_order_sublist self st p c prior rs :
  plan_reasons self st p c prior = Ok rs →
  rs `sublist_of` [PLAN_AUTHORIZATION_MISSING; PLAN_BINDING_MISMATCH; DURABLE_INTENT_MISSING].
Proof.
  unfold plan_reasons. case_match; intros H0; inv_ok; subst; [|apply sublist_nil_l].
  change [PLAN_AUTHORIZATION_MISSING; PLAN_BINDING_MISMATCH; DURABLE_INTENT_MISSING]
    with ([PLAN_AUTHORIZATION_MISSING; PLAN_BINDING_MISMATCH] ++ [DURABLE_INTENT_MISSING]).
  apply sublist_app; [|emission].
  destruct prior; inv_ok; subst; [apply append_if_sublist2|]. apply sublist_skip, sublist_nil_l.
Qed.

(** ** Decisions are total on the values the program holds *)
Lemma approval_failure_total p c :
  ActionProposal_valid p → ∃ r, _approval_failure p c = Ok r.
Proof.
  intros Hp. destruct (action_key_total p (valid_facts p Hp)) as (k & Hk & _).
  destruct (proposal_digest_total p Hp) as (h & Hh & _).
  unfold _approval_failure, or_else. destruct (approval c); [|by eexists].
  rewrite Hk, bind_Ok_l, Hh, bind_Ok_l. repeat case_match; by eexists.
Qed.

Lemma plan_matches_total self prior p c :
  ActionProposal_valid p → ∃ b, _plan_matches self prior p c = Ok b.
Proof.
  intros Hp. destruct (action_key_total p (valid_facts p Hp)) as (k & Hk & _).
  destruct (proposal_digest_total p Hp) as (h & Hh & _).
  unfold _plan_matches, and_then. rewrite Hk, bind_Ok_l, Hh, bind_Ok_l.
  repeat case_match; by eexists.
Qed.

Lemma evaluate_total self st p c prior :
  ActionProposal_valid p →
  is_ok (dt_add (evaluated_at c) (allowed_clock_skew self)) = true →
  is_ok (_evaluate self st p c prior) = true.
Proof.
  intros Hp [h Hh]%is_ok_true. destruct (action_key_total p (valid_facts p Hp)) as (k & Hk & _).
  destruct (proposal_digest_total p Hp) as (g & Hg & _).
  unfold _evaluate. rewrite Hh, bind_Ok_l.
  assert (∃ rs, approval_reasons self p c = Ok rs) as [rs ->].
  { unfold approval_reasons. destruct (is_collection p); [|by eexists].
    destruct (approval_needed self p c); [|by eexists].
    destruct (approval_failure_total p c Hp) as [r ->]. by eexists. }
  assert (∃ rs, plan_reasons self st p c prior = Ok rs) as [rs' ->].
  { unfold plan_reasons. case_match; [|by eexists]. destruct prior as [d|]; [|by eexists].
    destruct (plan_matches_total self d p c Hp) as [b ->]. by eexists. }
  by rewrite Hk, Hg.
Qed.

(** ** Replacing the approval of a context *)
Definition with_approval (c : GateContext) (a : option Approval) : GateContext :=
  mkGateContext (ctx_merchant_id c) (ctx_case_id c) (evaluated_at c) (aggregate_version c)
    (expected_aggregate_version c) (recovery_state c) (snapshot c) (environment_effects_enabled c)
    (observation_deadline c) (global_kill_switch c) (merchant_kill_switch c) (consent_granted c)
    (opted_out c) (cooldown_until c) (contacts_in_window c) (quiet_hours_active c) (attempts_used c)
    (abstention_required c) (external_diagnosis_review_required c) a (durable_intent_recorded c).

Definition not_approval_blocking (r : GateReason) : bool := negb (mem r APPROVAL_BLOCKING_REASONS).

Lemma filter_all (l order : list GateReason) :
  l `sublist_of` order → forallb not_approval_blocking order = true →
  List.filter not_approval_blocking l = l.
Proof.
  intros Hl Ho. rewrite forallb_Forall, Forall_forall in Ho.
  assert (Hin : ∀ r, r ∈ l → not_approval_blocking r = true).
  { intros r Hr. apply Ho. by eapply sublist_submseteq, elem_of_submseteq in Hl. }
  clear Hl Ho. induction l as [|r l IH]; [done|]. cbn. rewrite Hin by left. f_equal. apply IH.
  intros r' Hr'. apply Hin. by right.
Qed.

Lemma filter_none (l order : list GateReason) :
  l `sublist_of` order → forallb (λ r, negb (not_approval_blocking r)) order = true →
  List.filter not_approval_blocking l = [].
Proof.
  intros Hl Ho. rewrite forallb_Forall, Forall_forall in Ho.
  assert (Hin : ∀ r, r ∈ l → not_approval_blocking r = false).
  { intros r Hr. apply negb_true_iff, Ho. by eapply sublist_submseteq, elem_of_submseteq in Hl. }
  clear Hl Ho. induction l as [|r l IH]; [done|]. cbn. rewrite Hin by left. apply IH.
  intros r' Hr'. apply Hin. by right.
Qed.

Lemma approval_reasons_filter self p c a rs rs' :
  approval_authorizes p (with_approval c (Some a)) a →
  approval_reasons self p c = Ok rs → approval_reasons self p (with_approval c (Some a)) = Ok rs' →
  rs' = List.filter not_approval_blocking rs.
Proof.
  intros Ha. assert (Hf : _approval_failure p (with_approval c (Some a)) = Ok None).
  { apply approval_failure_None. by exists a. }
  unfold approval_reasons. destruct (is_collection p); intros H H'; inv_ok; subst; [|done].
  change (approval_needed self p (with_approval c (Some a))) with (approval_needed self p c) in *.
  rewrite Hf in *. assert (r = None) as -> by (destruct (approval_needed self p c); congruence).
  rewrite app_nil_r, List.filter_app.
  rewrite (filter_all (amount_causes self p).1 [POLICY_CURRENCY_MISMATCH]); [|..|done].
  2: { unfold amount_causes. repeat case_match; cbn; first [apply sublist_nil_l | apply sublist_skip, sublist_nil_l]. }
  destruct r0 as [r|]; [|by rewrite app_nil_r]. rewrite List.filter_app.
  rewrite (filter_none _ _ (causes_order self p c)) by done.
  assert (Hr' : r ∈ approval_failures).
  { destruct (approval_needed self p c); inv_ok; [by eapply approval_failure_kind|done]. }
  cbn. assert (not_approval_blocking r = false) as ->; [|by rewrite app_nil_r].
  unfold approval_failures in Hr'. set_unfold in Hr'. by destruct_or!; subst.
Qed.

(** * Properties *)

(** C40: the gate is its specification: a decision of either stage is allowed
    exactly when every safety condition of that stage holds. *)
Theorem gate_allowed_iff self st p c prior d :
  _evaluate self st p c prior = Ok d → (allowed d = true ↔ gate_spec self st p c prior).
Proof. apply evaluate_allowed. Qed.

(** reason codes are emitted in one fixed order, each at most once, and
    the emission order covers every code. *)
Theorem gate_reason_order self st p c prior d :
  _evaluate self st p c prior = Ok d →
  reasons d `sublist_of` emission_order ∧ NoDup (reasons d).
Proof.
  intros H. assert (Hs : reasons d `sublist_of` emission_order).
  { unfold _evaluate in H. inv_ok. subst d. cbn [reasons]. unfold emission_order.
    repeat apply sublist_app; eauto using binding_order, append_if_sublist, observation_order,
      snapshot_order, instrument_order, amount_order, contact_order, health_order, approvals_order,
      plan_order_sublist. }
  split; [done|]. eapply sublist_NoDup; [|exact Hs]. by apply (bool_decide_unpack _).
Qed.

(** a valid, bound approval lifts exactly the approval-blocking reasons:
    every other reason stays, in place. *)
Theorem approval_lifts_approval_reasons self st p c prior a d d' :
  approval_authorizes p (with_approval c (Some a)) a →
  _evaluate self st p c prior = Ok d → _evaluate self st p (with_approval c (Some a)) prior = Ok d' →
  reasons d' = List.filter not_approval_blocking (reasons d).
Proof.
  intros Ha H H'. unfold _evaluate in *. inv_ok.
  change (plan_reasons self st p (with_approval c (Some a)) prior)
    with (plan_reasons self st p c prior) in *.
  change (evaluated_at (with_approval c (Some a))) with (evaluated_at c) in *. subst.
  repeat match goal with E : ?x = Ok _, E' : ?x = Ok _ |- _ =>
    rewrite E in E'; apply Ok_inj in E'; subst end.
  cbn [reasons]. rewrite !List.filter_app.
  match goal with
  | E : approval_reasons self p c = Ok ?rs, E' : approval_reasons self p (with_approval c _) = Ok ?rs' |- _ =>
      rewrite <- (approval_reasons_filter self p c a rs rs' Ha E E')
  end.
  rewrite (filter_all _ _ (binding_order self p c _)), (filter_all _ _ (observation_order p c)),
    (filter_all _ _ (snapshot_order self p c _)), (filter_all _ _ (instrument_order p c)),
    (filter_all _ _ (amount_order p c)), (filter_all _ _ (contact_order self p c)),
    (filter_all _ _ (health_order self p c _)), (filter_all (state_reasons st p c) [RECOVERY_STATE_NOT_ACTIONABLE])
    by (done || apply append_if_sublist).
  match goal with E : plan_reasons self st p c prior = Ok ?rs |- _ =>
    by rewrite (filter_all _ _ (plan_order_sublist self st p c prior rs E)) end.
Qed.

(** effects are never internal: wait, escalate and stop are refused at
    the effect stage, whatever the context. *)
Theorem internal_actions_have_no_effect self p c prior d :
  action_type p ∈ INTERNAL_ACTIONS → evaluate_effect self p c prior = Ok d →
  RECOVERY_STATE_NOT_ACTIONABLE ∈ reasons d ∧ allowed d = false.
Proof.
  intros Hp H. unfold evaluate_effect, _evaluate in H. inv_ok. subst d. unfold allowed.
  assert (Hin : state_reasons EFFECT p c = [RECOVERY_STATE_NOT_ACTIONABLE]).
  { unfold state_reasons, actionable_states, INTERNAL_ACTIONS in *. set_unfold in Hp.
    by destruct_or!; rewrite Hp. }
  cbn [reasons]. rewrite Hin. split; [set_solver|].
  apply bool_decide_false. by destruct (binding_reasons _ _ _ _).
Qed.

(** on values the program holds, the gate decides: nothing is raised
    unless the clock-skew horizon leaves the range of [datetime]. *)
Theorem gate_total self st p c prior :
  ActionProposal_valid p →
  (∃ d, _evaluate self st p c prior = Ok d)
  ∨ _evaluate self st p c prior = Raise OverflowError.
Proof.
  intros Hp. destruct (dt_add (evaluated_at c) (allowed_clock_skew self)) as [h|e] eqn:E.
  - left. apply is_ok_true, evaluate_total; [done|]. by rewrite E.
  - right. unfold _evaluate. rewrite E. unfold dt_add in E. case_match; [done|]. by injection E as <-.
Qed.

(** under the pinned production policy an allowed payment link is backed
    by a provider snapshot at most 30 seconds old that says unpaid, health
    evidence at most two minutes old, at most two earlier attempts, and from
    5000 INR on by a human approval of this very proposal. *)
Theorem production_link_conditions policy p c prior d m :
  production_gate = Ok policy → evaluate_effect policy p c prior = Ok d → allowed d = true →
  action_type p = CREATE_STANDARD_PAYMENT_LINK → amount p = Some m →
  payment_state (snapshot c) = UNPAID ∧ m = amount_due (snapshot c)
  ∧ instant (evaluated_at c) <= instant (observed_at (snapshot c)) + seconds 30
  ∧ instant (evaluated_at c) <= instant (method_health_observed_at (snapshot c)) + minutes 2
  ∧ attempts_used c <= 2 ∧ currency m = $"INR" ∧ active_instrument_count (snapshot c) <= 0
  ∧ (500000 <= minor_units m → ∃ a, approval c = Some a ∧ approval_authorizes p c a).
Proof.
  intros Hprod H Ha Hp Hm. assert (Hpol : Ok policy = production_gate) by done.
  vm_compute in Hpol. injection Hpol as ->. apply (evaluate_allowed _ _ _ _ _ _ H) in Ha as [].
  destruct spec_collection0; [unfold is_collection, mem; by rewrite Hp|].
  destruct (coll_amount0 m Hm) as (? & _ & Hc). destruct coll_snapshot0 as [_ Hs], coll_health0 as [_ Hh].
  cbn in *. unfold seconds, minutes. split_and!; auto; try lia.
  intros Hbig. apply coll_approval0. right. left. by exists m.
Qed.

(** * Witnesses *)
Definition sample_policy : GatePolicy :=
  mkGatePolicy PINNED_POLICY_VERSION all_action_types (seconds 30) (minutes 2) 3 2
    (mkMoney 500000 ($"INR")) (mkProbability (DFinite false 75 (-2))) (seconds 5).

Definition sample_snapshot : ProviderSnapshot :=
  mkProviderSnapshot UNPAID (mkMoney 10000 ($"INR")) ($"upi") (utc 63082281590000000) 0 NORMAL
    (utc 63082281590000000).

Definition sample_context (state : RecoveryState) (a : option Approval) : GateContext :=
  mkGateContext ($"merchant_1") ($"case_1") (utc 63082281600000000) 4 4 state sample_snapshot true
    (Some (utc 63082281500000000)) false false true false None 0 false 0 false false a true.

(** The proposal asks for an approval. *)
Definition guarded_proposal : ActionProposal :=
  mkActionProposal ($"prop_1") ($"merchant_1") ($"case_1") 1 CREATE_STANDARD_PAYMENT_LINK
    (utc 63082281600000000) (utc 63082282500000000) 1 (Some (mkMoney 10000 ($"INR")))
    (Some ($"upi")) (Some 2500) (Some (mkProbability (DFinite false 90 (-2)))) true None.

Definition sample_approval (p : ActionProposal) : option Approval :=
  match action_key p, proposal_digest p with
  | Ok key, Ok digest =>
      Some (mkApproval ($"appr_1") ($"merchant_1") ($"case_1") key digest 1 ($"operator_1")
              (utc 63082281550000000) (utc 63082282500000000) true)
  | _, _ => None
  end.

Definition check_decision (r : result GateDecision) (f : GateDecision → bool) : bool :=
  match r with Ok d => f d | Raise _ => false end.

Lemma check_decision_Ok r f : check_decision r f = true → ∃ d, r = Ok d ∧ f d = true.
Proof. destruct r; [by eexists|done]. Defined.

Lemma gate_allowed_iff_witness :
  gate_spec sample_policy POLICY sample_proposal (sample_context ASSESSING None) None.
Proof.
  assert (H : check_decision (_evaluate sample_policy POLICY sample_proposal
                (sample_context ASSESSING None) None) allowed = true) by (vm_compute; reflexivity).
  apply check_decision_Ok in H as (d & Hd & Ha).
  exact (proj1 (gate_allowed_iff _ _ _ _ _ _ Hd) Ha).
Defined.

Lemma gate_reason_order_witness :
  ∃ d, evaluate_policy sample_policy guarded_proposal (sample_context OBSERVING None) = Ok d
       ∧ NoDup (reasons d).
Proof.
  assert (H : check_decision (evaluate_policy sample_policy guarded_proposal
                (sample_context OBSERVING None)) (λ d, bool_decide (length (reasons d) = 2%nat)) = true)
    by (vm_compute; reflexivity).
  apply check_decision_Ok in H as (d & Hd & _). exists d. split; [exact Hd|].
  exact (proj2 (gate_reason_order _ _ _ _ _ _ Hd)).
Defined.

Lemma approval_lifts_approval_reasons_witness :
  ∃ a d d', sample_approval guarded_proposal = Some a
    ∧ evaluate_policy sample_policy guarded_proposal (sample_context APPROVAL_REQUIRED None) = Ok d
    ∧ evaluate_policy sample_policy guarded_proposal
        (with_approval (sample_context APPROVAL_REQUIRED None) (Some a)) = Ok d'
    ∧ reasons d' = List.filter not_approval_blocking (reasons d).
Proof.
  assert (Hv : ActionProposal_valid guarded_proposal)
    by (split; [reflexivity..| |]; intros ? [= <-]; reflexivity).
  destruct (action_key_total _ (valid_facts _ Hv)) as (k & Hk & _).
  destruct (proposal_digest_total _ Hv) as (h & Hh & _).
  unfold sample_approval. rewrite Hk, Hh. eexists.
  assert (H1 := evaluate_total sample_policy POLICY guarded_proposal
    (sample_context APPROVAL_REQUIRED None) None Hv eq_refl).
  apply is_ok_true in H1 as [d Hd].
  eassert (H2 := evaluate_total sample_policy POLICY guarded_proposal
    (with_approval (sample_context APPROVAL_REQUIRED None) (Some _)) None Hv eq_refl).
  apply is_ok_true in H2 as [d' Hd']. exists d, d'.
  split; [reflexivity|]. split; [exact Hd|]. split; [exact Hd'|].
  refine (approval_lifts_approval_reasons _ _ _ _ _ _ d d' _ Hd Hd').
  split; [reflexivity|vm_compute; discriminate|reflexivity|reflexivity|reflexivity|exact Hk|exact Hh
         |reflexivity].
Defined.

Definition escalation : ActionProposal :=
  mkActionProposal ($"prop_3") ($"merchant_1") ($"case_1") 1 ESCALATE
    (utc 63082281600000000) (utc 63082282500000000) 1 None None None None false None.

Lemma internal_actions_have_no_effect_witness :
  ∃ d, evaluate_effect sample_policy escalation (sample_context ASSESSING None) None = Ok d
       ∧ allowed d = false.
Proof.
  assert (Hv : ActionProposal_valid escalation) by (split; [reflexivity..| |]; intros ? [=]).
  assert (H := evaluate_total sample_policy EFFECT escalation (sample_context ASSESSING None) None
                 Hv eq_refl).
  apply is_ok_true in H as [d Hd]. exists d. split; [exact Hd|].
  refine (proj2 (internal_actions_have_no_effect _ _ _ _ _ _ Hd)).
  apply list_elem_of_In. cbn. tauto.
Defined.

Lemma gate_total_witness :
  (∃ d, _evaluate sample_policy POLICY sample_proposal (sample_context ASSESSING None) None = Ok d)
  ∨ _evaluate sample_policy POLICY sample_proposal (sample_context ASSESSING None) None
    = Raise OverflowError.
Proof. apply gate_total. exact sample_proposal_valid. Defined.

(** The whole path to an allowed effect: plan, then effect with that plan. *)
Definition planned_effect (p : ActionProposal) : result GateDecision :=
  plan ← evaluate_policy sample_policy p (sample_context ASSESSING None);
  evaluate_effect sample_policy p (sample_context ACTION_QUEUED None) (Some plan).

Lemma production_link_conditions_witness :
  attempts_used (sample_context ACTION_QUEUED None) <= 2
  ∧ active_instrument_count sample_snapshot <= 0.
Proof.
  assert (H : check_decision (planned_effect sample_proposal) allowed = true)
    by (vm_compute; reflexivity).
  apply check_decision_Ok in H as (d & Hd & Ha). unfold planned_effect in Hd.
  apply bind_Ok in Hd as (plan & _ & Hd).
  assert (Hg : production_gate = Ok sample_policy) by (vm_compute; reflexivity).
  destruct (production_link_conditions _ _ _ _ _ _ Hg Hd Ha eq_refl eq_refl)
    as (_ & _ & _ & _ & H1 & _ & H2 & _).
  split; [exact H1|exact H2].
Defined.
