(* ===== verification/Aggregate.v ===== *)
(** [packages/domain/aggregate.py]: the versioned recovery-case aggregate.
    Commands are functions to an [AggregateChange] or an exception;
    [replace(self, **changes)] is [_change] applied to a composition of field
    setters, with [__post_init__] run again on the result. *)
From stdpp Require Import relations.
From S2P Require Import Prelude PyStr PyTime Json Canonical Digest Values States Actions Gate.

(** * Data *)
Record AggregateEvent := mkAggregateEvent {
  event_type : pystr;
  event_case_id : pystr;
  event_version : Z;
  occurred_at : datetime;
  payload_json : pystr
}.

Record RecoveryAggregate := mkRecoveryAggregate {
  merchant_id : pystr;
  case_id : pystr;
  logical_order_id : pystr;
  agg_amount_due : Money;
  state : RecoveryState;
  agg_payment_state : CanonicalPaymentState;
  agg_incident_state : IncidentState;
  version : Z;
  agg_decision_version : Z;
  active_action_key : option pystr;
  active_proposal_id : option pystr;
  active_instrument_reference : option pystr;
  last_transition_at : option datetime;
  late_capture_policy : LateCapturePolicy;
  observation_started_at : option datetime;
  deadline : option datetime   (* [observation_deadline] *)
}.

Record AggregateChange := mkAggregateChange {
  aggregate : RecoveryAggregate;
  events : list AggregateEvent
}.

#[export] Instance RecoveryAggregate_eq_dec : EqDecision RecoveryAggregate.
Proof. solve_decision. Defined.

Definition changed (c : AggregateChange) : bool := negb (bool_decide (length (events c) = 0%nat)).

Definition payload (e : AggregateEvent) : result (list (pystr * json)) :=
  match loads (payload_json e) with
  | Some (JDict d) => Ok d
  | Some _ => Raise (InvalidValue "aggregate event payload must decode to an object")
  | None => Raise (ValueError "JSONDecodeError")
  end.

Definition AggregateEvent_to_primitive (e : AggregateEvent) : result pyobj :=
  occurred ← canonical_timestamp (occurred_at e);
  body ← payload e;
  Ok (PyDict
    [(PyStr ($"case_id"), PyStr (event_case_id e));
     (PyStr ($"event_type"), PyStr (event_type e));
     (PyStr ($"occurred_at"), PyStr occurred);
     (PyStr ($"payload"), pyobj_of_json (JDict body));
     (PyStr ($"version"), PyInt (event_version e))]).

(** * Construction *)
Definition utc_or_none (o : option datetime) (field : string) : result (option datetime) :=
  when_some o (λ d, require_utc d field).

(** The last block of [__post_init__], on the normalised times. *)
Definition check_timing (st : RecoveryState) (policy : LateCapturePolicy)
    (last started until : option datetime) : result unit :=
  _ ← (if decide (st = DORMANT) then
         raise_if (bool_decide (started ≠ None) || bool_decide (until ≠ None))
           (InvalidValue "a dormant case cannot have observation timing")
       else if bool_decide (started = None) || bool_decide (until = None) then
         Raise (InvalidValue "a started recovery case requires observation timing")
       else raise_if (bool_decide (last = None))
              (InvalidValue "a started recovery case requires a last transition time"));
  match started, until with
  | Some s, Some u =>
      minimum_deadline ← dt_add s (minimum_observation_window policy);
      _ ← raise_if (dt_ltb u minimum_deadline)
            (InvalidValue "observation deadline is below the bound policy floor");
      match last with
      | Some l =>
          raise_if (dt_ltb l s) (InvalidValue "observation start cannot follow the last transition")
      | None => Ok tt
      end
  | _, _ => Ok tt
  end.

Definition RecoveryAggregate_post_init (a : RecoveryAggregate) : result RecoveryAggregate :=
  _ ← require_identifier (merchant_id a) "merchant_id";
  _ ← require_identifier (case_id a) "case_id";
  _ ← require_identifier (logical_order_id a) "logical_order_id";
  _ ← raise_if (minor_units (agg_amount_due a) <=? 0)
        (InvalidValue "recovery amount_due must be positive");
  _ ← non_negative_integer "version" (version a);
  _ ← non_negative_integer "decision_version" (agg_decision_version a);
  _ ← raise_if (version a <? agg_decision_version a)
        (InvalidValue "decision_version cannot exceed aggregate version");
  _ ← when_some (active_action_key a) (λ v, require_identifier v "active_action_key");
  _ ← when_some (active_proposal_id a) (λ v, require_identifier v "active_proposal_id");
  _ ← when_some (active_instrument_reference a)
        (λ v, require_identifier v "active_instrument_reference");
  _ ← raise_if (match active_action_key a with
                | Some key => negb (starts_with ($"act_") key) | None => false end)
        (InvalidValue "active_action_key has an invalid prefix");
  last ← utc_or_none (last_transition_at a) "last_transition_at";
  started ← utc_or_none (observation_started_at a) "observation_started_at";
  until ← utc_or_none (deadline a) "observation_deadline";
  _ ← check_timing (state a) (late_capture_policy a) last started until;
  Ok (mkRecoveryAggregate (merchant_id a) (case_id a) (logical_order_id a) (agg_amount_due a)
        (state a) (agg_payment_state a) (agg_incident_state a) (version a)
        (agg_decision_version a) (active_action_key a) (active_proposal_id a)
        (active_instrument_reference a) last (late_capture_policy a) started until).

Definition collection_closed (a : RecoveryAggregate) : bool :=
  mem (state a) COLLECTION_TERMINAL_STATES.

(** * [dataclasses.replace]: one field at a time *)
Definition set_state (x : RecoveryState) (a : RecoveryAggregate) : RecoveryAggregate :=
  mkRecoveryAggregate (merchant_id a) (case_id a) (logical_order_id a) (agg_amount_due a)
    x (agg_payment_state a) (agg_incident_state a) (version a) (agg_decision_version a)
    (active_action_key a) (active_proposal_id a) (active_instrument_reference a)
    (last_transition_at a) (late_capture_policy a) (observation_started_at a) (deadline a).
Definition set_payment_state (x : CanonicalPaymentState) (a : RecoveryAggregate) : RecoveryAggregate :=
  mkRecoveryAggregate (merchant_id a) (case_id a) (logical_order_id a) (agg_amount_due a)
    (state a) x (agg_incident_state a) (version a) (agg_decision_version a)
    (active_action_key a) (active_proposal_id a) (active_instrument_reference a)
    (last_transition_at a) (late_capture_policy a) (observation_started_at a) (deadline a).
Definition set_incident_state (x : IncidentState) (a : RecoveryAggregate) : RecoveryAggregate :=
  mkRecoveryAggregate (merchant_id a) (case_id a) (logical_order_id a) (agg_amount_due a)
    (state a) (agg_payment_state a) x (version a) (agg_decision_version a)
    (active_action_key a) (active_proposal_id a) (active_instrument_reference a)
    (last_transition_at a) (late_capture_policy a) (observation_started_at a) (deadline a).
Definition set_version (x : Z) (at_ : datetime) (a : RecoveryAggregate) : RecoveryAggregate :=
  mkRecoveryAggregate (merchant_id a) (case_id a) (logical_order_id a) (agg_amount_due a)
    (state a) (agg_payment_state a) (agg_incident_state a) x (agg_decision_version a)
    (active_action_key a) (active_proposal_id a) (active_instrument_reference a)
    (Some at_) (late_capture_policy a) (observation_started_at a) (deadline a).
Definition set_decision_version (x : Z) (a : RecoveryAggregate) : RecoveryAggregate :=
  mkRecoveryAggregate (merchant_id a) (case_id a) (logical_order_id a) (agg_amount_due a)
    (state a) (agg_payment_state a) (agg_incident_state a) (version a) x
    (active_action_key a) (active_proposal_id a) (active_instrument_reference a)
    (last_transition_at a) (late_capture_policy a) (observation_started_at a) (deadline a).
Definition set_active_action (key proposal : option pystr) (a : RecoveryAggregate) : RecoveryAggregate :=
  mkRecoveryAggregate (merchant_id a) (case_id a) (logical_order_id a) (agg_amount_due a)
    (state a) (agg_payment_state a) (agg_incident_state a) (version a) (agg_decision_version a)
    key proposal (active_instrument_reference a)
    (last_transition_at a) (late_capture_policy a) (observation_started_at a) (deadline a).
Definition set_instrument (x : option pystr) (a : RecoveryAggregate) : RecoveryAggregate :=
  mkRecoveryAggregate (merchant_id a) (case_id a) (logical_order_id a) (agg_amount_due a)
    (state a) (agg_payment_state a) (agg_incident_state a) (version a) (agg_decision_version a)
    (active_action_key a) (active_proposal_id a) x
    (last_transition_at a) (late_capture_policy a) (observation_started_at a) (deadline a).
Definition set_observation (started until : datetime) (a : RecoveryAggregate) : RecoveryAggregate :=
  mkRecoveryAggregate (merchant_id a) (case_id a) (logical_order_id a) (agg_amount_due a)
    (state a) (agg_payment_state a) (agg_incident_state a) (version a) (agg_decision_version a)
    (active_action_key a) (active_proposal_id a) (active_instrument_reference a)
    (last_transition_at a) (late_capture_policy a) (Some started) (Some until).

(** * The guards shared by the commands *)
Definition _require_version (self : RecoveryAggregate) (expected_version : Z) : result unit :=
  _ ← raise_if (expected_version <? 0)
        (InvalidValue "expected_version must be a non-negative integer");
  raise_if (bool_decide (expected_version ≠ version self))
    (VersionConflict expected_version (version self)).

Definition _require_recovery_transition (self : RecoveryAggregate) (target : RecoveryState) :
    result bool := validate_recovery_transition (state self) target.

Definition _require_proposal_binding (self : RecoveryAggregate) (p : ActionProposal)
    (next_decision : bool) : result unit :=
  _ ← raise_if (bool_decide (proposal_merchant_id p ≠ merchant_id self)
                || bool_decide (proposal_case_id p ≠ case_id self))
        (AuthorizationBindingError "proposal belongs to another aggregate");
  let expected_decision :=
    if next_decision then agg_decision_version self + 1 else agg_decision_version self in
  raise_if (bool_decide (proposal_decision_version p ≠ expected_decision))
    (AuthorizationBindingError "proposal decision_version is stale or from the future").

Definition _require_gate_binding (self : RecoveryAggregate) (p : ActionProposal) (d : GateDecision)
    (st : GateStage) (expected_outcome : bool) : result unit :=
  _ ← raise_if (bool_decide (stage d ≠ st))
        (AuthorizationBindingError "gate stage does not match command");
  _ ← raise_if (bool_decide (allowed d ≠ expected_outcome))
        (AuthorizationBindingError "gate outcome does not match command");
  mismatch ←
    or_else (bool_decide (decision_proposal_id d ≠ proposal_id p))
      (key ← action_key p;
       or_else (bool_decide (decision_action_key d ≠ key))
         (digest ← proposal_digest p;
          Ok (bool_decide (decision_proposal_digest d ≠ digest)
              || bool_decide (decision_case_id d ≠ case_id self)
              || bool_decide (decision_version d ≠ proposal_decision_version p)
              || bool_decide (decision_aggregate_version d ≠ version self))));
  raise_if mismatch (AuthorizationBindingError "gate evidence is bound to other state").

Definition _require_active_action (self : RecoveryAggregate) (key : pystr) : result unit :=
  raise_if (bool_decide (Some key ≠ active_action_key self))
    (AuthorizationBindingError "action key is not active for this case").

Definition _require_observation_elapsed (self : RecoveryAggregate) (at_ : datetime) : result unit :=
  evaluated ← require_utc at_ "occurred_at";
  match deadline self with
  | None => Raise (DomainError "observation deadline is missing")
  | Some until =>
      raise_if (dt_ltb evaluated until)
        (DomainError "late-capture observation window has not elapsed")
  end.

Definition _change (self : RecoveryAggregate) (event : pystr) (at_ : datetime)
    (body : list (pyobj * pyobj)) (changes : RecoveryAggregate → RecoveryAggregate) :
    result AggregateChange :=
  _ ← require_identifier event "event_type";
  occurred ← require_utc at_ "occurred_at";
  _ ← raise_if (match last_transition_at self with
                | Some last => dt_ltb occurred last | None => false end)
        (InvalidValue "command time cannot precede the last transition");
  let next_version := version self + 1 in
  agg ← RecoveryAggregate_post_init (changes (set_version next_version occurred self));
  text ← canonical_json (PyDict body);
  Ok (mkAggregateChange agg [mkAggregateEvent event (case_id self) next_version occurred text]).

Definition state_text (s : RecoveryState) : pyobj := PyStr (lit (recovery_state_value s)).
Definition payment_text (s : CanonicalPaymentState) : pyobj := PyStr (lit (payment_state_value s)).
Definition incident_text (s : IncidentState) : pyobj := PyStr (lit (incident_state_value s)).

Definition _workflow_change (self : RecoveryAggregate) (target : RecoveryState) (event : pystr)
    (at_ : datetime) (body : list (pyobj * pyobj)) (changes : RecoveryAggregate → RecoveryAggregate) :
    result AggregateChange :=
  _ ← validate_recovery_transition (state self) target;
  _ ← (if decide (target = ASSESSING) then _require_observation_elapsed self at_ else Ok tt);
  _change self event at_
    (body ++ [(PyStr ($"workflow_from"), state_text (state self));
              (PyStr ($"workflow_to"), state_text target)])
    (λ a, changes (set_state target a)).

(** [AggregateChange(self, ())]. *)
Definition unchanged (self : RecoveryAggregate) : AggregateChange := mkAggregateChange self [].

(** * Commands *)
Definition observe_failure (self : RecoveryAggregate) (expected_version : Z) (at_ : datetime)
    (provider_event_id : pystr) (extend_observation_until : option datetime) :
    result AggregateChange :=
  _ ← _require_version self expected_version;
  _ ← require_identifier provider_event_id "provider_event_id";
  _ ← _require_recovery_transition self OBSERVING;
  observed ← require_utc at_ "occurred_at";
  until ← policy_observation_deadline (late_capture_policy self) observed extend_observation_until;
  _change self ($"RecoveryObservationStarted") observed
    [(PyStr ($"late_capture_policy"), LateCapturePolicy_to_primitive (late_capture_policy self));
     (PyStr ($"observation_deadline"), PyDatetime until);
     (PyStr ($"provider_event_id"), PyStr provider_event_id)]
    (λ a, set_observation observed until (set_state OBSERVING a)).

Definition reconcile_payment_truth (self : RecoveryAggregate) (target : CanonicalPaymentState)
    (expected_version : Z) (at_ : datetime) (evidence_id : pystr) : result AggregateChange :=
  _ ← _require_version self expected_version;
  _ ← require_identifier evidence_id "evidence";
  _ ← raise_if (mem target [PAID; OVERPAID])
        (DomainError "paid truth requires a path-aware success or duplicate command");
  differs ← validate_payment_transition (agg_payment_state self) target;
  if negb differs then Ok (unchanged self)
  else
    _change self ($"CanonicalPaymentTruthChanged") at_
      [(PyStr ($"evidence"), PyStr evidence_id);
       (PyStr ($"from"), payment_text (agg_payment_state self));
       (PyStr ($"to"), payment_text target)]
      (set_payment_state target).

Definition update_incident_state (self : RecoveryAggregate) (target : IncidentState)
    (expected_version : Z) (at_ : datetime) (evidence_id : pystr) : result AggregateChange :=
  _ ← _require_version self expected_version;
  _ ← require_identifier evidence_id "evidence";
  differs ← validate_incident_transition (agg_incident_state self) target;
  if negb differs then Ok (unchanged self)
  else
    _change self ($"IncidentStateChanged") at_
      [(PyStr ($"evidence"), PyStr evidence_id);
       (PyStr ($"from"), incident_text (agg_incident_state self));
       (PyStr ($"to"), incident_text target)]
      (set_incident_state target).

Definition mark_ready_for_evaluation (self : RecoveryAggregate) (expected_version : Z)
    (at_ : datetime) : result AggregateChange :=
  _ ← _require_version self expected_version;
  _ ← _require_recovery_transition self ASSESSING;
  _ ← raise_if (bool_decide (agg_payment_state self ≠ UNPAID))
        (DomainError "only freshly reconciled UNPAID truth can be assessed");
  _workflow_change self ASSESSING ($"RecoveryAssessmentStarted") at_
    [(PyStr ($"observation_deadline"), opt_prim PyDatetime (deadline self))] id.

Definition wait (self : RecoveryAggregate) (expected_version : Z) (at_ : datetime) (reason : pystr) :
    result AggregateChange :=
  _ ← _require_version self expected_version;
  _ ← require_identifier reason "reason";
  _ ← _require_recovery_transition self WAITING;
  _workflow_change self WAITING ($"RecoveryWaitScheduled") at_
    [(PyStr ($"reason"), PyStr reason)] id.

Definition wake (self : RecoveryAggregate) (expected_version : Z) (at_ : datetime) :
    result AggregateChange :=
  _ ← _require_version self expected_version;
  _ ← _require_recovery_transition self ASSESSING;
  _ ← raise_if (bool_decide (agg_payment_state self ≠ UNPAID))
        (DomainError "waiting case cannot re-open without UNPAID truth");
  _workflow_change self ASSESSING ($"RecoveryWaitElapsed") at_ [] id.

Definition invalid_recovery (self : RecoveryAggregate) (target : RecoveryState) : py_error :=
  InvalidTransition "recovery" (recovery_state_value (state self)) (recovery_state_value target).

Definition request_approval (self : RecoveryAggregate) (p : ActionProposal)
    (plan_decision : GateDecision) (expected_version : Z) (at_ : datetime) :
    result AggregateChange :=
  _ ← _require_version self expected_version;
  _ ← raise_if (bool_decide (state self ≠ ASSESSING)) (invalid_recovery self APPROVAL_REQUIRED);
  _ ← _require_observation_elapsed self at_;
  _ ← _require_proposal_binding self p true;
  _ ← _require_gate_binding self p plan_decision POLICY false;
  _ ← raise_if (bool_decide (reasons plan_decision = [])
                || negb (forallb (λ r, mem r APPROVAL_BLOCKING_REASONS) (reasons plan_decision)))
        (AuthorizationBindingError "approval cannot override non-approval safety failures");
  _ ← raise_if (negb (mem (action_type p) COLLECTION_ACTIONS))
        (DomainError "only collection proposals use approval workflow");
  _ ← raise_if (bool_decide (agg_payment_state self ≠ UNPAID))
        (DomainError "approval cannot be requested unless payment is UNPAID");
  gate_digest ← decision_digest plan_decision;
  primitive ← ActionProposal_to_primitive p;
  key ← action_key p;
  _workflow_change self APPROVAL_REQUIRED ($"RecoveryApprovalRequested") at_
    [(PyStr ($"gate_digest"), PyStr gate_digest);
     (PyStr ($"proposal"), primitive);
     (PyStr ($"reason_codes"), PyList (map PyStr (map reason_value (reasons plan_decision))))]
    (λ a, set_active_action (Some key) (Some (proposal_id p))
            (set_decision_version (proposal_decision_version p) a)).

Definition authorize_action (self : RecoveryAggregate) (p : ActionProposal)
    (plan_decision : GateDecision) (expected_version : Z) (at_ : datetime) :
    result AggregateChange :=
  _ ← _require_version self expected_version;
  _ ← raise_if (negb (mem (state self) [ASSESSING; APPROVAL_REQUIRED]))
        (invalid_recovery self ACTION_QUEUED);
  _ ← _require_observation_elapsed self at_;
  _ ← _require_proposal_binding self p (bool_decide (state self = ASSESSING));
  _ ← _require_gate_binding self p plan_decision POLICY true;
  _ ← raise_if (negb (mem (action_type p) COLLECTION_ACTIONS))
        (DomainError "only collection actions enter the execution workflow");
  _ ← raise_if (bool_decide (agg_payment_state self ≠ UNPAID))
        (DomainError "only UNPAID truth can authorize collection");
  mismatch ← and_then (bool_decide (state self = APPROVAL_REQUIRED))
    (key ← action_key p;
     Ok (bool_decide (active_action_key self ≠ Some key)
         || bool_decide (active_proposal_id self ≠ Some (proposal_id p))));
  _ ← raise_if mismatch
        (AuthorizationBindingError "approved proposal does not match the pending decision");
  _ ← _require_recovery_transition self ACTION_QUEUED;
  gate_digest ← decision_digest plan_decision;
  primitive ← ActionProposal_to_primitive p;
  key ← action_key p;
  _workflow_change self ACTION_QUEUED ($"RecoveryActionAuthorized") at_
    [(PyStr ($"gate_digest"), PyStr gate_digest); (PyStr ($"proposal"), primitive)]
    (λ a, set_active_action (Some key) (Some (proposal_id p))
            (set_decision_version (proposal_decision_version p) a)).

(** The target of an internal action; [None] is a missing key. *)
Definition internal_target (a : ActionType) : option RecoveryState :=
  match a with
  | WAIT => Some WAITING
  | ESCALATE => Some ESCALATED
  | STOP => Some SUPPRESSED_POLICY
  | _ => None
  end.

Definition record_internal_decision (self : RecoveryAggregate) (p : ActionProposal)
    (plan_decision : GateDecision) (expected_version : Z) (at_ : datetime) :
    result AggregateChange :=
  _ ← _require_version self expected_version;
  _ ← raise_if (negb (mem (action_type p) INTERNAL_ACTIONS))
        (DomainError "proposal is not an internal action");
  _ ← _require_proposal_binding self p true;
  _ ← _require_gate_binding self p plan_decision POLICY true;
  target ← match internal_target (action_type p) with
           | Some target => Ok target
           | None => Raise (KeyError (string_of (action_type_value (action_type p))))
           end;
  _ ← _require_recovery_transition self target;
  gate_digest ← decision_digest plan_decision;
  primitive ← ActionProposal_to_primitive p;
  _workflow_change self target ($"RecoveryInternalDecisionRecorded") at_
    [(PyStr ($"gate_digest"), PyStr gate_digest); (PyStr ($"proposal"), primitive)]
    (set_decision_version (proposal_decision_version p)).

Definition begin_execution (self : RecoveryAggregate) (p : ActionProposal)
    (effect_decision : GateDecision) (expected_version : Z) (at_ : datetime) :
    result AggregateChange :=
  _ ← _require_version self expected_version;
  _ ← _require_proposal_binding self p false;
  _ ← _require_gate_binding self p effect_decision EFFECT true;
  _ ← raise_if (bool_decide (state self ≠ ACTION_QUEUED)) (invalid_recovery self EXECUTING);
  _ ← _require_observation_elapsed self at_;
  key ← action_key p;
  _ ← raise_if (bool_decide (active_action_key self ≠ Some key))
        (AuthorizationBindingError "effect action key is not pending");
  _ ← raise_if (bool_decide (agg_payment_state self ≠ UNPAID))
        (DomainError "payment truth changed before execution");
  gate_digest ← decision_digest effect_decision;
  _workflow_change self EXECUTING ($"RecoveryActionExecutionStarted") at_
    [(PyStr ($"effect_gate_digest"), PyStr gate_digest); (PyStr ($"action_key"), PyStr key)] id.

Definition record_action_active (self : RecoveryAggregate) (expected_version : Z) (at_ : datetime)
    (key instrument : pystr) : result AggregateChange :=
  _ ← _require_version self expected_version;
  _ ← _require_active_action self key;
  _ ← require_identifier instrument "instrument_reference";
  if bool_decide (state self = ACTIVE)
     && bool_decide (active_instrument_reference self = Some instrument)
  then Ok (unchanged self)
  else
    _ ← _require_recovery_transition self ACTIVE;
    _workflow_change self ACTIVE ($"RecoveryInstrumentActivated") at_
      [(PyStr ($"action_key"), PyStr key); (PyStr ($"instrument_reference"), PyStr instrument)]
      (set_instrument (Some instrument)).

Definition record_action_uncertain (self : RecoveryAggregate) (expected_version : Z)
    (at_ : datetime) (key failure_code : pystr) : result AggregateChange :=
  _ ← _require_version self expected_version;
  _ ← _require_active_action self key;
  _ ← require_identifier failure_code "failure_code";
  _ ← _require_recovery_transition self ACTION_UNCERTAIN;
  _workflow_change self ACTION_UNCERTAIN ($"RecoveryActionOutcomeUncertain") at_
    [(PyStr ($"action_key"), PyStr key); (PyStr ($"failure_code"), PyStr failure_code)] id.

Definition requeue_after_absence_proven (self : RecoveryAggregate) (expected_version : Z)
    (at_ : datetime) (key : pystr) : result AggregateChange :=
  _ ← _require_version self expected_version;
  _ ← _require_active_action self key;
  _ ← _require_recovery_transition self ACTION_QUEUED;
  _workflow_change self ACTION_QUEUED ($"RecoveryActionAbsenceProven") at_
    [(PyStr ($"action_key"), PyStr key)] id.

Definition escalate_uncertain_action (self : RecoveryAggregate) (expected_version : Z)
    (at_ : datetime) (key reason : pystr) : result AggregateChange :=
  _ ← _require_version self expected_version;
  _ ← _require_active_action self key;
  _ ← require_identifier reason "reason";
  _ ← _require_recovery_transition self ESCALATED;
  _workflow_change self ESCALATED ($"RecoveryActionEscalated") at_
    [(PyStr ($"action_key"), PyStr key); (PyStr ($"reason"), PyStr reason)] id.

Definition record_action_failed_safe (self : RecoveryAggregate) (expected_version : Z)
    (at_ : datetime) (key failure_code : pystr) : result AggregateChange :=
  _ ← _require_version self expected_version;
  _ ← _require_active_action self key;
  _ ← require_identifier failure_code "failure_code";
  _ ← _require_recovery_transition self FAILED_SAFE;
  _workflow_change self FAILED_SAFE ($"RecoveryActionFailedSafe") at_
    [(PyStr ($"action_key"), PyStr key); (PyStr ($"failure_code"), PyStr failure_code)] id.

Definition record_active_expired (self : RecoveryAggregate) (expected_version : Z)
    (at_ : datetime) (budget_remains : bool) : result AggregateChange :=
  _ ← _require_version self expected_version;
  let target := if budget_remains then ASSESSING else EXHAUSTED in
  _ ← _require_recovery_transition self target;
  _workflow_change self target ($"RecoveryInstrumentExpired") at_
    [(PyStr ($"budget_remains"), PyBool budget_remains)]
    (λ a, set_instrument None (set_active_action None None a)).

Definition record_duplicate_collection (self : RecoveryAggregate) (expected_version : Z)
    (at_ : datetime) (evidence_id : pystr) : result AggregateChange :=
  _ ← _require_version self expected_version;
  _ ← require_identifier evidence_id "evidence";
  payment_changed ← validate_payment_transition (agg_payment_state self) OVERPAID;
  workflow_changed ← validate_recovery_transition (state self) DUPLICATE_REVIEW;
  if negb payment_changed && negb workflow_changed then Ok (unchanged self)
  else
    _change self ($"DuplicateCollectionDetected") at_
      [(PyStr ($"evidence"), PyStr evidence_id);
       (PyStr ($"payment_from"), payment_text (agg_payment_state self));
       (PyStr ($"workflow_from"), state_text (state self))]
      (λ a, set_active_action None None
              (set_state DUPLICATE_REVIEW (set_payment_state OVERPAID a))).

Definition record_original_paid (self : RecoveryAggregate) (expected_version : Z)
    (at_ : datetime) (evidence_id : pystr) : result AggregateChange :=
  _ ← _require_version self expected_version;
  _ ← require_identifier evidence_id "evidence";
  _ ← raise_if (bool_decide (state self = DORMANT))
        (DomainError "a dormant case cannot process payment success");
  if bool_decide (state self = DUPLICATE_REVIEW) && bool_decide (agg_payment_state self = OVERPAID)
  then Ok (unchanged self)
  else if bool_decide (state self = RECOVERED)
  then record_duplicate_collection self expected_version at_ evidence_id
  else
    payment_changed ← validate_payment_transition (agg_payment_state self) PAID;
    let workflow_changed := mem (state self) NONTERMINAL_RECOVERY_STATES in
    _ ← (if workflow_changed then _require_recovery_transition self SUPPRESSED_PAID else Ok false);
    if negb payment_changed && negb workflow_changed then Ok (unchanged self)
    else
      _change self ($"OriginalPaymentSucceeded") at_
        [(PyStr ($"evidence"), PyStr evidence_id);
         (PyStr ($"payment_from"), payment_text (agg_payment_state self));
         (PyStr ($"payment_to"), payment_text PAID);
         (PyStr ($"workflow_from"), state_text (state self));
         (PyStr ($"workflow_to"),
            state_text (if workflow_changed then SUPPRESSED_PAID else state self))]
        (λ a, let paid := set_payment_state PAID a in
              if workflow_changed
              then set_active_action None None (set_state SUPPRESSED_PAID paid) else paid).

Definition record_recovery_paid (self : RecoveryAggregate) (expected_version : Z)
    (at_ : datetime) (evidence_id : pystr) : result AggregateChange :=
  _ ← _require_version self expected_version;
  _ ← require_identifier evidence_id "evidence";
  if bool_decide (state self = RECOVERED) && bool_decide (agg_payment_state self = PAID)
  then Ok (unchanged self)
  else
    _ ← raise_if (bool_decide (state self ≠ ACTIVE)) (invalid_recovery self RECOVERED);
    if bool_decide (agg_payment_state self = PAID)
    then record_duplicate_collection self expected_version at_ evidence_id
    else
      _ ← validate_payment_transition (agg_payment_state self) PAID;
      _ ← _require_recovery_transition self RECOVERED;
      _change self ($"RecoveryPaymentSucceeded") at_
        [(PyStr ($"evidence"), PyStr evidence_id);
         (PyStr ($"payment_from"), payment_text (agg_payment_state self));
         (PyStr ($"payment_to"), payment_text PAID)]
        (λ a, set_state RECOVERED (set_payment_state PAID a)).

Definition RecoveryAggregate_to_primitive (self : RecoveryAggregate) : result pyobj :=
  let timestamp o := match o with
                     | None => Ok PyNone
                     | Some d => t ← canonical_timestamp d; Ok (PyStr t) end in
  last ← timestamp (last_transition_at self);
  until ← timestamp (deadline self);
  started ← timestamp (observation_started_at self);
  Ok (PyDict
    [(PyStr ($"active_action_key"), opt_prim PyStr (active_action_key self));
     (PyStr ($"active_instrument_reference"), opt_prim PyStr (active_instrument_reference self));
     (PyStr ($"active_proposal_id"), opt_prim PyStr (active_proposal_id self));
     (PyStr ($"amount_due"), Money_to_primitive (agg_amount_due self));
     (PyStr ($"case_id"), PyStr (case_id self));
     (PyStr ($"collection_closed"), PyBool (collection_closed self));
     (PyStr ($"decision_version"), PyInt (agg_decision_version self));
     (PyStr ($"incident_state"), incident_text (agg_incident_state self));
     (PyStr ($"last_transition_at"), last);
     (PyStr ($"logical_order_id"), PyStr (logical_order_id self));
     (PyStr ($"late_capture_policy"), LateCapturePolicy_to_primitive (late_capture_policy self));
     (PyStr ($"merchant_id"), PyStr (merchant_id self));
     (PyStr ($"observation_deadline"), until);
     (PyStr ($"observation_started_at"), started);
     (PyStr ($"payment_state"), payment_text (agg_payment_state self));
     (PyStr ($"state"), state_text (state self));
     (PyStr ($"version"), PyInt (version self))]).

(** * Every command, as data *)
Inductive Command :=
  | ObserveFailure (provider_event_id : pystr) (extend_until : option datetime)
  | ReconcilePaymentTruth (target : CanonicalPaymentState) (evidence_id : pystr)
  | UpdateIncidentState (target : IncidentState) (evidence_id : pystr)
  | MarkReadyForEvaluation
  | Wait (reason : pystr)
  | Wake
  | RequestApproval (p : ActionProposal) (plan : GateDecision)
  | AuthorizeAction (p : ActionProposal) (plan : GateDecision)
  | RecordInternalDecision (p : ActionProposal) (plan : GateDecision)
  | BeginExecution (p : ActionProposal) (effect : GateDecision)
  | RecordActionActive (key instrument : pystr)
  | RecordActionUncertain (key failure_code : pystr)
  | RequeueAfterAbsenceProven (key : pystr)
  | EscalateUncertainAction (key reason : pystr)
  | RecordActionFailedSafe (key failure_code : pystr)
  | RecordActiveExpired (budget_remains : bool)
  | RecordOriginalPaid (evidence_id : pystr)
  | RecordRecoveryPaid (evidence_id : pystr)
  | RecordDuplicateCollection (evidence_id : pystr).

Definition apply_command (self : RecoveryAggregate) (cmd : Command) (v : Z) (at_ : datetime) :
    result AggregateChange :=
  match cmd with
  | ObserveFailure ev ext => observe_failure self v at_ ev ext
  | ReconcilePaymentTruth t e => reconcile_payment_truth self t v at_ e
  | UpdateIncidentState t e => update_incident_state self t v at_ e
  | MarkReadyForEvaluation => mark_ready_for_evaluation self v at_
  | Wait r => wait self v at_ r
  | Wake => wake self v at_
  | RequestApproval p d => request_approval self p d v at_
  | AuthorizeAction p d => authorize_action self p d v at_
  | RecordInternalDecision p d => record_internal_decision self p d v at_
  | BeginExecution p d => begin_execution self p d v at_
  | RecordActionActive k i => record_action_active self v at_ k i
  | RecordActionUncertain k f => record_action_uncertain self v at_ k f
  | RequeueAfterAbsenceProven k => requeue_after_absence_proven self v at_ k
  | EscalateUncertainAction k r => escalate_uncertain_action self v at_ k r
  | RecordActionFailedSafe k f => record_action_failed_safe self v at_ k f
  | RecordActiveExpired b => record_active_expired self v at_ b
  | RecordOriginalPaid e => record_original_paid self v at_ e
  | RecordRecoveryPaid e => record_recovery_paid self v at_ e
  | RecordDuplicateCollection e => record_duplicate_collection self v at_ e
  end.

(** * The aggregate as a transition system *)
Definition elapsed (self : RecoveryAggregate) (now : datetime) : Prop :=
  ∃ u, deadline self = Some u ∧ instant u <= instant now.

Record gate_bound (self : RecoveryAggregate) (p : ActionProposal) (d : GateDecision)
    (st : GateStage) (outcome : bool) : Prop := {
  bound_stage : stage d = st ∧ allowed d = outcome;
  bound_subject : proposal_merchant_id p = merchant_id self ∧ proposal_case_id p = case_id self
                  ∧ decision_case_id d = case_id self;
  bound_proposal : decision_proposal_id d = proposal_id p;
  bound_key : action_key p = Ok (decision_action_key d);
  bound_digest : proposal_digest p = Ok (decision_proposal_digest d);
  bound_version : decision_version d = proposal_decision_version p
                  ∧ decision_aggregate_version d = version self
}.

(** [transition self now event T]: from [self] a command may emit [event] at
    [now] and replace fields by [T]. *)
Inductive transition (self : RecoveryAggregate) (now : datetime) :
    pystr → (RecoveryAggregate → RecoveryAggregate) → Prop :=
  | tr_observe until :
      state self ∈ [DORMANT; OBSERVING] → is_utc until = true →
      instant now + minimum_observation_window (late_capture_policy self) <= instant until →
      transition self now ($"RecoveryObservationStarted")
        (λ a, set_observation now until (set_state OBSERVING a))
  | tr_truth t :
      payment_step (agg_payment_state self) t → t ∉ [PAID; OVERPAID] →
      transition self now ($"CanonicalPaymentTruthChanged") (set_payment_state t)
  | tr_incident t :
      validate_incident_transition (agg_incident_state self) t = Ok true →
      transition self now ($"IncidentStateChanged") (set_incident_state t)
  | tr_assess event :
      event ∈ [$"RecoveryAssessmentStarted"; $"RecoveryWaitElapsed"] →
      state self ∈ [OBSERVING; ASSESSING; WAITING; ACTIVE] → agg_payment_state self = UNPAID →
      elapsed self now → transition self now event (λ a, id (set_state ASSESSING a))
  | tr_wait :
      state self ∈ [ASSESSING; WAITING] →
      transition self now ($"RecoveryWaitScheduled") (λ a, id (set_state WAITING a))
  | tr_approval p d :
      state self = ASSESSING → agg_payment_state self = UNPAID → elapsed self now →
      proposal_decision_version p = agg_decision_version self + 1 →
      gate_bound self p d POLICY false → (∀ r, r ∈ reasons d → r ∈ APPROVAL_BLOCKING_REASONS) →
      action_type p ∈ COLLECTION_ACTIONS →
      transition self now ($"RecoveryApprovalRequested")
        (λ a, set_active_action (Some (decision_action_key d)) (Some (proposal_id p))
                (set_decision_version (proposal_decision_version p) (set_state APPROVAL_REQUIRED a)))
  | tr_authorize p d :
      (state self = ASSESSING ∧ proposal_decision_version p = agg_decision_version self + 1
       ∨ state self = APPROVAL_REQUIRED ∧ proposal_decision_version p = agg_decision_version self
         ∧ active_action_key self = Some (decision_action_key d)
         ∧ active_proposal_id self = Some (proposal_id p)) →
      agg_payment_state self = UNPAID → elapsed self now →
      gate_bound self p d POLICY true → action_type p ∈ COLLECTION_ACTIONS →
      transition self now ($"RecoveryActionAuthorized")
        (λ a, set_active_action (Some (decision_action_key d)) (Some (proposal_id p))
                (set_decision_version (proposal_decision_version p) (set_state ACTION_QUEUED a)))
  | tr_internal p d target :
      internal_target (action_type p) = Some target →
      proposal_decision_version p = agg_decision_version self + 1 →
      gate_bound self p d POLICY true → is_ok (validate_recovery_transition (state self) target) = true →
      transition self now ($"RecoveryInternalDecisionRecorded")
        (λ a, set_decision_version (proposal_decision_version p) (set_state target a))
  | tr_execute p d :
      state self = ACTION_QUEUED → agg_payment_state self = UNPAID → elapsed self now →
      proposal_decision_version p = agg_decision_version self → gate_bound self p d EFFECT true →
      active_action_key self = Some (decision_action_key d) →
      transition self now ($"RecoveryActionExecutionStarted") (λ a, id (set_state EXECUTING a))
  | tr_active key instrument :
      active_action_key self = Some key → state self ∈ [EXECUTING; ACTION_UNCERTAIN; ACTIVE] →
      transition self now ($"RecoveryInstrumentActivated")
        (λ a, set_instrument (Some instrument) (set_state ACTIVE a))
  | tr_uncertain key :
      active_action_key self = Some key → state self ∈ [EXECUTING; ACTION_UNCERTAIN] →
      transition self now ($"RecoveryActionOutcomeUncertain") (λ a, id (set_state ACTION_UNCERTAIN a))
  | tr_requeue key :
      active_action_key self = Some key →
      state self ∈ [ASSESSING; APPROVAL_REQUIRED; ACTION_QUEUED; ACTION_UNCERTAIN] →
      transition self now ($"RecoveryActionAbsenceProven") (λ a, id (set_state ACTION_QUEUED a))
  | tr_escalate key :
      active_action_key self = Some key → state self ∈ [ASSESSING; ACTION_UNCERTAIN; ESCALATED] →
      transition self now ($"RecoveryActionEscalated") (λ a, id (set_state ESCALATED a))
  | tr_failed_safe key :
      active_action_key self = Some key → state self ∈ [EXECUTING; FAILED_SAFE] →
      transition self now ($"RecoveryActionFailedSafe") (λ a, id (set_state FAILED_SAFE a))
  | tr_expired_retry :
      state self ∈ [OBSERVING; ASSESSING; WAITING; ACTIVE] → elapsed self now →
      transition self now ($"RecoveryInstrumentExpired")
        (λ a, set_instrument None (set_active_action None None (set_state ASSESSING a)))
  | tr_expired_final :
      state self ∈ [ASSESSING; WAITING; ACTIVE; EXHAUSTED] →
      transition self now ($"RecoveryInstrumentExpired")
        (λ a, set_instrument None (set_active_action None None (set_state EXHAUSTED a)))
  | tr_original_paid :
      is_terminal (state self) = false → state self ≠ DORMANT →
      payment_rank (agg_payment_state self) <= payment_rank PAID →
      transition self now ($"OriginalPaymentSucceeded")
        (λ a, set_active_action None None (set_state SUPPRESSED_PAID (set_payment_state PAID a)))
  | tr_original_paid_late :
      is_terminal (state self) = true → state self ≠ RECOVERED →
      payment_step (agg_payment_state self) PAID →
      transition self now ($"OriginalPaymentSucceeded") (set_payment_state PAID)
  | tr_recovery_paid :
      state self = ACTIVE → payment_step (agg_payment_state self) PAID →
      transition self now ($"RecoveryPaymentSucceeded")
        (λ a, set_state RECOVERED (set_payment_state PAID a))
  | tr_duplicate :
      state self ≠ DORMANT → payment_rank (agg_payment_state self) <= payment_rank OVERPAID →
      transition self now ($"DuplicateCollectionDetected")
        (λ a, set_active_action None None (set_state DUPLICATE_REVIEW (set_payment_state OVERPAID a))).

Definition well_formed (a : RecoveryAggregate) : Prop := RecoveryAggregate_post_init a = Ok a.

(** What one accepted command does to a case at a given time. *)
Inductive committed (self : RecoveryAggregate) (at_ : datetime) : AggregateChange → Prop :=
  | committed_none : committed self at_ (unchanged self)
  | committed_one now event text T :
      is_utc now = true → instant now = instant at_ →
      (∀ l, last_transition_at self = Some l → instant l <= instant now) →
      transition self now event T →
      well_formed (T (set_version (version self + 1) now self)) →
      committed self at_
        (mkAggregateChange (T (set_version (version self + 1) now self))
           [mkAggregateEvent event (case_id self) (version self + 1) now text]).

(** * Lemmas *)
Definition utc_opt (o : option datetime) : bool := match o with Some d => is_utc d | None => true end.
Definition utc_times (a : RecoveryAggregate) : Prop :=
  utc_opt (last_transition_at a) = true ∧ utc_opt (observation_started_at a) = true
  ∧ utc_opt (deadline a) = true.

Lemma utc_or_none_Ok o f r : utc_or_none o f = Ok r → utc_opt r = true.
Proof. unfold utc_or_none. destruct o; cbn; intros H; inv_ok; subst; [|done]. by utc_facts. Qed.

Lemma utc_or_none_id o f : utc_opt o = true → utc_or_none o f = Ok o.
Proof. destruct o; cbn; [|done]. intros H. by rewrite require_utc_id. Qed.

Lemma post_init_utc a b : RecoveryAggregate_post_init a = Ok b → utc_times b.
Proof.
  unfold RecoveryAggregate_post_init. intros H. inv_ok. subst b. cbn. unfold utc_times.
  split_and!; by eapply utc_or_none_Ok.
Qed.

Lemma post_init_id a b : utc_times a → RecoveryAggregate_post_init a = Ok b → b = a.
Proof.
  intros (H1 & H2 & H3). unfold RecoveryAggregate_post_init. intros H. inv_ok.
  rewrite utc_or_none_id in * by done. inv_ok. subst. by destruct a.
Qed.

Lemma well_formed_utc a : well_formed a → utc_times a.
Proof. apply post_init_utc. Qed.

Lemma require_version_Ok self v u : _require_version self v = Ok u → v = version self.
Proof. unfold _require_version. intros H. inv_ok. by rewrite bool_decide_ne_false in *. Qed.

Lemma observation_elapsed_Ok self at_ u :
  _require_observation_elapsed self at_ = Ok u → elapsed self at_.
Proof.
  unfold _require_observation_elapsed, elapsed. intros H. inv_ok. utc_facts.
  destruct (deadline self) as [d|]; inv_ok. rewrite dt_ltb_false in *. exists d. split; [done|lia].
Qed.

Lemma elapsed_instant self a b : instant a = instant b → elapsed self a → elapsed self b.
Proof. intros E (u & ? & ?). exists u. split; [done|lia]. Qed.

Lemma or_else_false b m : or_else b m = Ok false ↔ b = false ∧ m = Ok false.
Proof. destruct b; cbn; naive_solver. Qed.

Lemma gate_binding_Ok self p d st b u u' nd :
  _require_proposal_binding self p nd = Ok u → _require_gate_binding self p d st b = Ok u' →
  gate_bound self p d st b
  ∧ proposal_decision_version p =
      (if nd : bool then agg_decision_version self + 1 else agg_decision_version self).
Proof.
  unfold _require_proposal_binding, _require_gate_binding. intros H H'. inv_ok. subst.
  repeat match goal with E : or_else _ _ = Ok false |- _ =>
    apply or_else_false in E as [? ?]; inv_ok end.
  rewrite ?orb_false_iff, ?bool_decide_ne_false in *. destruct_and!. subst.
  split; [by split|done].
Qed.

Lemma active_action_Ok self key u : _require_active_action self key = Ok u → active_action_key self = Some key.
Proof. unfold _require_active_action. intros H. inv_ok. by rewrite bool_decide_ne_false in *. Qed.

(** An accepted [_change] commits one event and the replaced fields. *)
Definition keeps_utc (changes : RecoveryAggregate → RecoveryAggregate) : Prop :=
  ∀ a, utc_times a → utc_times (changes a).

Lemma change_Ok self event at_ body changes ch :
  well_formed self → keeps_utc changes → _change self event at_ body changes = Ok ch →
  ∃ now text, is_utc now = true ∧ instant now = instant at_
    ∧ (∀ l, last_transition_at self = Some l → instant l <= instant now)
    ∧ well_formed (changes (set_version (version self + 1) now self))
    ∧ ch = mkAggregateChange (changes (set_version (version self + 1) now self))
             [mkAggregateEvent event (case_id self) (version self + 1) now text].
Proof.
  unfold _change. intros Hw Hk H. inv_ok. utc_facts. subst ch.
  match goal with E : RecoveryAggregate_post_init (changes (set_version _ ?n _)) = Ok ?a, E' : canonical_json _ = Ok ?t |- _ =>
    rename E into Hinit; assert (a = changes (set_version (version self + 1) n self)) as ->;
      [|exists n, t] end.
  - eapply post_init_id; [|exact Hinit]. apply Hk. apply well_formed_utc in Hw as (_ & ? & ?). by split.
  - split_and!; try done. intros l Hl. rewrite Hl in *. by rewrite dt_ltb_false in *.
Qed.

Lemma keeps_utc_id : keeps_utc id.
Proof. by intros a. Qed.

Lemma workflow_change_Ok self target event at_ body changes ch :
  well_formed self → keeps_utc changes → _workflow_change self target event at_ body changes = Ok ch →
  is_ok (validate_recovery_transition (state self) target) = true
  ∧ (target = ASSESSING → elapsed self at_)
  ∧ ∃ now text, is_utc now = true ∧ instant now = instant at_
    ∧ (∀ l, last_transition_at self = Some l → instant l <= instant now)
    ∧ well_formed (changes (set_state target (set_version (version self + 1) now self)))
    ∧ ch = mkAggregateChange (changes (set_state target (set_version (version self + 1) now self)))
             [mkAggregateEvent event (case_id self) (version self + 1) now text].
Proof.
  unfold _workflow_change. intros Hw Hk H. inv_ok.
  split_and!; [by apply is_ok_true; eexists| |].
  - intros ->. rewrite decide_True in * by done. by eapply observation_elapsed_Ok.
  - refine (change_Ok _ _ _ _ (λ a, changes (set_state target a)) _ Hw _ H).
    intros a Ha. by apply Hk.
Qed.

(** The commit of a command that changes the workflow. *)
Lemma workflow_committed self target event at_ body changes ch :
  well_formed self → keeps_utc changes → _workflow_change self target event at_ body changes = Ok ch →
  (∀ now, instant now = instant at_ →
     is_ok (validate_recovery_transition (state self) target) = true →
     (target = ASSESSING → elapsed self now) →
     transition self now event (λ a, changes (set_state target a))) →
  committed self at_ ch.
Proof.
  intros Hw Hk H Ht. apply workflow_change_Ok in H as (Hv & He & now & text & ? & Hn & ? & ? & ->);
    [|done..].
  apply (committed_one self at_ now event text (λ a, changes (set_state target a))); try done.
  apply Ht; [done..|]. intros Ha. by eapply elapsed_instant; [symmetry|apply He].
Qed.

Lemma change_committed self event at_ body changes ch :
  well_formed self → keeps_utc changes → _change self event at_ body changes = Ok ch →
  (∀ now, is_utc now = true → instant now = instant at_ → transition self now event changes) →
  committed self at_ ch.
Proof.
  intros Hw Hk H Ht. apply change_Ok in H as (now & text & ? & ? & ? & ? & ->); [|done..].
  by apply committed_one; auto.
Qed.

Lemma committed_instant self a b ch : instant a = instant b → committed self a ch → committed self b ch.
Proof. intros E []; [constructor|]. apply committed_one; auto. congruence. Qed.

(** The states from which a target can be validated. *)
Definition sources (target : RecoveryState) : list RecoveryState :=
  List.filter (λ s, is_ok (validate_recovery_transition s target)) all_recovery_states.

Lemma sources_spec s target :
  is_ok (validate_recovery_transition s target) = true → s ∈ sources target.
Proof.
  intros H. apply list_elem_of_In, filter_In. split; [|done]. destruct s; cbn; tauto.
Qed.

Lemma sources_valid s target :
  s ∈ sources target → is_ok (validate_recovery_transition s target) = true.
Proof. intros H. apply list_elem_of_In, filter_In in H. by destruct H. Qed.

Lemma payment_validated_rank s t b :
  validate_payment_transition s t = Ok b → payment_rank s <= payment_rank t.
Proof. intros [[_ ->]|[_ ?]]%payment_transition_Ok; lia. Qed.

(** Read the facts of the guards that passed. *)
Ltac guards :=
  inv_ok; subst;
  repeat match goal with
  | E : _require_version _ _ = Ok _ |- _ => apply require_version_Ok in E
  | E : _require_active_action _ _ = Ok _ |- _ => apply active_action_Ok in E
  | E : _require_observation_elapsed _ _ = Ok _ |- _ => apply observation_elapsed_Ok in E
  | E : _require_proposal_binding _ _ _ = Ok _, E' : _require_gate_binding _ _ _ _ _ = Ok _ |- _ =>
      destruct (gate_binding_Ok _ _ _ _ _ _ _ _ E E') as [? ?]; clear E E'
  | E : bool_decide (_ ≠ _) = false |- _ => rewrite bool_decide_ne_false in E
  | E : negb (mem _ _) = false |- _ => apply negb_false_iff, mem_true in E
  | E : action_key ?p = Ok _, E' : gate_bound _ ?p _ _ _ |- _ =>
      rewrite (bound_key _ _ _ _ _ E') in E; apply Ok_inj in E; subst
  end.
(** Commit through [_workflow_change] with the given kind of transition. *)
Ltac by_workflow tr :=
  match goal with
  | Hw : well_formed _, E : _workflow_change _ _ _ _ _ _ = Ok _ |- _ =>
      refine (workflow_committed _ _ _ _ _ _ _ Hw _ E _);
      [by intros ?
      |let Hnow := fresh "Hnow" in let Hv := fresh "Hv" in let He := fresh "He" in
       intros ? Hnow Hv He; apply sources_spec in Hv; eapply tr]
  end.
Ltac by_change tr :=
  match goal with
  | Hw : well_formed _, E : _change _ _ _ _ _ = Ok _ |- _ =>
      refine (change_committed _ _ _ _ _ _ Hw _ E _);
      [by intros ?|let Hutc := fresh "Hutc" in let Hnow := fresh "Hnow" in
                   intros ? Hutc Hnow; eapply tr]
  end.

Lemma mem_nonterminal s : mem s NONTERMINAL_RECOVERY_STATES = negb (is_terminal s).
Proof. apply is_terminal_nonterminal. Qed.

Section committed.
#[local] Set Default Proof Using "All".
Context (self : RecoveryAggregate) (Hw : well_formed self).

Lemma observe_failure_committed v at_ ev ext ch :
  observe_failure self v at_ ev ext = Ok ch → v = version self ∧ committed self at_ ch.
Proof.
  unfold observe_failure, _require_recovery_transition. intros H. guards. split; [done|].
  match goal with E : policy_observation_deadline _ _ _ = Ok _ |- _ =>
    apply policy_observation_deadline_Ok in E as [Hu Hd] end. utc_facts.
  match goal with E : instant _ = instant at_ |- _ => apply (committed_instant _ _ _ _ E) end.
  refine (change_committed _ _ _ _ _ _ Hw _ H _); [intros a (? & ? & ?); by split_and!|].
  intros now Hn He. match type of H with _change _ _ ?o _ _ = _ => assert (now = o) as -> by by apply utc_eq end.
  apply tr_observe; [|done..]. apply (sources_spec _ OBSERVING). apply is_ok_true. by eexists.
Qed.

Lemma reconcile_committed t v at_ e ch :
  reconcile_payment_truth self t v at_ e = Ok ch → v = version self ∧ committed self at_ ch.
Proof.
  unfold reconcile_payment_truth. intros H. guards. split; [done|].
  match goal with E : validate_payment_transition _ _ = Ok ?b |- _ => destruct b end; cbn in H; guards;
    [|constructor]. by_change tr_truth; [done|]. by apply mem_false.
Qed.

Lemma incident_committed t v at_ e ch :
  update_incident_state self t v at_ e = Ok ch → v = version self ∧ committed self at_ ch.
Proof.
  unfold update_incident_state. intros H. guards. split; [done|].
  match goal with E : validate_incident_transition _ _ = Ok ?b |- _ => destruct b end; cbn in H; guards;
    [|constructor]. by by_change tr_incident.
Qed.

Lemma mark_ready_committed v at_ ch :
  mark_ready_for_evaluation self v at_ = Ok ch → v = version self ∧ committed self at_ ch.
Proof.
  unfold mark_ready_for_evaluation. intros H. guards. split; [done|].
  by_workflow tr_assess; [left|exact Hv|done|by apply He].
Qed.

Lemma wait_committed v at_ r ch :
  wait self v at_ r = Ok ch → v = version self ∧ committed self at_ ch.
Proof. unfold wait. intros H. guards. split; [done|]. by_workflow tr_wait. exact Hv. Qed.

Lemma wake_committed v at_ ch :
  wake self v at_ = Ok ch → v = version self ∧ committed self at_ ch.
Proof.
  unfold wake. intros H. guards. split; [done|]. by_workflow tr_assess; [right; left|exact Hv|done|by apply He].
Qed.

Lemma request_approval_committed p d v at_ ch :
  request_approval self p d v at_ = Ok ch → v = version self ∧ committed self at_ ch.
Proof.
  unfold request_approval. intros H. guards. split; [done|].
  rewrite orb_false_iff, negb_false_iff, forallb_Forall, Forall_forall in *. destruct_and!.
  by_workflow tr_approval; eauto using elapsed_instant, eq_sym.
  intros x Hx. apply mem_true. auto.
Qed.

Lemma authorize_action_committed p d v at_ ch :
  authorize_action self p d v at_ = Ok ch → v = version self ∧ committed self at_ ch.
Proof.
  unfold authorize_action, and_then. intros H. guards. split; [done|].
  by_workflow tr_authorize; eauto using elapsed_instant, eq_sym.
  match goal with E : state self ∈ _ |- _ => apply elem_of_cons in E as [E|E%list_elem_of_singleton];
    rewrite E in * end.
  - left. by rewrite bool_decide_true in * by done.
  - right. rewrite bool_decide_false in * by done. rewrite bool_decide_true in * by done. guards.
    match goal with E : _ || _ = false |- _ => apply orb_false_iff in E as [E1 E2] end.
    by rewrite bool_decide_ne_false in E1, E2.
Qed.

Lemma internal_committed p d v at_ ch :
  record_internal_decision self p d v at_ = Ok ch → v = version self ∧ committed self at_ ch.
Proof.
  unfold record_internal_decision, _require_recovery_transition. intros H. guards. split; [done|].
  destruct (internal_target (action_type p)) as [target|] eqn:Et; guards.
  refine (workflow_committed _ _ _ _ _ _ _ Hw _ H _); [by intros ?|]. intros now _ Hv _.
  by eapply tr_internal.
Qed.

Lemma begin_execution_committed p d v at_ ch :
  begin_execution self p d v at_ = Ok ch → v = version self ∧ committed self at_ ch.
Proof.
  unfold begin_execution. intros H. guards. split; [done|].
  by_workflow tr_execute; eauto using elapsed_instant, eq_sym.
Qed.

Lemma action_active_committed v at_ k i ch :
  record_action_active self v at_ k i = Ok ch → v = version self ∧ committed self at_ ch.
Proof.
  unfold record_action_active. intros H. guards. split; [done|].
  case_match; guards; [constructor|]. by_workflow tr_active; [done|exact Hv].
Qed.

Lemma action_uncertain_committed v at_ k f ch :
  record_action_uncertain self v at_ k f = Ok ch → v = version self ∧ committed self at_ ch.
Proof.
  unfold record_action_uncertain. intros H. guards. split; [done|].
  by_workflow tr_uncertain; [done|exact Hv].
Qed.

Lemma requeue_committed v at_ k ch :
  requeue_after_absence_proven self v at_ k = Ok ch → v = version self ∧ committed self at_ ch.
Proof.
  unfold requeue_after_absence_proven. intros H. guards. split; [done|].
  by_workflow tr_requeue; [done|exact Hv].
Qed.

Lemma escalate_committed v at_ k r ch :
  escalate_uncertain_action self v at_ k r = Ok ch → v = version self ∧ committed self at_ ch.
Proof.
  unfold escalate_uncertain_action. intros H. guards. split; [done|].
  by_workflow tr_escalate; [done|exact Hv].
Qed.

Lemma failed_safe_committed v at_ k f ch :
  record_action_failed_safe self v at_ k f = Ok ch → v = version self ∧ committed self at_ ch.
Proof.
  unfold record_action_failed_safe. intros H. guards. split; [done|].
  by_workflow tr_failed_safe; [done|exact Hv].
Qed.

Lemma active_expired_committed v at_ b ch :
  record_active_expired self v at_ b = Ok ch → v = version self ∧ committed self at_ ch.
Proof.
  unfold record_active_expired. intros H. guards. split; [done|].
  destruct b; [by_workflow tr_expired_retry|by_workflow tr_expired_final]; first [exact Hv|by apply He].
Qed.

Lemma duplicate_committed v at_ e ch :
  record_duplicate_collection self v at_ e = Ok ch → v = version self ∧ committed self at_ ch.
Proof.
  unfold record_duplicate_collection. intros H. guards. split; [done|].
  case_match; guards; [constructor|]. by_change tr_duplicate.
  - intros Hd. rewrite Hd in *. done.
  - by eapply payment_validated_rank.
Qed.

Lemma original_paid_committed v at_ e ch :
  record_original_paid self v at_ e = Ok ch → v = version self ∧ committed self at_ ch.
Proof.
  unfold record_original_paid. intros H. guards. bools.
  case_match; guards; [split; [done|constructor]|].
  case_match eqn:Erec; [by apply duplicate_committed in H|]. guards. split; [done|].
  case_match eqn:Enone; guards; [constructor|]. rewrite mem_nonterminal in *.
  destruct (is_terminal (state self)) eqn:Et; cbn [negb] in *.
  - rewrite andb_true_r in Enone.
    match goal with E : validate_payment_transition _ _ = Ok ?b |- _ => destruct b end; [|done].
    by_change tr_original_paid_late; [done| |done]. by apply bool_decide_eq_false in Erec.
  - by_change tr_original_paid; [done|done|]. by eapply payment_validated_rank.
Qed.

Lemma recovery_paid_committed v at_ e ch :
  record_recovery_paid self v at_ e = Ok ch → v = version self ∧ committed self at_ ch.
Proof.
  unfold record_recovery_paid. intros H. guards.
  case_match; guards; [split; [done|constructor]|].
  case_match eqn:Epaid; [by apply duplicate_committed in H|]. guards. split; [done|].
  by_change tr_recovery_paid; [done|].
  match goal with E : validate_payment_transition _ _ = Ok ?b |- _ =>
    rename E into Hpay; destruct b end; [done|].
  apply payment_transition_Ok in Hpay as [[_ Hpay]|[? _]]; [|done].
  by apply bool_decide_eq_false in Epaid.
Qed.

(** Every accepted command quotes the current version and commits at most one
    transition. *)
Lemma command_committed cmd v at_ ch :
  apply_command self cmd v at_ = Ok ch → v = version self ∧ committed self at_ ch.
Proof.
  destruct cmd; cbn [apply_command].
  - apply observe_failure_committed.
  - apply reconcile_committed.
  - apply incident_committed.
  - apply mark_ready_committed.
  - apply wait_committed.
  - apply wake_committed.
  - apply request_approval_committed.
  - apply authorize_action_committed.
  - apply internal_committed.
  - apply begin_execution_committed.
  - apply action_active_committed.
  - apply action_uncertain_committed.
  - apply requeue_committed.
  - apply escalate_committed.
  - apply failed_safe_committed.
  - apply active_expired_committed.
  - apply original_paid_committed.
  - apply recovery_paid_committed.
  - apply duplicate_committed.
Qed.
End committed.

(** * Runs of commands *)
Definition agg_step (a b : RecoveryAggregate) : Prop :=
  ∃ cmd v at_ ch, apply_command a cmd v at_ = Ok ch ∧ b = aggregate ch.

(** What no command changes. *)
Definition same_case (a b : RecoveryAggregate) : Prop :=
  merchant_id a = merchant_id b ∧ case_id a = case_id b ∧ logical_order_id a = logical_order_id b
  ∧ agg_amount_due a = agg_amount_due b ∧ late_capture_policy a = late_capture_policy b.

Lemma transition_same_case self now event T a :
  transition self now event T → same_case a (T a).
Proof. by destruct 1. Qed.

Lemma transition_version self now event T a : transition self now event T → version (T a) = version a.
Proof. by destruct 1. Qed.

Lemma transition_last self now event T a :
  transition self now event T → last_transition_at (T a) = last_transition_at a.
Proof. by destruct 1. Qed.

Lemma committed_well_formed self at_ ch :
  well_formed self → committed self at_ ch → well_formed (aggregate ch).
Proof. by destruct 2. Qed.

(** One step seen through its transition. *)
Inductive moves (a b : RecoveryAggregate) : Prop :=
  | moves_none : b = a → moves a b
  | moves_by now event T :
      (∀ l, last_transition_at a = Some l → instant l <= instant now) →
      transition a now event T → b = T (set_version (version a + 1) now a) → moves a b.

Lemma step_moves a b : well_formed a → agg_step a b → well_formed b ∧ moves a b.
Proof.
  intros Hw (cmd & v & at_ & ch & H & ->). apply (command_committed _ Hw) in H as [_ H].
  split; [by eapply committed_well_formed|]. destruct H; [by apply moves_none|by eapply moves_by].
Qed.

(** Induction over runs of a well-formed case. *)
Lemma run_ind (P : RecoveryAggregate → Prop) a b :
  well_formed a → P a → (∀ x y, well_formed x → P x → moves x y → P y) →
  rtc agg_step a b → well_formed b ∧ P b.
Proof.
  intros Hw Ha Hstep H. revert Hw Ha. induction H as [|a x b Hx _ IH]; intros Hw Ha; [done|].
  apply step_moves in Hx as [Hwx Hm]; [|done]. eauto.
Qed.

(** ** The workflow state and payment truth move along their graphs *)
Lemma moves_state a b :
  moves a b → is_ok (validate_recovery_transition (state a) (state b)) = true.
Proof.
  assert (Hrefl : ∀ s, is_ok (validate_recovery_transition s s) = true).
  { intros s. unfold validate_recovery_transition. by rewrite decide_True. }
  intros [->|now event T _ Ht ->]; [done|]. destruct Ht; cbn; try done.
  all: try (apply sources_valid; assumption).
  all: try (match goal with E : state _ = _ |- _ => by rewrite E end).
  - match goal with E : _ ∨ _ |- _ => by destruct E as [[-> _]|[-> _]] end.
  - by destruct (state a).
  - by destruct (state a).
Qed.

Lemma moves_payment a b :
  moves a b → payment_rank (agg_payment_state a) <= payment_rank (agg_payment_state b).
Proof.
  intros [->|now event T _ Ht ->]; [done|]. destruct Ht; cbn; try done.
  all: match goal with E : payment_step _ _ |- _ => exact (payment_validated_rank _ _ _ E) end.
Qed.

(** ** The invariant of a case that started dormant *)
Definition past_window (s : RecoveryState) : bool :=
  mem s [ASSESSING; WAITING; APPROVAL_REQUIRED; ACTION_QUEUED; EXECUTING; ACTION_UNCERTAIN; ACTIVE;
         RECOVERED; SUPPRESSED_POLICY; EXHAUSTED; FAILED_SAFE; ESCALATED].

Definition pending (s : RecoveryState) : bool :=
  mem s [APPROVAL_REQUIRED; ACTION_QUEUED; EXECUTING; ACTION_UNCERTAIN; ACTIVE].

(** Which workflow states go with which payment truth. *)
Definition truth_fits (s : RecoveryState) (t : CanonicalPaymentState) : bool :=
  match t with
  | PAID => is_terminal s && bool_decide (s ≠ DUPLICATE_REVIEW)
  | OVERPAID => bool_decide (s = DUPLICATE_REVIEW)
  | EXCEPTION => true
  | _ => negb (mem s [RECOVERED; SUPPRESSED_PAID; DUPLICATE_REVIEW])
  end.

Record case_invariant (a : RecoveryAggregate) : Prop := {
  inv_window : past_window (state a) = true →
    ∃ u l, deadline a = Some u ∧ last_transition_at a = Some l ∧ instant u <= instant l;
  inv_key : pending (state a) = true → is_Some (active_action_key a);
  inv_truth : truth_fits (state a) (agg_payment_state a) = true
}.

Lemma window_kept a now :
  (∀ l, last_transition_at a = Some l → instant l <= instant now) →
  (∃ u l, deadline a = Some u ∧ last_transition_at a = Some l ∧ instant u <= instant l) →
  elapsed a now.
Proof. intros Hl (u & l & Hu & Hla & ?). exists u. split; [done|]. specialize (Hl l Hla). lia. Qed.

Lemma window_sources s t :
  is_ok (validate_recovery_transition s t) = true → t ≠ ASSESSING → past_window t = true →
  past_window s = true.
Proof. destruct t; try done; destruct s; vm_compute; congruence. Qed.

(** The window part, for a step that sets the state to [target]. *)
Lemma window_step a now target :
  case_invariant a → (∀ l, last_transition_at a = Some l → instant l <= instant now) →
  is_ok (validate_recovery_transition (state a) target) = true →
  (target = ASSESSING → elapsed a now) → past_window target = true → elapsed a now.
Proof.
  intros [Hw _ _] Hl Hs Ha Ht. destruct (decide (target = ASSESSING)) as [->|Hne]; [by apply Ha|].
  apply (window_kept a now Hl), Hw. by eapply window_sources.
Qed.

Lemma elapsed_window (a b : RecoveryAggregate) now :
  deadline b = deadline a → last_transition_at b = Some now → elapsed a now →
  ∃ u l, deadline b = Some u ∧ last_transition_at b = Some l ∧ instant u <= instant l.
Proof. intros Hd Hl (u & Hu & ?). exists u, now. by rewrite Hd. Qed.

(** Truth still fits when the workflow moves without it. *)
Lemma truth_fits_step s t p :
  truth_fits s p = true → is_ok (validate_recovery_transition s t) = true →
  t ∉ [RECOVERED; SUPPRESSED_PAID; DUPLICATE_REVIEW] → truth_fits t p = true.
Proof.
  intros Hs Hv Ht. assert (H : mem t [RECOVERED; SUPPRESSED_PAID; DUPLICATE_REVIEW] = false)
    by by apply mem_false. revert Hs Hv H. clear. destruct p, t; try done; destruct s; vm_compute; congruence.
Qed.

Section case_invariant.
Context (a : RecoveryAggregate) (Hinv : case_invariant a).
#[local] Set Default Proof Using "All".

Lemma assessing_elapsed now event T n :
  (∀ l, last_transition_at a = Some l → instant l <= instant now) →
  transition a now event T → state (T (set_version n now a)) = ASSESSING → elapsed a now.
Proof.
  intros Hl Ht. assert (Hkept : state a = ASSESSING → elapsed a now).
  { intros Ha. apply (window_kept a now Hl), (inv_window _ Hinv). by rewrite Ha. }
  destruct Ht; cbn; try done; try exact Hkept.
  intros Htarget. match goal with E : internal_target ?x = _ |- _ => subst; by destruct x end.
Qed.

Lemma moves_window b :
  moves a b → past_window (state b) = true →
  ∃ u l, deadline b = Some u ∧ last_transition_at b = Some l ∧ instant u <= instant l.
Proof.
  intros Hm Hp. pose proof (moves_state _ _ Hm) as Hs.
  destruct Hm as [->|now event T Hl Ht ->]; [by apply (inv_window _ Hinv)|].
  assert (He : elapsed a now).
  { eapply window_step; [done..| |exact Hp]. by apply (assessing_elapsed now event). }
  eapply elapsed_window; [|by rewrite (transition_last _ _ _ _ _ Ht)|exact He].
  by destruct Ht.
Qed.

Lemma moves_key b : moves a b → pending (state b) = true → is_Some (active_action_key b).
Proof.
  pose proof (inv_key _ Hinv) as Hk. intros [->|now event T _ Ht ->]; [done|].
  destruct Ht; cbn; try done; eauto; try (intros _; eexists; eassumption).
  match goal with E : internal_target ?x = Some ?t |- _ => by destruct x; cbn in E; simplify_eq end.
Qed.

Lemma moves_truth b : moves a b → truth_fits (state b) (agg_payment_state b) = true.
Proof.
  pose proof (inv_truth _ Hinv) as Hk. intros Hm. pose proof (moves_state _ _ Hm) as Hs.
  destruct Hm as [->|now event T _ Ht ->]; [done|].
  assert (Hkeep : ∀ t, agg_payment_state (T (set_version (version a + 1) now a)) = agg_payment_state a →
    state (T (set_version (version a + 1) now a)) = t →
    t ∉ [RECOVERED; SUPPRESSED_PAID; DUPLICATE_REVIEW] →
    truth_fits t (agg_payment_state (T (set_version (version a + 1) now a))) = true).
  { intros t -> <- Hn. by eapply truth_fits_step. }
  destruct Ht; cbn in *; try done; try (by apply Hkeep; [..|apply mem_false]).
  - revert Hk H H0. rewrite <- mem_false. destruct (agg_payment_state a), t; try done;
      by destruct (state a).
  - match goal with E : internal_target ?x = Some ?t |- _ =>
      apply Hkeep; [done..|apply mem_false; by destruct x; cbn in E; simplify_eq] end.
  - revert Hk H H0 H1. by destruct (state a); try done; destruct (agg_payment_state a).
Qed.

Lemma moves_invariant b : moves a b → case_invariant b.
Proof. intros Hm. split; eauto using moves_window, moves_key, moves_truth. Qed.
End case_invariant.

(** A case as the constructor opens it. *)
Definition opened (a : RecoveryAggregate) : Prop :=
  well_formed a ∧ state a = DORMANT ∧ agg_payment_state a ∈ [UNKNOWN; UNPAID]
  ∧ MINIMUM_LATE_CAPTURE_WINDOW <= minimum_observation_window (late_capture_policy a).

Lemma opened_invariant a : opened a → case_invariant a.
Proof.
  intros (_ & Hs & Hp%list_elem_of_In & _).
  split; rewrite Hs; cbn in *; [done|done|]. by destruct Hp as [<-|[<-|[]]].
Qed.

Lemma run_invariant a b : opened a → rtc agg_step a b → well_formed b ∧ case_invariant b.
Proof.
  intros Ho. apply run_ind; [apply Ho|by apply opened_invariant|].
  intros x y _ Hx Hm. by eapply moves_invariant.
Qed.

Lemma run_same_case a b : well_formed a → rtc agg_step a b → well_formed b ∧ same_case a b.
Proof.
  intros Hw. apply run_ind; [done|done|]. intros x y _ (? & ? & ? & ? & ?) [->|now event T _ Ht ->]; [done|].
  destruct (transition_same_case _ _ _ _ (set_version (version x + 1) now x) Ht) as (? & ? & ? & ? & ?).
  cbn in *. unfold same_case. split_and!; congruence.
Qed.

Lemma well_formed_timing a u :
  well_formed a → deadline a = Some u →
  ∃ s, observation_started_at a = Some s
       ∧ instant s + minimum_observation_window (late_capture_policy a) <= instant u.
Proof.
  intros Hw Hu. pose proof (well_formed_utc _ Hw) as (H1 & H2 & H3).
  unfold well_formed, RecoveryAggregate_post_init in Hw. inv_ok.
  rewrite !utc_or_none_id in * by done. inv_ok. subst.
  match goal with E : check_timing _ _ _ _ _ = Ok _ |- _ => unfold check_timing in E; rename E into Hc end.
  inv_ok. rewrite Hu in *. destruct (observation_started_at a) as [s|].
  - inv_ok. utc_facts. rewrite dt_ltb_false in *. exists s. split; [done|lia].
  - case_decide; inv_ok; cbn in *; done.
Qed.

(** * Properties *)

(** optimistic concurrency: a command that quotes another version than
    the case's is refused with a version conflict, whatever the command. *)
Theorem stale_version_rejected self cmd v at_ :
  0 <= v → v ≠ version self →
  apply_command self cmd v at_ = Raise (VersionConflict v (version self)).
Proof.
  intros Hv Hne. assert (H : _require_version self v = Raise (VersionConflict v (version self))).
  { unfold _require_version. destruct (Z.ltb_spec v 0); [lia|]. cbn. by rewrite bool_decide_true. }
  destruct cmd; cbn [apply_command];
    unfold observe_failure, reconcile_payment_truth, update_incident_state,
      mark_ready_for_evaluation, wait, wake, request_approval, authorize_action,
      record_internal_decision, begin_execution, record_action_active, record_action_uncertain,
      requeue_after_absence_proven, escalate_uncertain_action, record_action_failed_safe,
      record_active_expired, record_original_paid, record_recovery_paid, record_duplicate_collection;
    by rewrite H, bind_Raise_l.
Qed.

(** C30: every accepted command is a step of the transition system: it quotes
    the current version and either changes nothing or emits exactly one event,
    numbered one above the version and stamped no earlier than the last
    transition, and replaces fields as the transition table says; the subject,
    the amount due and the late-capture policy never change. *)
Theorem command_refines_transition self cmd v at_ ch :
  well_formed self → apply_command self cmd v at_ = Ok ch →
  v = version self ∧ committed self at_ ch ∧ well_formed (aggregate ch)
  ∧ same_case self (aggregate ch)
  ∧ version (aggregate ch) = version self + Z.of_nat (length (events ch)).
Proof.
  intros Hw H. pose proof (command_committed _ Hw _ _ _ _ H) as [Hv Hc].
  assert (Hr : rtc agg_step self (aggregate ch)) by (apply rtc_once; by exists cmd, v, at_, ch).
  destruct (run_same_case _ _ Hw Hr) as [Hwf Hsame]. split_and!; try done.
  destruct Hc as [|now event text T ? ? ? Ht ?]; cbn; [lia|].
  rewrite (transition_version _ _ _ _ _ Ht). cbn. lia.
Qed.

(** no terminal collection state returns to collection: along any run the
    only way out of one is into duplicate review, which is final. *)
Theorem collection_never_reopens a b :
  well_formed a → collection_closed a = true → rtc agg_step a b →
  collection_closed b = true ∧ (state b = state a ∨ state b = DUPLICATE_REVIEW).
Proof.
  intros Hw Ha H. change (is_terminal (state a) = true) in Ha.
  destruct (run_ind (λ x, is_terminal (state x) = true ∧ (state x = state a ∨ state x = DUPLICATE_REVIEW))
              a b Hw) as [_ ?]; auto.
  intros x y _ [Hx Hxa] Hm%moves_state%is_ok_true. destruct Hm as [c Hm].
  destruct (recovery_transition_terminal _ _ _ Hx Hm) as [<-|Hy]; [done|]. rewrite Hy. auto.
Qed.

(** C31: an execution starts only from a queued action of an unpaid case whose
    observation window has elapsed, by an allowed effect-stage decision bound
    to this version of the case and to the queued action key. *)
Theorem execution_requires_effect_gate self cmd v at_ ch :
  well_formed self → apply_command self cmd v at_ = Ok ch →
  state (aggregate ch) = EXECUTING → state self ≠ EXECUTING →
  state self = ACTION_QUEUED ∧ agg_payment_state self = UNPAID ∧ elapsed self at_
  ∧ ∃ p d, gate_bound self p d EFFECT true
           ∧ proposal_decision_version p = agg_decision_version self
           ∧ active_action_key self = Some (decision_action_key d).
Proof.
  intros Hw H He Hne. apply (command_committed _ Hw) in H as [_ Hc].
  destruct Hc as [|now event text T ? Hn ? Ht ?]; [done|].
  destruct Ht; cbn in He; try done.
  - match goal with E : internal_target ?x = Some _ |- _ => subst; by destruct x end.
  - split_and!; eauto using elapsed_instant.
Qed.

(** C32: once payment truth has moved past unpaid, no later command of the
    case starts an execution, and the truth never moves back. *)
Theorem no_execution_after_payment_truth a b c :
  well_formed a → payment_rank UNPAID < payment_rank (agg_payment_state a) →
  rtc agg_step a b → agg_step b c →
  payment_rank (agg_payment_state a) <= payment_rank (agg_payment_state c)
  ∧ (state c = EXECUTING → state b = EXECUTING).
Proof.
  intros Hw Ha Hab Hbc.
  destruct (run_ind (λ x, payment_rank (agg_payment_state a) <= payment_rank (agg_payment_state x)) a b Hw)
    as [Hwb Hb]; [lia| |done|].
  { intros x y _ ? Hm%moves_payment. lia. }
  apply step_moves in Hbc as [_ Hm]; [|done]. pose proof (moves_payment _ _ Hm). split; [lia|].
  intros Hc. destruct Hm as [->|now event T _ Ht ->]; [done|]. destruct Ht; cbn in Hc; try done.
  - match goal with E : internal_target ?x = Some _ |- _ => subst; by destruct x end.
  - match goal with E : agg_payment_state b = UNPAID |- _ => rewrite E in Hb end. cbn in *. lia.
Qed.

(** C33: the late-capture floor: a case that has left observation for anything
    but suppression or duplicate review did so no earlier than its deadline,
    which is at least 120 seconds after the observation started. *)
Theorem late_capture_floor a b :
  opened a → rtc agg_step a b → past_window (state b) = true →
  ∃ s u l, observation_started_at b = Some s ∧ deadline b = Some u ∧ last_transition_at b = Some l
           ∧ instant s + seconds 120 <= instant u ∧ instant u <= instant l.
Proof.
  intros Ho H Hp. destruct (run_invariant _ _ Ho H) as [Hw Hi].
  destruct (inv_window _ Hi Hp) as (u & l & Hu & Hl & ?).
  destruct (well_formed_timing _ _ Hw Hu) as (s & Hs & ?).
  destruct Ho as (Hwa & _ & _ & Hpol). destruct (run_same_case _ _ Hwa H) as [_ (_ & _ & _ & _ & Heq)].
  exists s, u, l. rewrite Heq in Hpol. unfold MINIMUM_LATE_CAPTURE_WINDOW, minutes, seconds in *.
  split_and!; try done. lia.
Qed.

(** workflow and payment truth agree in every reachable case: paid truth
    closes collection, overpaid truth is under duplicate review, a recovered or
    paid-suppressed case is paid unless truth turned into an exception, and a
    pending action always carries its key. *)
Theorem workflow_matches_truth a b :
  opened a → rtc agg_step a b →
  (agg_payment_state b = PAID → collection_closed b = true ∧ state b ≠ DUPLICATE_REVIEW)
  ∧ (agg_payment_state b = OVERPAID → state b = DUPLICATE_REVIEW)
  ∧ (state b = RECOVERED ∨ state b = SUPPRESSED_PAID → agg_payment_state b ∈ [PAID; EXCEPTION])
  ∧ (state b = DUPLICATE_REVIEW → agg_payment_state b ∈ [OVERPAID; EXCEPTION])
  ∧ (pending (state b) = true → is_Some (active_action_key b)).
Proof.
  intros Ho H. destruct (run_invariant _ _ Ho H) as [_ [_ Hk Ht]].
  assert (Hin : ∀ (x : CanonicalPaymentState) l, mem x l = true → x ∈ l) by (intros; by apply mem_true).
  unfold truth_fits, collection_closed, is_terminal, mem in *.
  split_and!; try done; intros E.
  - rewrite E in Ht. apply andb_true_iff in Ht as [Ht1 Ht2]. split; [exact Ht1|]. by bools.
  - rewrite E in Ht. by bools.
  - destruct E as [E|E]; rewrite E in Ht; apply Hin; by destruct (agg_payment_state b).
  - rewrite E in Ht; apply Hin; by destruct (agg_payment_state b).
Qed.

(** * Runs, executed *)
Definition Step : Type := Command * Z * datetime.

Fixpoint run (self : RecoveryAggregate) (steps : list Step) : result RecoveryAggregate :=
  match steps with
  | [] => Ok self
  | (cmd, v, at_) :: steps => ch ← apply_command self cmd v at_; run (aggregate ch) steps
  end.

Lemma run_rtc steps a b : run a steps = Ok b → rtc agg_step a b.
Proof.
  revert a. induction steps as [|[[cmd v] at_] steps IH]; intros a H; cbn in H.
  - apply Ok_inj in H as ->. done.
  - inv_ok. eapply rtc_l; [|by apply IH]. by do 4 eexists.
Qed.

Definition authorizes (s : Step) : bool :=
  match s with (AuthorizeAction _ _, _, _) => true | _ => false end.

Definition sample_case : RecoveryAggregate :=
  mkRecoveryAggregate ($"merchant_1") ($"case_1") ($"order_1") (mkMoney 10000 ($"INR")) DORMANT
    UNKNOWN NORMAL 0 0 None None None None (mkLateCapturePolicy (seconds 120)) None None.

Definition observed_time : datetime := utc 63082281380000000.
Definition now_time : datetime := utc 63082281600000000.

Definition case_context (v : Z) (st : RecoveryState) : GateContext :=
  mkGateContext ($"merchant_1") ($"case_1") now_time v v st sample_snapshot true
    (Some (utc 63082281500000000)) false false true false None 0 false 0 false false None true.

Definition assessing_steps : list Step :=
  [(ObserveFailure ($"evt_1") None, 0, observed_time);
   (ReconcilePaymentTruth UNPAID ($"evt_2"), 1, now_time);
   (MarkReadyForEvaluation, 2, now_time)].

(** Up to a queued action that was never authorized: the approval is requested,
    then the absence of an effect is "proven". *)
Definition bypass_steps (plan : GateDecision) : list Step :=
  assessing_steps
  ++ [(RequestApproval guarded_proposal plan, 3, now_time);
      (RequeueAfterAbsenceProven (decision_action_key plan), 4, now_time)].

(** Up to a recovery instrument that was handed out. *)
Definition active_steps (plan effect : GateDecision) : list Step :=
  assessing_steps
  ++ [(AuthorizeAction sample_proposal plan, 3, now_time);
      (BeginExecution sample_proposal effect, 4, now_time);
      (RecordActionActive (decision_action_key plan) ($"plink_1"), 5, now_time)].

Definition run_bypass : result RecoveryAggregate :=
  plan ← evaluate_policy sample_policy guarded_proposal (case_context 3 ASSESSING);
  run sample_case (bypass_steps plan).

Definition run_active (more : list Step) : result RecoveryAggregate :=
  plan ← evaluate_policy sample_policy sample_proposal (case_context 3 ASSESSING);
  effect ← evaluate_effect sample_policy sample_proposal (case_context 4 ACTION_QUEUED) (Some plan);
  run sample_case (active_steps plan effect ++ more).

Definition check_run (r : result RecoveryAggregate) (f : RecoveryAggregate → bool) : bool :=
  match r with Ok a => f a | Raise _ => false end.

Lemma check_run_Ok r f : check_run r f = true → ∃ a, r = Ok a ∧ f a = true.
Proof. destruct r; [by eexists|done]. Defined.

(** A pending approval can be bypassed: "absence proven" is accepted while
    an approval is still required and queues the action, although no command
    of the run ever authorized it. *)
Theorem requeue_bypasses_approval :
  opened sample_case
  ∧ ∃ plan a, run sample_case (bypass_steps plan) = Ok a
      ∧ existsb authorizes (bypass_steps plan) = false
      ∧ REASON_APPROVAL_REQUIRED ∈ reasons plan ∧ state a = ACTION_QUEUED.
Proof.
  split; [split_and!; [reflexivity|reflexivity|left|done]|].
  assert (H : check_run run_bypass (λ a, bool_decide (state a = ACTION_QUEUED)) = true)
    by (vm_compute; reflexivity).
  apply check_run_Ok in H as (a & Ha & Hs). apply bool_decide_true_1 in Hs.
  unfold run_bypass in Ha. apply bind_Ok in Ha as (plan & Hp & Ha). exists plan, a.
  split_and!; [done|done| |done].
  assert (Hr : check_decision (evaluate_policy sample_policy guarded_proposal (case_context 3 ASSESSING))
                 (λ d, mem REASON_APPROVAL_REQUIRED (reasons d)) = true) by (vm_compute; reflexivity).
  rewrite Hp in Hr. by apply mem_true.
Qed.

(** A case with an active recovery instrument can be taken back to
    assessment, instrument still open, by the command that ends observation. *)
Theorem assessment_reopens_active_case :
  ∃ a, run_active [(MarkReadyForEvaluation, 6, now_time)] = Ok a
       ∧ state a = ASSESSING ∧ active_instrument_reference a = Some ($"plink_1").
Proof.
  assert (H : check_run (run_active [(MarkReadyForEvaluation, 6, now_time)])
    (λ a, bool_decide (state a = ASSESSING ∧ active_instrument_reference a = Some ($"plink_1"))) = true)
    by (vm_compute; reflexivity).
  apply check_run_Ok in H as (a & Ha & Hs). apply bool_decide_true_1 in Hs as [Hs1 Hs2].
  exists a. split; [exact Ha|]. split; [exact Hs1|exact Hs2].
Qed.

(** * Witnesses *)
Lemma sample_case_opened : opened sample_case.
Proof. split_and!; [reflexivity|reflexivity|left|done]. Qed.

Lemma stale_version_rejected_witness :
  apply_command sample_case (Wait ($"later")) 3 now_time = Raise (VersionConflict 3 0).
Proof. apply (stale_version_rejected sample_case); [lia|discriminate]. Defined.

Lemma command_refines_transition_witness :
  ∃ ch, apply_command sample_case (ObserveFailure ($"evt_1") None) 0 observed_time = Ok ch
        ∧ committed sample_case observed_time ch ∧ length (events ch) = 1%nat.
Proof.
  assert (H : match apply_command sample_case (ObserveFailure ($"evt_1") None) 0 observed_time with
              | Ok ch => bool_decide (length (events ch) = 1%nat) | _ => false end = true)
    by (vm_compute; reflexivity).
  destruct (apply_command _ _ _ _) as [ch|] eqn:E; [|discriminate].
  exists ch. split; [reflexivity|]. split; [|by apply bool_decide_true_1 in H].
  refine (proj1 (proj2 (command_refines_transition sample_case _ _ _ ch _ E))). reflexivity.
Defined.

Definition paid_steps : list Step :=
  [(ObserveFailure ($"evt_1") None, 0, observed_time);
   (RecordOriginalPaid ($"evt_2"), 1, now_time)].

Lemma paid_case :
  ∃ a b, run sample_case paid_steps = Ok a
    ∧ agg_step a b ∧ state a = SUPPRESSED_PAID ∧ agg_payment_state a = PAID.
Proof.
  assert (H : check_run (run sample_case paid_steps) (λ a,
    match apply_command a (RecordDuplicateCollection ($"evt_3")) 2 now_time with
    | Ok ch => bool_decide (state a = SUPPRESSED_PAID ∧ agg_payment_state a = PAID)
    | Raise _ => false end) = true) by (vm_compute; reflexivity).
  apply check_run_Ok in H as (a & Ha & H).
  destruct (apply_command a _ _ _) as [ch|] eqn:E; [|discriminate].
  apply bool_decide_true_1 in H as [H1 H2]. exists a, (aggregate ch).
  split; [exact Ha|]. split; [by do 4 eexists|]. split; [exact H1|exact H2].
Qed.

Lemma collection_never_reopens_witness :
  ∃ a b, run sample_case paid_steps = Ok a ∧ agg_step a b ∧ collection_closed b = true.
Proof.
  destruct paid_case as (a & b & Ha & Hb & Hs & _). exists a, b.
  split; [exact Ha|]. split; [exact Hb|].
  refine (proj1 (collection_never_reopens a b _ _ (rtc_once _ _ Hb))).
  - exact (proj1 (run_invariant _ _ sample_case_opened (run_rtc _ _ _ Ha))).
  - unfold collection_closed. rewrite Hs. reflexivity.
Defined.

Lemma no_execution_after_payment_truth_witness :
  ∃ a b, run sample_case paid_steps = Ok a ∧ agg_step a b
         ∧ payment_rank (agg_payment_state a) <= payment_rank (agg_payment_state b).
Proof.
  destruct paid_case as (a & b & Ha & Hb & _ & Hp). exists a, b.
  split; [exact Ha|]. split; [exact Hb|].
  refine (proj1 (no_execution_after_payment_truth a a b _ _ (rtc_refl _ _) Hb)).
  - exact (proj1 (run_invariant _ _ sample_case_opened (run_rtc _ _ _ Ha))).
  - rewrite Hp. reflexivity.
Defined.

Definition queued_steps (plan : GateDecision) : list Step :=
  assessing_steps ++ [(AuthorizeAction sample_proposal plan, 3, now_time)].

Definition queued_run (plan : GateDecision) : result RecoveryAggregate :=
  run sample_case (queued_steps plan).

Lemma execution_requires_effect_gate_witness :
  ∃ a, state a = ACTION_QUEUED ∧ agg_payment_state a = UNPAID ∧ elapsed a now_time.
Proof.
  assert (H : match (plan ← evaluate_policy sample_policy sample_proposal (case_context 3 ASSESSING);
                     effect ← evaluate_effect sample_policy sample_proposal
                                (case_context 4 ACTION_QUEUED) (Some plan);
                     a ← queued_run plan;
                     ch ← apply_command a (BeginExecution sample_proposal effect) 4 now_time;
                     Ok (bool_decide (state (aggregate ch) = EXECUTING ∧ state a ≠ EXECUTING))) with
              | Ok b => b | Raise _ => false end = true) by (vm_compute; reflexivity).
  match type of H with match ?m with _ => _ end = true => destruct m as [r|] eqn:E; [|discriminate] end.
  apply bind_Ok in E as (plan & _ & E). apply bind_Ok in E as (effect & _ & E).
  apply bind_Ok in E as (a & Ha & E). apply bind_Ok in E as (ch & Hch & E).
  apply Ok_inj in E. subst r. apply bool_decide_true_1 in H as [H1 H2]. exists a.
  destruct (execution_requires_effect_gate a _ _ _ _
              (proj1 (run_invariant _ _ sample_case_opened (run_rtc _ _ _ Ha))) Hch H1 H2)
    as (G1 & G2 & G3 & _).
  split; [exact G1|]. split; [exact G2|exact G3].
Defined.

Lemma active_case :
  ∃ b, rtc agg_step sample_case b ∧ state b = ACTIVE.
Proof.
  assert (H : check_run (run_active []) (λ a, bool_decide (state a = ACTIVE)) = true)
    by (vm_compute; reflexivity).
  apply check_run_Ok in H as (b & Hb & H). apply bool_decide_true_1 in H.
  unfold run_active in Hb. apply bind_Ok in Hb as (plan & _ & Hb).
  apply bind_Ok in Hb as (effect & _ & Hb). exists b. split; [by eapply run_rtc|exact H].
Qed.

Lemma late_capture_floor_witness :
  ∃ b s u l, state b = ACTIVE ∧ observation_started_at b = Some s ∧ deadline b = Some u
    ∧ last_transition_at b = Some l ∧ instant s + seconds 120 <= instant u ∧ instant u <= instant l.
Proof.
  destruct active_case as (b & Hb & Hs).
  destruct (late_capture_floor sample_case b sample_case_opened Hb) as (s & u & l & H).
  - rewrite Hs. reflexivity.
  - exists b, s, u, l. split; [exact Hs|exact H].
Defined.

Lemma workflow_matches_truth_witness : ∃ b, state b = ACTIVE ∧ is_Some (active_action_key b).
Proof.
  destruct active_case as (b & Hb & Hs). exists b. split; [exact Hs|].
  destruct (workflow_matches_truth sample_case b sample_case_opened Hb) as (_ & _ & _ & _ & H).
  apply H. rewrite Hs. reflexivity.
Defined.
