(* ===== verification/Text.v ===== *)
(** Clean text: the check the outbox, the executor and the Payment Link
    commands make of every text they keep (not empty, not surrounded by white
    space, bounded, without control characters), and its lemmas. *)
From S2P Require Import Prelude PyStr.

(** [ord(c) < 32 or ord(c) == 127]; also the class [[\x00-\x1f\x7f]]. *)
Definition is_control (c : Z) : bool := (c <? 32) || (c =? 127).

Definition clean_text (maximum : Z) (value : pystr) : bool :=
  bool_decide (value ≠ []) && bool_decide (value = strip value) && (str_len value <=? maximum)
  && forallb (λ c, negb (is_control c)) value.

(** SQL [btrim(value)]: blanks only. *)
Definition btrim (value : pystr) : pystr :=
  rstrip_chars (λ c, c =? 32) (drop_while (λ c, c =? 32) value).

(** ** Prefixing a clean text *)
Lemma drop_while_length p s : (length (drop_while p s) <= length s)%nat.
Proof. induction s as [|c s IH]; cbn; [done|]. destruct (p c); cbn; lia. Qed.

Lemma drop_while_same p s : length (drop_while p s) = length s → drop_while p s = s.
Proof.
  destruct s as [|c s]; cbn; [done|]. destruct (p c); [|done]. pose proof (drop_while_length p s). cbn. lia.
Qed.

Lemma strip_fixed_l s : strip s = s → drop_while is_space s = s.
Proof.
  unfold strip, rstrip_chars. intros E. pose proof (drop_while_length is_space s) as H1.
  pose proof (drop_while_length is_space (reverse (drop_while is_space s))) as H2.
  apply drop_while_same. rewrite <- E in H1 at 2. rewrite length_reverse in *.
  apply (f_equal length) in E. rewrite length_reverse in E. lia.
Qed.

Lemma strip_fixed s : strip s = s → drop_while is_space (reverse s) = reverse s.
Proof.
  intros E. pose proof (strip_fixed_l s E) as Hs. unfold strip, rstrip_chars in E.
  rewrite Hs in E. apply (f_equal reverse) in E. by rewrite reverse_involutive in E.
Qed.

Lemma clean_text_prefix m m' c s s' :
  is_space c = false → forallb (λ c, negb (is_control c)) (c :: s) = true →
  clean_text m s' = true → clean_text m' (c :: s ++ s') = (str_len (c :: s ++ s') <=? m').
Proof.
  intros Hc Hs H. unfold clean_text in *. apply andb_true_iff in H as [H Hctl].
  apply andb_true_iff in H as [H _]. apply andb_true_iff in H as [Hne Hst].
  apply bool_decide_true_1 in Hne, Hst. symmetry in Hst. apply strip_fixed in Hst.
  assert (strip (c :: s ++ s') = c :: s ++ s') as ->.
  { unfold strip, rstrip_chars. cbn [drop_while]. rewrite Hc, app_comm_cons, reverse_app.
    destruct (reverse s') as [|x t] eqn:E.
    { apply (f_equal reverse) in E. rewrite reverse_involutive in E. done. }
    cbn [app drop_while] in *. destruct (is_space x).
    - pose proof (drop_while_length is_space t). apply (f_equal length) in Hst. cbn in Hst. lia.
    - by rewrite app_comm_cons, <- E, <- reverse_app, reverse_involutive. }
  rewrite !bool_decide_true by done. cbn [andb].
  by rewrite (app_comm_cons s s' c), forallb_app, Hs, Hctl, andb_true_r.
Qed.

(** ** Blanks *)
Lemma drop_while_weaker p q s :
  (∀ c, p c = true → q c = true) → drop_while q s = s → drop_while p s = s.
Proof.
  intros Hpq. destruct s as [|c s]; cbn; [done|]. destruct (q c) eqn:Hq.
  - intros E. apply (f_equal length) in E. pose proof (drop_while_length q s). cbn in E. lia.
  - destruct (p c) eqn:Hp; [apply Hpq in Hp; congruence|done].
Qed.

Lemma clean_text_btrim m s : clean_text m s = true → btrim s = s.
Proof.
  unfold clean_text. intros H. bools. symmetry in H2.
  assert (Hw : ∀ c, (c =? 32) = true → is_space c = true).
  { intros c ->%Z.eqb_eq. done. }
  unfold btrim, rstrip_chars. rewrite (drop_while_weaker _ _ s Hw) by (by apply strip_fixed_l).
  rewrite (drop_while_weaker _ _ (reverse s) Hw) by (by apply strip_fixed). apply reverse_involutive.
Qed.

Lemma btrim_length s : (length (btrim s) <= length s)%nat.
Proof.
  unfold btrim, rstrip_chars. rewrite length_reverse. etrans; [apply drop_while_length|].
  rewrite length_reverse. apply drop_while_length.
Qed.

Lemma btrim_nonblank c s : c ≠ 32 → btrim (c :: s) ≠ [].
Proof.
  intros Hc. unfold btrim, rstrip_chars. cbn [drop_while]. rewrite (proj2 (Z.eqb_neq c 32) Hc).
  rewrite reverse_cons. intros E%(f_equal reverse). rewrite reverse_involutive in E. revert E.
  generalize (reverse s). intros l. induction l as [|x l IH]; cbn.
  - by rewrite (proj2 (Z.eqb_neq c 32) Hc).
  - by destruct (x =? 32).
Qed.

(** Text of visible ASCII characters: identifiers, digests, references. *)
Definition visible (c : Z) : bool := between 33 126 c.

Lemma visible_plain c : visible c = true → is_space c = false ∧ is_control c = false.
Proof.
  unfold visible, is_control, is_space, between. lia.
Qed.

Lemma clean_text_visible m s :
  s ≠ [] → forallb visible s = true → clean_text m s = (str_len s <=? m).
Proof.
  intros Hne Hv. assert (Hdrop : ∀ s, forallb visible s = true → drop_while is_space s = s).
  { clear. intros [|c s]; cbn; [done|]. intros [Hc _]%andb_true_iff. by rewrite (proj1 (visible_plain c Hc)). }
  assert (strip s = s) as Hs.
  { assert (forallb visible (reverse s) = true) as Hr.
    { apply forallb_Forall, Forall_reverse. by apply forallb_Forall. }
    unfold strip, rstrip_chars. rewrite (Hdrop s Hv), (Hdrop _ Hr). apply reverse_involutive. }
  unfold clean_text. rewrite Hs, !bool_decide_true by done. cbn [andb].
  replace (forallb (λ c, negb (is_control c)) s) with true; [by rewrite andb_true_r|].
  symmetry. apply forallb_Forall. apply forallb_Forall in Hv. eapply Forall_impl; [exact Hv|].
  cbn. intros c [_ ->]%visible_plain. done.
Qed.

(** A visible suffix keeps a text clean. *)
Lemma clean_text_suffix m m' s s' :
  clean_text m s = true → s' ≠ [] → forallb visible s' = true →
  clean_text m' (s ++ s') = (str_len (s ++ s') <=? m').
Proof.
  intros H Hne Hv. unfold clean_text in H. bools. symmetry in H2. apply strip_fixed_l in H2.
  destruct s as [|c s]; [done|]. assert (is_space c = false) as Hc.
  { cbn [drop_while] in H2. destruct (is_space c); [|done].
    pose proof (drop_while_length is_space s) as Hl. rewrite H2 in Hl. cbn in Hl. lia. }
  assert (clean_text (str_len s') s' = true) as Hs'.
  { rewrite clean_text_visible by done. apply Z.leb_le. lia. }
  cbn [app]. by eapply clean_text_prefix.
Qed.

(** The first separator splits a text in one way. *)
Lemma app_separated (c : Z) s s' r r' :
  c ∉ s → c ∉ s' → s ++ c :: r = s' ++ c :: r' → s = s' ∧ r = r'.
Proof.
  revert s'. induction s as [|x s IH]; intros [|y s'] Hs Hs' E; cbn in E; simplify_eq.
  - done.
  - by rewrite not_elem_of_cons in Hs'; destruct Hs' as [[] _].
  - by rewrite not_elem_of_cons in Hs; destruct Hs as [[] _].
  - apply not_elem_of_cons in Hs as [_ Hs], Hs' as [_ Hs'].
    destruct (IH _ Hs Hs' ltac:(done)) as [-> ->]. done.
Qed.
