(* ===== verification/Outbox.v ===== *)
(** [services/control_plane/outbox.py]: one immutable outbox delivery, its
    fenced leases and its retry schedule.  [replace(self, ...)] always raises
    the version by one and runs [__post_init__] on the result. *)
From stdpp Require Import relations.
From S2P Require Import Prelude PyStr Sha256 PyTime Json Canonical Digest Actions Text.

Inductive OutboxState := PENDING | LEASED | COMPLETED | DEAD_LETTER.
Inductive RetryMode := NORMAL_RETRY | RECONCILE_ONLY | RETRY_SAME_EFFECT.

#[export] Instance OutboxState_eq_dec : EqDecision OutboxState.
Proof. solve_decision. Defined.
#[export] Instance RetryMode_eq_dec : EqDecision RetryMode.
Proof. solve_decision. Defined.

Definition outbox_state_value (s : OutboxState) : string :=
  match s with
  | PENDING => "pending" | LEASED => "leased" | COMPLETED => "completed"
  | DEAD_LETTER => "dead_letter"
  end.

Definition _require_utc (value : datetime) (field : string) : result datetime :=
  _ ← raise_if (negb (is_aware value)) (ValueError (field +:+ " must be a timezone-aware datetime"));
  _ ← raise_if (negb (is_utc value)) (ValueError (field +:+ " must be expressed in UTC"));
  astimezone_utc value.

Definition _require_text (value : pystr) (field : string) (maximum : Z) : result pystr :=
  _ ← raise_if (negb (clean_text maximum value))
        (ValueError (field +:+ " must be clean, non-empty text"));
  Ok value.

(** * Backoff *)
Record BackoffPolicy := mkBackoffPolicy { base_delay : timedelta; maximum_delay : timedelta }.

Definition BackoffPolicy_post_init (b : BackoffPolicy) : result BackoffPolicy :=
  _ ← raise_if (base_delay b <=? 0) (ValueError "base_delay must be a positive timedelta");
  _ ← raise_if (maximum_delay b <? base_delay b)
        (ValueError "maximum_delay must be at least base_delay");
  Ok b.

(** [d / 2] of a [timedelta]: rounded half to even, in microseconds. *)
Definition half (d : timedelta) : timedelta :=
  if Z.even d then d / 2 else if Z.even (d / 2) then d / 2 else d / 2 + 1.

(** The [for _ in range(n)] loop; [None] is the early [return]. *)
Fixpoint double_delay (n : nat) (maximum delay : timedelta) : option timedelta :=
  match n with
  | O => Some delay
  | S n => if half maximum <=? delay then None else double_delay n maximum (delay * 2)
  end.

Definition delay_after (self : BackoffPolicy) (attempts : Z) : result timedelta :=
  _ ← raise_if (attempts <? 1) (ValueError "attempts must be a positive integer");
  Ok (match double_delay (Z.to_nat (attempts - 1)) (maximum_delay self) (base_delay self) with
      | None => maximum_delay self
      | Some delay => Z.min delay (maximum_delay self)
      end).

(** * Jobs *)
Record OutboxJob := mkOutboxJob {
  job_id : pystr;
  job_action_key : pystr;
  payload_digest : pystr;
  job_state : OutboxState;
  job_version : Z;
  attempts : Z;
  job_max_attempts : Z;
  job_created_at : datetime;
  updated_at : datetime;
  available_at : option datetime;
  retry_mode : RetryMode;
  lease_owner : option pystr;
  lease_token : option pystr;
  lease_expires_at : option datetime;
  last_error : option pystr;
  completion_reference : option pystr;
  dead_letter_reason : option pystr;
  schema_version : Z
}.

#[export] Instance OutboxJob_eq_dec : EqDecision OutboxJob.
Proof. solve_decision. Defined.

Definition at_least (field : string) (value minimum : Z) (message : string) : result unit :=
  raise_if (value <? minimum) (ValueError (field +:+ message)).

Definition optional_text (field : string) (o : option pystr) : result (option pystr) :=
  when_some o (λ v, _require_text v field 512).

(** No lease at all; the whole lease. *)
Definition no_lease (j : OutboxJob) : bool :=
  bool_decide (lease_owner j = None) && bool_decide (lease_token j = None)
  && bool_decide (lease_expires_at j = None).
Definition full_lease (j : OutboxJob) : bool :=
  bool_decide (lease_owner j ≠ None) && bool_decide (lease_token j ≠ None)
  && bool_decide (lease_expires_at j ≠ None).

(** The state-specific block of [__post_init__], on the normalised job. *)
Definition check_job_state (j : OutboxJob) : result unit :=
  let terminal := bool_decide (completion_reference j ≠ None)
                  || bool_decide (dead_letter_reason j ≠ None) in
  match job_state j with
  | PENDING =>
      _ ← raise_if (bool_decide (available_at j = None) || negb (no_lease j))
            (ValueError "pending jobs require available_at and no lease");
      _ ← raise_if (job_max_attempts j <=? attempts j)
            (ValueError "a max-attempt job cannot remain pending");
      raise_if terminal (ValueError "pending jobs cannot have terminal metadata")
  | LEASED =>
      _ ← raise_if (bool_decide (available_at j ≠ None) || negb (full_lease j))
            (ValueError "leased jobs require all lease fields and no available_at");
      _ ← raise_if (attempts j <? 1) (ValueError "leased jobs require at least one attempt");
      _ ← raise_if (match lease_expires_at j with
                    | Some e => dt_leb e (updated_at j) | None => true end)
            (ValueError "lease_expires_at must be after updated_at");
      raise_if terminal (ValueError "leased jobs cannot have terminal metadata")
  | COMPLETED =>
      _ ← raise_if (bool_decide (available_at j ≠ None) || negb (no_lease j))
            (ValueError "completed jobs cannot remain schedulable or leased");
      raise_if (bool_decide (completion_reference j = None)
                || bool_decide (dead_letter_reason j ≠ None))
        (ValueError "completed jobs require only a completion reference")
  | DEAD_LETTER =>
      _ ← raise_if (bool_decide (available_at j ≠ None) || negb (no_lease j))
            (ValueError "dead-letter jobs cannot remain schedulable or leased");
      raise_if (bool_decide (dead_letter_reason j = None)
                || bool_decide (completion_reference j ≠ None))
        (ValueError "dead-letter jobs require only a dead-letter reason")
  end.

Definition OutboxJob_post_init (j : OutboxJob) : result OutboxJob :=
  _ ← _require_text (job_id j) "job_id" 128;
  _ ← _require_text (job_action_key j) "action_key" 128;
  _ ← raise_if (negb (is_digest (payload_digest j)))
        (ValueError "payload_digest must be a lowercase SHA-256 digest");
  _ ← at_least "version" (job_version j) 0 " must be an integer >= 0";
  _ ← at_least "attempts" (attempts j) 0 " must be an integer >= 0";
  _ ← at_least "max_attempts" (job_max_attempts j) 1 " must be an integer >= 1";
  _ ← at_least "schema_version" (schema_version j) 1 " must be an integer >= 1";
  _ ← raise_if (bool_decide (schema_version j ≠ 1)) (ValueError "unsupported outbox schema_version");
  _ ← raise_if (job_max_attempts j <? attempts j)
        (ValueError "attempts cannot exceed max_attempts");
  created ← _require_utc (job_created_at j) "created_at";
  updated ← _require_utc (updated_at j) "updated_at";
  _ ← raise_if (dt_ltb updated created) (ValueError "updated_at cannot be before created_at");
  available ← when_some (available_at j) (λ d, _require_utc d "available_at");
  expires ← when_some (lease_expires_at j) (λ d, _require_utc d "lease_expires_at");
  _ ← optional_text "lease_owner" (lease_owner j);
  _ ← optional_text "lease_token" (lease_token j);
  _ ← optional_text "last_error" (last_error j);
  _ ← optional_text "completion_reference" (completion_reference j);
  _ ← optional_text "dead_letter_reason" (dead_letter_reason j);
  let normal :=
    mkOutboxJob (job_id j) (job_action_key j) (payload_digest j) (job_state j) (job_version j)
      (attempts j) (job_max_attempts j) created updated available (retry_mode j) (lease_owner j)
      (lease_token j) expires (last_error j) (completion_reference j) (dead_letter_reason j)
      (schema_version j) in
  _ ← check_job_state normal;
  Ok normal.

Definition create (id key digest : pystr) (now : datetime) (maximum : Z)
    (available : option datetime) : result OutboxJob :=
  now ← _require_utc now "now";
  OutboxJob_post_init
    (mkOutboxJob id key digest PENDING 0 0 maximum now now
       (Some (default now available)) NORMAL_RETRY None None None None None None 1).

(** [replace(self, version=self.version + 1, updated_at=now, ...)]. *)
Definition replacement (self : OutboxJob) (st : OutboxState) (tries : Z) (now : datetime)
    (available : option datetime) (mode : RetryMode) (owner token : option pystr)
    (expires : option datetime) (error completion reason : option pystr) : OutboxJob :=
  mkOutboxJob (job_id self) (job_action_key self) (payload_digest self) st
    (job_version self + 1) tries (job_max_attempts self) (job_created_at self) now available mode
    owner token expires error completion reason (schema_version self).

Definition replace_job (self : OutboxJob) (st : OutboxState) (tries : Z) (now : datetime)
    (available : option datetime) (mode : RetryMode) (owner token : option pystr)
    (expires : option datetime) (error completion reason : option pystr) : result OutboxJob :=
  OutboxJob_post_init
    (replacement self st tries now available mode owner token expires error completion reason).

Definition _expect_version (self : OutboxJob) (expected_version : Z) : result unit :=
  raise_if (bool_decide (expected_version ≠ job_version self))
    (OutboxVersionConflict ("expected version " +:+ string_of (str_of_Z expected_version)
       +:+ ", current version is " +:+ string_of (str_of_Z (job_version self)))).

Definition _transition_time (self : OutboxJob) (value : datetime) : result datetime :=
  value ← _require_utc value "now";
  _ ← raise_if (dt_ltb value (updated_at self)) (ValueError "transition time cannot move backwards");
  Ok value.

Definition assert_active_lease (self : OutboxJob) (worker token : pystr) (now : datetime) :
    result unit :=
  _ ← _require_text worker "worker_id" 128;
  _ ← _require_text token "lease_token" 128;
  now ← _require_utc now "now";
  _ ← raise_if (bool_decide (job_state self ≠ LEASED)) (OutboxLeaseError "job is not leased");
  _ ← raise_if (bool_decide (lease_owner self ≠ Some worker)
                || bool_decide (lease_token self ≠ Some token))
        (OutboxLeaseError "worker or fencing token does not own this lease");
  match lease_expires_at self with
  | None => Raise (TypeError "'>=' not supported between instances of 'datetime' and 'NoneType'")
  | Some expires => raise_if (dt_leb expires now) (OutboxLeaseError "lease has expired")
  end.

(** The job may be claimed at [now]: it is due, or its lease ran out. *)
Definition check_claimable (self : OutboxJob) (now : datetime) : result unit :=
  match job_state self with
  | PENDING =>
      match available_at self with
      | None => Raise (TypeError "'<' not supported between instances of 'datetime' and 'NoneType'")
      | Some due => raise_if (dt_ltb now due) (OutboxNotReady "job has not reached available_at")
      end
  | LEASED =>
      match lease_expires_at self with
      | None => Raise (TypeError "'<' not supported between instances of 'datetime' and 'NoneType'")
      | Some expires =>
          raise_if (dt_ltb now expires) (OutboxLeaseError "the current lease has not expired")
      end
  | st => Raise (OutboxTransitionError ("cannot claim a " +:+ outbox_state_value st +:+ " job"))
  end.

(** The text a lease token is the digest of. *)
Definition token_material (self : OutboxJob) (next_version next_attempt : Z) (worker : pystr)
    (expires : datetime) : pystr :=
  job_id self ++ $"|" ++ job_action_key self ++ $"|" ++ str_of_Z next_version ++ $"|"
  ++ str_of_Z next_attempt ++ $"|" ++ worker ++ $"|" ++ isoformat_utc (wall expires).

Definition claim (self : OutboxJob) (worker : pystr) (now : datetime) (lease_duration : timedelta)
    (expected_version : Z) : result OutboxJob :=
  _ ← _expect_version self expected_version;
  _ ← _require_text worker "worker_id" 128;
  now ← _transition_time self now;
  _ ← raise_if (lease_duration <=? 0) (ValueError "lease_duration must be a positive timedelta");
  _ ← check_claimable self now;
  let reclaimed := bool_decide (job_state self = LEASED) in
  let next_attempt := attempts self + 1 in
  if job_max_attempts self <? next_attempt then
    replace_job self DEAD_LETTER (attempts self) now None RECONCILE_ONLY None None None
      (last_error self) (completion_reference self)
      (Some ($"max_attempts_exhausted_after_stale_lease"))
  else
    let next_version := job_version self + 1 in
    expires ← dt_add now lease_duration;
    material ← utf8_encode (token_material self next_version next_attempt worker expires);
    let token := $"lease_" ++ sha256_hex material in
    replace_job self LEASED next_attempt now None
      (if reclaimed then RECONCILE_ONLY else retry_mode self)
      (Some worker) (Some token) (Some expires)
      (last_error self) (completion_reference self) None.

Definition complete (self : OutboxJob) (worker token : pystr) (now : datetime)
    (expected_version : Z) (reference : pystr) : result OutboxJob :=
  _ ← _require_text reference "result_reference" 512;
  if decide (job_state self = COMPLETED) then
    if decide (completion_reference self = Some reference) then Ok self
    else Raise (OutboxTransitionError "completed result conflicts with prior completion")
  else
    _ ← _expect_version self expected_version;
    now ← _transition_time self now;
    _ ← assert_active_lease self worker token now;
    replace_job self COMPLETED (attempts self) now None (retry_mode self) None None None None
      (Some reference) (dead_letter_reason self).

Definition requeue (self : OutboxJob) (worker token : pystr) (now : datetime)
    (expected_version : Z) (reason : pystr) (backoff : BackoffPolicy) (mode : RetryMode) :
    result OutboxJob :=
  _ ← _require_text reason "reason" 512;
  _ ← _expect_version self expected_version;
  now ← _transition_time self now;
  _ ← assert_active_lease self worker token now;
  if job_max_attempts self <=? attempts self then
    replace_job self DEAD_LETTER (attempts self) now None mode None None None
      (Some reason) (completion_reference self) (Some ($"max_attempts_exhausted:" ++ reason))
  else
    delay ← delay_after backoff (attempts self);
    available ← dt_add now delay;
    replace_job self PENDING (attempts self) now (Some available) mode None None None
      (Some reason) (completion_reference self) (dead_letter_reason self).

Definition dead_letter (self : OutboxJob) (worker token : pystr) (now : datetime)
    (expected_version : Z) (reason : pystr) : result OutboxJob :=
  _ ← _require_text reason "reason" 512;
  if decide (job_state self = DEAD_LETTER) then
    if decide (dead_letter_reason self = Some reason) then Ok self
    else Raise (OutboxTransitionError "dead-letter reason conflicts with terminal state")
  else
    _ ← _expect_version self expected_version;
    now ← _transition_time self now;
    _ ← assert_active_lease self worker token now;
    replace_job self DEAD_LETTER (attempts self) now None (retry_mode self) None None None
      (Some reason) (completion_reference self) (Some reason).

(** [job.lease_token or "missing-lease-token"]. *)
Definition lease_token_of (job : OutboxJob) : pystr :=
  match lease_token job with
  | Some token => if decide (token = []) then $"missing-lease-token" else token
  | None => $"missing-lease-token"
  end.

(** * Jobs the program holds *)
Definition job_ok (j : OutboxJob) : Prop := OutboxJob_post_init j = Ok j.

Lemma outbox_utc_Ok v f u : _require_utc v f = Ok u → u = v ∧ is_utc v = true.
Proof.
  unfold _require_utc. intros H. inv_ok. apply negb_false_iff in Hr0.
  rewrite astimezone_utc_id in H by done. by apply Ok_inj in H as ->.
Qed.

Lemma require_text_Ok v f m u : _require_text v f m = Ok u → u = v ∧ clean_text m v = true.
Proof. unfold _require_text. intros H. inv_ok. by apply negb_false_iff in Hr. Qed.

Lemma optional_utc_Ok o f r : when_some o (λ d, _require_utc d f) = Ok r → r = o.
Proof. destruct o; cbn; intros H; inv_ok; subst; [|done]. by apply outbox_utc_Ok in Hr as [-> _]. Qed.

(** The constructor never changes a field. *)
Lemma job_post_init_id j k : OutboxJob_post_init j = Ok k → k = j.
Proof.
  unfold OutboxJob_post_init. intros H. inv_ok.
  repeat match goal with
  | E : _require_utc _ _ = Ok _ |- _ => apply outbox_utc_Ok in E as [-> ?]
  | E : when_some _ (λ d, _require_utc d _) = Ok _ |- _ => apply optional_utc_Ok in E as ->
  end. subst k. by destruct j.
Qed.

Lemma job_post_init_ok j k : OutboxJob_post_init j = Ok k → k = j ∧ job_ok k.
Proof. intros H. pose proof (job_post_init_id _ _ H) as ->. by split. Qed.

Record job_facts (j : OutboxJob) : Prop := {
  fact_attempts : 0 <= attempts j <= job_max_attempts j;
  fact_times : is_utc (job_created_at j) = true ∧ is_utc (updated_at j) = true
               ∧ instant (job_created_at j) <= instant (updated_at j);
  fact_pending : job_state j = PENDING → attempts j < job_max_attempts j ∧ is_Some (available_at j);
  fact_leased : job_state j = LEASED → 1 <= attempts j
    ∧ ∃ o t e, lease_owner j = Some o ∧ lease_token j = Some t ∧ lease_expires_at j = Some e
               ∧ instant (updated_at j) < instant e;
  fact_unleased : job_state j ≠ LEASED →
    lease_owner j = None ∧ lease_token j = None ∧ lease_expires_at j = None;
  fact_completed : is_Some (completion_reference j) ↔ job_state j = COMPLETED;
  fact_dead : is_Some (dead_letter_reason j) ↔ job_state j = DEAD_LETTER
}.

Lemma no_lease_true j :
  no_lease j = true → lease_owner j = None ∧ lease_token j = None ∧ lease_expires_at j = None.
Proof. unfold no_lease. intros H. bools. done. Qed.

Lemma full_lease_true j :
  full_lease j = true → ∃ o t e, lease_owner j = Some o ∧ lease_token j = Some t ∧ lease_expires_at j = Some e.
Proof.
  unfold full_lease. intros H. bools.
  destruct (lease_owner j), (lease_token j), (lease_expires_at j); try done. naive_solver.
Qed.

Lemma not_None_Some {A} (o : option A) : o ≠ None ↔ is_Some o.
Proof. destruct o; split; try done; by intros []. Qed.

Lemma dt_leb_false_1 a b : dt_leb a b = false ↔ instant b < instant a.
Proof. apply Z.leb_gt. Qed.

(** What the state-specific checks leave. *)
Lemma check_job_state_Ok j u :
  check_job_state j = Ok u →
  (job_state j = PENDING → attempts j < job_max_attempts j ∧ is_Some (available_at j))
  ∧ (job_state j = LEASED → 1 <= attempts j
     ∧ ∃ o t e, lease_owner j = Some o ∧ lease_token j = Some t ∧ lease_expires_at j = Some e
                ∧ instant (updated_at j) < instant e)
  ∧ (job_state j ≠ LEASED →
     lease_owner j = None ∧ lease_token j = None ∧ lease_expires_at j = None)
  ∧ (is_Some (completion_reference j) ↔ job_state j = COMPLETED)
  ∧ (is_Some (dead_letter_reason j) ↔ job_state j = DEAD_LETTER).
Proof.
  unfold check_job_state. rewrite <- !not_None_Some.
  destruct (job_state j); intros H; inv_ok; bools.
  - match goal with E : no_lease j = true |- _ => apply no_lease_true in E end. split_and!; naive_solver.
  - match goal with E : full_lease j = true |- _ => apply full_lease_true in E as (o & t & e & ? & ? & He) end.
    rewrite He in *. rewrite dt_leb_false_1 in *. split_and!; try naive_solver.
  - match goal with E : no_lease j = true |- _ => apply no_lease_true in E end. split_and!; naive_solver.
  - match goal with E : no_lease j = true |- _ => apply no_lease_true in E end. split_and!; naive_solver.
Qed.

Lemma job_ok_facts j : job_ok j → job_facts j.
Proof.
  unfold job_ok, OutboxJob_post_init, at_least. intros H. inv_ok.
  repeat match goal with
  | E : _require_utc _ _ = Ok _ |- _ => apply outbox_utc_Ok in E as [-> ?]
  | E : when_some _ (λ d, _require_utc d _) = Ok _ |- _ => apply optional_utc_Ok in E as ->
  end.
  match goal with E : check_job_state _ = Ok _ |- _ => rename E into Hc end. rewrite H in Hc.
  apply check_job_state_Ok in Hc as (? & ? & ? & ? & ?). clear H. unfold dt_ltb in *. bools.
  split; try done; lia.
Qed.

(** ** What each accepted operation did *)
Definition unleased (j : OutboxJob) : Prop :=
  lease_owner j = None ∧ lease_token j = None ∧ lease_expires_at j = None.

(** The fields no operation changes. *)
Definition same_job (a b : OutboxJob) : Prop :=
  job_id a = job_id b ∧ job_action_key a = job_action_key b ∧ payload_digest a = payload_digest b
  ∧ job_max_attempts a = job_max_attempts b ∧ job_created_at a = job_created_at b.

(** A replaced job: next version, later time, everything fixed kept. *)
Record replaced (a b : OutboxJob) (now : datetime) : Prop := {
  replaced_ok : job_ok b;
  replaced_version : job_version b = job_version a + 1;
  replaced_time : updated_at b = now ∧ is_utc now = true ∧ instant (updated_at a) <= instant now;
  replaced_same : same_job a b
}.

Lemma transition_time_Ok self v now :
  _transition_time self v = Ok now → now = v ∧ is_utc now = true ∧ instant (updated_at self) <= instant now.
Proof.
  unfold _transition_time. intros H. inv_ok. subst.
  match goal with E : _require_utc _ _ = Ok _ |- _ => apply outbox_utc_Ok in E as [-> ?] end.
  unfold dt_ltb in *. bools. done.
Qed.

Lemma expect_version_Ok self v u : _expect_version self v = Ok u → v = job_version self.
Proof. unfold _expect_version. intros H. inv_ok. bools. by apply dec_stable. Qed.

(** The lease a caller proved to hold. *)
Record holds_lease (j : OutboxJob) (worker token : pystr) (now : datetime) : Prop := {
  holds_state : job_state j = LEASED;
  holds_owner : lease_owner j = Some worker ∧ lease_token j = Some token;
  holds_until : ∃ e, lease_expires_at j = Some e ∧ instant now < instant e
}.

Lemma active_lease_Ok self w t now u :
  assert_active_lease self w t now = Ok u → holds_lease self w t now.
Proof.
  unfold assert_active_lease. intros H. inv_ok.
  repeat match goal with
  | E : _require_utc _ _ = Ok _ |- _ => apply outbox_utc_Ok in E as [-> ?]
  | E : (_ || _) = false |- _ => apply orb_false_iff in E as [? ?]
  end. bools.
  destruct (lease_expires_at self) as [e|] eqn:Ee; inv_ok. rewrite dt_leb_false_1 in *.
  split; [by apply dec_stable|split; by apply dec_stable|]. by exists e.
Qed.

Lemma active_lease_true self w t now :
  holds_lease self w t now → clean_text 128 w = true → clean_text 128 t = true →
  is_utc now = true → assert_active_lease self w t now = Ok tt.
Proof.
  intros [Hs [Ho Ht] (e & He & Hlt)] Hw Htt Hu. unfold assert_active_lease, _require_text, _require_utc.
  rewrite Hw, Htt, Hu, is_utc_aware, astimezone_utc_id by done. cbn.
  rewrite Hs, Ho, Ht, He, !bool_decide_false by auto. cbn.
  by rewrite (proj2 (dt_leb_false_1 _ _) Hlt).
Qed.

Lemma replace_job_Ok self st n now av mode o t e err c r j :
  is_utc now = true → instant (updated_at self) <= instant now →
  replace_job self st n now av mode o t e err c r = Ok j →
  replaced self j now ∧ job_state j = st ∧ attempts j = n ∧ retry_mode j = mode
  ∧ lease_owner j = o ∧ lease_token j = t ∧ lease_expires_at j = e ∧ available_at j = av
  ∧ completion_reference j = c ∧ dead_letter_reason j = r ∧ last_error j = err.
Proof.
  unfold replace_job. intros Hu Ht [-> Hok]%job_post_init_ok. split; [by split|done].
Qed.

Lemma claimable_Ok self now u :
  check_claimable self now = Ok u →
  (job_state self = PENDING ∧ ∃ d, available_at self = Some d ∧ instant d <= instant now)
  ∨ (job_state self = LEASED ∧ ∃ e, lease_expires_at self = Some e ∧ instant e <= instant now).
Proof.
  unfold check_claimable, dt_ltb. intros H.
  destruct (job_state self); inv_ok; [left|right]; (split; [done|]).
  - destruct (available_at self) as [d|]; inv_ok. bools. by exists d.
  - destruct (lease_expires_at self) as [d|]; inv_ok. bools. by exists d.
Qed.

(** Read the guards an operation passed. *)
Ltac job_guards :=
  repeat match goal with
  | E : _expect_version _ _ = Ok _ |- _ => apply expect_version_Ok in E
  | E : _transition_time _ _ = Ok _ |- _ => apply transition_time_Ok in E as (-> & ? & ?)
  | E : check_claimable _ _ = Ok _ |- _ => apply claimable_Ok in E
  | E : assert_active_lease _ _ _ _ = Ok _ |- _ => apply active_lease_Ok in E
  end.

(** The two outcomes of a claim. *)
Inductive claimed (self : OutboxJob) (worker : pystr) (now : datetime) (duration : timedelta)
    (j : OutboxJob) : Prop :=
  | claimed_exhausted :
      job_max_attempts self < attempts self + 1 → job_state j = DEAD_LETTER →
      attempts j = attempts self → retry_mode j = RECONCILE_ONLY → unleased j →
      claimed self worker now duration j
  | claimed_lease expires material :
      attempts self + 1 <= job_max_attempts self → job_state j = LEASED →
      attempts j = attempts self + 1 →
      retry_mode j = (if bool_decide (job_state self = LEASED) then RECONCILE_ONLY else retry_mode self) →
      lease_owner j = Some worker → dt_add now duration = Ok expires → lease_expires_at j = Some expires →
      utf8_encode (token_material self (job_version j) (attempts j) worker expires) = Ok material →
      lease_token j = Some ($"lease_" ++ sha256_hex material) →
      claimed self worker now duration j.

Lemma claim_Ok self w now d v j :
  claim self w now d v = Ok j →
  v = job_version self ∧ replaced self j now ∧ 0 < d
  ∧ ((job_state self = PENDING ∧ ∃ a, available_at self = Some a ∧ instant a <= instant now)
     ∨ (job_state self = LEASED ∧ ∃ e, lease_expires_at self = Some e ∧ instant e <= instant now))
  ∧ claimed self w now d j.
Proof.
  unfold claim. intros H. inv_ok.
  job_guards. bools. split; [done|].
  destruct (Z.ltb_spec (job_max_attempts self) (attempts self + 1)).
  - apply replace_job_Ok in H as (? & ? & ? & ? & ? & ? & ? & ? & ? & ? & ?); [|done..].
    split_and!; try done; try lia. by apply claimed_exhausted.
  - inv_ok. apply replace_job_Ok in H as (Hrep & ? & Hatt & ? & ? & ? & ? & ? & ? & ? & ?); [|done..].
    split_and!; try done; try lia. eapply claimed_lease; eauto.
    by rewrite (replaced_version _ _ _ Hrep), Hatt.
Qed.

(** The fenced operations: what the caller proved, and what was replaced. *)
Lemma complete_Ok self w t now v ref j :
  complete self w t now v ref = Ok j →
  (j = self ∧ job_state self = COMPLETED)
  ∨ (v = job_version self ∧ holds_lease self w t now ∧ replaced self j now
     ∧ job_state j = COMPLETED ∧ completion_reference j = Some ref ∧ attempts j = attempts self
     ∧ unleased j).
Proof.
  unfold complete. intros H. inv_ok. case_decide; [case_decide; inv_ok; by left|right]. inv_ok.
  job_guards.
  apply replace_job_Ok in H as (? & ? & ? & ? & ? & ? & ? & ? & ? & ? & ?); [|done..]. done.
Qed.

Lemma dead_letter_Ok self w t now v reason j :
  dead_letter self w t now v reason = Ok j →
  (j = self ∧ job_state self = DEAD_LETTER)
  ∨ (v = job_version self ∧ holds_lease self w t now ∧ replaced self j now
     ∧ job_state j = DEAD_LETTER ∧ dead_letter_reason j = Some reason ∧ attempts j = attempts self
     ∧ unleased j).
Proof.
  unfold dead_letter. intros H. inv_ok. case_decide; [case_decide; inv_ok; by left|right]. inv_ok.
  job_guards.
  apply replace_job_Ok in H as (? & ? & ? & ? & ? & ? & ? & ? & ? & ? & ?); [|done..]. done.
Qed.

Lemma requeue_Ok self w t now v reason b mode j :
  requeue self w t now v reason b mode = Ok j →
  v = job_version self ∧ holds_lease self w t now ∧ replaced self j now
  ∧ attempts j = attempts self ∧ retry_mode j = mode ∧ last_error j = Some reason ∧ unleased j
  ∧ ((job_max_attempts self <= attempts self ∧ job_state j = DEAD_LETTER)
     ∨ (attempts self < job_max_attempts self ∧ job_state j = PENDING
        ∧ ∃ delay due, delay_after b (attempts self) = Ok delay ∧ dt_add now delay = Ok due
                       ∧ available_at j = Some due)).
Proof.
  unfold requeue. intros H. inv_ok.
  job_guards.
  destruct (Z.leb_spec (job_max_attempts self) (attempts self)).
  - apply replace_job_Ok in H as (? & ? & ? & ? & ? & ? & ? & ? & ? & ? & ?); [|done..].
    split_and!; try done. by left.
  - inv_ok. apply replace_job_Ok in H as (? & ? & ? & ? & ? & ? & ? & ? & ? & ? & ?); [|done..].
    split_and!; try done. right. split_and!; try done. by do 2 eexists.
Qed.

(** ** What a delivery leaves *)
(** The result job is the leased job, or a replacement that kept its attempts. *)
Definition settled_job (job j : OutboxJob) : Prop :=
  (j = job ∨ ∃ now, replaced job j now) ∧ attempts j = attempts job.

Definition is_final (j : OutboxJob) : Prop := job_state j = COMPLETED ∨ job_state j = DEAD_LETTER.

Lemma complete_settled self w t now v ref j :
  complete self w t now v ref = Ok j → settled_job self j ∧ job_state j = COMPLETED.
Proof.
  unfold settled_job. intros [[-> ?]|H]%complete_Ok; [by auto|]. destruct_and!. split_and!; auto. right. by eexists.
Qed.

Lemma dead_letter_settled self w t now v reason j :
  dead_letter self w t now v reason = Ok j → settled_job self j ∧ job_state j = DEAD_LETTER.
Proof.
  unfold settled_job. intros [[-> ?]|H]%dead_letter_Ok; [by auto|]. destruct_and!. split_and!; auto. right. by eexists.
Qed.

Lemma requeue_settled self w t now v reason b mode j :
  requeue self w t now v reason b mode = Ok j →
  settled_job self j ∧ retry_mode j = mode ∧ (job_state j = DEAD_LETTER ∨ job_state j = PENDING).
Proof.
  unfold settled_job. intros H%requeue_Ok. destruct_and!. split_and!; auto; [right; by eexists|naive_solver].
Qed.

(** * Sequences of operations *)
Inductive JobCommand :=
  | Claim (worker : pystr) (now : datetime) (lease_duration : timedelta) (v : Z)
  | Complete (worker token : pystr) (now : datetime) (v : Z) (reference : pystr)
  | Requeue (worker token : pystr) (now : datetime) (v : Z) (reason : pystr)
      (backoff : BackoffPolicy) (mode : RetryMode)
  | DeadLetter (worker token : pystr) (now : datetime) (v : Z) (reason : pystr).

Definition apply_job (self : OutboxJob) (cmd : JobCommand) : result OutboxJob :=
  match cmd with
  | Claim w now d v => claim self w now d v
  | Complete w t now v r => complete self w t now v r
  | Requeue w t now v r b m => requeue self w t now v r b m
  | DeadLetter w t now v r => dead_letter self w t now v r
  end.

Definition is_terminal_job (j : OutboxJob) : bool :=
  bool_decide (job_state j = COMPLETED ∨ job_state j = DEAD_LETTER).

(** An accepted operation replays a terminal result or moves the job on. *)
Lemma apply_job_Ok self cmd j :
  apply_job self cmd = Ok j →
  (j = self ∧ is_terminal_job self = true)
  ∨ (is_terminal_job self = false ∧ ∃ now, replaced self j now).
Proof.
  unfold is_terminal_job. destruct cmd; cbn [apply_job]; intros H.
  - apply claim_Ok in H as (_ & Hr & _ & Hs & _). right. split; [|by eexists].
    apply bool_decide_false. destruct Hs as [[-> _]|[-> _]]; naive_solver.
  - apply complete_Ok in H as [[-> Hs]|(_ & Hl & Hr & _)].
    + left. split; [done|]. apply bool_decide_true. by left.
    + right. split; [|by eexists]. apply bool_decide_false. rewrite (holds_state _ _ _ _ Hl). naive_solver.
  - apply requeue_Ok in H as (_ & Hl & Hr & _). right. split; [|by eexists].
    apply bool_decide_false. rewrite (holds_state _ _ _ _ Hl). naive_solver.
  - apply dead_letter_Ok in H as [[-> Hs]|(_ & Hl & Hr & _)].
    + left. split; [done|]. apply bool_decide_true. by right.
    + right. split; [|by eexists]. apply bool_decide_false. rewrite (holds_state _ _ _ _ Hl). naive_solver.
Qed.

Lemma apply_job_attempts self cmd j :
  apply_job self cmd = Ok j →
  attempts j = attempts self
  ∨ (job_state j = LEASED ∧ attempts j = attempts self + 1 ∧ ∃ w now d v, cmd = Claim w now d v).
Proof.
  destruct cmd; cbn [apply_job]; intros H.
  - apply claim_Ok in H as (_ & _ & _ & _ & Hc). destruct Hc; [by left|].
    right. split_and!; [done|done|by do 4 eexists].
  - apply complete_Ok in H as [[-> _]|H]; [by left|]. destruct_and!. by left.
  - apply requeue_Ok in H. destruct_and!. by left.
  - apply dead_letter_Ok in H as [[-> _]|H]; [by left|]. destruct_and!. by left.
Qed.

(** [job_run a n b]: operations take [a] to [b], granting [n] leases. *)
Inductive job_run : OutboxJob → nat → OutboxJob → Prop :=
  | run_done a : job_run a 0 a
  | run_granted a w now d v b n c :
      claim a w now d v = Ok b → job_state b = LEASED → job_run b n c → job_run a (S n) c
  | run_other a cmd b n c :
      apply_job a cmd = Ok b → (∀ w now d v, cmd = Claim w now d v → job_state b ≠ LEASED) →
      job_run b n c → job_run a n c.

Lemma job_run_ok a n b :
  job_run a n b → job_ok a →
  job_ok b ∧ same_job a b ∧ attempts b = attempts a + Z.of_nat n ∧ job_version a <= job_version b.
Proof.
  assert (Htrans : ∀ x y z, same_job x y → same_job y z → same_job x z).
  { intros x y z (? & ? & ? & ? & ?) (? & ? & ? & ? & ?). unfold same_job. split_and!; congruence. }
  induction 1 as [a|a w now d v b n c H Hb _ IH|a cmd b n c H Hno _ IH]; intros Ha.
  - split_and!; try done; lia.
  - apply claim_Ok in H as (_ & [Hok Hv _ Hs] & _ & _ & Hc). destruct (IH Hok) as (? & ? & ? & ?).
    destruct Hc; [congruence|]. split_and!; try done; [by eapply Htrans|lia..].
  - pose proof (apply_job_attempts _ _ _ H) as Hatt.
    assert (attempts b = attempts a) as Heq.
    { destruct Hatt as [|(Hl & _ & w & now & d & v & ->)]; [done|]. exfalso. exact (Hno _ _ _ _ eq_refl Hl). }
    apply apply_job_Ok in H as [[-> _]|(_ & now & [Hok Hv _ Hs])]; [by apply IH|].
    destruct (IH Hok) as (? & ? & ? & ?). split_and!; try done; [by eapply Htrans|lia..].
Qed.

(** ** Lease tokens *)
Lemma bar_not_in_int z : 124 ∉ str_of_Z z.
Proof. by apply not_in_int. Qed.

Lemma str_of_Z_inj z z' : str_of_Z z = str_of_Z z' → z = z'.
Proof.
  intros E. pose proof (scan_other_int z [] I) as H. rewrite E, scan_other_int in H by done.
  by injection H.
Qed.

(** The token of a lease of the job [id], [key] granted at version [v]. *)
Definition token_of (id key : pystr) (v : Z) (token : pystr) : Prop :=
  ∃ rest material, utf8_encode (id ++ $"|" ++ key ++ $"|" ++ str_of_Z v ++ $"|" ++ rest) = Ok material
                   ∧ token = $"lease_" ++ sha256_hex material.

(** Two different byte strings with one SHA-256 digest. *)
Definition sha_collision : Prop := ∃ m m' : bytes, m ≠ m' ∧ sha256 m = sha256 m'.

Lemma token_version id key v v' token :
  token_of id key v token → token_of id key v' token → v = v' ∨ sha_collision.
Proof.
  intros (r & m & Hm & ->) (r' & m' & Hm' & E).
  apply app_inj_1 in E as [_ E%sha256_hex_inj]; [|done].
  destruct (decide (m = m')) as [<-|]; [left|right; by exists m, m'].
  pose proof (utf8_encode_inj _ _ _ Hm Hm') as Heq.
  apply app_inv_head, app_inv_head, app_inv_head, app_inv_head in Heq.
  apply (app_separated 124) in Heq as [? _]; [by apply str_of_Z_inj|apply bar_not_in_int..].
Qed.

Lemma claim_token a w now d v b :
  claim a w now d v = Ok b → job_state b = LEASED →
  ∃ t, lease_token b = Some t ∧ token_of (job_id a) (job_action_key a) (job_version b) t.
Proof.
  intros (_ & _ & _ & _ & Hc)%claim_Ok Hb. destruct Hc as [|e m ? ? ? ? ? ? ? Hm Ht]; [congruence|].
  eexists. split; [done|]. do 2 eexists. split; [exact Hm|done].
Qed.

(** The lease in force was granted at version [lo] or later. *)
Definition leased_since (lo : Z) (j : OutboxJob) : Prop :=
  ∀ t, lease_token j = Some t →
    ∃ v, lo <= v ∧ token_of (job_id j) (job_action_key j) v t.

Lemma claim_leased_since a w now d v b lo :
  claim a w now d v = Ok b → lo <= job_version a + 1 → leased_since lo b.
Proof.
  intros H Hlo t Ht. pose proof (claim_Ok _ _ _ _ _ _ H) as (_ & [Hok Hv _ Hs] & _).
  destruct (decide (job_state b = LEASED)) as [Hb|Hb].
  - destruct (claim_token _ _ _ _ _ _ H Hb) as (t' & Ht' & Htok). assert (t' = t) as -> by congruence.
    destruct Hs as (Hid & Hkey & _). exists (job_version b). rewrite <- Hid, <- Hkey. split; [lia|done].
  - destruct (fact_unleased _ (job_ok_facts _ Hok) Hb) as (_ & Hn & _). congruence.
Qed.

Lemma apply_leased_since a cmd b lo :
  apply_job a cmd = Ok b → lo <= job_version a → leased_since lo a → leased_since lo b.
Proof.
  intros H Hlo Ha. destruct cmd; cbn [apply_job] in H.
  - eapply claim_leased_since; [exact H|lia].
  - apply complete_Ok in H as [[-> _]|H]; [done|]. destruct H as (_ & _ & _ & _ & _ & _ & _ & Hn & _).
    intros t Ht. congruence.
  - apply requeue_Ok in H as (_ & _ & _ & _ & _ & _ & (_ & Hn & _) & _). intros t Ht. congruence.
  - apply dead_letter_Ok in H as [[-> _]|H]; [done|]. destruct H as (_ & _ & _ & _ & _ & _ & _ & Hn & _).
    intros t Ht. congruence.
Qed.

Lemma apply_version a cmd b : apply_job a cmd = Ok b → job_version a <= job_version b.
Proof. intros [[-> _]|(_ & now & [_ -> _ _])]%apply_job_Ok; lia. Qed.

Lemma run_leased_since a n b lo :
  job_run a n b → lo <= job_version a → leased_since lo a →
  leased_since lo b ∧ (n ≠ 0%nat → leased_since (lo + 1) b).
Proof.
  intros H. revert lo. induction H as [a|a w now d v b n c H Hb _ IH|a cmd b n c H _ _ IH]; intros lo Hlo Ha.
  - done.
  - pose proof (claim_leased_since _ _ _ _ _ _ (lo + 1) H ltac:(lia)) as Hs.
    pose proof (claim_Ok _ _ _ _ _ _ H) as (_ & [_ Hv _ _] & _).
    destruct (IH (lo + 1) ltac:(lia) Hs) as [Hc _]. split; [|done].
    intros t Ht. destruct (Hc t Ht) as (u & Hu & ?). exists u. split; [lia|done].
  - apply IH; [pose proof (apply_version _ _ _ H); lia|]. by eapply apply_leased_since.
Qed.

(** ** The backoff schedule *)
Lemma half_spec d : d - Z.b2z (Z.odd d) <= half d * 2 <= d + Z.b2z (Z.odd d).
Proof.
  unfold half. pose proof (Z.div_mod d 2 ltac:(lia)) as Hd. rewrite Zmod_odd in Hd.
  rewrite <- Z.negb_odd. destruct (Z.odd d); cbn in *; [destruct (Z.even (d / 2))|]; lia.
Qed.

(** The result of the loop, as [delay_after] returns it. *)
Definition capped (r : option timedelta) (maximum : timedelta) : timedelta :=
  match r with None => maximum | Some delay => Z.min delay maximum end.

Lemma double_delay_spec n maximum delay :
  0 < delay →
  Z.min maximum (delay * 2 ^ Z.of_nat n) <= capped (double_delay n maximum delay) maximum
    <= Z.min maximum (delay * 2 ^ Z.of_nat n) + Z.b2z (Z.odd maximum).
Proof.
  pose proof (half_spec maximum) as Hh. assert (0 <= Z.b2z (Z.odd maximum)) by (destruct (Z.odd _); cbn; lia).
  revert delay. induction n as [|n IH]; intros delay Hd; [cbn; lia|].
  rewrite Nat2Z.inj_succ, Z.pow_succ_r, Z.mul_assoc by lia. cbn [double_delay].
  destruct (Z.leb_spec (half maximum) delay).
  - assert (0 < 2 ^ Z.of_nat n) by (apply Z.pow_pos_nonneg; lia). cbn [capped]. nia.
  - apply IH. lia.
Qed.

(** ** Operations that succeed *)
Definition clean_option (o : option pystr) : bool :=
  match o with None => true | Some v => clean_text 512 v end.
Definition utc_option (o : option datetime) : bool :=
  match o with None => true | Some d => is_utc d end.

(** What the constructor requires beyond the state-specific block. *)
Record job_fields (j : OutboxJob) : Prop := {
  field_texts : clean_text 128 (job_id j) = true ∧ clean_text 128 (job_action_key j) = true
                ∧ is_digest (payload_digest j) = true;
  field_version : 0 <= job_version j ∧ schema_version j = 1;
  field_attempts : 0 <= attempts j <= job_max_attempts j ∧ 1 <= job_max_attempts j;
  field_times : is_utc (job_created_at j) = true ∧ is_utc (updated_at j) = true
                ∧ instant (job_created_at j) <= instant (updated_at j);
  field_options : utc_option (available_at j) = true ∧ utc_option (lease_expires_at j) = true
    ∧ clean_option (lease_owner j) = true ∧ clean_option (lease_token j) = true
    ∧ clean_option (last_error j) = true ∧ clean_option (completion_reference j) = true
    ∧ clean_option (dead_letter_reason j) = true
}.

Lemma require_text_true v f m : clean_text m v = true → _require_text v f m = Ok v.
Proof. intros H. unfold _require_text. by rewrite H. Qed.

Lemma require_utc_true d f : is_utc d = true → _require_utc d f = Ok d.
Proof. intros H. unfold _require_utc. by rewrite is_utc_aware, H, astimezone_utc_id. Qed.

Lemma optional_text_true f o : optional_text f o = (if clean_option o then Ok o else
  Raise (ValueError (f +:+ " must be clean, non-empty text"))).
Proof. destruct o; cbn; [|done]. unfold _require_text. by destruct (clean_text _ _). Qed.

Lemma optional_utc_true f o : utc_option o = true → when_some o (λ d, _require_utc d f) = Ok o.
Proof. destruct o; cbn; [|done]. intros H. by rewrite require_utc_true. Qed.

Lemma post_init_fields j :
  job_fields j → OutboxJob_post_init j = (_ ← check_job_state j; Ok j).
Proof.
  intros [(H1 & H2 & H3) (H4 & H5) (H6 & H7) (H8 & H9 & H10) (H11 & H12 & H13 & H14 & H15 & H16 & H17)].
  unfold OutboxJob_post_init, at_least, dt_ltb.
  rewrite !require_text_true, H3, H5, !require_utc_true, !optional_utc_true, !optional_text_true by done.
  rewrite H13, H14, H15, H16, H17.
  rewrite !bind_Ok_l, !(proj2 (Z.ltb_ge _ _)) by lia. destruct j; cbn in *. subst. done.
Qed.

Lemma job_ok_fields j : job_ok j → job_fields j.
Proof.
  intros H. pose proof (job_ok_facts _ H) as Hf. destruct (fact_attempts _ Hf).
  unfold job_ok, OutboxJob_post_init, at_least in H. rewrite !optional_text_true in H. inv_ok.
  repeat match goal with
  | E : _require_text _ _ _ = Ok _ |- _ => apply require_text_Ok in E as [_ ?]
  | E : (if ?b then _ else _) = Ok _ |- _ => destruct b eqn:?; [|discriminate E]
  end. bools.
  split; try (by split_and!; lia || done || by apply dec_stable).
  - apply (fact_times _ Hf).
  - assert (Hutc : ∀ f o r, when_some o (λ d, _require_utc d f) = Ok r → utc_option o = true).
    { intros f [d|] x E; cbn in *; [|done]; clear -E; inv_ok; by match goal with E : _require_utc d _ = Ok _ |- _ => apply outbox_utc_Ok in E as [_ ?] end. }
    split_and!; by eauto.
Qed.

Lemma replace_job_true self st n now av mode o t e err c r :
  job_ok self → is_utc now = true → instant (updated_at self) <= instant now →
  0 <= n <= job_max_attempts self → utc_option av = true → utc_option e = true →
  clean_option o = true → clean_option t = true → clean_option err = true →
  clean_option c = true → clean_option r = true →
  let j := replacement self st n now av mode o t e err c r in
  check_job_state j = Ok tt → replace_job self st n now av mode o t e err c r = Ok j.
Proof.
  intros [(?&?&?) (?&?) (?&?) (?&?&?) _]%job_ok_fields Hu Ht Hn ? ? ? ? ? ? ? j Hj.
  unfold replace_job. rewrite post_init_fields; [by fold j; rewrite Hj|].
  split; cbn; split_and!; try done; lia.
Qed.

Lemma transition_time_true self now :
  is_utc now = true → instant (updated_at self) <= instant now → _transition_time self now = Ok now.
Proof.
  intros Hu Ht. unfold _transition_time, dt_ltb. rewrite require_utc_true by done. cbn.
  by rewrite (proj2 (Z.ltb_ge _ _)).
Qed.

Lemma expect_version_true self : _expect_version self (job_version self) = Ok tt.
Proof. unfold _expect_version. by rewrite bool_decide_false by (intros H; by apply H). Qed.

Lemma exhausted_reason_clean reason :
  clean_text 512 reason = true →
  clean_text 512 ($"max_attempts_exhausted:" ++ reason) = (str_len reason <=? 489).
Proof.
  intros H. change ($"max_attempts_exhausted:") with (109 :: $"ax_attempts_exhausted:").
  etransitivity; [apply (clean_text_prefix 512 512 109 ($"ax_attempts_exhausted:")); [done|by vm_compute|done]|].
  unfold str_len. cbn [length]. rewrite length_app.
  change (length ($"ax_attempts_exhausted:")) with 22%nat.
  apply Bool.eq_iff_eq_true. rewrite !Z.leb_le. lia.
Qed.

Lemma capped_le r maximum : capped r maximum <= maximum.
Proof. destruct r; cbn; lia. Qed.

Lemma delay_after_spec b n :
  0 < base_delay b → 1 <= n →
  ∃ d, delay_after b n = Ok d
    ∧ Z.min (maximum_delay b) (base_delay b * 2 ^ (n - 1)) <= d
      <= Z.min (maximum_delay b) (base_delay b * 2 ^ (n - 1)) + Z.b2z (Z.odd (maximum_delay b))
    ∧ d <= maximum_delay b.
Proof.
  intros Hb Hn. exists (capped (double_delay (Z.to_nat (n - 1)) (maximum_delay b) (base_delay b)) (maximum_delay b)).
  split; [|split; [|apply capped_le]].
  - unfold delay_after. by rewrite (proj2 (Z.ltb_ge _ _)) by lia.
  - pose proof (double_delay_spec (Z.to_nat (n - 1)) (maximum_delay b) (base_delay b) Hb) as H.
    by rewrite Z2Nat.id in H by lia.
Qed.

(** With an odd maximum the docstring's formula is off by one microsecond:
    [min(5, 2 * 2 ** 1)] is 4. *)
Lemma backoff_odd_maximum : delay_after (mkBackoffPolicy 2 5) 2 = Ok 5.
Proof. reflexivity. Qed.

(** * Properties *)

(** C29: fencing: an accepted operation on a job either replays the terminal
    result of a finished job unchanged, or quotes the current version and is a
    claim of a due job or of an expired lease, or proves the live lease of the
    job by owner and token; the result is a valid job one version later, with
    the identity, the payload digest and the attempt limit unchanged. *)
Theorem outbox_operations_fenced self cmd j :
  apply_job self cmd = Ok j →
  (j = self ∧ is_terminal_job self = true)
  ∨ ∃ now, replaced self j now
    ∧ match cmd with
      | Claim w at_ d v =>
          now = at_ ∧ v = job_version self ∧ claimed self w now d j
          ∧ ((∃ a, job_state self = PENDING ∧ available_at self = Some a ∧ instant a <= instant now)
             ∨ (∃ e, job_state self = LEASED ∧ lease_expires_at self = Some e ∧ instant e <= instant now))
      | Complete w t at_ v ref =>
          now = at_ ∧ v = job_version self ∧ holds_lease self w t now
          ∧ job_state j = COMPLETED ∧ completion_reference j = Some ref ∧ unleased j
      | Requeue w t at_ v reason b mode =>
          now = at_ ∧ v = job_version self ∧ holds_lease self w t now
          ∧ job_state j ≠ LEASED ∧ retry_mode j = mode ∧ unleased j
      | DeadLetter w t at_ v reason =>
          now = at_ ∧ v = job_version self ∧ holds_lease self w t now
          ∧ job_state j = DEAD_LETTER ∧ dead_letter_reason j = Some reason ∧ unleased j
      end.
Proof.
  intros H. pose proof (apply_job_Ok _ _ _ H) as [|[Hnt _]]; [by left|right].
  unfold is_terminal_job in Hnt. bools. destruct cmd; cbn [apply_job] in H.
  - apply claim_Ok in H as (? & ? & _ & Hs & ?). eexists. split; [done|]. split_and!; try done.
    destruct Hs as [[? (a & ? & ?)]|[? (e & ? & ?)]]; [left; by exists a|right; by exists e].
  - apply complete_Ok in H as [[-> ?]|H]; [tauto|]. destruct_and!. by eexists.
  - apply requeue_Ok in H as (? & ? & ? & ? & ? & ? & ? & Hs). eexists. split; [done|].
    split_and!; try done. destruct Hs as [[_ ->]|[_ [-> _]]]; done.
  - apply dead_letter_Ok in H as [[-> ?]|H]; [tauto|]. destruct_and!. by eexists.
Qed.

(** a completed or dead-lettered job is final: no sequence of operations
    changes it. *)
Theorem terminal_jobs_absorbing a b n :
  is_terminal_job a = true → job_run a n b → b = a ∧ n = 0%nat.
Proof.
  intros Ht H. revert Ht. induction H as [a|a w now d v b n c H Hb _ IH|a cmd b n c H _ _ IH]; intros Ht.
  - done.
  - apply (apply_job_Ok a (Claim w now d v)) in H as [[-> _]|[Ht' _]]; [|congruence].
    unfold is_terminal_job in Ht. bools. destruct Ht; congruence.
  - apply apply_job_Ok in H as [[-> _]|[Ht' _]]; [by apply IH|congruence].
Qed.

(** taking over an expired lease always forbids repeating the effect: the
    delivery that follows, or the dead letter when the attempt budget is spent,
    is reconcile-only, and it happens at or after the lease's expiry. *)
Theorem stale_lease_reconciles self w now d v j :
  job_state self = LEASED → claim self w now d v = Ok j →
  retry_mode j = RECONCILE_ONLY
  ∧ (∃ e, lease_expires_at self = Some e ∧ instant e <= instant now)
  ∧ (attempts self < job_max_attempts self → job_state j = LEASED ∧ attempts j = attempts self + 1)
  ∧ (job_max_attempts self <= attempts self →
     job_state j = DEAD_LETTER ∧ attempts j = attempts self ∧ unleased j).
Proof.
  intros Hs H. apply claim_Ok in H as (_ & _ & _ & [[? _]|[_ He]] & Hc); [congruence|].
  destruct Hc as [? ? ? ? ?|? ? ? ? ? Hm ? ? ? ? ?]; [split_and!; try done; lia|].
  rewrite Hs in Hm. split_and!; try done; lia.
Qed.

(** the attempt budget: however operations interleave, a job grants at
    most [max_attempts] leases over its life. *)
Theorem attempt_budget id key digest now maximum available a b n :
  create id key digest now maximum available = Ok a → job_run a n b →
  Z.of_nat n <= maximum ∧ attempts b = Z.of_nat n.
Proof.
  unfold create. intros H Hr. inv_ok. apply job_post_init_ok in H as [-> Hok].
  destruct (job_run_ok _ _ _ Hr Hok) as (Hb & (_ & _ & _ & Hm & _) & Ha & _). cbn in *.
  destruct (fact_attempts _ (job_ok_facts _ Hb)). lia.
Qed.

(** the fencing token: once any later lease was granted on the job, the
    token of an earlier lease no longer proves a lease, whatever happened in
    between: it is refused, unless two different texts have one SHA-256 digest. *)
Theorem stale_token_fenced a w now d v b n c w' t later :
  claim a w now d v = Ok b → lease_token b = Some t → job_run b n c → n ≠ 0%nat →
  (∃ e, assert_active_lease c w' t later = Raise e) ∨ sha_collision.
Proof.
  intros H Ht Hr Hn.
  destruct (assert_active_lease c w' t later) as [u|e] eqn:Hl; [right; destruct u|left; by exists e].
  pose proof (claim_Ok _ _ _ _ _ _ H) as (_ & [Hok Hv _ (Hid & Hkey & _)] & _).
  destruct (decide (job_state b = LEASED)) as [Hb|Hb].
  2: { destruct (fact_unleased _ (job_ok_facts _ Hok) Hb) as (_ & E & _). congruence. }
  destruct (claim_token _ _ _ _ _ _ H Hb) as (t' & Ht' & Htok). assert (t' = t) as -> by congruence.
  destruct (job_run_ok _ _ _ Hr Hok) as (_ & (Hid' & Hkey' & _) & _).
  assert (leased_since (job_version b) b) as Hsince.
  { eapply claim_leased_since; [exact H|lia]. }
  destruct (run_leased_since _ _ _ _ Hr (Z.le_refl _) Hsince) as [_ Hlate].
  apply active_lease_Ok, holds_owner in Hl as [_ Hl]. destruct (Hlate Hn t Hl) as (x & Hx & Htok').
  rewrite <- Hid', <- Hkey', <- Hid, <- Hkey in Htok'.
  destruct (token_version _ _ _ _ _ Htok Htok'); [lia|done].
Qed.

(** the holder of a live lease can always finish the job: it completes it
    with any clean reference and dead-letters it with any clean reason; on the
    last attempt a requeue dead-letters the job exactly when the reason leaves
    room for the [max_attempts_exhausted:] prefix. *)
Theorem lease_holder_progress self w t now text b mode :
  job_ok self → holds_lease self w t now → clean_text 128 w = true → clean_text 128 t = true →
  is_utc now = true → instant (updated_at self) <= instant now → clean_text 512 text = true →
  (∃ j, complete self w t now (job_version self) text = Ok j ∧ job_state j = COMPLETED
        ∧ completion_reference j = Some text)
  ∧ (∃ j, dead_letter self w t now (job_version self) text = Ok j ∧ job_state j = DEAD_LETTER
          ∧ dead_letter_reason j = Some text)
  ∧ (attempts self = job_max_attempts self →
     is_ok (requeue self w t now (job_version self) text b mode) = (str_len text <=? 489)).
Proof.
  intros Hok Hl Hw Ht Hu Htime Htext. pose proof (active_lease_true _ _ _ _ Hl Hw Ht Hu) as Ha.
  pose proof (job_ok_facts _ Hok) as Hf. pose proof (fact_attempts _ Hf).
  pose proof (holds_state _ _ _ _ Hl) as Hs.
  assert (completion_reference self = None) as Hc.
  { apply eq_None_not_Some. rewrite (fact_completed _ Hf). congruence. }
  assert (dead_letter_reason self = None) as Hd.
  { apply eq_None_not_Some. rewrite (fact_dead _ Hf). congruence. }
  unfold complete, dead_letter, requeue.
  rewrite !require_text_true, expect_version_true, transition_time_true by done.
  rewrite !bind_Ok_l, Ha, !bind_Ok_l, Hs, Hc, Hd. split_and!.
  - eexists. split; [by apply replace_job_true|done].
  - eexists. split; [by apply replace_job_true|done].
  - intros Hlast. rewrite (proj2 (Z.leb_le _ _)) by lia.
    pose proof (exhausted_reason_clean _ Htext) as Hprefix.
    rewrite <- Hprefix. destruct (clean_text 512 (_ ++ text)) eqn:Hlen.
    + by rewrite replace_job_true.
    + destruct (replace_job _ _ _ _ _ _ _ _ _ _ _ _) as [k|] eqn:E; [|done].
      apply job_post_init_ok in E as [-> Hk]. apply job_ok_fields, field_options in Hk.
      destruct Hk as (_ & _ & _ & _ & _ & _ & Hk). cbn [replacement dead_letter_reason clean_option] in Hk.
      congruence.
Qed.

(** the backoff schedule: on a valid policy, attempt [n] waits
    [min(maximum, base * 2 ** (n - 1))], rounded up by at most one microsecond and
    only when the maximum is odd; it never exceeds the maximum nor decreases. *)
Theorem backoff_schedule b n :
  BackoffPolicy_post_init b = Ok b → 1 <= n →
  ∃ d d', delay_after b n = Ok d ∧ delay_after b (n + 1) = Ok d'
    ∧ Z.min (maximum_delay b) (base_delay b * 2 ^ (n - 1)) <= d
    ∧ d <= Z.min (maximum_delay b) (base_delay b * 2 ^ (n - 1)) + Z.b2z (Z.odd (maximum_delay b))
    ∧ base_delay b <= d /\ d <= d' /\ d' <= maximum_delay b.
Proof.
  unfold BackoffPolicy_post_init. intros H Hn. inv_ok. bools.
  destruct (delay_after_spec b n ltac:(lia) Hn) as (d & Hd & ? & ?).
  destruct (delay_after_spec b (n + 1) ltac:(lia) ltac:(lia)) as (d' & Hd' & Hl & Hm).
  exists d, d'. split; [done|split; [done|]].
  assert (0 < 2 ^ (n - 1)) by (apply Z.pow_pos_nonneg; lia).
  assert (2 ^ (n + 1 - 1) = 2 * 2 ^ (n - 1)) as Hpow.
  { rewrite <- Z.pow_succ_r by lia. f_equal. lia. }
  rewrite Hpow in Hl. assert (Z.b2z (Z.odd (maximum_delay b)) <= 1) by (destruct (Z.odd _); cbn; lia).
  split_and!; try tauto; nia.
Qed.

(** * Witnesses *)
Definition job_or (d : OutboxJob) (r : result OutboxJob) : OutboxJob :=
  match r with Ok j => j | Raise _ => d end.

Definition sample_digest : pystr := repeat 97 64.
Definition sample_start : datetime := utc (minutes 60).
Definition sample_create : result OutboxJob :=
  create ($"job_1") ($"action_1") sample_digest sample_start 2 None.
(** The life of one job: pending, leased by [w1], taken over by [w2] one minute
    later, dead-lettered when its budget is spent. *)
Definition sample_pending : OutboxJob :=
  mkOutboxJob ($"job_1") ($"action_1") sample_digest PENDING 0 0 2 sample_start sample_start
    (Some sample_start) NORMAL_RETRY None None None None None None 1.
Definition sample_leased : OutboxJob :=
  job_or sample_pending (claim sample_pending ($"w1") sample_start (seconds 30) 0).
Definition sample_taken : OutboxJob :=
  job_or sample_pending (claim sample_leased ($"w2") (utc (minutes 61)) (seconds 30) 1).
Definition sample_exhausted : OutboxJob :=
  job_or sample_pending (claim sample_taken ($"w3") (utc (minutes 62)) (seconds 30) 2).
Definition sample_token : pystr := default [] (lease_token sample_leased).

Lemma sample_claims :
  sample_create = Ok sample_pending
  ∧ claim sample_pending ($"w1") sample_start (seconds 30) 0 = Ok sample_leased
  ∧ claim sample_leased ($"w2") (utc (minutes 61)) (seconds 30) 1 = Ok sample_taken
  ∧ claim sample_taken ($"w3") (utc (minutes 62)) (seconds 30) 2 = Ok sample_exhausted.
Proof. split_and!; vm_compute; reflexivity. Qed.

Lemma sample_run : job_run sample_pending 2 sample_exhausted.
Proof.
  destruct sample_claims as (_ & H1 & H2 & H3).
  eapply run_granted; [exact H1|vm_compute; reflexivity|].
  eapply run_granted; [exact H2|vm_compute; reflexivity|].
  eapply (run_other _ (Claim _ _ _ _)); [exact H3|intros; vm_compute; discriminate|apply run_done].
Qed.

Lemma outbox_operations_fenced_witness :
  ∃ now, replaced sample_pending sample_leased now.
Proof.
  destruct (outbox_operations_fenced sample_pending (Claim ($"w1") sample_start (seconds 30) 0) sample_leased)
    as [[_ H]|(now & H & _)]; [vm_compute; reflexivity|vm_compute in H; discriminate|by exists now].
Defined.

Lemma terminal_jobs_absorbing_witness : sample_exhausted = sample_exhausted ∧ 0%nat = 0%nat.
Proof.
  apply (terminal_jobs_absorbing sample_exhausted sample_exhausted 0); [vm_compute; reflexivity|apply run_done].
Defined.

Lemma stale_lease_reconciles_witness :
  retry_mode sample_taken = RECONCILE_ONLY ∧ job_state sample_exhausted = DEAD_LETTER.
Proof.
  destruct sample_claims as (_ & _ & H2 & H3). split.
  - assert (job_state sample_leased = LEASED) as Hs by (vm_compute; reflexivity).
    exact (proj1 (stale_lease_reconciles _ _ _ _ _ _ Hs H2)).
  - assert (job_state sample_taken = LEASED) as Hs by (vm_compute; reflexivity).
    apply (stale_lease_reconciles _ _ _ _ _ _ Hs H3). vm_compute. discriminate.
Defined.

Lemma attempt_budget_witness : 2 <= 2 ∧ attempts sample_exhausted = 2.
Proof.
  apply (attempt_budget ($"job_1") ($"action_1") sample_digest sample_start 2 None sample_pending
           sample_exhausted 2); [vm_compute; reflexivity|apply sample_run].
Defined.

(** The token of [w1] after [w2] took the lease over. *)
Lemma stale_token_fenced_witness :
  (∃ e, assert_active_lease sample_taken ($"w1") sample_token (utc (minutes 61)) = Raise e) ∨ sha_collision.
Proof.
  destruct sample_claims as (_ & H1 & H2 & _).
  apply (stale_token_fenced sample_pending ($"w1") sample_start (seconds 30) 0 sample_leased 1 sample_taken
           ($"w1") sample_token (utc (minutes 61)) H1).
  - vm_compute. reflexivity.
  - eapply run_granted; [exact H2|vm_compute; reflexivity|apply run_done].
  - discriminate.
Defined.

Lemma lease_holder_progress_witness :
  ∃ j, complete sample_leased ($"w1") sample_token sample_start 1 ($"plink_1") = Ok j
       ∧ job_state j = COMPLETED ∧ completion_reference j = Some ($"plink_1").
Proof.
  apply (lease_holder_progress sample_leased ($"w1") sample_token sample_start ($"plink_1")
           (mkBackoffPolicy 1 1) NORMAL_RETRY); try (vm_compute; reflexivity || discriminate).
  split; [vm_compute; reflexivity|vm_compute; split; reflexivity|].
  eexists. split; [vm_compute; reflexivity|vm_compute; reflexivity].
Defined.

Lemma backoff_schedule_witness : ∃ d, delay_after (mkBackoffPolicy 2 5) 2 = Ok d ∧ 4 <= d <= 5.
Proof.
  destruct (backoff_schedule (mkBackoffPolicy 2 5) 2) as (d & d' & H & _ & H1 & H2 & _);
    [vm_compute; reflexivity|lia|].
  exists d. split; [exact H|]. cbn in H1, H2. lia.
Defined.
