(* ===== verification/PaymentLinks.v ===== *)
(** [packages/razorpay/payment_links.py] and [packages/razorpay/references.py]:
    the validated Standard Payment Link command, its wire form, the decision
    after an ambiguous create, and the stable reference identifier. *)
From S2P Require Import Prelude PyStr Sha256 PyTime Json Values Digest Text.

(** * Scalars *)
(** [value] is any decoded JSON value; a missing key is [JNull]. *)
Definition _strict_positive_int (value : json) (field_name : string) : result Z :=
  match value with
  | JInt n =>
      if n <=? 0
      then Raise (PaymentLinkValidationError (field_name +:+ " must be a positive integer in minor units"))
      else Ok n
  | _ => Raise (PaymentLinkValidationError (field_name +:+ " must be a positive integer in minor units"))
  end.

Definition _clean_text (value : json) (field_name : string) (maximum : Z) : result pystr :=
  match value with
  | JStr s =>
      _ ← raise_if (bool_decide (s = []) || bool_decide (s ≠ strip s))
            (PaymentLinkValidationError (field_name +:+ " must be a non-empty string"));
      _ ← raise_if (maximum <? str_len s)
            (PaymentLinkValidationError
               (field_name +:+ " exceeds " +:+ string_of (str_of_Z maximum) +:+ " characters"));
      _ ← raise_if (existsb is_control s)
            (PaymentLinkValidationError (field_name +:+ " contains control characters"));
      Ok s
  | _ => Raise (PaymentLinkValidationError (field_name +:+ " must be a non-empty string"))
  end.

Arguments _clean_text : simpl never.
Arguments _strict_positive_int : simpl never.

(** ** Six calendar months *)
(** Wall time of the Unix epoch, and [datetime.fromtimestamp(epoch, tz=UTC)]. *)
Definition unix_epoch : Z := 719162 * us_per_day.

Definition fromtimestamp (epoch : Z) : result datetime :=
  let w := unix_epoch + seconds epoch in
  if in_range w then Ok (utc w) else Raise (ValueError "year is out of range").

(** [int(d.timestamp())] of an aware value with whole seconds or later. *)
Definition int_timestamp (d : datetime) : Z := Z.quot (instant d - unix_epoch) 1000000.

Definition _six_calendar_months_after (epoch : Z) : result Z :=
  now ← fromtimestamp epoch;
  let '(year, month, day) := ymd_of_days (wall now / us_per_day) in
  let month_index := (month - 1) + 6 in
  let target_year := year + month_index / 12 in
  let target_month := month_index mod 12 + 1 in
  let target_day := Z.min day (days_in_month target_year target_month) in
  if 9999 <? target_year then Raise (ValueError "year is out of range")
  else Ok (int_timestamp
             (utc (days_of_ymd target_year target_month target_day * us_per_day + time_of_day (wall now)))).

(** * Requests *)
Record PaymentLinkCustomer := mkPaymentLinkCustomer {
  customer_name : pystr; customer_contact : option pystr; customer_email : option pystr
}.

#[export] Instance PaymentLinkCustomer_eq_dec : EqDecision PaymentLinkCustomer.
Proof. solve_decision. Defined.

Definition check_optional (o : option pystr) (field_name : string) (maximum : Z) : result unit :=
  match o with None => Ok tt | Some v => _ ← _clean_text (JStr v) field_name maximum; Ok tt end.

Definition PaymentLinkCustomer_post_init (c : PaymentLinkCustomer) : result PaymentLinkCustomer :=
  _ ← _clean_text (JStr (customer_name c)) "customer.name" 256;
  _ ← check_optional (customer_contact c) "customer.contact" 64;
  _ ← check_optional (customer_email c) "customer.email" 254;
  Ok c.

Definition optional_item (key : string) (o : option pystr) : list (pystr * json) :=
  match o with None => [] | Some v => [($key, JStr v)] end.

Definition PaymentLinkCustomer_to_payload (c : PaymentLinkCustomer) : json :=
  JDict ([($"name", JStr (customer_name c))] ++ optional_item "contact" (customer_contact c)
         ++ optional_item "email" (customer_email c)).

Record StandardPaymentLinkRequest := mkStandardPaymentLinkRequest {
  amount_minor : Z;
  request_currency : pystr;
  reference_id : pystr;
  description : pystr;
  expire_by_epoch : Z;
  notes : list (pystr * pystr);
  customer : option PaymentLinkCustomer
}.

#[export] Instance StandardPaymentLinkRequest_eq_dec : EqDecision StandardPaymentLinkRequest.
Proof. solve_decision. Defined.

(** The loop over [notes.items()], whose keys are distinct. *)
Fixpoint check_notes (items : list (pystr * pystr)) : result unit :=
  match items with
  | [] => Ok tt
  | (key, value) :: items =>
      clean_key ← _clean_text (JStr key) "notes key" 256;
      _ ← _clean_text (JStr value) ("notes[" +:+ string_of clean_key +:+ "]") 256;
      check_notes items
  end.

Definition StandardPaymentLinkRequest_post_init (r : StandardPaymentLinkRequest) :
    result StandardPaymentLinkRequest :=
  _ ← _strict_positive_int (JInt (amount_minor r)) "amount_minor";
  _ ← raise_if (negb (is_currency (request_currency r)))
        (PaymentLinkValidationError "currency must be an uppercase three-letter ISO code");
  _ ← _clean_text (JStr (reference_id r)) "reference_id" 40;
  _ ← _clean_text (JStr (description r)) "description" 2048;
  _ ← raise_if (expire_by_epoch r <=? 0)
        (PaymentLinkValidationError "expire_by_epoch must be a positive integer epoch");
  _ ← raise_if (15 <? Z.of_nat (length (notes r)))
        (PaymentLinkValidationError "notes cannot contain more than 15 items");
  _ ← check_notes (notes r);
  Ok r.

Definition _MIN_EXPIRY_LEAD_SECONDS : Z := 15 * 60.

Definition validate_expiry (self : StandardPaymentLinkRequest) (now_epoch : Z) : result unit :=
  _ ← raise_if (now_epoch <? 0)
        (PaymentLinkValidationError "now_epoch must be a non-negative integer epoch");
  _ ← raise_if (expire_by_epoch self <? now_epoch + _MIN_EXPIRY_LEAD_SECONDS)
        (PaymentLinkValidationError "expire_by_epoch must be at least 15 minutes in the future");
  latest ← _six_calendar_months_after now_epoch;
  raise_if (latest <? expire_by_epoch self)
    (PaymentLinkValidationError "expire_by_epoch cannot be more than six calendar months ahead").

Definition request_payload (self : StandardPaymentLinkRequest) : json :=
  JDict ([($"amount", JInt (amount_minor self));
          ($"currency", JStr (request_currency self));
          ($"accept_partial", JBool false);
          ($"upi_link", JBool false);
          ($"reference_id", JStr (reference_id self));
          ($"description", JStr (description self));
          ($"expire_by", JInt (expire_by_epoch self));
          ($"notify", JDict [($"sms", JBool false); ($"email", JBool false)]);
          ($"reminder_enable", JBool false);
          ($"notes", JDict (map (λ kv, (kv.1, JStr kv.2)) (notes self)))]
         ++ match customer self with
            | None => []
            | Some c => [($"customer", PaymentLinkCustomer_to_payload c)]
            end).

Definition to_payload (self : StandardPaymentLinkRequest) (now_epoch : option Z) : result json :=
  _ ← match now_epoch with None => Ok tt | Some now => validate_expiry self now end;
  Ok (request_payload self).

Definition to_json_bytes (self : StandardPaymentLinkRequest) (now_epoch : option Z) : result bytes :=
  payload ← to_payload self now_epoch;
  utf8_encode (dumps payload).

(** * Reconciliation of an ambiguous create *)
Record PaymentLinkLookupResult := mkPaymentLinkLookupResult {
  completed : bool; candidates : list json
}.

Definition PaymentLinkLookupResult_post_init (l : PaymentLinkLookupResult) :
    result PaymentLinkLookupResult :=
  _ ← raise_if (negb (completed l) && bool_decide (candidates l ≠ []))
        (ValueError "an incomplete lookup cannot contain candidates");
  Ok l.

Inductive AmbiguousCreateAction :=
  | ADOPT_EXISTING | RETRY_CREATE_SAME_REFERENCE | REQUERY | ESCALATE.

#[export] Instance AmbiguousCreateAction_eq_dec : EqDecision AmbiguousCreateAction.
Proof. solve_decision. Defined.

Record AmbiguousCreateDecision := mkAmbiguousCreateDecision {
  create_action : AmbiguousCreateAction; create_reason : string; adopted_link : option pystr
}.

Record _PaymentLinkSnapshot := mkPaymentLinkSnapshot {
  link_id : pystr; link_reference : pystr; link_amount : Z; link_currency : pystr;
  link_accept_partial : bool; link_upi : bool; link_status : pystr
}.

Definition _LINK_STATUSES : list pystr :=
  map lit ["created"; "partially_paid"; "expired"; "cancelled"; "paid"].

(** [candidate.get(key)]. *)
Definition json_get (key : string) (d : list (pystr * json)) : json :=
  default JNull (dict_get ($key) d).

Definition json_currency (value : json) : result pystr :=
  match value with
  | JStr s =>
      _ ← raise_if (negb (is_currency s)) (PaymentLinkValidationError "candidate.currency is invalid");
      Ok s
  | _ => Raise (PaymentLinkValidationError "candidate.currency is invalid")
  end.

Definition json_status (value : json) : result pystr :=
  match value with
  | JStr s =>
      _ ← raise_if (negb (bool_decide (s ∈ _LINK_STATUSES)))
            (PaymentLinkValidationError "candidate.status is invalid");
      Ok s
  | _ => Raise (PaymentLinkValidationError "candidate.status is invalid")
  end.

Definition from_mapping (candidate : json) : result _PaymentLinkSnapshot :=
  match candidate with
  | JDict d =>
      payment_link_id ← _clean_text (json_get "id" d) "candidate.id" 128;
      reference_id ← _clean_text (json_get "reference_id" d) "candidate.reference_id" 40;
      amount_minor ← _strict_positive_int (json_get "amount" d) "candidate.amount";
      currency ← json_currency (json_get "currency" d);
      match json_get "accept_partial" d, json_get "upi_link" d with
      | JBool accept_partial, JBool upi_link =>
          status ← json_status (json_get "status" d);
          Ok (mkPaymentLinkSnapshot payment_link_id reference_id amount_minor currency
                accept_partial upi_link status)
      | _, _ => Raise (PaymentLinkValidationError "candidate link-mode flags must be booleans")
      end
  | _ => Raise (PaymentLinkValidationError "provider candidate must be an object")
  end.

Definition matches (self : _PaymentLinkSnapshot) (request : StandardPaymentLinkRequest) : bool :=
  bool_decide (link_reference self = reference_id request)
  && (link_amount self =? amount_minor request)
  && bool_decide (link_currency self = request_currency request)
  && negb (link_accept_partial self) && negb (link_upi self).

(** [except PaymentLinkValidationError]: every other exception propagates. *)
Definition decide_ambiguous_create (request : StandardPaymentLinkRequest)
    (lookup : PaymentLinkLookupResult) : result AmbiguousCreateDecision :=
  if negb (completed lookup) then
    Ok (mkAmbiguousCreateDecision REQUERY "lookup_not_completed" None)
  else match candidates lookup with
  | [] =>
      Ok (mkAmbiguousCreateDecision RETRY_CREATE_SAME_REFERENCE "completed_lookup_found_no_link" None)
  | [candidate] =>
      match from_mapping candidate with
      | Raise (PaymentLinkValidationError _) =>
          Ok (mkAmbiguousCreateDecision ESCALATE "malformed_provider_candidate" None)
      | Raise e => Raise e
      | Ok snapshot =>
          if negb (matches snapshot request) then
            Ok (mkAmbiguousCreateDecision ESCALATE "provider_candidate_conflicts_with_command"
                  (Some (link_id snapshot)))
          else
            Ok (mkAmbiguousCreateDecision ADOPT_EXISTING "matching_link_proves_create_succeeded"
                  (Some (link_id snapshot)))
      end
  | _ :: _ :: _ =>
      Ok (mkAmbiguousCreateDecision ESCALATE "multiple_links_found_for_unique_reference" None)
  end.

(** * Lemmas *)
Lemma existsb_forallb {A} (p : A → bool) l : forallb (λ x, negb (p x)) l = negb (existsb p l).
Proof. induction l as [|x l IH]; cbn; [done|]. by rewrite IH, negb_orb. Qed.

Lemma _clean_text_Ok v f m s : _clean_text v f m = Ok s ↔ v = JStr s ∧ clean_text m s = true.
Proof.
  unfold _clean_text, clean_text. split.
  - intros H. destruct v as [| | | |t| |]; inv_ok. subst. split; [done|].
    rewrite existsb_forallb. bools. rewrite !andb_true_iff, !bool_decide_eq_true, Z.leb_le.
    split_and!; try done; [by apply dec_stable|]. by apply negb_true_iff.
  - intros [-> H]. rewrite existsb_forallb, !andb_true_iff, !bool_decide_eq_true, Z.leb_le in H.
    destruct H as [[[H1 H2] H3] H4%negb_true_iff].
    rewrite bool_decide_false, bool_decide_false, H4, (proj2 (Z.ltb_ge _ _)) by (done || lia || tauto).
    done.
Qed.

Lemma strict_positive_int_Ok v f n : _strict_positive_int v f = Ok n ↔ v = JInt n ∧ 0 < n.
Proof.
  unfold _strict_positive_int. destruct v as [| |z| | | |]; try (split; [done|by intros []]).
  destruct (Z.leb_spec z 0); split.
  - done.
  - intros [[= ->] ?]. lia.
  - intros [= <-]. done.
  - by intros [[= ->] ?].
Qed.

Lemma json_currency_Ok v s : json_currency v = Ok s ↔ v = JStr s ∧ is_currency s = true.
Proof.
  unfold json_currency. destruct v; try (split; [done|by intros []]).
  destruct (is_currency s0) eqn:E; cbn; split; try done.
  - intros [= ->]. done.
  - by intros [[= ->] ?].
  - intros [[= ->] ?]. congruence.
Qed.

Lemma json_status_Ok v s : json_status v = Ok s ↔ v = JStr s ∧ s ∈ _LINK_STATUSES.
Proof.
  unfold json_status. destruct v; try (split; [done|by intros []]).
  destruct (bool_decide (s0 ∈ _LINK_STATUSES)) eqn:E; cbn [negb raise_if].
  - apply bool_decide_true_1 in E. rewrite bind_Ok_l. split; [by intros [= ->]|by intros [[= ->] ?]].
  - apply bool_decide_false_1 in E. rewrite bind_Raise_l. split; [done|]. by intros [[= ->] ?].
Qed.

(** A candidate the provider contract allows. *)
Record link_object (candidate : json) (s : _PaymentLinkSnapshot) : Prop := {
  link_fields : ∃ d, candidate = JDict d
    ∧ json_get "id" d = JStr (link_id s) ∧ json_get "reference_id" d = JStr (link_reference s)
    ∧ json_get "amount" d = JInt (link_amount s) ∧ json_get "currency" d = JStr (link_currency s)
    ∧ json_get "accept_partial" d = JBool (link_accept_partial s)
    ∧ json_get "upi_link" d = JBool (link_upi s) ∧ json_get "status" d = JStr (link_status s);
  link_valid : clean_text 128 (link_id s) = true ∧ clean_text 40 (link_reference s) = true
    ∧ 0 < link_amount s ∧ is_currency (link_currency s) = true ∧ link_status s ∈ _LINK_STATUSES
}.

Lemma from_mapping_Ok c s : from_mapping c = Ok s ↔ link_object c s.
Proof.
  unfold from_mapping. split.
  - intros H. destruct c as [| | | | | |d]; inv_ok.
    destruct (json_get "accept_partial" d) eqn:Ha; try done.
    destruct (json_get "upi_link" d) eqn:Hu; try done. inv_ok. subst.
    repeat match goal with
    | E : _clean_text _ _ _ = Ok _ |- _ => apply _clean_text_Ok in E as [? ?]
    | E : _strict_positive_int _ _ = Ok _ |- _ => apply strict_positive_int_Ok in E as [? ?]
    | E : json_currency _ = Ok _ |- _ => apply json_currency_Ok in E as [? ?]
    | E : json_status _ = Ok _ |- _ => apply json_status_Ok in E as [? ?]
    end. split; cbn; [by exists d|done].
  - intros [(d & -> & H1 & H2 & H3 & H4 & H5 & H6 & H7) (V1 & V2 & V3 & V4 & V5)].
    rewrite (proj2 (_clean_text_Ok _ _ _ _) (conj H1 V1)), (proj2 (_clean_text_Ok _ _ _ _) (conj H2 V2)).
    rewrite (proj2 (strict_positive_int_Ok _ _ _) (conj H3 V3)).
    rewrite (proj2 (json_currency_Ok _ _) (conj H4 V4)), H5, H6, (proj2 (json_status_Ok _ _) (conj H7 V5)).
    rewrite !bind_Ok_l. by destruct s.
Qed.

(** The only exception of [from_mapping] is the one its caller catches. *)
Definition validates {A} (r : result A) : Prop :=
  match r with Ok _ | Raise (PaymentLinkValidationError _) => True | Raise _ => False end.

Lemma validates_bind {A B} (m : result A) (f : A → result B) :
  validates m → (∀ a, validates (f a)) → validates (m ≫= f).
Proof. intros Hm Hf. destruct m as [a|e]; [apply Hf|done]. Qed.

Lemma validates_raise_if b m : validates (raise_if b (PaymentLinkValidationError m)).
Proof. by destruct b. Qed.

Lemma clean_text_validates v f m : validates (_clean_text v f m).
Proof.
  unfold _clean_text. destruct v; try done.
  repeat (apply validates_bind; [apply validates_raise_if|intros _]). done.
Qed.

Lemma from_mapping_validates c : validates (from_mapping c).
Proof.
  unfold from_mapping. destruct c as [| | | | | |d]; try done.
  apply validates_bind; [apply clean_text_validates|intros ?].
  apply validates_bind; [apply clean_text_validates|intros ?].
  apply validates_bind; [unfold _strict_positive_int; destruct (json_get "amount" d); try done; by case_match|intros ?].
  apply validates_bind; [unfold json_currency; destruct (json_get "currency" d); try done; by destruct (is_currency _)|intros ?].
  destruct (json_get "accept_partial" d), (json_get "upi_link" d); try done.
  apply validates_bind; [|done].
  unfold json_status. destruct (json_get "status" d); try done. by destruct (bool_decide _).
Qed.

Lemma from_mapping_Raise c e : from_mapping c = Raise e → ∃ m, e = PaymentLinkValidationError m.
Proof.
  intros H. pose proof (from_mapping_validates c) as Hv. rewrite H in Hv. destruct e; try done. by eexists.
Qed.

(** [decide_ambiguous_create] never raises. *)
Lemma decide_cases request lookup :
  ∃ d, decide_ambiguous_create request lookup = Ok d
  ∧ match create_action d with
    | REQUERY => completed lookup = false
    | RETRY_CREATE_SAME_REFERENCE => completed lookup = true ∧ candidates lookup = []
    | ADOPT_EXISTING =>
        completed lookup = true
        ∧ ∃ c s, candidates lookup = [c] ∧ link_object c s ∧ matches s request = true
                 ∧ adopted_link d = Some (link_id s)
    | ESCALATE =>
        completed lookup = true ∧ candidates lookup ≠ []
        ∧ ∀ c s, candidates lookup = [c] → link_object c s → matches s request = false
    end.
Proof.
  unfold decide_ambiguous_create. destruct (completed lookup) eqn:Hc; cbn [negb]; [|by eexists].
  destruct (candidates lookup) as [|c [|c' l]]; [by eexists| |by eexists].
  destruct (from_mapping c) as [s|e] eqn:Hm.
  - destruct (matches s request) eqn:Hs; cbn [negb]; eexists; (split; [done|]); cbn; (split; [done|]).
    + exists c, s. apply from_mapping_Ok in Hm. done.
    + split; [done|]. intros c' s' [= <-] H'. apply from_mapping_Ok in H'. congruence.
  - destruct (from_mapping_Raise _ _ Hm) as [m ->]. eexists. split; [done|]. cbn.
    split_and!; try done. intros c' s' [= <-] H'. apply from_mapping_Ok in H'. congruence.
Qed.

Lemma matches_iff s r :
  matches s r = true ↔ link_reference s = reference_id r ∧ link_amount s = amount_minor r
    ∧ link_currency s = request_currency r ∧ link_accept_partial s = false ∧ link_upi s = false.
Proof. unfold matches. rewrite !andb_true_iff, !bool_decide_eq_true, !negb_true_iff, Z.eqb_eq. tauto. Qed.

(** ** Six calendar months *)
Lemma days_before_year_succ y :
  days_before_year (y + 1) = days_before_year y + (if is_leap y then 366 else 365).
Proof.
  unfold days_before_year, is_leap.
  destruct (Z.eqb_spec (y mod 4) 0), (Z.eqb_spec (y mod 100) 0), (Z.eqb_spec (y mod 400) 0); cbn; dlia.
Qed.

(** Evaluate the month tables at literal months. *)
Ltac eval_months :=
  repeat match goal with
  | H : context [nth ?n (month_lengths ?b) 0] |- _ =>
      let v := eval vm_compute in (nth n (month_lengths b) 0) in
      change (nth n (month_lengths b) 0) with v in H
  | |- context [nth ?n (month_lengths ?b) 0] =>
      let v := eval vm_compute in (nth n (month_lengths b) 0) in
      change (nth n (month_lengths b) 0) with v
  | |- context [sum_Z (take ?n (month_lengths ?b))] =>
      let v := eval vm_compute in (sum_Z (take n (month_lengths b))) in
      change (sum_Z (take n (month_lengths b))) with v
  | |- context [?a mod 12] => let v := eval vm_compute in (a mod 12) in change (a mod 12) with v
  end.

Lemma six_months_days y m d :
  1 <= m <= 12 → 1 <= d <= days_in_month y m →
  let ty := y + (m - 1 + 6) / 12 in
  let tm := (m - 1 + 6) mod 12 + 1 in
  let td := Z.min d (days_in_month ty tm) in
  181 <= days_of_ymd ty tm td - days_of_ymd y m d <= 184
  ∧ 1 <= td <= days_in_month ty tm ∧ 1 <= tm <= 12.
Proof.
  intros Hm Hd. unfold days_of_ymd, days_in_month, days_before_month in *.
  assert (m = 1 ∨ m = 2 ∨ m = 3 ∨ m = 4 ∨ m = 5 ∨ m = 6 ∨ m = 7 ∨ m = 8 ∨ m = 9 ∨ m = 10 ∨ m = 11 ∨ m = 12)
    as Hcases by lia.
  assert (Hnext : 6 < m → y + (m - 1 + 6) / 12 = y + 1) by (intros; dlia).
  assert (Hsame : m <= 6 → y + (m - 1 + 6) / 12 = y) by (intros; dlia).
  destruct (Z.leb_spec m 6).
  - rewrite Hsame by lia. clear Hnext Hsame.
    repeat (destruct Hcases as [->|Hcases]; [destruct (is_leap y); eval_months; lia|]).
    exfalso. lia.
  - rewrite Hnext, days_before_year_succ by lia. clear Hnext Hsame.
    repeat (destruct Hcases as [->|Hcases];
      [first [exfalso; lia | destruct (is_leap y), (is_leap (y + 1)); eval_months; lia]|]).
    subst. destruct (is_leap y), (is_leap (y + 1)); eval_months; lia.
Qed.

Lemma day_in_range w : 0 <= w < max_wall → 0 <= w / us_per_day < 3652059.
Proof. unfold max_wall, us_per_day. intros H. dlia. Qed.

Lemma quot_exact a b : b ≠ 0 → Z.quot (a * b) b = a.
Proof. apply Z.quot_mul. Qed.

(** The horizon: a whole number of days, 181 to 184 of them, after [epoch]. *)
Lemma six_months_Ok epoch r :
  _six_calendar_months_after epoch = Ok r →
  ∃ days, 181 <= days <= 184 ∧ r = epoch + days * 86400.
Proof.
  unfold _six_calendar_months_after, fromtimestamp. intros H.
  destruct (in_range _) eqn:Hw; [|done]. rewrite bind_Ok_l in H. cbn [wall utc] in H.
  set (w := unix_epoch + seconds epoch) in *.
  assert (0 <= w < max_wall) as Hr by (unfold in_range in Hw; bools; lia).
  destruct (ymd_of_days (w / us_per_day)) as [[y m] d] eqn:Hymd.
  destruct (ymd_of_days_spec _ _ _ _ (day_in_range _ Hr) Hymd) as [Hv Hdays].
  unfold valid_ymd, between in Hv. bools.
  destruct (six_months_days y m d ltac:(lia) ltac:(lia)) as [Hspan _]. cbv zeta in H.
  destruct (9999 <? _); [done|]. apply Ok_inj in H. rewrite Hdays in Hspan.
  set (target := days_of_ymd _ _ _) in *. exists (target - w / us_per_day). split; [done|].
  subst r. unfold int_timestamp. rewrite instant_utc.
  rewrite <- (quot_exact (epoch + (target - w / us_per_day) * 86400) 1000000) by done. f_equal.
  unfold time_of_day. pose proof (Z.div_mod w us_per_day ltac:(done)).
  unfold w, seconds, us_per_day in *. lia.
Qed.

(** ** Reading a literal object back from its sorted form *)
Lemma dict_get_fmap {A B} (f : A → B) k d :
  dict_get k (map (λ kv, (kv.1, f kv.2)) d) = f <$> dict_get k d.
Proof. induction d as [|[k' v'] d IH]; cbn; [done|]. by case_decide. Qed.

Lemma dict_get_Permutation {A} k (d d' : list (pystr * A)) :
  NoDup d.*1 → d ≡ₚ d' → dict_get k d = dict_get k d'.
Proof.
  intros Hnd Hp. assert (Hnd' : NoDup d'.*1) by (by rewrite <- Hp).
  apply option_eq. intros v. by rewrite !dict_get_iff, Hp.
Qed.

Lemma keys_map {A B} (f : A → B) d : (map (λ kv : pystr * A, (kv.1, f kv.2)) d).*1 = d.*1.
Proof. induction d as [|[k v] d IH]; cbn; [done|]. by f_equal. Qed.

Lemma sort_keys_Permutation d d' :
  sort_keys (JDict d) = sort_keys (JDict d') →
  map (λ kv, (kv.1, sort_keys kv.2)) d ≡ₚ map (λ kv, (kv.1, sort_keys kv.2)) d'.
Proof.
  cbn [sort_keys]. intros [= H]. by rewrite <- sort_items_Permutation, H, sort_items_Permutation.
Qed.

Lemma sort_keys_get k d d' :
  NoDup d.*1 → sort_keys (JDict d) = sort_keys (JDict d') →
  sort_keys <$> dict_get k d = sort_keys <$> dict_get k d'.
Proof.
  intros Hnd H%sort_keys_Permutation. rewrite <- !dict_get_fmap.
  apply dict_get_Permutation; [by rewrite keys_map|done].
Qed.

Lemma sort_keys_field k d d' v v' :
  NoDup d.*1 → sort_keys (JDict d) = sort_keys (JDict d') →
  dict_get k d = Some v → dict_get k d' = Some v' → sort_keys v = sort_keys v'.
Proof.
  intros Hnd H Hv Hv'. pose proof (sort_keys_get k _ _ Hnd H) as E. rewrite Hv, Hv' in E. by injection E.
Qed.

(** The values of key [k] in two literal objects with one sorted form. *)
Ltac json_field H k v v' E :=
  lazymatch type of H with
  | sort_keys (JDict ?d) = sort_keys (JDict ?d') =>
      assert (sort_keys v = sort_keys v') as E
        by (refine (sort_keys_field ($k) d d' v v' _ H _ _); [assumption|reflexivity|reflexivity])
  end.

Lemma clean_text_str_ok m s : clean_text m s = true → str_ok s.
Proof.
  unfold clean_text. rewrite !andb_true_iff. intros [_ H%forallb_Forall].
  eapply Forall_impl; [exact H|]. cbn. unfold is_control. intros c. lia.
Qed.

Lemma is_currency_str_ok s : is_currency s = true → str_ok s.
Proof.
  unfold is_currency. intros [H%forallb_Forall _]%andb_true_iff.
  eapply Forall_impl; [exact H|]. cbn. unfold is_upper, between. intros c. lia.
Qed.

(** A request as the constructors leave it: [notes] is a dict. *)
Record request_ok (r : StandardPaymentLinkRequest) : Prop := {
  request_valid : StandardPaymentLinkRequest_post_init r = Ok r;
  request_notes : NoDup (notes r).*1;
  request_customer : ∀ c, customer r = Some c → PaymentLinkCustomer_post_init c = Ok c
}.

Lemma check_notes_Ok l u :
  check_notes l = Ok u → Forall (λ kv, clean_text 256 kv.1 = true ∧ clean_text 256 kv.2 = true) l.
Proof.
  induction l as [|[k v] l IH]; cbn; [constructor|]. intros H. inv_ok.
  repeat match goal with E : _clean_text _ _ _ = Ok _ |- _ => apply _clean_text_Ok in E as [? ?] end.
  simplify_eq. constructor; [done|]. by apply IH.
Qed.

Lemma check_optional_Ok o f m u :
  check_optional o f m = Ok u → ∀ s, o = Some s → clean_text m s = true.
Proof.
  destruct o as [s|]; cbn; intros H s' [= <-]. inv_ok.
  by match goal with E : _clean_text _ _ _ = Ok _ |- _ => apply _clean_text_Ok in E as [[= ->] ?] end.
Qed.

Record request_facts (r : StandardPaymentLinkRequest) : Prop := {
  fact_amount : 0 < amount_minor r;
  fact_currency : is_currency (request_currency r) = true;
  fact_reference : clean_text 40 (reference_id r) = true;
  fact_description : clean_text 2048 (description r) = true;
  fact_expiry : 0 < expire_by_epoch r;
  fact_notes : Forall (λ kv, clean_text 256 kv.1 = true ∧ clean_text 256 kv.2 = true) (notes r)
}.

Lemma request_facts_ok r r' : StandardPaymentLinkRequest_post_init r = Ok r' → r' = r ∧ request_facts r.
Proof.
  unfold StandardPaymentLinkRequest_post_init. intros H. inv_ok.
  repeat match goal with
  | E : _clean_text _ _ _ = Ok _ |- _ => apply _clean_text_Ok in E as [[= <-] ?]
  | E : _strict_positive_int _ _ = Ok _ |- _ => apply strict_positive_int_Ok in E as [[= <-] ?]
  | E : check_notes _ = Ok _ |- _ => apply check_notes_Ok in E
  end. bools. split; [done|]. split; done.
Qed.

Lemma str_dict_ok {A} (f : A → json) (l : list (pystr * A)) :
  NoDup l.*1 → Forall (λ kv, str_ok kv.1 ∧ json_ok (f kv.2)) l →
  json_ok (JDict (map (λ kv, (kv.1, f kv.2)) l)).
Proof.
  intros Hnd H. constructor; [by rewrite keys_map|]. induction H as [|[k v] l ? _ IH]; cbn; [constructor|].
  cbn in Hnd. apply NoDup_cons in Hnd as [_ Hnd]. constructor; [done|by apply IH].
Qed.

Lemma lit_str_ok (k : string) : str_ok ($k).
Proof. induction k as [|a k IH]; constructor; [|done]. cbn. lia. Qed.

(** A literal object is well formed when its values are. *)
Lemma literal_dict_ok d :
  bool_decide (NoDup d.*1) = true → Forall (λ kv, str_ok kv.1 ∧ json_ok kv.2) d → json_ok (JDict d).
Proof. intros H%bool_decide_true_1 ?. by constructor. Qed.

Ltac solve_json_ok :=
  lazymatch goal with
  | |- json_ok (JDict (_ :: _)) => apply literal_dict_ok; [vm_compute; reflexivity|]; solve_json_ok
  | |- json_ok (JStr _) => apply json_ok_str; solve_json_ok
  | |- json_ok (JInt _) => constructor
  | |- json_ok (JBool _) => constructor
  | |- Forall _ [] => constructor
  | |- Forall _ (_ :: _) => apply Forall_cons; split; cbn [fst snd]; solve_json_ok
  | |- str_ok _ ∧ _ => split; [apply lit_str_ok|]; solve_json_ok
  | |- _ => eauto using clean_text_str_ok, is_currency_str_ok
  end.

Lemma customer_json_ok c :
  PaymentLinkCustomer_post_init c = Ok c → json_ok (PaymentLinkCustomer_to_payload c).
Proof.
  unfold PaymentLinkCustomer_post_init. intros H. inv_ok.
  repeat match goal with E : _clean_text _ _ _ = Ok _ |- _ => apply _clean_text_Ok in E as [[= <-] ?] end.
  repeat match goal with E : check_optional _ _ _ = Ok _ |- _ => pose proof (check_optional_Ok _ _ _ _ E); clear E end.
  destruct c as [n [t|] [e|]]; cbn in *; unfold PaymentLinkCustomer_to_payload; cbn; solve_json_ok.
Qed.

Lemma payload_json_ok r : request_ok r → json_ok (request_payload r).
Proof.
  intros [Hv Hn Hc]. apply request_facts_ok in Hv as [_ [_ Hcur Href Hdesc _ Hnotes]].
  assert (Hd : json_ok (JDict (map (λ kv, (kv.1, JStr kv.2)) (notes r)))).
  { apply (str_dict_ok JStr); [done|]. eapply Forall_impl; [exact Hnotes|].
    intros [k v] [? ?]; cbn in *. split; [|constructor]; eauto using clean_text_str_ok. }
  unfold request_payload. destruct (customer r) as [c|] eqn:Ec.
  - pose proof (customer_json_ok c (Hc c eq_refl)). cbn [app].
    solve_json_ok.
  - cbn [app]. solve_json_ok.
Qed.

(** The same request, up to the order its notes were given in. *)
Record same_request (r r' : StandardPaymentLinkRequest) : Prop := {
  same_amount : amount_minor r = amount_minor r' ∧ request_currency r = request_currency r';
  same_reference : reference_id r = reference_id r' ∧ description r = description r';
  same_expiry : expire_by_epoch r = expire_by_epoch r';
  same_notes : notes r ≡ₚ notes r';
  same_customer : customer r = customer r'
}.

Lemma literal_keys_nodup (d : list (pystr * json)) : bool_decide (NoDup d.*1) = true → NoDup d.*1.
Proof. apply bool_decide_true_1. Qed.

Lemma customer_payload_inj c c' :
  sort_keys (PaymentLinkCustomer_to_payload c) = sort_keys (PaymentLinkCustomer_to_payload c') → c = c'.
Proof.
  unfold PaymentLinkCustomer_to_payload. destruct c as [n t e], c' as [n' t' e'].
  cbn [customer_name customer_contact customer_email]. intros H.
  assert (Hget : ∀ k, sort_keys <$> dict_get k ([($"name", JStr n)] ++ optional_item "contact" t ++ optional_item "email" e)
                      = sort_keys <$> dict_get k ([($"name", JStr n')] ++ optional_item "contact" t' ++ optional_item "email" e')).
  { intros k. apply sort_keys_get; [|done]. apply literal_keys_nodup. destruct t, e; vm_compute; reflexivity. }
  clear H. pose proof (Hget ($"name")) as H1. pose proof (Hget ($"contact")) as H2. pose proof (Hget ($"email")) as H3.
  clear Hget. destruct t, t', e, e'; vm_compute in H1, H2, H3; congruence.
Qed.

Lemma notes_payload_inj l l' :
  sort_keys (JDict (map (λ kv, (kv.1, JStr kv.2)) l)) = sort_keys (JDict (map (λ kv, (kv.1, JStr kv.2)) l')) →
  l ≡ₚ l'.
Proof.
  intros H%sort_keys_Permutation. rewrite !map_map in H. cbn [fst snd sort_keys] in H.
  apply (Permutation_map (λ kv, (kv.1, match kv.2 with JStr s => s | _ => [] end))) in H.
  rewrite !map_map in H. cbn [fst snd] in H.
  rewrite !(map_ext (λ x : pystr * pystr, (x.1, x.2)) id), !map_id in H; [done|by intros []..].
Qed.

Lemma request_payload_inj r r' :
  sort_keys (request_payload r) = sort_keys (request_payload r') → same_request r r'.
Proof.
  destruct r as [a cu re de ex no c], r' as [a' cu' re' de' ex' no' c'].
  unfold request_payload. cbn [amount_minor request_currency reference_id description expire_by_epoch notes customer].
  intros H. match type of H with sort_keys (JDict ?d) = _ => assert (Hnd : NoDup d.*1) end.
  { apply literal_keys_nodup. destruct c; vm_compute; reflexivity. }
  assert (c = c') as <-.
  { pose proof (sort_keys_get ($"customer") _ _ Hnd H) as E.
    destruct c as [c|], c' as [c'|]; try done.
    change (Some (sort_keys (PaymentLinkCustomer_to_payload c))
            = Some (sort_keys (PaymentLinkCustomer_to_payload c'))) in E.
    f_equal. apply customer_payload_inj. exact (inj Some _ _ E). }
  json_field H "amount" (JInt a) (JInt a') E1. json_field H "currency" (JStr cu) (JStr cu') E2.
  json_field H "reference_id" (JStr re) (JStr re') E3. json_field H "description" (JStr de) (JStr de') E4.
  json_field H "expire_by" (JInt ex) (JInt ex') E5.
  json_field H "notes" (JDict (map (λ kv, (kv.1, JStr kv.2)) no)) (JDict (map (λ kv, (kv.1, JStr kv.2)) no')) E6.
  apply notes_payload_inj in E6. cbn in *. split; cbn; split_and?; congruence || done.
Qed.

Lemma request_bytes_inj r r' b :
  request_ok r → request_ok r' → to_json_bytes r None = Ok b → to_json_bytes r' None = Ok b →
  same_request r r'.
Proof.
  unfold to_json_bytes, to_payload. rewrite !bind_Ok_l. intros Hr Hr' H H'.
  apply request_payload_inj, dumps_inj; [by apply payload_json_ok..|]. by eapply utf8_encode_inj.
Qed.

(** A provider object that proves the create of [request] went through. *)
Record proves_create (request : StandardPaymentLinkRequest) (link : pystr)
    (o : list (pystr * json)) : Prop := {
  proof_id : json_get "id" o = JStr link ∧ clean_text 128 link = true;
  proof_reference : json_get "reference_id" o = JStr (reference_id request);
  proof_amount : json_get "amount" o = JInt (amount_minor request)
                 ∧ json_get "currency" o = JStr (request_currency request);
  proof_modes : json_get "accept_partial" o = JBool false ∧ json_get "upi_link" o = JBool false;
  proof_status : ∃ status, json_get "status" o = JStr status ∧ status ∈ _LINK_STATUSES
}.

Lemma proves_create_iff request link c :
  request_facts request →
  (∃ s, link_object c s ∧ matches s request = true ∧ link_id s = link)
  ↔ ∃ o, c = JDict o ∧ proves_create request link o.
Proof.
  intros [Ha Hc Hr _ _ _]. split.
  - intros (s & [(o & -> & ? & ? & ? & ? & H5 & H6 & ?) (? & ? & ? & ? & ?)] & Hm & <-).
    apply matches_iff in Hm as (E1 & E2 & E3 & E4 & E5). rewrite E4 in H5. rewrite E5 in H6.
    exists o. split; [done|]. split; rewrite <- ?E1, <- ?E2, <- ?E3; try done. by exists (link_status s).
  - intros (o & -> & [[? ?] ? [? ?] [? ?] (st & ? & ?)]).
    exists (mkPaymentLinkSnapshot link (reference_id request) (amount_minor request)
              (request_currency request) false false st).
    split_and!; [split; cbn; [by exists o|done]|by apply matches_iff|done].
Qed.

(** * Properties *)

(** reconciliation after an ambiguous create always decides, and decides
    safely: an incomplete lookup is repeated; a retried create needs a completed
    lookup without any link; a link is adopted exactly when it is the single
    candidate and carries the reference, amount, currency and modes of the
    command; everything else is escalated. *)
Theorem ambiguous_create_decision request lookup :
  request_facts request →
  ∃ d, decide_ambiguous_create request lookup = Ok d
  ∧ (create_action d = REQUERY ↔ completed lookup = false)
  ∧ (create_action d = RETRY_CREATE_SAME_REFERENCE ↔ completed lookup = true ∧ candidates lookup = [])
  ∧ (∀ link, create_action d = ADOPT_EXISTING ∧ adopted_link d = Some link ↔
       completed lookup = true
       ∧ ∃ o, candidates lookup = [JDict o] ∧ proves_create request link o).
Proof.
  intros Hf. destruct (decide_cases request lookup) as (d & Hd & Hcase). exists d. split; [done|].
  assert (Hiff : ∀ link, (∃ o, candidates lookup = [JDict o] ∧ proves_create request link o) ↔
    ∃ c s, candidates lookup = [c] ∧ link_object c s ∧ matches s request = true ∧ link_id s = link).
  { intros link. split.
    - intros (o & Hl & Hp). destruct (proj2 (proves_create_iff request link _ Hf) (ex_intro _ o (conj eq_refl Hp)))
        as (s & ? & ? & ?). by exists (JDict o), s.
    - intros (c & s & Hl & ? & ? & ?). destruct (proj1 (proves_create_iff request link c Hf)) as (o & -> & ?);
        [by exists s|by exists o]. }
  setoid_rewrite Hiff. destruct d as [action reason link]; cbn in *.
  destruct action; cbn in Hcase.
  - destruct Hcase as (Hc & c & s & Hl & Ho & Hm & ->). split_and!; [split; congruence|split; [done|intros [_ ?]; congruence]|].
    intros l. split; [intros [_ [= <-]]; split; [done|by exists c, s]|].
    intros (_ & c' & s' & Hl' & Ho' & _ & <-). rewrite Hl in Hl'. injection Hl' as <-.
    apply from_mapping_Ok in Ho, Ho'. rewrite Ho in Ho'. by injection Ho' as <-.
  - destruct Hcase as [Hc Hl]. split_and!; [split; congruence|done|].
    intros l. split; [by intros [? _]|]. intros (_ & c & s & Hl' & _). congruence.
  - split_and!; [done|split; [done|intros [? _]; congruence]|].
    intros l. split; [by intros [? _]|]. intros [? _]. congruence.
  - destruct Hcase as (Hc & Hl & Hno). split_and!; [split; congruence|split; [done|by intros [_ ?]]|].
    intros l. split; [by intros [? _]|]. intros (_ & c & s & Hl' & Ho & Hm & _).
    rewrite (Hno c s) in Hm by done. done.
Qed.

(** the expiry a request may carry at a moment: at least 15 minutes ahead
    and at most six calendar months, which is a whole number of days between 181
    and 184. *)
Theorem expiry_window request now latest :
  _six_calendar_months_after now = Ok latest →
  (is_ok (validate_expiry request now) = true ↔
     0 <= now ∧ now + 900 <= expire_by_epoch request <= latest)
  ∧ ∃ days, 181 <= days <= 184 ∧ latest = now + days * 86400.
Proof.
  intros H. split; [|by apply six_months_Ok]. rewrite is_ok_true.
  unfold validate_expiry, _MIN_EXPIRY_LEAD_SECONDS. rewrite H. split.
  - intros [u Hu]. inv_ok. bools. lia.
  - intros (? & ? & ?). exists tt.
    rewrite !(proj2 (Z.ltb_ge _ _)) by lia. cbn [raise_if]. rewrite !bind_Ok_l.
    by rewrite (proj2 (Z.ltb_ge _ _)) by lia.
Qed.

(** the wire form identifies the command: two valid requests with the
    same bytes agree on every field, the notes up to their order. *)
Theorem request_bytes_identity r r' b :
  request_ok r → request_ok r' → to_json_bytes r None = Ok b → to_json_bytes r' None = Ok b →
  same_request r r'.
Proof. apply request_bytes_inj. Qed.

(** * Witnesses *)
Definition sample_request : StandardPaymentLinkRequest :=
  mkStandardPaymentLinkRequest 49900 ($"INR") ($"rtw_case42_abc") ($"Order 42") 1767229200
    [($"case", $"case_42")] (Some (mkPaymentLinkCustomer ($"Asha") None (Some ($"a@example.org")))).

(** A link object of the provider for the request. *)
Definition sample_link (request : StandardPaymentLinkRequest) : list (pystr * json) :=
  [($"id", JStr ($"plink_1")); ($"reference_id", JStr (reference_id request));
   ($"amount", JInt (amount_minor request)); ($"currency", JStr (request_currency request));
   ($"accept_partial", JBool false); ($"upi_link", JBool false); ($"status", JStr ($"created"))].

Lemma sample_request_ok : request_ok sample_request.
Proof.
  split; [vm_compute; reflexivity|apply (bool_decide_unpack _); vm_compute; exact I|].
  intros c [= <-]. vm_compute. reflexivity.
Qed.

Lemma ambiguous_create_decision_witness :
  ∃ d, decide_ambiguous_create sample_request
         (mkPaymentLinkLookupResult true [JDict (sample_link sample_request)]) = Ok d
       ∧ create_action d = ADOPT_EXISTING ∧ adopted_link d = Some ($"plink_1").
Proof.
  destruct (ambiguous_create_decision sample_request
    (mkPaymentLinkLookupResult true [JDict (sample_link sample_request)]))
    as (d & Hd & _ & _ & Hadopt).
  { exact (proj2 (request_facts_ok _ _ (request_valid _ sample_request_ok))). }
  exists d. split; [exact Hd|]. apply Hadopt. split; [reflexivity|]. eexists. split; [reflexivity|].
  split; [split; vm_compute; reflexivity|reflexivity|split; reflexivity|split; reflexivity|].
  eexists. split; [reflexivity|]. apply (bool_decide_unpack _). vm_compute. exact I.
Defined.

(** 31 August 2025 00:00:00 UTC plus six calendar months is 28 February 2026. *)
Lemma expiry_window_witness :
  _six_calendar_months_after 1756598400 = Ok 1772236800
  ∧ (is_ok (validate_expiry sample_request 1756598400) = true ↔
       0 <= 1756598400 ∧ 1756598400 + 900 <= expire_by_epoch sample_request <= 1772236800).
Proof.
  assert (_six_calendar_months_after 1756598400 = Ok 1772236800) as H by (vm_compute; reflexivity).
  split; [exact H|]. exact (proj1 (expiry_window sample_request _ _ H)).
Defined.

Lemma request_bytes_identity_witness : same_request sample_request sample_request.
Proof.
  assert (is_ok (to_json_bytes sample_request None) = true) as H by (vm_compute; reflexivity).
  apply is_ok_true in H as [b H].
  exact (request_bytes_identity _ _ b sample_request_ok sample_request_ok H H).
Defined.
