(* ===== verification/References.v ===== *)
(** [packages/razorpay/references.py]: the stable external [reference_id] of
    a recovery Payment Link, with [base64.b32encode] as the code uses it.
    [unicodedata.normalize("NFKD", .)] is a parameter: it is defined by the
    Unicode database, and the code relies on nothing but its determinism. *)
From S2P Require Import Prelude PyStr Sha256 Values Digest Text.

(** * base64.b32encode *)
(** The digit alphabet [A-Z2-7]. *)
Definition b32_char (d : Z) : Z := if d <? 26 then 65 + d else 24 + d.

(** Five bytes to eight digits, most significant first. *)
Definition b32_group (group : bytes) : pystr :=
  let n := be_word group in
  map (λ k, b32_char (n / 2 ^ (5 * k) mod 32)) [7; 6; 5; 4; 3; 2; 1; 0].

(** Digits that carry no input bit are written as ["="]. *)
Definition b32_pads (leftover : Z) : nat :=
  if leftover =? 1 then 6 else if leftover =? 2 then 4 else if leftover =? 3 then 3
  else if leftover =? 4 then 1 else 0.

Definition b32encode (s : bytes) : pystr :=
  let leftover := Z.of_nat (length s) mod 5 in
  let padded := s ++ repeat 0 (Z.to_nat ((- Z.of_nat (length s)) mod 5)) in
  let encoded := concat (map b32_group (chunks (length padded) 5 padded)) in
  let n := b32_pads leftover in
  take (length encoded - n) encoded ++ repeat 61 n.

(** * The reference *)
Definition _REFERENCE_PREFIX : pystr := $"rtw_".
Definition _REFERENCE_NAMESPACE : bytes := $"retrywise:razorpay:recovery-reference:v1" ++ [0].

Definition _validated_identifier (value : pystr) (field : string) : result pystr :=
  _ ← raise_if (bool_decide (value = [])) (ReferenceIdError (field +:+ " must be a non-empty string"));
  _ ← raise_if (bool_decide (value ≠ strip value))
        (ReferenceIdError (field +:+ " cannot contain surrounding whitespace"));
  _ ← raise_if (512 <? str_len value) (ReferenceIdError (field +:+ " exceeds 512 characters"));
  Ok value.

Section reference.
Context (nfkd : pystr → pystr).

(** [normalize("NFKD", case_id).encode("ascii", "ignore").decode("ascii").lower()]
    and [_NON_ALNUM.sub("", ascii_case)[:8] or "case"]. *)
Definition reference_slug (case_id : pystr) : pystr :=
  let ascii_case := lower_ascii (List.filter is_ascii (nfkd case_id)) in
  let slug := take 8 (List.filter (λ c, is_lower c || is_digit c) ascii_case) in
  if decide (slug = []) then $"case" else slug.

Definition reference_material (case_id account_id : pystr) : result bytes :=
  account ← utf8_encode account_id;
  case ← utf8_encode case_id;
  Ok (_REFERENCE_NAMESPACE ++ account ++ [0] ++ case).

Definition digest_text (material : bytes) : pystr :=
  lower_ascii (rstrip_chars (Z.eqb 61) (b32encode (take 16 (sha256 material)))).

Definition make_recovery_reference_id (recovery_case_id provider_account_id : pystr) : result pystr :=
  case_id ← _validated_identifier recovery_case_id "recovery_case_id";
  account_id ← _validated_identifier provider_account_id "provider_account_id";
  let slug := reference_slug case_id in
  digest_input ← reference_material case_id account_id;
  let reference_id := _REFERENCE_PREFIX ++ slug ++ $"_" ++ digest_text digest_input in
  _ ← raise_if (40 <? str_len reference_id)
        (AssertionError "generated Razorpay reference_id exceeds 40 characters");
  Ok reference_id.

End reference.

(** * Lemmas *)
Lemma be_word_app bs b : be_word (bs ++ [b]) = be_word bs * 256 + b.
Proof. unfold be_word. by rewrite foldl_app. Qed.

Lemma be_word_range bs : Forall is_byte bs → 0 <= be_word bs < 256 ^ Z.of_nat (length bs).
Proof.
  induction bs as [|b bs IH] using rev_ind; intros H; [cbn; lia|].
  apply Forall_app in H as [H Hb]. inversion Hb as [|? ? Hb' _]; subst. specialize (IH H).
  rewrite be_word_app, length_app, Nat2Z.inj_add, Z.pow_add_r by lia. unfold is_byte in Hb'.
  change (256 ^ Z.of_nat (length [b])) with 256. lia.
Qed.

Lemma be_word_inj bs bs' :
  length bs = length bs' → Forall is_byte bs → Forall is_byte bs' → be_word bs = be_word bs' → bs = bs'.
Proof.
  revert bs'. induction bs as [|b bs IH] using rev_ind; intros bs' Hl H H' E.
  - symmetry. apply nil_length_inv. by rewrite <- Hl.
  - destruct bs' as [|b' bs' _] using rev_ind; [rewrite length_app in Hl; cbn in Hl; lia|].
    rewrite !length_app in Hl. cbn in Hl. rewrite !be_word_app in E.
    apply Forall_app in H as [H Hb], H' as [H' Hb']. inversion Hb; inversion Hb'; subst. unfold is_byte in *.
    assert (be_word bs = be_word bs' ∧ b = b') as [Hw ->] by lia. f_equal. apply IH; [lia|done..].
Qed.

(** Bit [i] of a number is bit [i mod 5] of its base-32 digit [i / 5]. *)
Lemma digit_bit n k i : 0 <= k → 5 * k <= i < 5 * k + 5 →
  Z.testbit (n / 2 ^ (5 * k) mod 32) (i - 5 * k) = Z.testbit n i.
Proof.
  intros Hk Hi. change 32 with (2 ^ 5). rewrite Z.mod_pow2_bits_low, Z.div_pow2_bits by lia. f_equal. lia.
Qed.

Lemma digits_bits n n' lo hi :
  0 <= lo → (∀ k, lo <= k < hi → n / 2 ^ (5 * k) mod 32 = n' / 2 ^ (5 * k) mod 32) →
  ∀ i, 5 * lo <= i < 5 * hi → Z.testbit n i = Z.testbit n' i.
Proof.
  intros Hlo H i Hi. assert (5 * (i / 5) <= i < 5 * (i / 5) + 5 ∧ lo <= i / 5 < hi) as [Hq Hk] by dlia.
  rewrite <- (digit_bit n (i / 5) i), <- (digit_bit n' (i / 5) i) by lia. by rewrite H.
Qed.

Lemma bits_below n m i : 0 <= n < 2 ^ m → m <= i → Z.testbit n i = false.
Proof.
  intros Hn Hi. assert (0 <= m) by (destruct (Z.neg_nonneg_cases m); [rewrite Z.pow_neg_r in Hn by lia; lia|done]).
  rewrite <- (Z.mod_small n (2 ^ m)) by lia. apply Z.mod_pow2_bits_high. lia.
Qed.

(** ** The lower-case digits *)
Definition b32_lower (d : Z) : Z := if d <? 26 then 97 + d else 24 + d.

Lemma b32_lower_char d : 0 <= d < 32 → (if is_upper (b32_char d) then b32_char d + 32 else b32_char d) = b32_lower d.
Proof. unfold b32_char, b32_lower, is_upper, between. intros H. repeat case_match; lia. Qed.

Lemma b32_lower_inj d d' : 0 <= d < 32 → 0 <= d' < 32 → b32_lower d = b32_lower d' → d = d'.
Proof. unfold b32_lower. intros ? ?. repeat case_match; lia. Qed.

Lemma b32_lower_visible d : 0 <= d < 32 → visible (b32_lower d) = true.
Proof. unfold b32_lower, visible, between. intros ?. repeat case_match; lia. Qed.

Lemma b32_char_pad d : 0 <= d < 32 → (61 =? b32_char d) = false.
Proof. unfold b32_char. intros ?. repeat case_match; lia. Qed.

Definition group_digits (group : bytes) : list Z :=
  map (λ k, be_word group / 2 ^ (5 * k) mod 32) [7; 6; 5; 4; 3; 2; 1; 0].

(** The 26 digits of a 16-byte input. *)
Definition digits26 (g0 g1 g2 : bytes) (b : Z) : list Z :=
  group_digits g0 ++ group_digits g1 ++ group_digits g2 ++ take 2 (group_digits [b; 0; 0; 0; 0]).

Lemma b32encode_16 g0 g1 g2 b :
  length g0 = 5%nat → length g1 = 5%nat → length g2 = 5%nat →
  b32encode (g0 ++ g1 ++ g2 ++ [b]) = map b32_char (digits26 g0 g1 g2 b) ++ repeat 61 6.
Proof.
  destruct g0 as [|? [|? [|? [|? [|? []]]]]]; try done. destruct g1 as [|? [|? [|? [|? [|? []]]]]]; try done.
  destruct g2 as [|? [|? [|? [|? [|? []]]]]]; try done.
Qed.

Lemma group_digits_range g : Forall (λ d, 0 <= d < 32) (group_digits g).
Proof. unfold group_digits. repeat constructor; apply Z.mod_pos_bound; lia. Qed.

Lemma digits26_range g0 g1 g2 b : Forall (λ d, 0 <= d < 32) (digits26 g0 g1 g2 b).
Proof. unfold digits26. rewrite !Forall_app. split_and!; try apply Forall_take; apply group_digits_range. Qed.

Lemma be_word_5 g : length g = 5%nat → Forall is_byte g → 0 <= be_word g < 2 ^ 40.
Proof. intros Hl H%be_word_range. rewrite Hl in H. exact H. Qed.

Lemma group_digits_inj g g' :
  length g = 5%nat → length g' = 5%nat → Forall is_byte g → Forall is_byte g' →
  group_digits g = group_digits g' → g = g'.
Proof.
  intros Hl Hl' H H' E. apply be_word_inj; [congruence|done..|].
  apply Z.bits_inj'. intros i Hi. destruct (Z.ltb_spec i 40).
  - apply (digits_bits _ _ 0 8); [lia| |lia]. unfold group_digits in E. injection E as E7 E6 E5 E4 E3 E2 E1 E0.
    intros k Hk. assert (k = 0 ∨ k = 1 ∨ k = 2 ∨ k = 3 ∨ k = 4 ∨ k = 5 ∨ k = 6 ∨ k = 7) as Hcases by lia.
    destruct Hcases as [->|[->|[->|[->|[->|[->|[->| ->]]]]]]]; assumption.
  - by rewrite !(bits_below _ 40) by (try apply be_word_5; done).
Qed.

Lemma last_byte_inj b b' :
  is_byte b → is_byte b' →
  take 2 (group_digits [b; 0; 0; 0; 0]) = take 2 (group_digits [b'; 0; 0; 0; 0]) → b = b'.
Proof.
  intros Hb Hb' E. assert (Hw : ∀ c, be_word [c; 0; 0; 0; 0] = c * 2 ^ 32) by (intros c; cbn; lia).
  unfold group_digits in E. cbn [map take] in E. rewrite !Hw in E. injection E as E7 E6.
  enough (b * 2 ^ 32 = b' * 2 ^ 32) by lia. apply Z.bits_inj'. intros i Hi.
  destruct (Z.ltb_spec i 32); [by rewrite !Z.mul_pow2_bits_low by lia|].
  destruct (Z.ltb_spec i 40).
  - apply (digits_bits _ _ 6 8); [lia| |lia]. intros k Hk. assert (k = 6 ∨ k = 7) as [->| ->] by lia; assumption.
  - unfold is_byte in *. rewrite !(bits_below _ 40) by lia. done.
Qed.

Lemma digits26_inj g0 g1 g2 b g0' g1' g2' b' :
  length g0 = 5%nat → length g1 = 5%nat → length g2 = 5%nat →
  length g0' = 5%nat → length g1' = 5%nat → length g2' = 5%nat →
  Forall is_byte (g0 ++ g1 ++ g2 ++ [b]) → Forall is_byte (g0' ++ g1' ++ g2' ++ [b']) →
  digits26 g0 g1 g2 b = digits26 g0' g1' g2' b' →
  g0 ++ g1 ++ g2 ++ [b] = g0' ++ g1' ++ g2' ++ [b'].
Proof.
  intros L0 L1 L2 L0' L1' L2'. rewrite !Forall_app, !Forall_singleton.
  intros (H0 & H1 & H2 & Hb) (H0' & H1' & H2' & Hb'). unfold digits26. intros E.
  apply app_inj_1 in E as [E0 E]; [|done]. apply app_inj_1 in E as [E1 E]; [|done].
  apply app_inj_1 in E as [E2 E]; [|done].
  by rewrite (group_digits_inj g0 g0'), (group_digits_inj g1 g1'), (group_digits_inj g2 g2'),
    (last_byte_inj b b').
Qed.

(** Sixteen bytes as the groups [b32encode] makes of them. *)
Lemma split_16 (bs : bytes) :
  length bs = 16%nat →
  ∃ g0 g1 g2 b, bs = g0 ++ g1 ++ g2 ++ [b] ∧ length g0 = 5%nat ∧ length g1 = 5%nat ∧ length g2 = 5%nat.
Proof.
  intros H. exists (take 5 bs), (take 5 (drop 5 bs)), (take 5 (drop 10 bs)), (nth 15 bs 0).
  do 16 (destruct bs as [|? bs]; [done|]). destruct bs; [|done]. done.
Qed.

Lemma rstrip_pads X n :
  Forall (λ c, (61 =? c) = false) X → rstrip_chars (Z.eqb 61) (X ++ repeat 61 n) = X.
Proof.
  intros H%Forall_reverse. unfold rstrip_chars. rewrite reverse_app.
  assert (drop_while (Z.eqb 61) (reverse (repeat 61 n) ++ reverse X) = reverse X) as ->.
  { unfold reverse at 1. rewrite <- rev_alt, rev_repeat.
    induction n as [|n IH]; [|exact IH]. cbn [repeat app].
    destruct H as [|c l Hc]; [done|]. cbn [drop_while]. by rewrite Hc. }
  apply reverse_involutive.
Qed.

Lemma lower_b32 ds : Forall (λ d, 0 <= d < 32) ds → lower_ascii (map b32_char ds) = map b32_lower ds.
Proof.
  unfold lower_ascii. rewrite map_map. induction 1 as [|d ds Hd _ IH]; cbn; [done|].
  by rewrite b32_lower_char, IH.
Qed.

Lemma digest_text_digits material g0 g1 g2 b :
  take 16 (sha256 material) = g0 ++ g1 ++ g2 ++ [b] →
  length g0 = 5%nat → length g1 = 5%nat → length g2 = 5%nat →
  digest_text material = map b32_lower (digits26 g0 g1 g2 b).
Proof.
  intros E L0 L1 L2. pose proof (digits26_range g0 g1 g2 b) as Hr.
  assert (Forall (λ c, (61 =? c) = false) (map b32_char (digits26 g0 g1 g2 b))) as Hpad.
  { apply Forall_fmap. eapply Forall_impl; [exact Hr|]. intros d. apply b32_char_pad. }
  unfold digest_text. rewrite E, b32encode_16, rstrip_pads by done.
  by apply lower_b32.
Qed.

Lemma digest_prefix_length m : length (take 16 (sha256 m)) = 16%nat.
Proof. by rewrite length_take, sha256_length. Qed.

Lemma digest_text_form m :
  length (digest_text m) = 26%nat ∧ forallb visible (digest_text m) = true.
Proof.
  destruct (split_16 _ (digest_prefix_length m)) as (g0 & g1 & g2 & b & E & L0 & L1 & L2).
  rewrite (digest_text_digits _ _ _ _ _ E L0 L1 L2). split; [by rewrite length_map|].
  apply forallb_Forall, Forall_fmap. eapply Forall_impl; [apply digits26_range|].
  intros d. apply b32_lower_visible.
Qed.

Lemma map_lower_inj ds ds' :
  Forall (λ d, 0 <= d < 32) ds → Forall (λ d, 0 <= d < 32) ds' →
  map b32_lower ds = map b32_lower ds' → ds = ds'.
Proof.
  intros H. revert ds'. induction H as [|d ds Hd _ IH]; intros [|d' ds'] H' E; try done.
  inversion H'; subst. cbn in E. injection E as E1 E2. f_equal; [by apply b32_lower_inj|by apply IH].
Qed.

Lemma digest_text_inj m m' :
  digest_text m = digest_text m' → take 16 (sha256 m) = take 16 (sha256 m').
Proof.
  destruct (split_16 _ (digest_prefix_length m)) as (g0 & g1 & g2 & b & E & L0 & L1 & L2).
  destruct (split_16 _ (digest_prefix_length m')) as (h0 & h1 & h2 & c & E' & M0 & M1 & M2).
  rewrite (digest_text_digits _ _ _ _ _ E L0 L1 L2), (digest_text_digits _ _ _ _ _ E' M0 M1 M2).
  intros H%map_lower_inj; [|apply digits26_range..].
  pose proof (sha256_byte m) as Hm. pose proof (sha256_byte m') as Hm'.
  apply (Forall_take _ 16) in Hm, Hm'. rewrite E in Hm. rewrite E' in Hm'. rewrite E, E'.
  by apply digits26_inj.
Qed.

(** ** UTF-8 keeps a text free of NUL *)
Lemma utf8_char_nul c b : utf8_encode_char c = Ok b → c ≠ 0 → 0 ∉ b.
Proof.
  unfold utf8_encode_char, is_surrogate, between. intros H Hc Hin. repeat case_match; inv_ok; subst;
    rewrite ?elem_of_cons, elem_of_nil in Hin; bools; dlia.
Qed.

(** * The shape of a reference *)
Lemma validated_Ok v f u : _validated_identifier v f = Ok u → u = v.
Proof. unfold _validated_identifier. intros H. by inv_ok. Qed.

Lemma utf8_nul s bs : utf8_encode s = Ok bs → 0 ∉ s → 0 ∉ bs.
Proof.
  revert bs. induction s as [|c s IH]; cbn; intros bs H Hs; inv_ok; [by subst; apply not_elem_of_nil|].
  subst. apply not_elem_of_cons in Hs as [Hc Hs]. apply not_elem_of_app. split; [|by eapply IH].
  eapply utf8_char_nul; [done|]. congruence.
Qed.

Section reference_lemmas.
Context (nfkd : pystr → pystr).

Lemma slug_form case_id :
  (1 <= length (reference_slug nfkd case_id) <= 8)%nat
  ∧ forallb visible (reference_slug nfkd case_id) = true.
Proof.
  unfold reference_slug. set (f := List.filter _ _). assert (forallb visible (take 8 f) = true) as Hv.
  { apply forallb_Forall, Forall_take, List.Forall_forall. intros c [_ H]%List.filter_In.
    cbn in H. unfold is_lower, is_digit, visible, between in *. lia. }
  clearbody f. case_decide as Ht; [split; [change (length ($"case")) with 4%nat; lia|done]|].
  split; [|done]. rewrite length_take. destruct f; [done|]. cbn [length]. lia.
Qed.

(** A generated reference, piece by piece. *)
Lemma reference_Ok case account r :
  make_recovery_reference_id nfkd case account = Ok r →
  ∃ m, reference_material case account = Ok m
       ∧ r = _REFERENCE_PREFIX ++ reference_slug nfkd case ++ $"_" ++ digest_text m.
Proof.
  unfold make_recovery_reference_id. intros H. inv_ok.
  repeat match goal with E : _validated_identifier _ _ = Ok _ |- _ => apply validated_Ok in E as -> end.
  by eexists.
Qed.

Lemma reference_pieces case m :
  let r := _REFERENCE_PREFIX ++ reference_slug nfkd case ++ $"_" ++ digest_text m in
  str_len r <= 39 ∧ clean_text 40 r = true.
Proof.
  intros r. destruct (slug_form case) as [Hl Hv]. destruct (digest_text_form m) as [Dl Dv].
  assert (str_len r <= 39) as Hr.
  { unfold r, str_len. rewrite !length_app, Dl. change (length _REFERENCE_PREFIX) with 4%nat.
    change (length ($"_")) with 1%nat. lia. }
  split; [done|]. rewrite clean_text_visible; [apply Z.leb_le; lia|done|].
  unfold r. by rewrite !forallb_app, Hv, Dv.
Qed.

(** The errors the generator can raise. *)
Definition reference_error (e : py_error) : bool :=
  match e with ReferenceIdError _ | UnicodeEncodeError => true | _ => false end.

Lemma validated_errors v f e : _validated_identifier v f = Raise e → reference_error e = true.
Proof.
  unfold _validated_identifier. intros H.
  destruct (bool_decide (v = [])); [cbn in H; by injection H as <-|]. cbn [raise_if] in H. rewrite bind_Ok_l in H.
  destruct (bool_decide (v ≠ strip v)); [cbn in H; by injection H as <-|]. cbn [raise_if] in H. rewrite bind_Ok_l in H.
  destruct (512 <? _); [cbn in H; by injection H as <-|done].
Qed.

Lemma utf8_errors s e : utf8_encode s = Raise e → reference_error e = true.
Proof.
  induction s as [|c s IH]; cbn; [done|]. destruct (utf8_encode_char c) as [b|e'] eqn:E; cbn.
  - destruct (utf8_encode s); cbn; [done|]. exact IH.
  - intros [= <-]. unfold utf8_encode_char in E. repeat case_match; by simplify_eq.
Qed.

Lemma reference_errors case account e :
  make_recovery_reference_id nfkd case account = Raise e → reference_error e = true.
Proof.
  unfold make_recovery_reference_id, reference_material.
  destruct (_validated_identifier case _) as [c|e'] eqn:E1; [|intros [= <-]; by eapply validated_errors].
  destruct (_validated_identifier account _) as [a|e'] eqn:E2; [|intros [= <-]; by eapply validated_errors].
  rewrite !bind_Ok_l. cbv zeta.
  destruct (utf8_encode a) as [ab|e'] eqn:E3; [|intros [= <-]; by eapply utf8_errors].
  destruct (utf8_encode c) as [cb|e'] eqn:E4; [|intros [= <-]; by eapply utf8_errors].
  rewrite !bind_Ok_l. destruct (reference_pieces c (_REFERENCE_NAMESPACE ++ ab ++ [0] ++ cb)).
  by rewrite (proj2 (Z.ltb_ge _ _)) by lia.
Qed.

End reference_lemmas.

(** * Properties *)

(** the generator either refuses an identifier ([ReferenceIdError], or an
    identifier without a UTF-8 form) or returns a reference of at most 39
    characters that every length and text check of the Payment Link contract
    accepts: its defensive assertion is never reached. *)
Theorem reference_well_formed nfkd case account :
  match make_recovery_reference_id nfkd case account with
  | Ok r => str_len r <= 39 ∧ clean_text 40 r = true ∧ starts_with _REFERENCE_PREFIX r = true
  | Raise e => e = UnicodeEncodeError ∨ ∃ message, e = ReferenceIdError message
  end.
Proof.
  destruct (make_recovery_reference_id nfkd case account) as [r|e] eqn:H.
  - apply reference_Ok in H as (m & _ & ->). destruct (reference_pieces nfkd case m).
    split_and!; [done..|]. by apply bool_decide_eq_true.
  - destruct e; try (right; by eexists); try by left.
    all: apply reference_errors in H; discriminate.
Qed.

(** one reference, one case: two cases get one reference only when they
    are the same case of the same account, or when two different digest inputs
    share the first 128 bits of their SHA-256, provided the account identifiers
    hold no NUL character (the separator of the digest input). *)
Theorem reference_identity nfkd case account case' account' r :
  make_recovery_reference_id nfkd case account = Ok r →
  make_recovery_reference_id nfkd case' account' = Ok r →
  0 ∉ account → 0 ∉ account' →
  (case = case' ∧ account = account')
  ∨ ∃ m m', reference_material case account = Ok m ∧ reference_material case' account' = Ok m'
            ∧ m ≠ m' ∧ take 16 (sha256 m) = take 16 (sha256 m').
Proof.
  intros (m & Hm & ->)%reference_Ok (m' & Hm' & E)%reference_Ok Ha Ha'.
  assert (digest_text m = digest_text m') as Ed.
  { rewrite !app_assoc in E. apply app_inj_2 in E as [_ E]; [done|].
    by rewrite !(proj1 (digest_text_form _)). }
  apply digest_text_inj in Ed. destruct (decide (m = m')) as [<-|Hne]; [left|right; by exists m, m'].
  unfold reference_material in Hm, Hm'. inv_ok. subst. rename Hm' into Hmat.
  apply app_inv_head, (app_separated 0) in Hmat as [-> ->]; [|by eapply utf8_nul..].
  split; by eapply utf8_encode_inj.
Qed.

(** Without that proviso two accounts can share a reference: the NUL that
    separates account and case in the digest input may also end the one or start
    the other. *)
Theorem reference_nul_ambiguity :
  ∃ case account case' account' r, account ≠ account' ∧ case ≠ case'
    ∧ make_recovery_reference_id id case account = Ok r
    ∧ make_recovery_reference_id id case' account' = Ok r.
Proof.
  exists ($"c"), [97; 0], ($(String.String Ascii.zero "c")), ($"a").
  eexists. split_and!; [done|done|vm_compute; reflexivity|vm_compute; reflexivity].
Qed.

(** * Witnesses *)
Definition sample_reference : pystr :=
  match make_recovery_reference_id id ($"case_42") ($"acc_1") with Ok r => r | Raise _ => [] end.

Lemma reference_identity_witness :
  make_recovery_reference_id id ($"case_42") ($"acc_1") = Ok sample_reference
  ∧ (($"case_42" = $"case_42" ∧ $"acc_1" = $"acc_1")
     ∨ ∃ m m', reference_material ($"case_42") ($"acc_1") = Ok m
               ∧ reference_material ($"case_42") ($"acc_1") = Ok m'
               ∧ m ≠ m' ∧ take 16 (sha256 m) = take 16 (sha256 m')).
Proof.
  assert (make_recovery_reference_id id ($"case_42") ($"acc_1") = Ok sample_reference) as H
    by (vm_compute; reflexivity).
  split; [exact H|]. apply (reference_identity id _ _ _ _ _ H H); vm_compute; intros Hin;
    repeat (apply elem_of_cons in Hin as [Hin|Hin]; [discriminate Hin|]); by apply not_elem_of_nil in Hin.
Defined.
