(* ===== verification/Reader.v ===== *)
(** [json.loads] with the hooks and limits under which outside input is read:
    [hook] makes a dictionary of the pairs of an object, the number hooks are
    inside [scalar], and containers nested deeper than the interpreter's
    recursion limit, the parameter [nesting_limit], raise [RecursionError].
    Then the two strict uses refuse repeated keys; the plain use keeps the last
    of them and detects the encoding of its bytes. *)
From S2P Require Import Prelude PyStr Json Text.

(** A hook that builds the dictionary pair by pair and refuses a key it has. *)
Fixpoint add_pairs (duplicate : py_error) (decoded pairs : list (pystr * json)) :
    result (list (pystr * json)) :=
  match pairs with
  | [] => Ok decoded
  | (key, value) :: pairs =>
      _ ← raise_if (bool_decide (is_Some (dict_get key decoded))) duplicate;
      add_pairs duplicate (dict_set key value decoded) pairs
  end.

Definition or_decode_error {A} (o : option A) : result A :=
  match o with Some a => Ok a | None => Raise JSONDecodeError end.

Lemma or_decode_error_Ok {A} (o : option A) a : or_decode_error o = Ok a ↔ o = Some a.
Proof. destruct o; cbn; naive_solver. Qed.

Lemma bind_Raise {A B} (m : result A) (f : A → result B) e :
  m ≫= f = Raise e ↔ m = Raise e ∨ ∃ a, m = Ok a ∧ f a = Raise e.
Proof. destruct m; cbn; naive_solver. Qed.

Lemma add_pairs_Ok duplicate decoded pairs d :
  NoDup decoded.*1 → add_pairs duplicate decoded pairs = Ok d → d = decoded ++ pairs ∧ NoDup d.*1.
Proof.
  revert decoded. induction pairs as [|[key value] pairs IH]; intros decoded Hnd H; cbn in H.
  - apply Ok_inj in H as <-. by rewrite app_nil_r.
  - inv_ok. assert (key ∉ decoded.*1) as Hkey.
    { intros Hin. apply bool_decide_false_1 in Hr. destruct Hr. clear -Hin. induction decoded as [|[k v] decoded IH]; cbn in *.
      - by apply elem_of_nil in Hin.
      - case_decide; [done|]. apply elem_of_cons in Hin as [|Hin]; [done|]. auto. }
    rewrite dict_set_fresh in H by done. apply IH in H as [-> Hd].
    + by rewrite <- app_assoc in *.
    + rewrite fmap_app. apply NoDup_app. split; [done|]. split; [|apply NoDup_singleton].
      intros k Hk ->%list_elem_of_singleton. done.
Qed.

Lemma reject_duplicates_Ok duplicate pairs d :
  add_pairs duplicate [] pairs = Ok d → d = pairs ∧ NoDup d.*1.
Proof. intros H. apply (add_pairs_Ok duplicate [] pairs d); [constructor|done]. Qed.

Lemma add_pairs_Raise duplicate decoded pairs e :
  add_pairs duplicate decoded pairs = Raise e → e = duplicate.
Proof.
  revert decoded. induction pairs as [|[k v] pairs IH]; intros decoded H; cbn in H; [done|].
  apply bind_Raise in H as [H|(u & _ & H)]; [|by eapply IH].
  unfold raise_if in H. destruct (bool_decide _); [|done]. by injection H as <-.
Qed.

(** ** Scalars under the limit on the digits of an integer *)

(** The digits of the numeral that [s] starts with, [r] being what follows it. *)
Definition numeral_digits (s r : pystr) : Z :=
  str_len s - str_len r - (if starts_with [45] s then 1 else 0).

Definition strict_scalar (s : pystr) : result (json * pystr) :=
  '(j, r) ← or_decode_error (scan_other s);
  match j with
  | JInt _ =>
      _ ← raise_if (4300 <? numeral_digits s r)
            (ValueError "Exceeds the limit (4300 digits) for integer string conversion");
      Ok (j, r)
  | _ => Ok (j, r)
  end.

Lemma strict_scalar_Ok s j r : strict_scalar s = Ok (j, r) → scan_other s = Some (j, r).
Proof.
  unfold strict_scalar. intros H. inv_ok. destruct r0 as [j' r']. apply or_decode_error_Ok in Hr.
  destruct j'; inv_ok; congruence.
Qed.

Definition digits_error (e : py_error) : Prop :=
  e = ValueError "Exceeds the limit (4300 digits) for integer string conversion".

Lemma strict_scalar_error s e : strict_scalar s = Raise e → e = JSONDecodeError ∨ digits_error e.
Proof.
  unfold strict_scalar, digits_error. intros H. apply bind_Raise in H as [H|([j r] & _ & H)].
  - destruct (scan_other s); [done|]. injection H as <-. tauto.
  - destruct j; try done. apply bind_Raise in H as [H|(? & _ & ?)]; [|done].
    unfold raise_if in H. destruct (4300 <? _); [|done]. injection H as <-. tauto.
Qed.

Section reader.
Context (hook : list (pystr * json) → result (list (pystr * json))) (scalar : pystr → result (json * pystr)).

Fixpoint strict_value (fuel depth : nat) (s : pystr) : result (json * pystr) :=
  match fuel, s with
  | O, _ | _, [] => Raise JSONDecodeError
  | S fuel, c :: r =>
      if c =? 34 then '(t, r) ← or_decode_error (scan_string r); Ok (JStr t, r)
      else if c =? 91 then
        match depth, skip_ws r with
        | O, _ => Raise RecursionError
        | _, [] => Raise JSONDecodeError
        | S depth, c' :: r' =>
            if c' =? 93 then Ok (JList [], r')
            else '(l, r) ← strict_elements fuel depth (c' :: r'); Ok (JList l, r)
        end
      else if c =? 123 then
        match depth, skip_ws r with
        | O, _ => Raise RecursionError
        | _, [] => Raise JSONDecodeError
        | S depth, c' :: r' =>
            if c' =? 125 then Ok (JDict [], r')
            else
              '(l, r) ← strict_members fuel depth (c' :: r');
              d ← hook l;
              Ok (JDict d, r)
        end
      else scalar s
  end
with strict_elements (fuel depth : nat) (s : pystr) : result (list json * pystr) :=
  match fuel with
  | O => Raise JSONDecodeError
  | S fuel =>
      '(j, r) ← strict_value fuel depth s;
      match skip_ws r with
      | [] => Raise JSONDecodeError
      | c :: r =>
          if c =? 44 then '(l, r) ← strict_elements fuel depth (skip_ws r); Ok (j :: l, r)
          else if c =? 93 then Ok ([j], r) else Raise JSONDecodeError
      end
  end
with strict_members (fuel depth : nat) (s : pystr) : result (list (pystr * json) * pystr) :=
  match fuel, s with
  | O, _ | _, [] => Raise JSONDecodeError
  | S fuel, c :: r =>
      if c =? 34 then
        '(k, r) ← or_decode_error (scan_string r);
        match skip_ws r with
        | [] => Raise JSONDecodeError
        | c :: r =>
            if c =? 58 then
              '(j, r) ← strict_value fuel depth (skip_ws r);
              match skip_ws r with
              | [] => Raise JSONDecodeError
              | c :: r =>
                  if c =? 44 then
                    '(l, r) ← strict_members fuel depth (skip_ws r); Ok ((k, j) :: l, r)
                  else if c =? 125 then Ok ([(k, j)], r) else Raise JSONDecodeError
              end
            else Raise JSONDecodeError
        end
      else Raise JSONDecodeError
  end.

(** Two units of fuel per character are enough ([strict_value_fuel]). *)
Definition strict_document (nesting_limit : nat) (text : pystr) : result json :=
  if starts_with [65279] text then Raise JSONDecodeError
  else
    '(j, r) ← strict_value (2 * length text) nesting_limit (skip_ws text);
    if bool_decide (skip_ws r = []) then Ok j else Raise JSONDecodeError.
(** * Lemmas *)

Lemma scan_string_shorter s t r : scan_string s = Some (t, r) → (length r < length s)%nat.
Proof.
  remember (length s) as n eqn:Hn. assert (length s <= n)%nat as Hle by lia. clear Hn.
  revert s t r Hle. induction n as [|n IH]; intros s t r Hle H; (destruct s as [|c s1]; [done|]); cbn in Hle; [lia|].
  assert (∀ s' x, (length s' <= n)%nat →
    ('(t, r) ← scan_string s'; Some (x :: t, r)) = Some (t, r) → (length r < S n)%nat) as Hrec.
  { intros s' x Hs' Hx. destruct (scan_string s') as [[t' r']|] eqn:E; [|done]. injection Hx as _ <-.
    apply IH in E; [lia|done]. }
  cbn [scan_string] in H. destruct (c =? 34); [by injection H as _ <-; lia|].
  destruct (c =? 92).
  - destruct s1 as [|e s2]; [done|]. cbn [length] in Hle.
    destruct (simple_escape e); [by eapply Hrec; [|exact H]; lia|].
    destruct (e =? 117); [|done].
    destruct s2 as [|h1 [|h2 [|h3 [|h4 s3]]]]; try done. cbn [length] in Hle.
    destruct (hex4 h1 h2 h3 h4) as [u|]; [|done]. rewrite bind_Some_l in H. cbv zeta in H.
    assert (('(t, r) ← scan_string s3; Some (u :: t, r)) = Some (t, r) → (length r < S n)%nat) as H3.
    { intros H3. eapply Hrec; [|exact H3]. lia. }
    destruct (between 55296 56319 u); [|by apply H3].
    destruct s3 as [|b [|v [|g1 [|g2 [|g3 [|g4 s4]]]]]]; try by apply H3. cbn [length] in Hle.
    destruct (if (b =? 92) && (v =? 117) then hex4 g1 g2 g3 g4 else None) as [w|]; [|by apply H3].
    destruct (between 56320 57343 w); [|by apply H3]. eapply Hrec; [|exact H]. lia.
  - destruct (c <? 32); [done|]. eapply Hrec; [|exact H]. lia.
Qed.

Lemma span_digits_length s ds r : span_digits s = (ds, r) → length s = (length ds + length r)%nat.
Proof.
  revert ds r; induction s as [|c s IH]; intros ds r H; cbn in H; [by injection H as <- <-|].
  destruct (is_digit c); [|by injection H as <- <-].
  destruct (span_digits s) as [ds' r'] eqn:E. injection H as <- <-. cbn. by rewrite (IH ds' r').
Qed.

Lemma frac_part_shorter s x r : frac_part s = Some (x, r) → (length r <= length s)%nat.
Proof.
  destruct s as [|c s]; [done|]. cbn. destruct (c =? 46); [|done].
  destruct (span_digits s) as [ds r'] eqn:E. apply span_digits_length in E.
  case_bool_decide; [done|]. intros [= _ <-]. lia.
Qed.

Lemma exp_part_shorter s x r : exp_part s = Some (x, r) → (length r <= length s)%nat.
Proof.
  destruct s as [|c s]; [done|]. cbn. destruct (one_of _ c); [|done].
  destruct (match s with [] => _ | _ => _ end) as [sign s''] eqn:Es.
  assert (length s'' <= length s)%nat as Hs.
  { destruct s as [|g s]; [by injection Es as <- <-|]. destruct (one_of _ g); injection Es as <- <-; cbn; lia. }
  destruct (span_digits s'') as [ds r'] eqn:E. apply span_digits_length in E.
  case_bool_decide; [done|]. intros [= _ <-]. lia.
Qed.

Lemma int_part_shorter s ds r : int_part s = Some (ds, r) → (length r < length s)%nat.
Proof.
  destruct s as [|c s]; [done|]. cbn [int_part]. destruct (c =? 48); [intros [= _ <-]; cbn; lia|].
  destruct (is_digit c) eqn:Ec; [|done]. intros H. injection H as H. cbn in H. rewrite Ec in H.
  destruct (span_digits s) as [ds' r'] eqn:E. apply span_digits_length in E. injection H as _ <-. cbn. lia.
Qed.

Lemma default_shorter (o : option (pystr * pystr)) s x r :
  (∀ x r, o = Some (x, r) → (length r <= length s)%nat) →
  default ([], s) o = (x, r) → (length r <= length s)%nat.
Proof. destruct o as [[y r']|]; cbn; intros Ho [= <- <-]; [by eapply Ho|lia]. Qed.

Lemma scan_number_shorter s j r : scan_number s = Some (j, r) → (length r < length s)%nat.
Proof.
  unfold scan_number. destruct (match s with [] => _ | _ => _ end) as [neg s'] eqn:Es.
  assert (length s' <= length s)%nat as Hs.
  { destruct s as [|c s]; [by injection Es as <- <-|]. destruct (c =? 45); injection Es as <- <-; cbn; lia. }
  destruct (int_part s') as [[ds r1]|] eqn:E1; [|done]. apply int_part_shorter in E1. rewrite bind_Some_l.
  destruct (default ([], r1) (frac_part r1)) as [frac r2] eqn:E2.
  apply default_shorter in E2; [|apply frac_part_shorter].
  destruct (default ([], r2) (exp_part r2)) as [exp r3] eqn:E3.
  apply default_shorter in E3; [|apply exp_part_shorter].
  case_bool_decide; intros [= _ <-]; lia.
Qed.

Lemma scan_constant_shorter p j s j' r :
  p ≠ [] → scan_constant p j s = Some (j', r) → (length r < length s)%nat.
Proof.
  intros Hp. unfold scan_constant, strip_prefix, starts_with.
  destruct (bool_decide (take (length p) s = p)) eqn:E; [|done]. apply bool_decide_true_1 in E.
  intros [= _ <-]. rewrite length_drop. apply (f_equal length) in E. rewrite length_take in E.
  destruct p; [done|]. cbn [length] in *. lia.
Qed.

Lemma scan_other_shorter s j r : scan_other s = Some (j, r) → (length r < length s)%nat.
Proof.
  unfold scan_other.
  do 6 (match goal with |- context [match scan_constant ?p ?j s with Some _ => _ | None => _ end] =>
    let E := fresh in destruct (scan_constant p j s) as [[? ?]|] eqn:E;
    [intros [= <- <-]; apply scan_constant_shorter in E; [exact E|discriminate]|clear E] end).
  apply scan_number_shorter.
Qed.

Lemma scan_other_nodup s j r : scan_other s = Some (j, r) → json_nodup j.
Proof.
  unfold scan_other. do 6 (match goal with |- context [match scan_constant ?p ?j s with Some _ => _ | None => _ end] =>
    let E := fresh in destruct (scan_constant p j s) as [[? ?]|] eqn:E;
    [unfold scan_constant in E; destruct (strip_prefix _ _); [|done]; injection E as <- <-;
     intros [= <- <-]; constructor|clear E] end).
  unfold scan_number. destruct (match s with [] => _ | _ => _ end) as [neg s'].
  destruct (int_part s') as [[ds r1]|]; [|done]. rewrite bind_Some_l.
  destruct (default _ (frac_part r1)) as [frac r2]. destruct (default _ (exp_part r2)) as [exp r3].
  case_bool_decide; intros [= <- _]; constructor.
Qed.

(** * The reader, for hooks that only refuse *)
Context (scalar_Ok : ∀ s j r, scalar s = Ok (j, r) → scan_other s = Some (j, r)).
Context (hook_Ok : ∀ pairs d, hook pairs = Ok d → d = dict_of_pairs pairs).

(** The three readers consume at least one character. *)
Lemma strict_shorter fuel :
  (∀ depth s j r, strict_value fuel depth s = Ok (j, r) → (length r < length s)%nat)
  ∧ (∀ depth s l r, strict_elements fuel depth s = Ok (l, r) → (length r < length s)%nat)
  ∧ (∀ depth s l r, strict_members fuel depth s = Ok (l, r) → (length r < length s)%nat).
Proof using scalar_Ok.
  induction fuel as [|fuel (IHv & IHe & IHm)]; [by repeat split; intros|].
  repeat split; intros depth s x r H.
  - destruct s as [|c s]; [done|]. cbn [strict_value] in H.
    pose proof (drop_while_length is_ws s) as Hws.
    destruct (c =? 34).
    { inv_ok. destruct r0 as [t r']. apply or_decode_error_Ok, scan_string_shorter in Hr.
      injection H as _ <-. cbn. lia. }
    destruct (c =? 91); [|destruct (c =? 123)].
    + destruct depth as [|depth]; [done|]. unfold skip_ws in *. destruct (drop_while is_ws s) as [|c' r'] eqn:E; [done|].
      destruct (c' =? 93); [injection H as _ <-; cbn in *; lia|].
      inv_ok. destruct r0 as [l r0]. apply IHe in Hr. injection H as _ <-. cbn in *. lia.
    + destruct depth as [|depth]; [done|]. unfold skip_ws in *. destruct (drop_while is_ws s) as [|c' r'] eqn:E; [done|].
      destruct (c' =? 125); [injection H as _ <-; cbn in *; lia|].
      inv_ok. destruct r0 as [l r0]. apply IHm in Hr. inv_ok. injection H as _ <-. cbn in *. lia.
    + by apply scalar_Ok, scan_other_shorter in H.
  - cbn [strict_elements] in H. inv_ok. destruct r0 as [j r1]. apply IHv in Hr.
    pose proof (drop_while_length is_ws r1) as Hws. unfold skip_ws in *. destruct (drop_while is_ws r1) as [|c r2]; [done|].
    destruct (c =? 44).
    + inv_ok. destruct r0 as [l r3]. apply IHe in Hr0. injection H as _ <-.
      pose proof (drop_while_length is_ws r2). cbn in *. lia.
    + destruct (c =? 93); [|done]. injection H as _ <-. cbn in *. lia.
  - destruct s as [|c s]; [done|]. cbn [strict_members] in H. destruct (c =? 34); [|done].
    inv_ok. destruct r0 as [k r1]. apply or_decode_error_Ok, scan_string_shorter in Hr.
    pose proof (drop_while_length is_ws r1) as Hws. unfold skip_ws in *. destruct (drop_while is_ws r1) as [|c1 r2]; [done|].
    destruct (c1 =? 58); [|done]. inv_ok. destruct r0 as [j r3]. apply IHv in Hr0.
    pose proof (drop_while_length is_ws r2). pose proof (drop_while_length is_ws r3).
    destruct (drop_while is_ws r3) as [|c2 r4]; [done|]. destruct (c2 =? 44).
    + inv_ok. destruct r0 as [l r5]. apply IHm in Hr1. injection H as _ <-.
      pose proof (drop_while_length is_ws r4). cbn in *. lia.
    + destruct (c2 =? 125); [|done]. injection H as _ <-. cbn in *. lia.
Qed.

(** More fuel than two units per character changes nothing. *)
Lemma strict_fuel n :
  (∀ s f f' depth, (length s < n)%nat → (2 * length s <= f)%nat → (2 * length s <= f')%nat →
     strict_value f depth s = strict_value f' depth s)
  ∧ (∀ s f f' depth, (length s < n)%nat → (2 * length s + 1 <= f)%nat → (2 * length s + 1 <= f')%nat →
       strict_elements f depth s = strict_elements f' depth s)
  ∧ (∀ s f f' depth, (length s < n)%nat → (2 * length s + 1 <= f)%nat → (2 * length s + 1 <= f')%nat →
       strict_members f depth s = strict_members f' depth s).
Proof using scalar_Ok.
  induction n as [|n (IHv & IHe & IHm)]; [by repeat split; intros; lia|].
  assert (∀ s f f' depth, (length s < S n)%nat → (2 * length s <= f)%nat → (2 * length s <= f')%nat →
    strict_value f depth s = strict_value f' depth s) as Hv.
  { intros [|c s] f f' depth Hn Hf Hf'; [by destruct f, f'|]. cbn [length] in *.
    destruct f as [|f], f' as [|f']; [lia..|]. cbn [strict_value]. destruct (c =? 34); [done|].
    pose proof (drop_while_length is_ws s) as Hws. fold (skip_ws s) in Hws.
    destruct (c =? 91); [|destruct (c =? 123); [|done]]; (destruct depth as [|depth]; [done|]);
      destruct (skip_ws s) as [|c' r']; try done; cbn [length] in Hws.
    - rewrite (IHe (c' :: r') f f' depth) by (cbn [length]; lia). done.
    - rewrite (IHm (c' :: r') f f' depth) by (cbn [length]; lia). done. }
  repeat split; [exact Hv| |]; intros s f f' depth Hn Hf Hf'; (destruct f as [|f], f' as [|f']; [lia..|]).
  - cbn [strict_elements]. rewrite (Hv s f f' depth) by lia.
    destruct (strict_value f' depth s) as [[j r]|e] eqn:E; [|done]. apply strict_shorter in E.
    rewrite !bind_Ok_l. cbv iota. pose proof (drop_while_length is_ws r). unfold skip_ws.
    destruct (drop_while is_ws r) as [|c r2]; [done|]. pose proof (drop_while_length is_ws r2). cbn [length] in *.
    rewrite (IHe _ f f' depth) by lia. done.
  - destruct s as [|c s]; [done|]. cbn [strict_members length] in *. destruct (c =? 34); [|done].
    destruct (or_decode_error (scan_string s)) as [[k r]|e] eqn:E; [|done].
    apply or_decode_error_Ok, scan_string_shorter in E. rewrite !bind_Ok_l. cbv iota.
    pose proof (drop_while_length is_ws r). unfold skip_ws.
    destruct (drop_while is_ws r) as [|c1 r2]; [done|]. pose proof (drop_while_length is_ws r2). cbn [length] in *.
    destruct (c1 =? 58); [|done]. rewrite (Hv _ f f' depth) by lia.
    destruct (strict_value f' depth _) as [[j r3]|e] eqn:E3; [|done]. apply strict_shorter in E3.
    rewrite !bind_Ok_l. cbv iota. pose proof (drop_while_length is_ws r3).
    destruct (drop_while is_ws r3) as [|c2 r4]; [done|]. pose proof (drop_while_length is_ws r4). cbn [length] in *.
    rewrite (IHm _ f f' depth) by lia. done.
Qed.

Lemma strict_value_fuel s f depth :
  (2 * length s <= f)%nat → strict_value f depth s = strict_value (2 * length s) depth s.
Proof using scalar_Ok. intros H. apply (proj1 (strict_fuel (S (length s)))); lia. Qed.

(** A strictly read document is what [json.loads] reads, without a duplicate
    key at any depth. *)
Lemma strict_sound fuel :
  (∀ depth s j r, strict_value fuel depth s = Ok (j, r) → parse_value fuel s = Some (j, r) ∧ json_nodup j)
  ∧ (∀ depth s l r, strict_elements fuel depth s = Ok (l, r) →
       parse_elements fuel s = Some (l, r) ∧ Forall json_nodup l)
  ∧ (∀ depth s l r, strict_members fuel depth s = Ok (l, r) →
       parse_members fuel s = Some (l, r) ∧ Forall (λ kv, json_nodup kv.2) l).
Proof using scalar_Ok hook_Ok.
  induction fuel as [|fuel (IHv & IHe & IHm)]; [by repeat split; intros|].
  split; [|split]; intros depth s x r H.
  - destruct s as [|c s]; [done|]. cbn [strict_value parse_value] in *. destruct (c =? 34).
    { inv_ok. destruct r0 as [t r']. apply or_decode_error_Ok in Hr. rewrite Hr.
      injection H as <- <-. split; [done|constructor]. }
    destruct (c =? 91); [|destruct (c =? 123)].
    + destruct depth as [|depth]; [done|]. destruct (skip_ws s) as [|c' r']; [done|].
      destruct (c' =? 93); [injection H as <- <-; split; [done|by repeat constructor]|].
      inv_ok. destruct r0 as [l r0]. apply IHe in Hr as [-> Hl]. injection H as <- <-. split; [done|by constructor].
    + destruct depth as [|depth]; [done|]. destruct (skip_ws s) as [|c' r']; [done|].
      destruct (c' =? 125); [injection H as <- <-; split; [done|constructor; constructor]|].
      inv_ok. destruct r0 as [l r0]. apply IHm in Hr as [-> Hl]. inv_ok. apply hook_Ok in Hr as ->.
      injection H as <- <-. split; [done|]. constructor; [apply NoDup_dict_of_pairs|by apply Forall_dict_of_pairs].
    + apply scalar_Ok in H. split; [done|by eapply scan_other_nodup].
  - cbn [strict_elements parse_elements] in *. inv_ok. destruct r0 as [j r1]. apply IHv in Hr as [-> Hj].
    rewrite bind_Some_l. destruct (skip_ws r1) as [|c r2]; [done|]. destruct (c =? 44).
    + inv_ok. destruct r0 as [l r3]. apply IHe in Hr as [-> Hl]. injection H as <- <-. split; [done|by constructor].
    + destruct (c =? 93); [|done]. injection H as <- <-. split; [done|by repeat constructor].
  - destruct s as [|c s]; [done|]. cbn [strict_members parse_members] in *. destruct (c =? 34); [|done].
    inv_ok. destruct r0 as [k r1]. apply or_decode_error_Ok in Hr. rewrite Hr, bind_Some_l.
    destruct (skip_ws r1) as [|c1 r2]; [done|]. destruct (c1 =? 58); [|done].
    inv_ok. destruct r0 as [j r3]. apply IHv in Hr0 as [-> Hj]. rewrite bind_Some_l.
    destruct (skip_ws r3) as [|c2 r4]; [done|]. destruct (c2 =? 44).
    + inv_ok. destruct r0 as [l r5]. apply IHm in Hr0 as [-> Hl]. injection H as <- <-. split; [done|by constructor].
    + destruct (c2 =? 125); [|done]. injection H as <- <-. split; [done|by repeat constructor].
Qed.

Lemma strict_document_sound nesting_limit text j :
  strict_document nesting_limit text = Ok j → loads text = Some j ∧ json_nodup j.
Proof using scalar_Ok hook_Ok.
  unfold strict_document, loads. destruct (starts_with _ text); [done|]. intros H. inv_ok.
  destruct r as [j' r]. apply strict_sound in Hr as [-> Hj]. rewrite bind_Some_l.
  destruct (bool_decide (skip_ws r = [])); [|done]. by apply Ok_inj in H as <-.
Qed.

(** The exceptions of the reader are those of its hooks and two more. *)
Context (hook_error : py_error → Prop).
Context (scalar_error : ∀ s e, scalar s = Raise e → e = JSONDecodeError ∨ hook_error e).
Context (pairs_error : ∀ pairs e, hook pairs = Raise e → hook_error e).

Definition reader_error (e : py_error) : Prop := e = JSONDecodeError ∨ e = RecursionError ∨ hook_error e.

Lemma strict_error fuel :
  (∀ depth s e, strict_value fuel depth s = Raise e → reader_error e)
  ∧ (∀ depth s e, strict_elements fuel depth s = Raise e → reader_error e)
  ∧ (∀ depth s e, strict_members fuel depth s = Raise e → reader_error e).
Proof using scalar_error pairs_error.
  assert (reader_error JSONDecodeError) as Hj by (by left).
  assert (reader_error RecursionError) as Hrec by (by right; left).
  assert (∀ A (o : option A) e, or_decode_error o = Raise e → reader_error e) as Ho.
  { intros A [a|] e; [done|]. by intros [= <-]. }
  induction fuel as [|fuel (IHv & IHe & IHm)]; [by repeat split; intros ? ? ? [= <-]|].
  split; [|split]; intros depth s e H.
  - destruct s as [|c s]; [by injection H as <-|]. cbn [strict_value] in H. destruct (c =? 34).
    { apply bind_Raise in H as [H|([t r] & _ & H)]; [by eapply Ho|done]. }
    destruct (c =? 91); [|destruct (c =? 123); [|by apply scalar_error in H as [->|H]; [done|do 2 right]]];
      (destruct depth as [|depth]; [by injection H as <-|]);
      (destruct (skip_ws s) as [|c' r']; [by injection H as <-|]).
    + destruct (c' =? 93); [done|]. apply bind_Raise in H as [H|([l r] & _ & H)]; [by eapply IHe|done].
    + destruct (c' =? 125); [done|]. apply bind_Raise in H as [H|([l r] & _ & H)]; [by eapply IHm|].
      apply bind_Raise in H as [H|(d & _ & H)]; [by apply pairs_error in H; do 2 right|done].
  - cbn [strict_elements] in H. apply bind_Raise in H as [H|([j r] & _ & H)]; [by eapply IHv|].
    destruct (skip_ws r) as [|c r2]; [by injection H as <-|]. destruct (c =? 44).
    + apply bind_Raise in H as [H|([l r3] & _ & H)]; [by eapply IHe|done].
    + destruct (c =? 93); [done|]. by injection H as <-.
  - destruct s as [|c s]; [by injection H as <-|]. cbn [strict_members] in H.
    destruct (c =? 34); [|by injection H as <-].
    apply bind_Raise in H as [H|([k r] & _ & H)]; [by eapply Ho|].
    destruct (skip_ws r) as [|c1 r2]; [by injection H as <-|]. destruct (c1 =? 58); [|by injection H as <-].
    apply bind_Raise in H as [H|([j r3] & _ & H)]; [by eapply IHv|].
    destruct (skip_ws r3) as [|c2 r4]; [by injection H as <-|]. destruct (c2 =? 44).
    + apply bind_Raise in H as [H|([l r5] & _ & H)]; [by eapply IHm|done].
    + destruct (c2 =? 125); [done|]. by injection H as <-.
Qed.

Lemma strict_document_error nesting_limit text e : strict_document nesting_limit text = Raise e → reader_error e.
Proof using scalar_error pairs_error.
  unfold strict_document. destruct (starts_with _ text); [intros [= <-]; by left|].
  intros [H|([j r] & _ & H)]%bind_Raise; [by eapply (proj1 (strict_error _))|].
  destruct (bool_decide _); [done|]. injection H as <-. by left.
Qed.

(** Brackets nested deeper than the recursion limit. *)
Lemma strict_value_brackets n fuel rest :
  (2 * n + 1 <= fuel)%nat → strict_value fuel n (repeat 91 (S n) ++ rest) = Raise RecursionError.
Proof.
  revert fuel. induction n as [|n IH]; intros fuel Hf.
  - destruct fuel as [|fuel]; [lia|]. done.
  - destruct fuel as [|[|fuel]]; [lia..|]. cbn [repeat app strict_value Z.eqb Pos.eqb].
    rewrite (skip_ws_head 91) by done. cbn [Z.eqb Pos.eqb strict_elements].
    change (91 :: repeat 91 n ++ rest) with (repeat 91 (S n) ++ rest). by rewrite IH by lia.
Qed.

Lemma strict_document_brackets nesting_limit :
  strict_document nesting_limit (repeat 91 (S nesting_limit)) = Raise RecursionError.
Proof.
  unfold strict_document. replace (starts_with [65279] (repeat 91 (S nesting_limit))) with false by done.
  cbn [repeat]. rewrite skip_ws_head by done.
  change (91 :: repeat 91 nesting_limit) with (repeat 91 (S nesting_limit)).
  rewrite <- (app_nil_r (repeat 91 (S nesting_limit))) at 2.
  rewrite strict_value_brackets; [done|]. rewrite repeat_length. lia.
Qed.
End reader.

(** * [json.loads(data)] of bytes, without hooks *)

(** [data.decode("utf-8", "surrogatepass")]: as [utf8_decode], but an encoded
    surrogate is let through. *)
Fixpoint utf8_decode_pass (bs : bytes) : option pystr :=
  match bs with
  | [] => Some []
  | b :: r1 =>
      if between 0 127 b then cons b <$> utf8_decode_pass r1
      else match r1 with
      | [] => None
      | b1 :: r2 =>
          if between 194 223 b && is_cont b1
          then cons ((b - 192) * 64 + (b1 - 128)) <$> utf8_decode_pass r2
          else match r2 with
          | [] => None
          | b2 :: r3 =>
              let c := (b - 224) * 4096 + (b1 - 128) * 64 + (b2 - 128) in
              if between 224 239 b && is_cont b1 && is_cont b2 && between 2048 65535 c
              then cons c <$> utf8_decode_pass r3
              else match r3 with
              | [] => None
              | b3 :: r4 =>
                  let c := (b - 240) * 262144 + (b1 - 128) * 4096 + (b2 - 128) * 64 + (b3 - 128) in
                  if between 240 244 b && is_cont b1 && is_cont b2 && is_cont b3 && between 65536 1114111 c
                  then cons c <$> utf8_decode_pass r4
                  else None
              end
          end
      end
  end.

(** The units of UTF-16 and UTF-32; a truncated last unit is an error. *)
Fixpoint utf16_units (big : bool) (bs : bytes) : option (list Z) :=
  match bs with
  | [] => Some []
  | b0 :: b1 :: r => cons (if big then b0 * 256 + b1 else b1 * 256 + b0) <$> utf16_units big r
  | _ => None
  end.

Fixpoint utf32_units (big : bool) (bs : bytes) : option (list Z) :=
  match bs with
  | [] => Some []
  | b0 :: b1 :: b2 :: b3 :: r =>
      cons (if big then ((b0 * 256 + b1) * 256 + b2) * 256 + b3 else ((b3 * 256 + b2) * 256 + b1) * 256 + b0)
      <$> utf32_units big r
  | _ => None
  end.

(** Surrogate pairs are joined, lone surrogates let through. *)
Fixpoint join_pairs (us : list Z) : pystr :=
  match us with
  | u :: (v :: rest) as tail =>
      if between 55296 56319 u && between 56320 57343 v
      then (65536 + (u - 55296) * 1024 + (v - 56320)) :: join_pairs rest
      else u :: join_pairs tail
  | us => us
  end.

Definition utf16_decode (big : bool) (bs : bytes) : option pystr := join_pairs <$> utf16_units big bs.
Definition utf32_decode (big : bool) (bs : bytes) : option pystr :=
  us ← utf32_units big bs; if forallb (between 0 1114111) us then Some us else None.

(** [data.decode(json.detect_encoding(data), "surrogatepass")]. *)
Definition decode_detected (bs : bytes) : option pystr :=
  match strip_prefix [0; 0; 254; 255] bs, strip_prefix [255; 254; 0; 0] bs,
        strip_prefix [254; 255] bs, strip_prefix [255; 254] bs, strip_prefix [239; 187; 191] bs with
  | Some r, _, _, _, _ => utf32_decode true r
  | _, Some r, _, _, _ => utf32_decode false r
  | _, _, Some r, _, _ => utf16_decode true r
  | _, _, _, Some r, _ => utf16_decode false r
  | _, _, _, _, Some r => utf8_decode_pass r
  | None, None, None, None, None =>
      match bs with
      | b0 :: b1 :: b2 :: b3 :: _ =>
          if b0 =? 0 then (if b1 =? 0 then utf32_decode true bs else utf16_decode true bs)
          else if b1 =? 0 then (if (b2 =? 0) && (b3 =? 0) then utf32_decode false bs else utf16_decode false bs)
          else utf8_decode_pass bs
      | [b0; b1] =>
          if b0 =? 0 then utf16_decode true bs else if b1 =? 0 then utf16_decode false bs else utf8_decode_pass bs
      | _ => utf8_decode_pass bs
      end
  end.

(** The last value of a repeated key is kept. *)
Definition keep_last (pairs : list (pystr * json)) : result (list (pystr * json)) := Ok (dict_of_pairs pairs).

Definition loads_bytes (nesting_limit : nat) (bs : bytes) : result json :=
  match decode_detected bs with
  | None => Raise UnicodeDecodeError
  | Some text => strict_document keep_last strict_scalar nesting_limit text
  end.

Lemma keep_last_Ok pairs d : keep_last pairs = Ok d → d = dict_of_pairs pairs.
Proof. by intros [=]. Qed.

Lemma loads_bytes_Ok nesting_limit bs j :
  loads_bytes nesting_limit bs = Ok j →
  json_nodup j ∧ ∃ text, decode_detected bs = Some text ∧ loads text = Some j.
Proof.
  unfold loads_bytes. destruct (decode_detected bs) as [text|]; [|done]. intros H.
  apply (strict_document_sound _ _ strict_scalar_Ok keep_last_Ok) in H as [H Hj]. split; [done|]. by exists text.
Qed.

Lemma loads_bytes_error nesting_limit bs e :
  loads_bytes nesting_limit bs = Raise e → e = UnicodeDecodeError ∨ reader_error digits_error e.
Proof.
  unfold loads_bytes. destruct (decode_detected bs) as [text|]; [|intros [= <-]; by left]. intros H. right.
  by eapply (strict_document_error keep_last strict_scalar _ strict_scalar_error).
Qed.

(** UTF-8 text as [json.dumps] writes it is read as UTF-8. *)
Lemma utf8_decode_pass_Some bs s : utf8_decode bs = Some s → utf8_decode_pass bs = Some s.
Proof.
  remember (length bs) as n eqn:Hn. assert (length bs <= n)%nat as Hle by lia. clear Hn. revert bs s Hle.
  induction n as [|n IH]; intros [|b r1] s Hle H; cbn [length] in *; [done|lia|done|].
  cbn [utf8_decode utf8_decode_pass] in *.
  assert (∀ c r, (length r <= n)%nat → cons c <$> utf8_decode r = Some s → cons c <$> utf8_decode_pass r = Some s) as Hrec.
  { intros c r Hr Hs. destruct (utf8_decode r) as [s'|] eqn:E; [|done]. by rewrite (IH r s'). }
  destruct (between 0 127 b); [by apply Hrec; [lia|]|]. destruct r1 as [|b1 r2]; [done|]. cbn [length] in *.
  destruct (between 194 223 b && is_cont b1); [by apply Hrec; [lia|]|]. destruct r2 as [|b2 r3]; [done|].
  cbn [length] in *. cbv zeta in *. destruct (between 224 239 b && is_cont b1 && is_cont b2 && _); cbn [andb] in *.
  - destruct (is_surrogate _) eqn:E; cbn [negb] in H; [|by apply Hrec; [lia|]].
    destruct r3 as [|b3 r4]; [done|]. cbn [length] in *.
    destruct (between 240 244 b && is_cont b1 && is_cont b2 && is_cont b3 && _) eqn:E4; [|done].
    exfalso. revert E E4. between_tac.
  - destruct r3 as [|b3 r4]; [done|]. cbn [length] in *.
    destruct (between 240 244 b && is_cont b1 && is_cont b2 && is_cont b3 && _); [by apply Hrec; [lia|]|done].
Qed.
