(* ===== verification/Limits.v ===== *)
(** [json.loads] and [canonical_json] within what the interpreter has left of
    its recursion limits, for the callers that read and re-encode stored text:
    [loads_text], [to_canonical_within] and [canonical_json_within], their
    agreement with the unlimited [loads] and [canonical_json], and the texts
    on which no limit is reached. *)
From S2P Require Import Prelude PyStr Json Canonical Text Reader.

(** What is left at a call: the containers [json.loads] can nest, the nested
    calls [to_canonical_primitive] can make, the containers [json.dumps] can
    nest. *)
Record stack_room := mkRoom { read_room : nat; walk_room : nat; write_room : nat }.

(** [json.loads(text)] of a [str]. *)
Definition loads_text (room : stack_room) (text : pystr) : result json :=
  strict_document keep_last strict_scalar (read_room room) text.

(** [to_canonical_primitive] with room for [room] nested calls of itself. *)
Fixpoint to_canonical_within (room : nat) (value : pyobj) {struct value} : result json :=
  match room with
  | O => Raise RecursionError
  | S room =>
      match value with
      | PyNone => Ok JNull
      | PyStr s => Ok (JStr s)
      | PyBool b => Ok (JBool b)
      | PyInt z => Ok (JInt z)
      | PyFloat _ => Raise (InvalidValue "float values are forbidden in canonical evidence")
      | PyDecimal d => s ← _decimal_string d; Ok (JStr s)
      | PyDatetime d => s ← canonical_timestamp d; Ok (JStr s)
      | PyEnum v => to_canonical_within room v
      | PyPrimitive p => to_canonical_within room p
      | PyDict items =>
          (fix go items normalized :=
             match items with
             | [] => Ok (JDict normalized)
             | (PyStr key, item) :: items =>
                 j ← to_canonical_within room item; go items (dict_set key j normalized)
             | _ :: _ => Raise (InvalidValue "canonical JSON object keys must be strings")
             end) items []
      | PyList items =>
          l ← (fix go items :=
                 match items with
                 | [] => Ok []
                 | item :: items => j ← to_canonical_within room item; l ← go items; Ok (j :: l)
                 end) items;
          Ok (JList l)
      | PyOther type_name =>
          Raise (InvalidValue ("unsupported canonical JSON value type: " +:+ type_name))
      end
  end.

(** The containers a value nests. *)
Fixpoint nesting (j : json) : nat :=
  match j with
  | JList l => S (max_list_with nesting l)
  | JDict d => S (max_list_with (λ kv, nesting kv.2) d)
  | _ => 0
  end.

(** [json.dumps] of what the walk returned. *)
Definition canonical_json_within (room : stack_room) (value : pyobj) : result pystr :=
  j ← to_canonical_within (walk_room room) value;
  _ ← raise_if (write_room room <? nesting j)%nat RecursionError;
  Ok (dumps j).

Definition canonical_json_bytes_within (room : stack_room) (value : pyobj) : result bytes :=
  s ← canonical_json_within room value; utf8_encode s.

(** An exception of the limits. *)
Definition limit_error (e : py_error) : Prop := e = RecursionError ∨ digits_error e.

(** ** Texts within the limits *)

(** The opening brackets of a text, wherever they stand. *)
Definition brackets (s : pystr) : nat := length (filter (λ c, c = 91 ∨ c = 123) s).

(** No run of more than 4300 digits. *)
Definition short_numerals (s : pystr) : Prop :=
  ∀ pre ds post, s = pre ++ ds ++ post → forallb is_digit ds = true → (length ds <= 4300)%nat.

(** Room to read the text, and to write its value inside [outer] containers. *)
Definition text_fits (outer : nat) (room : stack_room) (text : pystr) : Prop :=
  (brackets text <= read_room room)%nat ∧ (S (brackets text) + outer <= walk_room room)%nat
  ∧ (S (brackets text) + outer <= write_room room)%nat ∧ short_numerals text.

(** * Lemmas *)

(** ** The readers consume a prefix *)
Lemma drop_while_suffix p (s : pystr) : drop_while p s `suffix_of` s.
Proof. induction s as [|c s IH]; cbn; [done|]. case_match; [by apply suffix_cons_r|done]. Qed.

Lemma span_digits_app' s ds r : span_digits s = (ds, r) → s = ds ++ r ∧ forallb is_digit ds = true.
Proof.
  revert ds r; induction s as [|c s IH]; intros ds r H; cbn in H; [by injection H as <- <-|].
  destruct (is_digit c) eqn:Ec; [|by injection H as <- <-].
  destruct (span_digits s) as [ds' r'] eqn:E. injection H as <- <-.
  destruct (IH _ _ eq_refl) as [-> Hd]. cbn. by rewrite Ec.
Qed.

Lemma int_part_app s ds r : int_part s = Some (ds, r) → s = ds ++ r ∧ forallb is_digit ds = true.
Proof.
  destruct s as [|c s]; [done|]. cbn [int_part]. destruct (Z.eqb_spec c 48) as [->|_]; [by intros [= <- <-]|].
  destruct (is_digit c); [|done]. intros H. injection H as H. by apply span_digits_app'.
Qed.

Lemma scan_string_suffix s t r : scan_string s = Some (t, r) → r `suffix_of` s.
Proof.
  remember (length s) as n eqn:Hn. assert (length s <= n)%nat as Hle by lia. clear Hn.
  revert s t r Hle. induction n as [|n IH]; intros s t r Hle H; (destruct s as [|c s1]; [done|]); cbn in Hle; [lia|].
  assert (∀ s' x, (length s' <= n)%nat → s' `suffix_of` (c :: s1) →
    ('(t, r) ← scan_string s'; Some (x :: t, r)) = Some (t, r) → r `suffix_of` (c :: s1)) as Hrec.
  { intros s' x Hs' Hsuf Hx. destruct (scan_string s') as [[t' r']|] eqn:E; [|done]. injection Hx as _ <-.
    apply IH in E; [by trans s'|done]. }
  cbn [scan_string] in H. destruct (c =? 34); [injection H as _ <-; by apply suffix_cons_r|].
  destruct (c =? 92).
  - destruct s1 as [|e s2]; [done|]. cbn [length] in Hle.
    assert (s2 `suffix_of` (c :: e :: s2)) as H2 by (by do 2 apply suffix_cons_r).
    destruct (simple_escape e); [by eapply Hrec; [| |exact H]; [lia|]|].
    destruct (e =? 117); [|done].
    destruct s2 as [|h1 [|h2 [|h3 [|h4 s3]]]]; try done. cbn [length] in Hle.
    destruct (hex4 h1 h2 h3 h4) as [u|]; [|done]. rewrite bind_Some_l in H. cbv zeta in H.
    assert (('(t, r) ← scan_string s3; Some (u :: t, r)) = Some (t, r) →
            r `suffix_of` (c :: e :: h1 :: h2 :: h3 :: h4 :: s3)) as H3.
    { intros H3. eapply Hrec; [| |exact H3]; [lia|by do 6 apply suffix_cons_r]. }
    destruct (between 55296 56319 u); [|by apply H3].
    destruct s3 as [|b [|v [|g1 [|g2 [|g3 [|g4 s4]]]]]]; try by apply H3. cbn [length] in Hle.
    destruct (if (b =? 92) && (v =? 117) then hex4 g1 g2 g3 g4 else None) as [w|]; [|by apply H3].
    destruct (between 56320 57343 w); [|by apply H3].
    eapply Hrec; [| |exact H]; [lia|by do 12 apply suffix_cons_r].
  - destruct (c <? 32); [done|]. eapply Hrec; [| |exact H]; [lia|by apply suffix_cons_r].
Qed.

Lemma frac_part_suffix s x r : frac_part s = Some (x, r) → r `suffix_of` s ∧ x ≠ [].
Proof.
  destruct s as [|c s]; [done|]. cbn. destruct (c =? 46); [|done].
  destruct (span_digits s) as [ds r'] eqn:E. apply span_digits_app' in E as [-> _].
  case_bool_decide; [done|]. intros [= <- <-]. split; [by apply suffix_cons_r, suffix_app_r|done].
Qed.

Lemma exp_part_suffix s x r : exp_part s = Some (x, r) → r `suffix_of` s ∧ x ≠ [].
Proof.
  destruct s as [|c s]; [done|]. cbn. destruct (one_of _ c); [|done].
  destruct (match s with [] => _ | _ => _ end) as [sign s''] eqn:Es.
  assert (s'' `suffix_of` s) as Hs.
  { destruct s as [|g s]; [by injection Es as <- <-|].
    destruct (one_of _ g); injection Es as <- <-; [by apply suffix_cons_r|done]. }
  destruct (span_digits s'') as [ds r'] eqn:E. apply span_digits_app' in E as [-> _].
  case_bool_decide; [done|]. intros [= <- <-]. split; [|done].
  apply suffix_cons_r. trans (ds ++ r'); [by apply suffix_app_r|done].
Qed.

(** An optional part that is not there leaves the text as it is. *)
Lemma default_suffix (o : option (pystr * pystr)) s x r :
  (∀ x r, o = Some (x, r) → r `suffix_of` s ∧ x ≠ []) →
  default ([], s) o = (x, r) → r `suffix_of` s ∧ (x = [] → r = s).
Proof. destruct o as [[y r']|]; cbn; intros Ho [= <- <-]; [|done]. by edestruct Ho as [? ?]. Qed.

(** A number consumes a prefix and nests nothing; an integer is an optional
    sign and a run of digits. *)
Lemma scan_number_spec s j r :
  scan_number s = Some (j, r) →
  r `suffix_of` s ∧ nesting j = 0%nat
  ∧ (∀ z, j = JInt z → ∃ ds, s = (if starts_with [45] s then [45] else []) ++ ds ++ r
                             ∧ forallb is_digit ds = true).
Proof.
  unfold scan_number. destruct (match s with [] => _ | _ => _ end) as [neg s'] eqn:Es.
  assert (s = (if starts_with [45] s then [45] else []) ++ s') as Hs.
  { destruct s as [|c s]; [by injection Es as <- <-|]. rewrite (starts_with_cons 45 [] c s), Z.eqb_sym.
    destruct (Z.eqb_spec c 45) as [->|]; by injection Es as <- <-. }
  destruct (int_part s') as [[ds r1]|] eqn:E1; [|done]. apply int_part_app in E1 as [-> Hds].
  rewrite bind_Some_l.
  destruct (default ([], r1) (frac_part r1)) as [frac r2] eqn:E2.
  destruct (default_suffix _ _ _ _ (frac_part_suffix r1) E2) as [H2 Hf].
  destruct (default ([], r2) (exp_part r2)) as [exp r3] eqn:E3.
  destruct (default_suffix _ _ _ _ (exp_part_suffix r2) E3) as [H3 He].
  assert (r3 `suffix_of` s) as H4.
  { rewrite Hs. trans r1; [by trans r2|]. by apply suffix_app_r, suffix_app_r. }
  case_bool_decide as Hd; intros [= <- <-]; (split; [exact H4|]; split; [done|]); [|done].
  intros _ _. exists ds. split; [|done]. apply app_eq_nil in Hd as [-> ->].
  by rewrite (He eq_refl), (Hf eq_refl).
Qed.

Lemma scan_constant_spec p j s j' r : scan_constant p j s = Some (j', r) → j' = j ∧ r `suffix_of` s.
Proof.
  unfold scan_constant, strip_prefix. destruct (starts_with p s); [|done].
  intros [= <- <-]. split; [done|]. exists (take (length p) s). by rewrite take_drop.
Qed.

Lemma scan_other_spec s j r :
  scan_other s = Some (j, r) →
  r `suffix_of` s ∧ nesting j = 0%nat
  ∧ (∀ z, j = JInt z → ∃ ds, s = (if starts_with [45] s then [45] else []) ++ ds ++ r
                             ∧ forallb is_digit ds = true).
Proof.
  unfold scan_other.
  do 6 (match goal with |- context [match scan_constant ?p ?j s with Some _ => _ | None => _ end] =>
    let E := fresh in destruct (scan_constant p j s) as [[? ?]|] eqn:E;
    [intros [= <- <-]; by apply scan_constant_spec in E as [-> ?]|clear E] end).
  apply scan_number_spec.
Qed.

(** ** Brackets bound the nesting *)
Lemma brackets_suffix s r : r `suffix_of` s → (brackets r <= brackets s)%nat.
Proof. intros [k ->]. unfold brackets. rewrite filter_app, length_app. lia. Qed.

Lemma brackets_open c s : c = 91 ∨ c = 123 → brackets (c :: s) = S (brackets s).
Proof. intros H. unfold brackets. by rewrite filter_cons_True. Qed.

Lemma brackets_cons c s : (brackets s <= brackets (c :: s))%nat.
Proof. apply brackets_suffix, suffix_cons_r. done. Qed.

Lemma skip_ws_suffix s c r : skip_ws s = c :: r → r `suffix_of` s.
Proof.
  intros H. trans (c :: r); [by apply suffix_cons_r|]. rewrite <- H. apply drop_while_suffix.
Qed.

(** What a reader returned, [n] being the nesting of the value: a suffix is
    left, and the brackets consumed are no fewer than the nesting. *)
Definition consumed (s : pystr) (n : nat) (r : pystr) : Prop :=
  r `suffix_of` s ∧ (n + brackets r <= brackets s)%nat.

Lemma consumed_prefix s s' n r : s' `suffix_of` s → consumed s' n r → consumed s n r.
Proof.
  intros Hs [Hr Hn]. split; [by trans s'|]. pose proof (brackets_suffix _ _ Hs). lia.
Qed.

Lemma consumed_rest s n r r' : r' `suffix_of` r → consumed s n r → consumed s n r'.
Proof.
  intros Hr [Hs Hn]. split; [by trans r|]. pose proof (brackets_suffix _ _ Hr). lia.
Qed.

Lemma consumed_open c s n r :
  c = 91 ∨ c = 123 → consumed s n r → consumed (c :: s) (S n) r.
Proof.
  intros Hc [Hs Hn]. split; [by apply suffix_cons_r|]. rewrite brackets_open by done. lia.
Qed.

Lemma consumed_max s m r s' n r' :
  consumed s m r → s' `suffix_of` r → consumed s' n r' → consumed s (Nat.max m n) r'.
Proof.
  intros [Hr Hm] Hs [Hr' Hn]. pose proof (brackets_suffix _ _ Hs). pose proof (brackets_suffix _ _ Hr').
  split; [|lia]. trans s'; [done|]. by trans r.
Qed.

Lemma skip_ws_rest s : skip_ws s `suffix_of` s.
Proof. apply drop_while_suffix. Qed.

Lemma max_list_le {A} (f : A → nat) l n : Forall (λ x, (f x <= n)%nat) l → (max_list_with f l <= n)%nat.
Proof. induction 1; cbn; lia. Qed.

Lemma max_list_ge {A} (f : A → nat) l : Forall (λ x, (f x <= max_list_with f l)%nat) l.
Proof.
  induction l as [|x l IH]; constructor; cbn; [lia|]. eapply Forall_impl; [exact IH|]. cbn. lia.
Qed.

(** A dictionary nests no deeper than the pairs it was built from. *)
Lemma nesting_dict_of_pairs l :
  (nesting (JDict (dict_of_pairs l)) <= S (max_list_with (λ kv, nesting kv.2) l))%nat.
Proof.
  cbn [nesting]. apply le_n_S, max_list_le.
  apply (Forall_dict_of_pairs (λ kv, (nesting kv.2 <= _)%nat)), max_list_ge.
Qed.

Lemma parse_consumed fuel :
  (∀ s j r, parse_value fuel s = Some (j, r) → consumed s (nesting j) r)
  ∧ (∀ s l r, parse_elements fuel s = Some (l, r) → consumed s (max_list_with nesting l) r)
  ∧ (∀ s l r, parse_members fuel s = Some (l, r) → consumed s (max_list_with (λ kv, nesting kv.2) l) r).
Proof.
  induction fuel as [|fuel (IHv & IHe & IHm)]; [by repeat split|].
  split; [|split]; intros s x r H.
  - destruct s as [|c s]; [done|]. cbn [parse_value] in H. destruct (Z.eqb_spec c 34) as [->|_].
    { destruct (scan_string s) as [[t r']|] eqn:E; [|done]. injection H as <- <-.
      apply scan_string_suffix in E. split; [by apply suffix_cons_r|].
      apply brackets_suffix. by apply suffix_cons_r. }
    destruct (Z.eqb_spec c 91) as [->|_]; [|destruct (Z.eqb_spec c 123) as [->|_]].
    + destruct (skip_ws s) as [|c' r'] eqn:Ews; [done|].
      apply skip_ws_suffix in Ews as Hr'. destruct (c' =? 93).
      { injection H as <- <-. apply (consumed_open 91 s 0); [by left|]. split; [done|]. by apply brackets_suffix. }
      destruct (parse_elements fuel (c' :: r')) as [[l r0]|] eqn:E; [|done]. injection H as <- <-.
      apply IHe in E. apply (consumed_open 91 s (max_list_with nesting l)); [by left|].
      eapply consumed_prefix; [|exact E]. rewrite <- Ews. apply skip_ws_rest.
    + destruct (skip_ws s) as [|c' r'] eqn:Ews; [done|].
      apply skip_ws_suffix in Ews as Hr'.
      destruct (c' =? 125).
      { injection H as <- <-. apply (consumed_open 123 s 0); [by right|]. split; [done|]. by apply brackets_suffix. }
      destruct (parse_members fuel (c' :: r')) as [[l r0]|] eqn:E; [|done]. injection H as <- <-.
      apply IHm in E. pose proof (nesting_dict_of_pairs l).
      destruct (consumed_open 123 s (max_list_with (λ kv, nesting kv.2) l) r0) as [H1 H2]; [by right| |].
      * eapply consumed_prefix; [|exact E]. rewrite <- Ews. apply skip_ws_rest.
      * split; [done|]. lia.
    + apply scan_other_spec in H as (Hr & -> & _). split; [done|]. by apply brackets_suffix.
  - cbn [parse_elements] in H. destruct (parse_value fuel s) as [[j r1]|] eqn:E1; [|done].
    apply IHv in E1. rewrite bind_Some_l in H. destruct (skip_ws r1) as [|c r2] eqn:Ews; [done|].
    apply skip_ws_suffix in Ews as Hr2. destruct (c =? 44).
    + destruct (parse_elements fuel (skip_ws r2)) as [[l r3]|] eqn:E2; [|done]. injection H as <- <-.
      apply IHe in E2. eapply consumed_max; [exact E1| |exact E2]. trans r2; [apply skip_ws_rest|done].
    + destruct (c =? 93); [|done]. injection H as <- <-. cbn. rewrite Nat.max_0_r. by eapply consumed_rest.
  - destruct s as [|c s]; [done|]. cbn [parse_members] in H. destruct (c =? 34); [|done].
    destruct (scan_string s) as [[k r1]|] eqn:E1; [|done]. apply scan_string_suffix in E1.
    rewrite bind_Some_l in H. destruct (skip_ws r1) as [|c1 r2] eqn:Ews; [done|].
    apply skip_ws_suffix in Ews as Hr2. destruct (c1 =? 58); [|done].
    destruct (parse_value fuel (skip_ws r2)) as [[j r3]|] eqn:E3; [|done]. rewrite bind_Some_l in H.
    apply IHv in E3. eapply consumed_prefix in E3; [|apply skip_ws_rest].
    assert (r2 `suffix_of` (c :: s)) as Hs by (apply suffix_cons_r; trans r1; done).
    apply (consumed_prefix _ _ _ _ Hs) in E3.
    destruct (skip_ws r3) as [|c2 r4] eqn:Ews4; [done|]. apply skip_ws_suffix in Ews4 as Hr4.
    destruct (c2 =? 44).
    + destruct (parse_members fuel (skip_ws r4)) as [[l r5]|] eqn:E5; [|done]. injection H as <- <-.
      apply IHm in E5. eapply consumed_max; [exact E3| |exact E5]. trans r4; [apply skip_ws_rest|done].
    + destruct (c2 =? 125); [|done]. injection H as <- <-. cbn. rewrite Nat.max_0_r. by eapply consumed_rest.
Qed.

Lemma loads_nesting text j : loads text = Some j → (nesting j <= brackets text)%nat.
Proof.
  unfold loads. destruct (starts_with _ text); [done|]. intros H.
  destruct (parse_value _ _) as [[j' r]|] eqn:E; [|done]. apply parse_consumed in E as [_ E].
  pose proof (brackets_suffix _ _ (skip_ws_rest text)). rewrite bind_Some_l in H.
  destruct (bool_decide _); [|done]. injection H as <-. lia.
Qed.

(** ** The limited reader agrees with [loads] *)
#[local] Abbreviation sval := (strict_value keep_last strict_scalar).
#[local] Abbreviation selems := (strict_elements keep_last strict_scalar).
#[local] Abbreviation smembers := (strict_members keep_last strict_scalar).

Lemma strict_parse fuel :
  (∀ depth s j r, sval fuel depth s = Ok (j, r) → parse_value fuel s = Some (j, r))
  ∧ (∀ depth s l r, selems fuel depth s = Ok (l, r) → parse_elements fuel s = Some (l, r))
  ∧ (∀ depth s l r, smembers fuel depth s = Ok (l, r) → parse_members fuel s = Some (l, r)).
Proof.
  destruct (strict_sound keep_last strict_scalar strict_scalar_Ok keep_last_Ok fuel) as (Hv & He & Hm).
  split_and!; intros depth s x r H; [by apply Hv in H as [H _]|by apply He in H as [H _]|by apply Hm in H as [H _]].
Qed.

Lemma strict_scalar_decode s : strict_scalar s = Raise JSONDecodeError → scan_other s = None.
Proof.
  unfold strict_scalar. destruct (scan_other s) as [[j r]|]; [|done]. cbn.
  destruct j; try done. unfold raise_if. by destruct (4300 <? _).
Qed.

Lemma or_decode_error_Raise {A} (o : option A) e : or_decode_error o = Raise e → o = None ∧ e = JSONDecodeError.
Proof. destruct o; cbn; naive_solver. Qed.

(** What the limited reader refuses as no JSON is no JSON for [loads]. *)
Lemma strict_none fuel :
  (∀ depth s, sval fuel depth s = Raise JSONDecodeError → parse_value fuel s = None)
  ∧ (∀ depth s, selems fuel depth s = Raise JSONDecodeError → parse_elements fuel s = None)
  ∧ (∀ depth s, smembers fuel depth s = Raise JSONDecodeError → parse_members fuel s = None).
Proof.
  induction fuel as [|fuel (IHv & IHe & IHm)]; [by repeat split|].
  destruct (strict_parse fuel) as (Pv & Pe & Pm). split; [|split]; intros depth s H.
  - destruct s as [|c s]; [done|]. cbn [strict_value parse_value] in *. destruct (c =? 34).
    { apply bind_Raise in H as [[-> _]%or_decode_error_Raise|([] & _ & H)]; done. }
    destruct (c =? 91); [|destruct (c =? 123); [|by apply strict_scalar_decode]];
      (destruct depth as [|depth]; [done|]); (destruct (skip_ws s) as [|c' r']; [done|]).
    + destruct (c' =? 93); [done|]. apply bind_Raise in H as [->%IHe|([] & _ & H)]; done.
    + destruct (c' =? 125); [done|]. apply bind_Raise in H as [->%IHm|([] & _ & H)]; done.
  - cbn [strict_elements parse_elements] in *.
    apply bind_Raise in H as [->%IHv|([j r1] & ->%Pv & H)]; [done|]. rewrite bind_Some_l.
    destruct (skip_ws r1) as [|c r2]; [done|]. destruct (c =? 44); [|by destruct (c =? 93)].
    apply bind_Raise in H as [->%IHe|([] & _ & H)]; done.
  - destruct s as [|c s]; [done|]. cbn [strict_members parse_members] in *. destruct (c =? 34); [|done].
    apply bind_Raise in H as [[-> _]%or_decode_error_Raise|([k r1] & ->%or_decode_error_Ok & H)]; [done|].
    rewrite bind_Some_l. destruct (skip_ws r1) as [|c1 r2]; [done|]. destruct (c1 =? 58); [|done].
    apply bind_Raise in H as [->%IHv|([j r3] & ->%Pv & H)]; [done|]. rewrite bind_Some_l.
    destruct (skip_ws r3) as [|c2 r4]; [done|]. destruct (c2 =? 44); [|by destruct (c2 =? 125)].
    apply bind_Raise in H as [->%IHm|([] & _ & H)]; done.
Qed.

Lemma loads_text_Ok room text j : loads_text room text = Ok j → loads text = Some j.
Proof. intros H. by apply (strict_document_sound _ _ strict_scalar_Ok keep_last_Ok) in H as [H _]. Qed.

Lemma loads_text_decode room text : loads_text room text = Raise JSONDecodeError → loads text = None.
Proof.
  unfold loads_text, strict_document, loads. destruct (starts_with _ text); [done|].
  intros [->%strict_none|([j r] & ->%strict_parse & H)]%bind_Raise; [done|]. rewrite bind_Some_l.
  by destruct (bool_decide _).
Qed.

Lemma loads_text_error room text e : loads_text room text = Raise e → e = JSONDecodeError ∨ limit_error e.
Proof. intros H. by apply (strict_document_error keep_last strict_scalar _ strict_scalar_error) in H. Qed.

(** ** No limit is reached on a text that fits *)
Lemma short_numerals_suffix s r : r `suffix_of` s → short_numerals s → short_numerals r.
Proof. intros [k ->] H pre ds post ->. apply (H (k ++ pre) ds post). by rewrite <- app_assoc. Qed.

Lemma short_numerals_length s : (length s <= 4300)%nat → short_numerals s.
Proof. intros H pre ds post ->. rewrite !length_app in H. lia. Qed.

Lemma strict_scalar_short s e : short_numerals s → strict_scalar s = Raise e → e = JSONDecodeError.
Proof.
  unfold strict_scalar. intros Hs [[_ ->]%or_decode_error_Raise|([j r] & Hj & H)]%bind_Raise; [done|].
  destruct j; try done. apply or_decode_error_Ok, scan_other_spec in Hj as (_ & _ & Hj).
  destruct (Hj _ eq_refl) as (ds & E & Hds). exfalso. specialize (Hs _ _ _ E Hds).
  unfold raise_if in H. destruct (Z.ltb_spec 4300 (numeral_digits s r)) as [Hlt|]; [|done].
  unfold numeral_digits, str_len in Hlt. rewrite E in Hlt at 1. rewrite !length_app in Hlt.
  destruct (starts_with [45] s); cbn in Hlt; lia.
Qed.

(** No text left to read has more brackets than the depth that is left. *)
Definition readable (depth : nat) (s : pystr) : Prop := (brackets s <= depth)%nat ∧ short_numerals s.

Lemma readable_suffix depth s r : r `suffix_of` s → readable depth s → readable depth r.
Proof.
  intros Hr [Hb Hs]. split; [|by eapply short_numerals_suffix]. pose proof (brackets_suffix _ _ Hr). lia.
Qed.

Lemma readable_open c depth s r :
  c = 91 ∨ c = 123 → r `suffix_of` s → readable depth (c :: s) →
  ∃ depth', depth = S depth' ∧ readable depth' r.
Proof.
  intros Hc Hr [Hb Hs]. rewrite brackets_open in Hb by done. destruct depth as [|depth]; [lia|].
  exists depth. split; [done|]. apply (readable_suffix _ s); [done|]. split; [lia|].
  eapply short_numerals_suffix; [|exact Hs]. by apply suffix_cons_r.
Qed.

Lemma strict_fits fuel :
  (∀ depth s e, readable depth s → sval fuel depth s = Raise e → e = JSONDecodeError)
  ∧ (∀ depth s e, readable depth s → selems fuel depth s = Raise e → e = JSONDecodeError)
  ∧ (∀ depth s e, readable depth s → smembers fuel depth s = Raise e → e = JSONDecodeError).
Proof.
  induction fuel as [|fuel (IHv & IHe & IHm)]; [by repeat split; intros ? ? ? ? [= <-]|].
  split; [|split]; intros depth s e Hs H.
  - destruct s as [|c s]; [by injection H as <-|]. cbn [strict_value] in H. destruct (c =? 34).
    { apply bind_Raise in H as [[_ ->]%or_decode_error_Raise|([] & _ & H)]; done. }
    destruct (Z.eqb_spec c 91) as [->|_]; [|destruct (Z.eqb_spec c 123) as [->|_]].
    + destruct (readable_open 91 depth s _ (or_introl eq_refl) (skip_ws_rest s) Hs) as (depth' & -> & Hr).
      destruct (skip_ws s) as [|c' r']; [by injection H as <-|]. destruct (c' =? 93); [done|].
      apply bind_Raise in H as [H|([] & _ & H)]; [by eapply IHe|done].
    + destruct (readable_open 123 depth s _ (or_intror eq_refl) (skip_ws_rest s) Hs) as (depth' & -> & Hr).
      destruct (skip_ws s) as [|c' r']; [by injection H as <-|]. destruct (c' =? 125); [done|].
      apply bind_Raise in H as [H|([] & _ & H)]; [by eapply IHm|done].
    + by apply strict_scalar_short in H; [|apply Hs].
  - cbn [strict_elements] in H. apply bind_Raise in H as [H|([j r1] & Hv & H)]; [by eapply IHv|].
    apply strict_parse, parse_consumed in Hv as [Hr1 _].
    destruct (skip_ws r1) as [|c r2] eqn:Ews; [by injection H as <-|]. apply skip_ws_suffix in Ews.
    destruct (c =? 44); [|destruct (c =? 93); [done|by injection H as <-]].
    apply bind_Raise in H as [H|([] & _ & H)]; [|done]. eapply IHe; [|exact H].
    eapply readable_suffix; [|exact Hs]. trans r2; [apply skip_ws_rest|]. by trans r1.
  - destruct s as [|c s]; [by injection H as <-|]. cbn [strict_members] in H.
    destruct (c =? 34); [|by injection H as <-].
    apply bind_Raise in H as [[_ ->]%or_decode_error_Raise|([k r1] & Hk & H)]; [done|].
    apply or_decode_error_Ok, scan_string_suffix in Hk.
    destruct (skip_ws r1) as [|c1 r2] eqn:Ews; [by injection H as <-|]. apply skip_ws_suffix in Ews.
    destruct (c1 =? 58); [|by injection H as <-].
    assert (skip_ws r2 `suffix_of` (c :: s)) as H2.
    { apply suffix_cons_r. trans r2; [apply skip_ws_rest|]. by trans r1. }
    apply (readable_suffix _ _ _ H2) in Hs.
    apply bind_Raise in H as [H|([j r3] & Hv & H)]; [by eapply IHv|].
    apply strict_parse, parse_consumed in Hv as [Hr3 _].
    destruct (skip_ws r3) as [|c2 r4] eqn:Ews4; [by injection H as <-|]. apply skip_ws_suffix in Ews4.
    destruct (c2 =? 44); [|destruct (c2 =? 125); [done|by injection H as <-]].
    apply bind_Raise in H as [H|([] & _ & H)]; [|done]. eapply IHm; [|exact H].
    eapply readable_suffix; [|exact Hs]. trans r4; [apply skip_ws_rest|]. by trans r3.
Qed.

Lemma loads_text_fits outer room text e : text_fits outer room text → loads_text room text = Raise e → e = JSONDecodeError.
Proof.
  intros (Hb & _ & _ & Hs). unfold loads_text, strict_document.
  destruct (starts_with _ text); [by intros [= <-]|].
  intros [H|([j r] & _ & H)]%bind_Raise.
  - eapply (proj1 (strict_fits _)); [|exact H]. apply (readable_suffix _ text); [apply skip_ws_rest|done].
  - destruct (bool_decide _); [done|]. by injection H as <-.
Qed.

(** ** The limited walk agrees with [to_canonical_primitive] *)

(** The two loops of the walk, named. *)
Fixpoint items_within (room : nat) (items : list (pyobj * pyobj)) (acc : list (pystr * json)) :
    result (list (pystr * json)) :=
  match items with
  | [] => Ok acc
  | (PyStr key, item) :: items =>
      j ← to_canonical_within room item; items_within room items (dict_set key j acc)
  | _ :: _ => Raise (InvalidValue "canonical JSON object keys must be strings")
  end.

Fixpoint list_within (room : nat) (items : list pyobj) : result (list json) :=
  match items with
  | [] => Ok []
  | item :: items => j ← to_canonical_within room item; l ← list_within room items; Ok (j :: l)
  end.

Lemma to_canonical_within_dict room items :
  to_canonical_within (S room) (PyDict items) = d ← items_within room items []; Ok (JDict d).
Proof.
  cbn [to_canonical_within]. generalize (@nil (pystr * json)) as acc.
  induction items as [|[k v] items IH]; intros acc; [done|]. destruct k; try done. cbn [items_within].
  destruct (to_canonical_within room v); [|done]. rewrite !bind_Ok_l. apply IH.
Qed.

Lemma to_canonical_within_list room items :
  to_canonical_within (S room) (PyList items) = l ← list_within room items; Ok (JList l).
Proof.
  cbn [to_canonical_within]. f_equal. induction items as [|v items IH]; [done|]. cbn [list_within].
  destruct (to_canonical_within room v); [|done]. rewrite !bind_Ok_l. by rewrite IH.
Qed.

(** The nested calls a value takes. *)
Fixpoint height (v : pyobj) : nat :=
  match v with
  | PyEnum v | PyPrimitive v => S (height v)
  | PyDict items => S (max_list_with (λ kv, height kv.2) items)
  | PyList items => S (max_list_with height items)
  | _ => 1
  end.

(** A limited result is the unlimited one, or an exception of the limits
    where the input does not fit. *)
Definition agrees {A} (fits : Prop) (limited unlimited : result A) : Prop :=
  limited = unlimited ∨ ∃ e, limited = Raise e ∧ limit_error e ∧ ¬ fits.

Lemma agrees_refl {A} P (m : result A) : agrees P m m.
Proof. by left. Qed.

Lemma agrees_recursion {A} (P : Prop) (m : result A) : ¬ P → agrees P (Raise RecursionError) m.
Proof. right. eexists. split; [done|]. split; [by left|done]. Qed.

Lemma agrees_weaken {A} (P Q : Prop) (m m' : result A) : (Q → P) → agrees P m m' → agrees Q m m'.
Proof. intros H [?|(e & ? & ? & ?)]; [by left|right; exists e; tauto]. Qed.

Lemma agrees_bind {A B} (P : Prop) (m m' : result A) (f f' : A → result B) :
  agrees P m m' → (∀ a, m' = Ok a → agrees P (f a) (f' a)) → agrees P (m ≫= f) (m' ≫= f').
Proof.
  intros [->|(e & -> & ? & ?)] Hf; [|by right; exists e].
  destruct m' as [a|e]; [rewrite !bind_Ok_l; by apply Hf|by left].
Qed.

Lemma agrees_Ok {A} P (m m' : result A) a : agrees P m m' → m = Ok a → m' = Ok a.
Proof. intros [->|(e & -> & _)] H; done. Qed.

Lemma agrees_fits {A} P (m m' : result A) : agrees P m m' → P → m = m'.
Proof. intros [?|(e & _ & _ & H)] HP; [done|]. by destruct H. Qed.

Lemma walk_agrees v room : agrees (height v <= room)%nat (to_canonical_within room v) (to_canonical_primitive v).
Proof.
  revert room. induction v as [| | | | | | |v IH|v IH|l IH|l IH|] using pyobj_nested_ind;
    intros [|room]; try (by apply agrees_recursion; cbn; lia); try apply agrees_refl.
  - eapply agrees_weaken, IH. cbn. lia.
  - eapply agrees_weaken, IH. cbn. lia.
  - rewrite to_canonical_within_dict, to_canonical_dict. cbn [height].
    apply agrees_bind; [|intros; apply agrees_refl]. generalize (@nil (pystr * json)) as acc.
    induction IH as [|[k v] l Hv _ IHl]; intros acc; [by left|]. destruct k; try apply agrees_refl.
    cbn [items_within canonical_items max_list_with].
    apply agrees_bind; [eapply agrees_weaken, Hv; cbn; lia|]. intros j _.
    eapply agrees_weaken, IHl. cbn. lia.
  - rewrite to_canonical_within_list, to_canonical_list. cbn [height].
    apply agrees_bind; [|intros; apply agrees_refl].
    induction IH as [|v l Hv _ IHl]; [by left|]. cbn [list_within canonical_list max_list_with].
    apply agrees_bind; [eapply agrees_weaken, Hv; lia|]. intros j _.
    apply agrees_bind; [eapply agrees_weaken, IHl; lia|]. intros; apply agrees_refl.
Qed.

Lemma height_of_json j : (height (pyobj_of_json j) <= S (nesting j))%nat.
Proof.
  induction j as [| | | | |l IH|d IH] using json_nested_ind; cbn; try lia; apply le_n_S.
  - induction IH as [|j l Hj _ IHl]; cbn in *; lia.
  - induction IH as [|[k j] d Hj _ IHl]; cbn in *; lia.
Qed.

(** The walk returns nothing that nests deeper than what it was given. *)
Lemma canonical_nesting v j : to_canonical_primitive v = Ok j → (nesting j <= height v)%nat.
Proof.
  revert j. induction v as [| | | | | | |v IH|v IH|l IH|l IH|] using pyobj_nested_ind; intros j H;
    try (cbn in *; inv_ok; subst; cbn; lia).
  - apply IH in H. cbn. lia.
  - apply IH in H. cbn. lia.
  - rewrite to_canonical_dict in H. inv_ok. subst j. cbn [nesting height]. apply le_n_S, max_list_le.
    match goal with E : canonical_items l [] = Ok ?d |- _ => rename E into Hd; revert Hd;
      generalize (Forall_nil_2 (λ kv : pystr * json, (nesting kv.2 <= max_list_with (λ kv, height kv.2) l)%nat));
      generalize (max_list_ge (λ kv : pyobj * pyobj, height kv.2) l) end.
    generalize (max_list_with (λ kv : pyobj * pyobj, height kv.2) l) as n.
    generalize (@nil (pystr * json)) as acc.
    induction IH as [|[k v] l Hv _ IHl]; intros acc n Hn Hacc Hd; cbn in Hd; [by apply Ok_inj in Hd as <-|].
    apply Forall_cons in Hn as [Hvn Hn]. destruct k; try done. inv_ok.
    eapply IHl; [exact Hn| |exact Hd].
    apply (Forall_dict_set (λ kv : pystr * json, (nesting kv.2 <= n)%nat)); [|exact Hacc].
    cbn in *. match goal with E : to_canonical_primitive v = Ok _ |- _ => apply Hv in E end. lia.
  - rewrite to_canonical_list in H. inv_ok. subst j. cbn [nesting height]. apply le_n_S.
    match goal with E : canonical_list l = Ok ?r |- _ => revert r E end.
    induction IH as [|v l Hv _ IHl]; intros r E; cbn in E; inv_ok; subst; cbn; [lia|].
    match goal with E : to_canonical_primitive v = Ok _ |- _ => apply Hv in E end.
    match goal with E : canonical_list l = Ok _ |- _ => apply IHl in E end. lia.
Qed.

Lemma canonical_json_within_agrees room v :
  agrees (height v <= walk_room room ∧ height v <= write_room room)%nat
    (canonical_json_within room v) (canonical_json v).
Proof.
  apply agrees_bind; [eapply agrees_weaken, walk_agrees; tauto|]. intros j Hj%canonical_nesting.
  unfold raise_if. destruct (Nat.ltb_spec (write_room room) (nesting j)); [|by left].
  apply agrees_recursion. lia.
Qed.

Lemma canonical_bytes_within_agrees room v :
  agrees (height v <= walk_room room ∧ height v <= write_room room)%nat
    (canonical_json_bytes_within room v) (canonical_json_bytes v).
Proof. apply agrees_bind; [apply canonical_json_within_agrees|intros; apply agrees_refl]. Qed.

Lemma height_pos v : (1 <= height v)%nat.
Proof. destruct v; cbn; lia. Qed.

(** The value of a text that fits, inside [outer] further containers. *)
Lemma fits_height outer room text j :
  text_fits outer room text → loads text = Some j →
  (height (pyobj_of_json j) + outer <= walk_room room)%nat
  ∧ (height (pyobj_of_json j) + outer <= write_room room)%nat.
Proof.
  intros (_ & Hw & Hd & _) Hj%loads_nesting. pose proof (height_of_json j). lia.
Qed.

Lemma loads_agrees outer room text :
  agrees (text_fits outer room text) (loads_text room text) (or_decode_error (loads text)).
Proof.
  destruct (loads_text room text) as [j|e] eqn:E; [by left; apply loads_text_Ok in E as ->|].
  destruct (loads_text_error _ _ _ E) as [->|He]; [by left; apply loads_text_decode in E as ->|].
  right. exists e. split_and!; [done|done|]. intros Hfits. apply (loads_text_fits _ _ _ _ Hfits) in E as ->.
  destruct He as [He|He]; [|unfold digits_error in He]; discriminate He.
Qed.

(** Writing the value of a text back. *)
Lemma rewrite_agrees outer room text j :
  loads text = Some j →
  agrees (text_fits outer room text) (canonical_json_within room (pyobj_of_json j))
    (canonical_json (pyobj_of_json j)).
Proof.
  intros Hj. eapply agrees_weaken, canonical_json_within_agrees. intros Hf.
  destruct (fits_height _ _ _ _ Hf Hj). lia.
Qed.

(** More brackets than the reader can nest. *)
Lemma deep_text_escapes room : loads_text room (repeat 91 (S (read_room room))) = Raise RecursionError.
Proof. apply strict_document_brackets. Qed.
