(* ===== verification/Ledger.v ===== *)
(** [packages/domain/ledger.py]: the append-only, hash-chained decision ledger
    and its verification, with the inductive chain it decides.  What the
    interpreter has left of its recursion limits is a parameter: [here] of the
    calls made from the method itself, [deeper] of those made from
    [_entry_hash], which run on a deeper stack. *)
From S2P Require Import Prelude PyStr Sha256 PyTime Json Canonical Digest Values Actions Reader Limits.

Definition GENESIS_HASH : pystr := repeat 48 64.

Inductive LedgerVerificationReason :=
  | VERIFIED_OK | ENTRY_INVALID | SEQUENCE_MISMATCH | CASE_MISMATCH | PREVIOUS_HASH_MISMATCH
  | TIMESTAMP_INVALID | TIMESTAMP_REGRESSION | PAYLOAD_INVALID | PAYLOAD_NOT_CANONICAL
  | ENTRY_HASH_INVALID | ENTRY_HASH_MISMATCH.

Definition verification_reason_value (r : LedgerVerificationReason) : string :=
  match r with
  | VERIFIED_OK => "OK" | ENTRY_INVALID => "ENTRY_INVALID"
  | SEQUENCE_MISMATCH => "SEQUENCE_MISMATCH" | CASE_MISMATCH => "CASE_MISMATCH"
  | PREVIOUS_HASH_MISMATCH => "PREVIOUS_HASH_MISMATCH" | TIMESTAMP_INVALID => "TIMESTAMP_INVALID"
  | TIMESTAMP_REGRESSION => "TIMESTAMP_REGRESSION" | PAYLOAD_INVALID => "PAYLOAD_INVALID"
  | PAYLOAD_NOT_CANONICAL => "PAYLOAD_NOT_CANONICAL" | ENTRY_HASH_INVALID => "ENTRY_HASH_INVALID"
  | ENTRY_HASH_MISMATCH => "ENTRY_HASH_MISMATCH"
  end.

Record LedgerEntry := mkLedgerEntry {
  sequence : Z;
  entry_case_id : pystr;
  recorded_at : pystr;
  entry_type : pystr;
  entry_payload_json : pystr;
  previous_hash : pystr;
  entry_hash : pystr
}.

#[export] Instance LedgerEntry_eq_dec : EqDecision LedgerEntry.
Proof. solve_decision. Defined.

(** [json.loads(self.payload_json)]. *)
Definition entry_payload (room : stack_room) (e : LedgerEntry) : result json :=
  loads_text room (entry_payload_json e).

Definition hash_document_items (e : LedgerEntry) (j : json) : list (pyobj * pyobj) :=
  [(PyStr ($"case_id"), PyStr (entry_case_id e));
   (PyStr ($"entry_type"), PyStr (entry_type e));
   (PyStr ($"payload"), pyobj_of_json j);
   (PyStr ($"recorded_at"), PyStr (recorded_at e));
   (PyStr ($"sequence"), PyInt (sequence e))].

Definition hash_document (room : stack_room) (e : LedgerEntry) : result pyobj :=
  j ← entry_payload room e; Ok (PyDict (hash_document_items e j)).

Definition LedgerEntry_to_primitive (room : stack_room) (e : LedgerEntry) : result pyobj :=
  j ← entry_payload room e;
  Ok (PyDict (hash_document_items e j
              ++ [(PyStr ($"entry_hash"), PyStr (entry_hash e));
                  (PyStr ($"previous_hash"), PyStr (previous_hash e))])).

Record LedgerVerification := mkLedgerVerification {
  valid : bool;
  verification_reason : LedgerVerificationReason;
  checked_entries : Z;
  error_index : option Z;
  expected_hash : option pystr;
  actual_hash : option pystr
}.

(** [LedgerVerification(False, reason, index, error_index=index)]. *)
Definition rejected (r : LedgerVerificationReason) (index : Z) : LedgerVerification :=
  mkLedgerVerification false r index (Some index) None None.

Definition _entry_hash (room : stack_room) (e : LedgerEntry) : result pystr :=
  document ← hash_document room e;
  text ← canonical_json_bytes_within room document;
  previous ← ascii_encode (previous_hash e);
  Ok (sha256_hex (text ++ previous)).

Section verification.
Context (here deeper : stack_room).

(** The body of the loop after the payload was decoded. *)
Definition verify_payload (index : Z) (e : LedgerEntry) (j : json) :
    result (option LedgerVerification) :=
  match canonical_json_within here (pyobj_of_json j) with
  | Raise (InvalidValue _) => Ok (Some (rejected PAYLOAD_INVALID index))
  | Raise error => Raise error
  | Ok text =>
      if bool_decide (text ≠ entry_payload_json e)
      then Ok (Some (rejected PAYLOAD_NOT_CANONICAL index))
      else if negb (is_digest (entry_hash e))
      then Ok (Some (rejected ENTRY_HASH_INVALID index))
      else
        match _entry_hash deeper e with
        | Raise (InvalidValue _) | Raise UnicodeEncodeError | Raise JSONDecodeError =>
            Ok (Some (rejected PAYLOAD_INVALID index))
        | Raise error => Raise error
        | Ok computed_hash =>
            Ok (if bool_decide (entry_hash e ≠ computed_hash)
                then Some (mkLedgerVerification false ENTRY_HASH_MISMATCH index (Some index)
                             (Some computed_hash) (Some (entry_hash e)))
                else None)
        end
  end.

(** The [for] loop; [total] is [len(entries)]. *)
Fixpoint verify_entries (total index : Z) (chain_case_id : option pystr) (previous : pystr)
    (previous_time : option datetime) (entries : list LedgerEntry) : result LedgerVerification :=
  match entries with
  | [] => Ok (mkLedgerVerification true VERIFIED_OK total None None None)
  | e :: entries =>
      if negb (sequence e =? index + 1) then Ok (rejected SEQUENCE_MISMATCH index)
      else if negb (is_identifier (entry_case_id e) && is_identifier (entry_type e))
      then Ok (rejected ENTRY_INVALID index)
      else
        let chain_case := default (entry_case_id e) chain_case_id in
        if bool_decide (entry_case_id e ≠ chain_case) then Ok (rejected CASE_MISMATCH index)
        else if bool_decide (previous_hash e ≠ previous)
        then Ok (mkLedgerVerification false PREVIOUS_HASH_MISMATCH index (Some index)
                   (Some previous) (Some (previous_hash e)))
        else
          match parse_canonical_timestamp (recorded_at e) with
          | Raise (InvalidValue _) => Ok (rejected TIMESTAMP_INVALID index)
          | Raise error => Raise error
          | Ok recorded =>
              if match previous_time with Some t => dt_ltb recorded t | None => false end
              then Ok (rejected TIMESTAMP_REGRESSION index)
              else
                match loads_text here (entry_payload_json e) with
                | Raise JSONDecodeError => Ok (rejected PAYLOAD_INVALID index)
                | Raise error => Raise error
                | Ok j =>
                    failure ← verify_payload index e j;
                    match failure with
                    | Some verification => Ok verification
                    | None =>
                        verify_entries total (index + 1) (Some chain_case) (entry_hash e)
                          (Some recorded) entries
                    end
                end
          end
  end.

Definition verify_ledger (entries : list LedgerEntry) (expected_case_id : option pystr) :
    result LedgerVerification :=
  _ ← when_some expected_case_id (λ c, require_identifier c "expected_case_id");
  verify_entries (Z.of_nat (length entries)) 0 expected_case_id GENESIS_HASH None entries.
End verification.

(** * The ledger object *)
Record DecisionLedger := mkDecisionLedger {
  ledger_case_id : pystr;
  entries : list LedgerEntry
}.

Definition DecisionLedger_init (here deeper : stack_room) (case_id : pystr) (initial : list LedgerEntry) :
    result DecisionLedger :=
  _ ← require_identifier case_id "case_id";
  verification ← verify_ledger here deeper initial (Some case_id);
  _ ← raise_if (negb (valid verification))
        (LedgerIntegrityError ("cannot load invalid ledger: "
           +:+ verification_reason_value (verification_reason verification)));
  Ok (mkDecisionLedger case_id initial).

Definition head_hash (self : DecisionLedger) : pystr :=
  match last (entries self) with Some e => entry_hash e | None => GENESIS_HASH end.

(** [append] returns the entry and the ledger it was appended to. *)
Definition append (here deeper : stack_room) (self : DecisionLedger) (kind : pystr)
    (payload : list (pyobj * pyobj)) (at_ : datetime) : result (LedgerEntry * DecisionLedger) :=
  _ ← require_identifier kind "entry_type";
  timestamp ← require_utc at_ "recorded_at";
  _ ← match last (entries self) with
      | Some e =>
          previous_time ← parse_canonical_timestamp (recorded_at e);
          raise_if (dt_ltb timestamp previous_time)
            (LedgerIntegrityError "ledger timestamps cannot move backwards")
      | None => Ok tt
      end;
  payload_json ← canonical_json_within here (PyDict payload);
  recorded ← canonical_timestamp timestamp;
  let provisional :=
    mkLedgerEntry (Z.of_nat (length (entries self)) + 1) (ledger_case_id self) recorded kind
      payload_json (head_hash self) GENESIS_HASH in
  computed ← _entry_hash deeper provisional;
  let entry :=
    mkLedgerEntry (sequence provisional) (entry_case_id provisional) recorded kind payload_json
      (previous_hash provisional) computed in
  Ok (entry, mkDecisionLedger (ledger_case_id self) (entries self ++ [entry])).

Definition verify (here deeper : stack_room) (self : DecisionLedger) : result LedgerVerification :=
  verify_ledger here deeper (entries self) (Some (ledger_case_id self)).

(** * What verification decides *)

(** The bytes an entry hash is taken of, and the hash, whatever the stack. *)
Definition entry_material (e : LedgerEntry) : result bytes :=
  j ← or_decode_error (loads (entry_payload_json e));
  text ← canonical_json_bytes (PyDict (hash_document_items e j));
  previous ← ascii_encode (previous_hash e);
  Ok (text ++ previous).

Definition entry_digest (e : LedgerEntry) : result pystr :=
  material ← entry_material e; Ok (sha256_hex material).

(** [e] continues a chain of [index] entries for [case]. *)
Record link (case : pystr) (index : Z) (previous : pystr) (previous_time : option datetime)
    (e : LedgerEntry) (recorded : datetime) : Prop := {
  link_sequence : sequence e = index + 1;
  link_case : entry_case_id e = case ∧ is_identifier case = true;
  link_type : is_identifier (entry_type e) = true;
  link_previous : previous_hash e = previous;
  link_time : parse_canonical_timestamp (recorded_at e) = Ok recorded;
  link_order : ∀ t, previous_time = Some t → instant t <= instant recorded;
  link_payload : ∃ j, loads (entry_payload_json e) = Some j
                      ∧ canonical_json (pyobj_of_json j) = Ok (entry_payload_json e);
  link_hash : is_digest (entry_hash e) = true ∧ entry_digest e = Ok (entry_hash e)
}.

Inductive chain (case : pystr) : Z → pystr → option datetime → list LedgerEntry → Prop :=
  | chain_nil index previous t : chain case index previous t []
  | chain_cons index previous t e recorded es :
      link case index previous t e recorded →
      chain case (index + 1) (entry_hash e) (Some recorded) es →
      chain case index previous t (e :: es).

(** The chain of a whole ledger. *)
Definition valid_chain (case : pystr) (es : list LedgerEntry) : Prop :=
  chain case 0 GENESIS_HASH None es.

(** An entry whose payload both places have room for. *)
Definition entry_fits (here deeper : stack_room) (e : LedgerEntry) : Prop :=
  text_fits 0 here (entry_payload_json e) ∧ text_fits 1 deeper (entry_payload_json e).

(** * Lemmas *)
Lemma utf8_encode_Raise s e : utf8_encode s = Raise e → e = UnicodeEncodeError.
Proof.
  revert e. induction s as [|c s IH]; cbn; intros e H; [done|].
  destruct (utf8_encode_char c) as [b|e'] eqn:Ec; cbn in H.
  - destruct (utf8_encode s); cbn in H; [done|]. injection H as <-. by apply IH.
  - injection H as <-. unfold utf8_encode_char in Ec. repeat case_match; by simplify_eq.
Qed.

Lemma ascii_encode_Raise s e : ascii_encode s = Raise e → e = UnicodeEncodeError.
Proof. unfold ascii_encode. case_match; naive_solver. Qed.

Lemma parse_timestamp_Raise s e :
  parse_canonical_timestamp s = Raise e → e = InvalidValue "timestamp is not in canonical UTC format".
Proof. unfold parse_canonical_timestamp. case_match; naive_solver. Qed.

Definition invalid_value (e : py_error) : Prop := ∃ m, e = InvalidValue m.

(** A decoded JSON value is refused by [canonical_json] only as invalid. *)
Lemma to_canonical_of_json_Raise j e :
  to_canonical_primitive (pyobj_of_json j) = Raise e → invalid_value e.
Proof.
  revert e. induction j as [| | | | |l IH|d IH] using json_nested_ind; intros e; try done.
  - cbn. intros [= <-]. by eexists.
  - cbn [pyobj_of_json]. rewrite to_canonical_list. intros H.
    destruct (canonical_list (map pyobj_of_json l)) as [x|e'] eqn:E; cbn in H; [done|].
    injection H as <-. revert e' E. induction IH as [|j l Hj _ IH']; cbn; intros e' E; [done|].
    destruct (to_canonical_primitive (pyobj_of_json j)) eqn:Ej; cbn in E.
    + destruct (canonical_list _); cbn in E; [done|]. injection E as <-. by apply IH'.
    + injection E as <-. by apply Hj.
  - cbn [pyobj_of_json]. rewrite to_canonical_dict. generalize (@nil (pystr * json)).
    induction IH as [|[k j] d Hj _ IH']; intros acc H; cbn in H; [done|].
    destruct (to_canonical_primitive (pyobj_of_json j)) eqn:Ej; cbn in H.
    + by apply IH' in H.
    + injection H as <-. by apply Hj.
Qed.

Lemma canonical_json_Ok v s : canonical_json v = Ok s → ∃ j, to_canonical_primitive v = Ok j ∧ s = dumps j.
Proof. unfold canonical_json. intros H. inv_ok. subst. by eexists. Qed.

(** Hashing an entry with a canonical payload fails only on text that has no
    encoding. *)
Lemma entry_digest_Raise e j text error :
  loads (entry_payload_json e) = Some j → canonical_json (pyobj_of_json j) = Ok text →
  entry_digest e = Raise error → error = UnicodeEncodeError.
Proof.
  intros Hj (p & Hp & _)%canonical_json_Ok. unfold entry_digest, entry_material. rewrite Hj.
  assert (∃ d, canonical_json (PyDict (hash_document_items e j)) = Ok d) as [d Hd].
  { unfold canonical_json. rewrite to_canonical_dict. unfold hash_document_items. cbn [canonical_items]. cbn.
    rewrite Hp. by eexists. }
  cbn [or_decode_error]. unfold canonical_json_bytes. rewrite bind_Ok_l, Hd, bind_Ok_l.
  destruct (utf8_encode d) eqn:Eu; cbn; [|by intros [= <-]; eapply utf8_encode_Raise].
  destruct (ascii_encode _) eqn:Ea; cbn; [done|]. intros [= <-]. by eapply ascii_encode_Raise.
Qed.

(** The hash the code computes is the entry's, where there is room. *)
Lemma entry_hash_agrees room e :
  agrees (text_fits 1 room (entry_payload_json e)) (_entry_hash room e) (entry_digest e).
Proof.
  unfold _entry_hash, entry_digest, entry_material, hash_document, entry_payload. rewrite !bind_assoc.
  apply agrees_bind; [apply loads_agrees|]. intros j Hj%or_decode_error_Ok. rewrite bind_Ok_l, bind_assoc.
  apply agrees_bind; [|intros text _; rewrite bind_assoc; apply agrees_refl].
  eapply agrees_weaken, canonical_bytes_within_agrees. intros Hf.
  destruct (fits_height _ _ _ _ Hf Hj). pose proof (height_pos (pyobj_of_json j)). cbn. lia.
Qed.

Section reports.
Context (here deeper : stack_room).

(** What the payload and hash checks decide for one entry. *)
Lemma verify_payload_spec index e j :
  loads (entry_payload_json e) = Some j →
  match verify_payload here deeper index e j with
  | Ok failure =>
      (failure = None ↔ canonical_json (pyobj_of_json j) = Ok (entry_payload_json e)
                        ∧ is_digest (entry_hash e) = true ∧ entry_digest e = Ok (entry_hash e))
      ∧ (∀ v, failure = Some v →
           valid v = false ∧ error_index v = Some index ∧ checked_entries v = index)
  | Raise error => limit_error error ∧ ¬ entry_fits here deeper e
  end.
Proof.
  intros Hj. unfold verify_payload.
  destruct (rewrite_agrees 0 here _ _ Hj) as [->|(error & -> & He & Hf)].
  2: { assert (limit_error error ∧ ¬ entry_fits here deeper e) by (split; [done|by intros [? _]]).
       by destruct He as [->| ->]. }
  destruct (canonical_json (pyobj_of_json j)) as [text|error] eqn:Ec.
  2: { unfold canonical_json in Ec. destruct (to_canonical_primitive _) eqn:Ep; cbn in Ec; [done|].
       injection Ec as ->. apply to_canonical_of_json_Raise in Ep as [m ->].
       split; [|by intros v [= <-]]. naive_solver. }
  case_bool_decide as Et; [split; [|by intros v [= <-]]; naive_solver|]. subst text.
  destruct (is_digest (entry_hash e)) eqn:Ed; cbn [negb]; [|split; [|by intros v [= <-]]; naive_solver].
  destruct (entry_hash_agrees deeper e) as [->|(error & -> & He & Hf)].
  2: { assert (limit_error error ∧ ¬ entry_fits here deeper e) by (split; [done|by intros [_ ?]]).
       by destruct He as [->| ->]. }
  destruct (entry_digest e) as [h|error] eqn:Eh.
  - case_bool_decide as Ehh; (split; [|by intros v [= <-]]); [naive_solver|]. subst h. naive_solver.
  - apply (entry_digest_Raise e j _ _ Hj Ec) in Eh as ->. split; [|by intros v [= <-]]. naive_solver.
Qed.

Lemma dt_ltb_false_1 a b : dt_ltb a b = false → instant b <= instant a.
Proof. apply Z.ltb_ge. Qed.

(** What the verification of a chain's continuation reports. *)
Record reports (total : Z) (case : pystr) (index : Z) (previous : pystr) (t : option datetime)
    (es : list LedgerEntry) (v : LedgerVerification) : Prop := {
  report_valid : valid v = true ↔ chain case index previous t es;
  report_checked : valid v = true → checked_entries v = total ∧ error_index v = None;
  report_error : valid v = false →
    ∃ k, (k < length es)%nat ∧ error_index v = Some (index + Z.of_nat k)
         ∧ checked_entries v = index + Z.of_nat k
         ∧ chain case index previous t (take k es) ∧ ¬ chain case index previous t (take (S k) es)
}.

(** An exception that leaves the verification: one of the limits, at an entry
    that does not fit and up to which the chain holds. *)
Definition escapes (case : pystr) (index : Z) (previous : pystr) (t : option datetime)
    (es : list LedgerEntry) (error : py_error) : Prop :=
  limit_error error
  ∧ ∃ k e, es !! k = Some e ∧ ¬ entry_fits here deeper e ∧ chain case index previous t (take k es).

Definition outcome (total : Z) (case : pystr) (index : Z) (previous : pystr) (t : option datetime)
    (es : list LedgerEntry) (r : result LedgerVerification) : Prop :=
  match r with
  | Ok v => reports total case index previous t es v
  | Raise error => escapes case index previous t es error
  end.

Lemma chain_head case index previous t e es :
  chain case index previous t (e :: es) → ∃ recorded, link case index previous t e recorded.
Proof. inversion 1; subst. by eexists. Qed.

Lemma reports_rejection total case index previous t e es v :
  valid v = false → error_index v = Some index → checked_entries v = index →
  (∀ recorded, ¬ link case index previous t e recorded) →
  reports total case index previous t (e :: es) v.
Proof.
  intros Hv He Hc Hno. split.
  - rewrite Hv. split; [done|]. intros [r Hr]%chain_head. by apply Hno in Hr.
  - by rewrite Hv.
  - intros _. exists 0%nat. cbn. rewrite Z.add_0_r. split_and!; [lia|done|done|constructor|].
    intros [r Hr]%chain_head. by apply Hno in Hr.
Qed.

Lemma link_chain case index previous t e recorded es :
  link case index previous t e recorded →
  chain case index previous t (e :: es) ↔ chain case (index + 1) (entry_hash e) (Some recorded) es.
Proof.
  intros Hl. split; [|by apply chain_cons].
  inversion 1 as [|? ? ? ? r' ? Hl' Hes]; subst.
  assert (recorded = r') as -> by (destruct Hl, Hl'; congruence). done.
Qed.

Lemma reports_cons total case index previous t e recorded es v :
  link case index previous t e recorded →
  reports total case (index + 1) (entry_hash e) (Some recorded) es v →
  reports total case index previous t (e :: es) v.
Proof.
  intros Hl [Hv Hc He]. split.
  - by rewrite (link_chain _ _ _ _ _ _ _ Hl).
  - done.
  - intros Hf. destruct (He Hf) as (k & Hk & Hi & Hch & H1 & H2). exists (S k).
    rewrite Nat2Z.inj_succ. cbn [length take]. rewrite !(link_chain _ _ _ _ _ _ _ Hl).
    split_and!; [lia| | |done|done].
    + rewrite Hi. f_equal. lia.
    + lia.
Qed.

Lemma outcome_cons total case index previous t e recorded es r :
  link case index previous t e recorded →
  outcome total case (index + 1) (entry_hash e) (Some recorded) es r →
  outcome total case index previous t (e :: es) r.
Proof.
  intros Hl. destruct r as [v|error]; [by apply (reports_cons _ _ _ _ _ _ recorded)|].
  intros (He & k & x & Hk & Hx & Hch). split; [done|]. exists (S k), x. split_and!; [done..|].
  by apply (chain_cons _ _ _ _ _ recorded).
Qed.

Lemma escapes_head case index previous t e es error :
  limit_error error → ¬ entry_fits here deeper e → escapes case index previous t (e :: es) error.
Proof. intros. split; [done|]. exists 0%nat, e. split_and!; [done..|]. constructor. Qed.

Lemma verify_entries_outcome total case es index previous t :
  outcome total case index previous t es
    (verify_entries here deeper total index (Some case) previous t es).
Proof.
  revert index previous t. induction es as [|e es IH]; intros index previous t; cbn.
  { split; cbn; [|done|done]. split; [constructor|done]. }
  destruct (Z.eqb_spec (sequence e) (index + 1)) as [Hs|Hs]; cbn.
  2: { apply reports_rejection; try done. by intros r []. }
  destruct (is_identifier (entry_case_id e)) eqn:Hci; cbn.
  2: { apply reports_rejection; try done. intros r []. naive_solver congruence. }
  destruct (is_identifier (entry_type e)) eqn:Hty; cbn.
  2: { apply reports_rejection; try done. intros r []. congruence. }
  case_bool_decide as Hcase.
  { apply reports_rejection; try done. by intros r [? [] ? ? ? ? ? ?]. }
  case_bool_decide as Hprev.
  { apply reports_rejection; try done. by intros r []. }
  destruct (parse_canonical_timestamp (recorded_at e)) as [recorded|error] eqn:Ht.
  2: { pose proof (parse_timestamp_Raise _ _ Ht) as ->.
       apply reports_rejection; try done. intros r []. congruence. }
  destruct (match t with Some t => dt_ltb recorded t | None => false end) eqn:Hord.
  { apply reports_rejection; try done. intros r [].
    destruct t as [t|]; [|done]. specialize (link_order0 t eq_refl). unfold dt_ltb in Hord.
    bools. assert (r = recorded) as -> by congruence. lia. }
  destruct (loads_agrees 0 here (entry_payload_json e)) as [->|(error & -> & He & Hf)].
  2: { assert (escapes case index previous t (e :: es) error) by (apply escapes_head; [done|by intros [? _]]).
       by destruct He as [->| ->]. }
  destruct (loads (entry_payload_json e)) as [j|] eqn:Hj; cbn [or_decode_error].
  2: { apply reports_rejection; try done. intros r [_ _ _ _ _ _ (j & ? & _) _]. congruence. }
  pose proof (verify_payload_spec index e j Hj) as Hpay.
  destruct (verify_payload here deeper index e j) as [failure|error]; [|by apply escapes_head; apply Hpay].
  rewrite bind_Ok_l. destruct Hpay as [Hok Hsome]. destruct failure as [v|].
  - destruct (Hsome v eq_refl) as (? & ? & ?).
    apply reports_rejection; try done. intros r [_ _ _ _ _ _ (j' & Hj' & Hp) [Hd Hh]].
    assert (Some v = None) as [=]. apply Hok. split_and!; congruence.
  - destruct (proj1 Hok eq_refl) as (Hp & Hd & Hh). apply (outcome_cons _ _ _ _ _ _ recorded); [|apply IH].
    split; try done; [split; congruence| |by exists j]. intros t' ->. by apply dt_ltb_false_1.
Qed.

Lemma verify_ledger_outcome es case :
  is_identifier case = true →
  outcome (Z.of_nat (length es)) case 0 GENESIS_HASH None es (verify_ledger here deeper es (Some case)).
Proof.
  intros Hc. unfold verify_ledger. cbn [when_some]. rewrite require_identifier_true, !bind_Ok_l by done.
  apply verify_entries_outcome.
Qed.

Lemma verify_ledger_iff es case v :
  verify_ledger here deeper es (Some case) = Ok v →
  is_identifier case = true ∧ reports (Z.of_nat (length es)) case 0 GENESIS_HASH None es v.
Proof.
  intros H. assert (is_identifier case = true) as Hc.
  { unfold verify_ledger in H. cbn [when_some] in H. inv_ok.
    match goal with E : require_identifier case _ = Ok _ |- _ => by apply require_identifier_Ok in E as [-> E] end. }
  split; [done|]. pose proof (verify_ledger_outcome es case Hc) as Ho. by rewrite H in Ho.
Qed.
End reports.

(** ** Chains grow at their end *)
Definition head_of (es : list LedgerEntry) (h : pystr) : pystr :=
  match last es with Some e => entry_hash e | None => h end.

(** The time a chain has reached; [None] when the last entry's text is no time. *)
Definition time_of (es : list LedgerEntry) (t : option datetime) : option datetime :=
  match last es with
  | Some e => result_option (parse_canonical_timestamp (recorded_at e))
  | None => t
  end.

Lemma head_of_cons e es h : head_of (e :: es) h = head_of es (entry_hash e).
Proof. unfold head_of. rewrite last_cons. by destruct (last es). Qed.

Lemma time_of_cons e es t r :
  parse_canonical_timestamp (recorded_at e) = Ok r → time_of (e :: es) t = time_of es (Some r).
Proof. unfold time_of. rewrite last_cons. intros H. destruct (last es); [done|]. by rewrite H. Qed.

Lemma chain_snoc case es e index h t :
  chain case index h t (es ++ [e]) ↔
  chain case index h t es
  ∧ ∃ r, link case (index + Z.of_nat (length es)) (head_of es h) (time_of es t) e r.
Proof.
  revert index h t. induction es as [|x es IH]; intros index h t; cbn [app length].
  - rewrite Z.add_0_r. split.
    + intros [r Hr]%chain_head. split; [constructor|by exists r].
    + intros [_ [r Hr]]. econstructor; [done|constructor].
  - split.
    + inversion 1 as [|? ? ? ? r ? Hl Hes]; subst. apply IH in Hes as [Hes [r' Hr']].
      split; [by econstructor|]. exists r'. rewrite head_of_cons, (time_of_cons _ _ _ r) by apply Hl.
      replace (index + Z.of_nat (S (length es))) with (index + 1 + Z.of_nat (length es)) by lia. done.
    + intros [Hes [r' Hr']]. inversion Hes as [|? ? ? ? r ? Hl Hes']; subst.
      econstructor; [done|]. apply IH. split; [done|]. exists r'.
      rewrite head_of_cons, (time_of_cons _ _ _ r) in Hr' by apply Hl.
      by replace (index + 1 + Z.of_nat (length es)) with (index + Z.of_nat (S (length es))) by lia.
Qed.

Lemma head_hash_of l : head_hash l = head_of (entries l) GENESIS_HASH.
Proof. done. Qed.

(** ** An entry hash determines the entry *)

(** The strings of an entry, its payload's included, are Python strings. *)
Definition typed_entry (e : LedgerEntry) : bool :=
  match loads (entry_payload_json e) with
  | Some j => pyobj_ok (PyDict (hash_document_items e j))
  | None => true
  end.

Lemma canon_eq_text v w s t :
  canon_eq v w → canonical_json v = Ok s → canonical_json w = Ok t → s = t.
Proof.
  intros (j & k & Hj & Hk & E) Hs Ht. apply canonical_json_Ok in Hs as (j' & Hj' & ->).
  apply canonical_json_Ok in Ht as (k' & Hk' & ->). simplify_eq.
  assert (j = j' ∧ k = k') as [<- <-] by (split; congruence).
  rewrite <- (dumps_sort_nodup j) by by eapply to_canonical_nodup.
  rewrite <- (dumps_sort_nodup k) by by eapply to_canonical_nodup. by rewrite E.
Qed.

Lemma canonical_bytes_inj v w bs :
  pyobj_ok v = true → pyobj_ok w = true →
  canonical_json_bytes v = Ok bs → canonical_json_bytes w = Ok bs → canon_eq v w.
Proof.
  unfold canonical_json_bytes. intros Hv Hw H H'. inv_ok.
  match goal with E : canonical_json v = Ok ?s, E' : canonical_json w = Ok ?t |- _ =>
    assert (s = t) as -> by (by eapply utf8_encode_inj);
    apply canonical_json_Ok in E as (j & Hj & ->); apply canonical_json_Ok in E' as (k & Hk & Ed) end.
  exists j, k. split_and!; [done..|]. apply dumps_inj; eauto using to_canonical_ok.
Qed.

Lemma is_digest_length h : is_digest h = true → length h = 64%nat.
Proof. unfold is_digest, str_len. intros H. bools. lia. Qed.

(** Entries that hash the same bytes are the same but for the stored hash. *)
Lemma entry_material_inj e e' m j j' :
  typed_entry e = true → typed_entry e' = true →
  is_digest (previous_hash e) = true → is_digest (previous_hash e') = true →
  loads (entry_payload_json e) = Some j → loads (entry_payload_json e') = Some j' →
  canonical_json (pyobj_of_json j) = Ok (entry_payload_json e) →
  canonical_json (pyobj_of_json j') = Ok (entry_payload_json e') →
  entry_material e = Ok m → entry_material e' = Ok m →
  sequence e = sequence e' ∧ entry_case_id e = entry_case_id e' ∧ recorded_at e = recorded_at e'
  ∧ entry_type e = entry_type e' ∧ entry_payload_json e = entry_payload_json e'
  ∧ previous_hash e = previous_hash e'.
Proof.
  intros Ht Ht' Hp%is_digest_length Hp'%is_digest_length Hj Hj' Hc Hc'.
  unfold typed_entry, entry_material in *. rewrite Hj in *. rewrite Hj' in *.
  cbn [or_decode_error mbind result_bind] in *. intros H H'. inv_ok. subst m.
  repeat match goal with E : ascii_encode _ = Ok _ |- _ => apply ascii_encode_Ok in E; subst end.
  apply app_inj_2 in H' as [-> Hprev]; [|congruence].
  match goal with E : canonical_json_bytes _ = Ok ?b, E' : canonical_json_bytes _ = Ok ?b |- _ =>
    pose proof (canonical_bytes_inj _ _ b Ht Ht') as Heq end.
  assert (E : canon_eq (PyDict (hash_document_items e j)) (PyDict (hash_document_items e' j')))
    by (by apply Heq). clear Heq. unfold hash_document_items in E.
  same_field E ($"sequence") E1. same_field E ($"case_id") E2. same_field E ($"recorded_at") E3.
  same_field E ($"entry_type") E4. same_field E ($"payload") E5.
  apply canon_eq_int in E1. apply canon_eq_str in E2, E3, E4.
  split_and!; try done. by eapply canon_eq_text.
Qed.

Lemma chain_head_digest case index h t es :
  is_digest h = true → chain case index h t es → is_digest (head_of es h) = true.
Proof.
  intros Hh H. revert Hh. induction H as [|index h t e r es Hl _ IH]; intros Hh; [done|].
  rewrite head_of_cons. apply IH, Hl.
Qed.

Lemma genesis_digest : is_digest GENESIS_HASH = true.
Proof. done. Qed.

(** Two different entries of two ledgers whose hashed bytes collide. *)
Definition entry_collision (es es' : list LedgerEntry) : Prop :=
  ∃ e e' m m', e ∈ es ∧ e' ∈ es' ∧ entry_material e = Ok m ∧ entry_material e' = Ok m'
               ∧ m ≠ m' ∧ sha256 m = sha256 m'.

Lemma entry_collision_app es es' x x' :
  entry_collision es es' → entry_collision (es ++ [x]) (es' ++ [x']).
Proof. intros (e & e' & m & m' & ? & ? & ?). exists e, e', m, m'. rewrite !elem_of_app. tauto. Qed.

Lemma chain_heads_eq case es es' :
  Forall (λ e, typed_entry e = true) es → Forall (λ e, typed_entry e = true) es' →
  valid_chain case es → valid_chain case es' → (es = [] ↔ es' = []) →
  head_of es GENESIS_HASH = head_of es' GENESIS_HASH → es = es' ∨ entry_collision es es'.
Proof.
  unfold valid_chain. revert es'. induction es as [|e es IH] using rev_ind; intros es'.
  { intros _ _ _ _ [H _] _. left. by rewrite H. }
  destruct es' as [|e' es' _] using rev_ind; [intros _ _ _ _ [_ H]; by destruct es; specialize (H eq_refl)|].
  rewrite !Forall_app, !Forall_singleton. intros [Ht Hte] [Ht' Hte'].
  intros [Hc [r Hr]]%chain_snoc [Hc' [r' Hr']]%chain_snoc _. unfold head_of. rewrite !last_snoc. intros Hh.
  pose proof (chain_head_digest _ _ _ _ _ genesis_digest Hc) as Hd.
  pose proof (chain_head_digest _ _ _ _ _ genesis_digest Hc') as Hd'.
  destruct Hr as [Hs [Hca _] _ Hp _ _ (j & Hj & Hjc) [_ He]], Hr' as [Hs' [Hca' _] _ Hp' _ _ (j' & Hj' & Hjc') [_ He']].
  unfold entry_digest in He, He'. inv_ok.
  match goal with E : entry_material e = Ok ?m, E' : entry_material e' = Ok ?m' |- _ =>
    rename E into Hm, E' into Hm'; destruct (decide (m = m')) as [->|Hne] end.
  - rewrite <- Hp in Hd. rewrite <- Hp' in Hd'.
    destruct (entry_material_inj e e' _ j j' Hte Hte' Hd Hd' Hj Hj' Hjc Hjc' Hm Hm')
      as (E1 & E2 & E3 & E4 & E5 & E6).
    assert (length es = length es') by lia.
    destruct (IH es') as [->|Hcol]; try done; [|congruence| |right; by apply entry_collision_app].
    + split; intros ->; [by destruct es'|by destruct es].
    + left. f_equal. f_equal. destruct e, e'. cbn in *. congruence.
  - right. exists e, e'. do 2 eexists. rewrite !elem_of_app, !list_elem_of_singleton.
    split_and!; [by right|by right|exact Hm|exact Hm'|done|]. apply sha256_hex_inj. congruence.
Qed.

(** * Properties *)

(** C34: verification decides the chain, for a legal case identifier and
    whatever is left of the recursion limits: when it returns, it accepts
    exactly the valid chains and otherwise reports the first entry at which
    the chain breaks; it does return when every payload fits, that is, has no
    more brackets than can be nested and no run of more than 4300 digits; and
    when it raises, that is RecursionError or the ValueError for too long an
    integer, at an entry that does not fit and before which the chain holds. *)
Theorem verify_ledger_decides here deeper es case :
  is_identifier case = true →
  (∀ v, verify_ledger here deeper es (Some case) = Ok v →
     (valid v = true ↔ valid_chain case es)
     ∧ (valid v = true → checked_entries v = Z.of_nat (length es) ∧ error_index v = None)
     ∧ (valid v = false →
        ∃ k, (k < length es)%nat ∧ error_index v = Some (Z.of_nat k)
             ∧ valid_chain case (take k es) ∧ ¬ valid_chain case (take (S k) es)))
  ∧ (Forall (entry_fits here deeper) es → ∃ v, verify_ledger here deeper es (Some case) = Ok v)
  ∧ (∀ error, verify_ledger here deeper es (Some case) = Raise error →
       limit_error error
       ∧ ∃ k e, es !! k = Some e ∧ ¬ entry_fits here deeper e ∧ valid_chain case (take k es)).
Proof.
  intros Hc. pose proof (verify_ledger_outcome here deeper es case Hc) as Ho.
  destruct (verify_ledger here deeper es (Some case)) as [v|error]; cbn in Ho; split_and!; try done.
  - intros ? <-%Ok_inj. destruct Ho as [Hv Hchecked He]. split_and!; [done|done|]. intros Hf.
    destruct (He Hf) as (k & ? & ? & _ & ? & ?). by exists k.
  - by eexists.
  - intros Hf. destruct Ho as (_ & k & e & Hk & Hx & _). destruct Hx.
    rewrite Forall_lookup in Hf. by eapply Hf.
  - intros ? [= <-]. exact Ho.
Qed.

(** appending to a valid ledger gives a valid chain with the new entry at its
    end, which every verification that returns accepts, and whose payload
    reads back as the one that was appended. *)
Theorem append_extends_chain here deeper here' deeper' self kind body at_ e self' v :
  verify here deeper self = Ok v → valid v = true →
  pyobj_ok (PyDict body) = true → in_range (instant at_) = true →
  append here' deeper' self kind body at_ = Ok (e, self') →
  entries self' = entries self ++ [e] ∧ ledger_case_id self' = ledger_case_id self
  ∧ valid_chain (ledger_case_id self') (entries self')
  ∧ (∀ here'' deeper'' v', verify here'' deeper'' self' = Ok v' → valid v' = true)
  ∧ ∃ j, loads (entry_payload_json e) = Some j
         ∧ canonical_json (pyobj_of_json j) = canonical_json (PyDict body).
Proof.
  intros Hv Hval Hbody Hat H. apply verify_ledger_iff in Hv as [Hid [Hch _ _]].
  apply Hch in Hval. clear Hch v. unfold append in H. inv_ok.
  match goal with E : (_, _) = (e, self') |- _ => injection E as He Hs end. subst self'.
  rewrite require_identifier_Ok in *. destruct_and!. utc_facts. subst.
  match goal with E : canonical_json_within _ _ = Ok ?s |- _ =>
    rename E into Hbj, s into text; apply (agrees_Ok _ _ _ _ (canonical_json_within_agrees _ _)) in Hbj end.
  match goal with E : canonical_timestamp ?t = Ok ?s |- _ => rename E into Hts, t into ts, s into stamp end.
  match goal with E : _entry_hash _ _ = Ok ?h |- _ =>
    rename E into Hh, h into hash; apply (agrees_Ok _ _ _ _ (entry_hash_agrees _ _)) in Hh end.
  assert (Hw : wall ts = instant at_) by (rewrite <- utc_instant_wall by done; done).
  rewrite canonical_timestamp_utc in Hts by done. apply Ok_inj in Hts. subst stamp.
  destruct (canonical_json_loads _ _ Hbody Hbj) as (j & Hj & Hjt).
  split; [done|]. split; [done|].
  match goal with |- context [entries self ++ [?x]] => set (e := x) end. cbn [entries ledger_case_id].
  assert (valid_chain (ledger_case_id self) (entries self ++ [e])) as Hchain.
  2: { split; [done|]. split; [|exists j; split; [exact Hj|by rewrite Hjt, Hbj]].
       intros here'' deeper'' v' [_ [Hiff _ _]]%verify_ledger_iff. by apply Hiff. }
  apply chain_snoc. split; [done|]. exists ts. split; try done.
  - unfold parse_canonical_timestamp. cbn [recorded_at e]. rewrite strptime_strftime by by rewrite Hw.
    f_equal. symmetry. by apply is_utc_eq.
  - intros t. unfold time_of. destruct (last (entries self)) as [x|]; [|done].
    inv_ok. match goal with E : parse_canonical_timestamp _ = Ok ?p |- _ => rewrite E end.
    cbn. intros [= <-]. by apply dt_ltb_false_1.
  - by exists j.
  - split; [|exact Hh]. cbn [entry_hash e]. unfold entry_digest in Hh. inv_ok. subst hash.
    apply is_digest_sha256.
Qed.

(** C35: tamper evidence: two non-empty ledgers of a case that both verify and
    end in the same hash are the same ledger, unless two of their entries hash
    different bytes to one SHA-256 digest. *)
Theorem ledger_tamper_evident here deeper here' deeper' case es es' v v' :
  Forall (λ e, typed_entry e = true) es → Forall (λ e, typed_entry e = true) es' →
  verify_ledger here deeper es (Some case) = Ok v → valid v = true →
  verify_ledger here' deeper' es' (Some case) = Ok v' → valid v' = true →
  es ≠ [] → es' ≠ [] →
  head_hash (mkDecisionLedger case es) = head_hash (mkDecisionLedger case es') →
  es = es' ∨ entry_collision es es'.
Proof.
  intros Ht Ht' [_ [Hc _ _]]%verify_ledger_iff Hv [_ [Hc' _ _]]%verify_ledger_iff Hv' Hne Hne' Hh.
  apply (chain_heads_eq case); try done; [by apply Hc|by apply Hc'].
Qed.

(** Room enough for the examples. *)
Definition sample_room : stack_room := mkRoom 100 100 100.

(** The first entry of a case, hashed, with the given timestamp text. *)
Definition first_entry (stamp : pystr) : result LedgerEntry :=
  let provisional := mkLedgerEntry 1 ($"case_1") stamp ($"DecisionMade") ($"{}") GENESIS_HASH
                       GENESIS_HASH in
  hash ← _entry_hash sample_room provisional;
  Ok (mkLedgerEntry 1 ($"case_1") stamp ($"DecisionMade") ($"{}") GENESIS_HASH hash).

Definition check_entry (r : result LedgerEntry) (f : LedgerEntry → bool) : bool :=
  match r with Ok e => f e | Raise _ => false end.

Definition accepted (es : list LedgerEntry) : bool :=
  match verify_ledger sample_room sample_room es (Some ($"case_1")) with Ok v => valid v | Raise _ => false end.

Lemma accepted_Ok es :
  accepted es = true → ∃ v, verify_ledger sample_room sample_room es (Some ($"case_1")) = Ok v ∧ valid v = true.
Proof. unfold accepted. destruct (verify_ledger _ _); [by eexists|done]. Defined.

(** A timestamp outside the canonical format is accepted: an entry
    recorded at "2026-1-2T3:4:5.5Z" verifies, although the canonical text of
    that time is another one. *)
Theorem noncanonical_timestamp_accepted :
  ∃ e v w, verify_ledger sample_room sample_room [e] (Some ($"case_1")) = Ok v ∧ valid v = true
    ∧ recorded_at e = $"2026-1-2T3:4:5.5Z"
    ∧ parse_canonical_timestamp (recorded_at e) = Ok w
    ∧ canonical_timestamp w = Ok ($"2026-01-02T03:04:05.500000Z").
Proof.
  assert (H : check_entry (first_entry ($"2026-1-2T3:4:5.5Z"))
    (λ e, accepted [e] && bool_decide (recorded_at e = $"2026-1-2T3:4:5.5Z")) = true)
    by (vm_compute; reflexivity).
  destruct (first_entry _) as [e|]; [|done]. cbn [check_entry] in H.
  apply andb_true_iff in H as [H1 H2]. apply accepted_Ok in H1 as (v & Hv & Hval).
  apply bool_decide_true_1 in H2. exists e, v, (utc 63902919845500000). rewrite H2.
  split; [exact Hv|]. split; [exact Hval|]. split; [reflexivity|]. split; vm_compute; reflexivity.
Qed.

(** A small payload reaches no limit of [sample_room]. *)
Definition small_entry (e : LedgerEntry) : bool :=
  (length (entry_payload_json e) <=? 4300)%nat && (brackets (entry_payload_json e) <? 10)%nat.

Lemma small_entry_fits e : small_entry e = true → entry_fits sample_room sample_room e.
Proof.
  unfold small_entry. intros [H1%Nat.leb_le H2%Nat.ltb_lt]%andb_true_iff.
  apply short_numerals_length in H1. repeat split; cbn; [lia|lia|lia|done|lia|lia|lia|done].
Qed.

(** The first entry of a case with a payload of so many opening brackets. *)
Definition deep_entry (n : nat) : LedgerEntry :=
  mkLedgerEntry 1 ($"case_1") ($"2026-01-02T03:04:05.500000Z") ($"DecisionMade") (repeat 91 n)
    GENESIS_HASH GENESIS_HASH.

(** A payload nested beyond the recursion limit is not reported as invalid:
    the RecursionError of [json.loads] leaves the verification. *)
Lemma deep_payload_escapes here deeper :
  verify_ledger here deeper [deep_entry (S (read_room here))] (Some ($"case_1")) = Raise RecursionError.
Proof.
  unfold verify_ledger, deep_entry. generalize (deep_text_escapes here). generalize (repeat 91 (S (read_room here))).
  intros text Htext. cbn [verify_entries recorded_at entry_payload_json]. rewrite Htext. vm_compute. reflexivity.
Qed.

(** * Witnesses *)
Definition sample_ledger : result DecisionLedger :=
  l ← DecisionLedger_init sample_room sample_room ($"case_1") [];
  r1 ← append sample_room sample_room l ($"DecisionMade") [(PyStr ($"b"), PyInt 2); (PyStr ($"a"), PyNone)] (utc 63082281600000000);
  r2 ← append sample_room sample_room (snd r1) ($"DecisionMade") [] (utc 63082281700000000);
  Ok (snd r2).

Definition check_ledger (r : result DecisionLedger) (f : DecisionLedger → bool) : bool :=
  match r with Ok l => f l | Raise _ => false end.

Lemma sample_ledger_accepted :
  ∃ l, sample_ledger = Ok l ∧ ledger_case_id l = $"case_1" ∧ entries l ≠ []
       ∧ accepted (entries l) = true ∧ Forall (λ e, typed_entry e = true) (entries l).
Proof.
  assert (H : check_ledger sample_ledger (λ l,
    bool_decide (ledger_case_id l = $"case_1") && bool_decide (length (entries l) = 2%nat)
    && accepted (entries l) && forallb typed_entry (entries l)) = true) by (vm_compute; reflexivity).
  destruct sample_ledger as [l|]; [|done]. exists l. cbn [check_ledger] in H.
  apply andb_true_iff in H as [H H3]. apply andb_true_iff in H as [H H2].
  apply andb_true_iff in H as [H H1]. apply bool_decide_true_1 in H, H1.
  split; [done|]. split; [done|]. split; [intros E; by rewrite E in H1|]. split; [done|].
  by apply forallb_Forall.
Qed.

Lemma sample_ledger_fits l : sample_ledger = Ok l → Forall (entry_fits sample_room sample_room) (entries l).
Proof.
  assert (check_ledger sample_ledger (λ l, forallb small_entry (entries l)) = true) as H
    by (vm_compute; reflexivity).
  intros Hl. rewrite Hl in H. cbn [check_ledger] in H. apply forallb_Forall in H.
  exact (Forall_impl _ _ _ H small_entry_fits).
Qed.

Lemma verify_ledger_decides_witness :
  ∃ l v, sample_ledger = Ok l
         ∧ verify_ledger sample_room sample_room (entries l) (Some ($"case_1")) = Ok v
         ∧ valid_chain ($"case_1") (entries l)
         ∧ Forall (entry_fits sample_room sample_room) (entries l).
Proof.
  destruct sample_ledger_accepted as (l & Hl & _ & _ & Ha & _). apply accepted_Ok in Ha as (v & Hv & Hval).
  exists l, v. split; [exact Hl|]. split; [exact Hv|]. split; [|exact (sample_ledger_fits l Hl)].
  destruct (verify_ledger_decides sample_room sample_room (entries l) ($"case_1") eq_refl) as [Hiff _].
  apply (proj1 (Hiff v Hv)). exact Hval.
Defined.

Lemma append_extends_chain_witness :
  ∃ l e l', sample_ledger = Ok l
    ∧ append sample_room sample_room l ($"DecisionMade") [(PyStr ($"n"), PyInt 1)] (utc 63082281800000000) = Ok (e, l')
    ∧ entries l' = entries l ++ [e].
Proof.
  destruct sample_ledger_accepted as (l & Hl & Hc & _ & Ha & _).
  assert (H : check_ledger sample_ledger (λ l,
    is_ok (append sample_room sample_room l ($"DecisionMade") [(PyStr ($"n"), PyInt 1)] (utc 63082281800000000))) = true)
    by (vm_compute; reflexivity).
  rewrite Hl in H. cbn [check_ledger] in H. apply is_ok_true in H as [[e l'] H].
  exists l, e, l'. split; [exact Hl|]. split; [exact H|].
  apply accepted_Ok in Ha as (v & Hv & Hval). rewrite <- Hc in Hv.
  refine (proj1 (append_extends_chain sample_room sample_room sample_room sample_room l _ _ _ e l' v Hv Hval _ _ H)); reflexivity.
Defined.

Lemma ledger_tamper_evident_witness :
  ∃ l, sample_ledger = Ok l ∧ (entries l = entries l ∨ entry_collision (entries l) (entries l)).
Proof.
  destruct sample_ledger_accepted as (l & Hl & Hc & Hne & Ha & Ht).
  exists l. split; [exact Hl|]. apply accepted_Ok in Ha as (v & Hv & Hval).
  exact (ledger_tamper_evident sample_room sample_room sample_room sample_room _ _ _ v v Ht Ht Hv Hval Hv Hval Hne Hne eq_refl).
Defined.
