(* ===== verification/Webhooks.v ===== *)
(** [packages/razorpay/webhooks.py]: signature verification and
    normalisation of provider webhooks, with the strict reading of JSON (no
    duplicate object keys) that [json.loads] gives under
    [object_pairs_hook=_reject_duplicate_object_pairs].

    Two limits of CPython are kept because a body of the permitted size can
    reach them: integers of more than 4300 digits, and containers nested
    deeper than the interpreter's recursion limit, the parameter
    [nesting_limit].  Values are immutable here, so freezing and thawing a
    value is the identity. *)
From S2P Require Import Prelude PyStr Sha256 Json Digest Text Reader.

(** * Reading JSON without duplicate keys *)

Definition duplicate_error : py_error :=
  WebhookDecodeError "webhook JSON contains a duplicate object key".
Definition _reject_duplicate_object_pairs : list (pystr * json) → result (list (pystr * json)) :=
  add_pairs duplicate_error [].

(** [json.loads(text, object_pairs_hook=_reject_duplicate_object_pairs)]; two
    units of fuel per character are enough ([strict_value_fuel]). *)
Definition strict_loads : nat → pystr → result json :=
  strict_document _reject_duplicate_object_pairs strict_scalar.

(** * Event vocabulary *)

Inductive CanonicalEventType :=
  | PAYMENT_FAILED | PAYMENT_CAPTURED_EVENT | PAYMENT_AUTHORIZED | ORDER_PAID
  | PAYMENT_DOWNTIME_STARTED | PAYMENT_DOWNTIME_UPDATED | PAYMENT_DOWNTIME_RESOLVED
  | PAYMENT_LINK_PAID | PAYMENT_LINK_PARTIALLY_PAID | PAYMENT_LINK_CANCELLED
  | PAYMENT_LINK_EXPIRED | UNKNOWN_EVENT.

#[export] Instance CanonicalEventType_eq_dec : EqDecision CanonicalEventType.
Proof. solve_decision. Defined.

(** [CanonicalEventType.value]. *)
Definition event_type_value (t : CanonicalEventType) : pystr :=
  match t with
  | PAYMENT_FAILED => $"payment.failed"
  | PAYMENT_CAPTURED_EVENT => $"payment.captured"
  | PAYMENT_AUTHORIZED => $"payment.authorized"
  | ORDER_PAID => $"order.paid"
  | PAYMENT_DOWNTIME_STARTED => $"payment.downtime.started"
  | PAYMENT_DOWNTIME_UPDATED => $"payment.downtime.updated"
  | PAYMENT_DOWNTIME_RESOLVED => $"payment.downtime.resolved"
  | PAYMENT_LINK_PAID => $"payment_link.paid"
  | PAYMENT_LINK_PARTIALLY_PAID => $"payment_link.partially_paid"
  | PAYMENT_LINK_CANCELLED => $"payment_link.cancelled"
  | PAYMENT_LINK_EXPIRED => $"payment_link.expired"
  | UNKNOWN_EVENT => $"unknown"
  end.

Record _EventSpec := mkEventSpec {
  canonical_type : CanonicalEventType;
  payload_key : pystr;
  spec_resource_type : pystr
}.

Definition _EVENT_SPECS : list (pystr * _EventSpec) :=
  let payment := $"payment" in
  let downtime := $"payment.downtime" in
  let link := $"payment_link" in
  [($"payment.failed", mkEventSpec PAYMENT_FAILED payment payment);
   ($"payment.captured", mkEventSpec PAYMENT_CAPTURED_EVENT payment payment);
   ($"payment.authorized", mkEventSpec PAYMENT_AUTHORIZED payment payment);
   ($"order.paid", mkEventSpec ORDER_PAID ($"order") ($"order"));
   ($"payment.downtime.started", mkEventSpec PAYMENT_DOWNTIME_STARTED downtime downtime);
   ($"payment.downtime.updated", mkEventSpec PAYMENT_DOWNTIME_UPDATED downtime downtime);
   ($"payment.downtime.resolved", mkEventSpec PAYMENT_DOWNTIME_RESOLVED downtime downtime);
   ($"payment_link.paid", mkEventSpec PAYMENT_LINK_PAID link link);
   ($"payment_link.partially_paid", mkEventSpec PAYMENT_LINK_PARTIALLY_PAID link link);
   ($"payment_link.cancelled", mkEventSpec PAYMENT_LINK_CANCELLED link link);
   ($"payment_link.expired", mkEventSpec PAYMENT_LINK_EXPIRED link link)].

Definition _BASE_ENTITY_FIELDS : list pystr := [$"id"; $"entity"; $"status"; $"created_at"].

Definition _ENTITY_FIELD_ALLOWLIST : list (pystr * list pystr) :=
  [($"payment", _BASE_ENTITY_FIELDS ++
     [$"amount"; $"amount_refunded"; $"captured"; $"currency"; $"error_code"; $"error_reason";
      $"error_source"; $"error_step"; $"invoice_id"; $"method"; $"order_id"; $"refund_status"]);
   ($"order", _BASE_ENTITY_FIELDS ++
     [$"amount"; $"amount_due"; $"amount_paid"; $"attempts"; $"currency"]);
   ($"payment_link", _BASE_ENTITY_FIELDS ++
     [$"accept_partial"; $"amount"; $"amount_paid"; $"cancelled_at"; $"currency"; $"expire_by";
      $"expired_at"; $"order_id"; $"reference_id"; $"upi_link"]);
   ($"payment.downtime", _BASE_ENTITY_FIELDS ++
     [$"bank"; $"issuer"; $"method"; $"network"; $"resolved_at"; $"scheduled"; $"severity"])].

Definition allowed_fields (resource_type : pystr) : list pystr :=
  default _BASE_ENTITY_FIELDS (dict_get resource_type _ENTITY_FIELD_ALLOWLIST).

(** * Headers and the signature *)

Record WebhookHeaders := mkWebhookHeaders { signature : pystr; header_event_id : pystr }.

Definition WebhookHeaders_from_mapping (headers : list (pystr * pystr)) : result WebhookHeaders :=
  let lowered := foldl (λ d '(key, value), dict_set (lower_ascii key) value d) [] headers in
  signature ←
    match dict_get ($"x-razorpay-signature") lowered with
    | Some s => if bool_decide (strip s = [])
                then Raise (WebhookVerificationError "missing X-Razorpay-Signature header") else Ok s
    | None => Raise (WebhookVerificationError "missing X-Razorpay-Signature header")
    end;
  event_id ←
    match dict_get ($"x-razorpay-event-id") lowered with
    | Some s => if bool_decide (strip s = [])
                then Raise (WebhookDecodeError "missing x-razorpay-event-id header") else Ok s
    | None => Raise (WebhookDecodeError "missing x-razorpay-event-id header")
    end;
  _ ← raise_if (bool_decide (event_id ≠ strip event_id) || (256 <? str_len event_id))
        (WebhookDecodeError "invalid x-razorpay-event-id header");
  Ok (mkWebhookHeaders signature event_id).

Definition _normalise_secret (secret : bytes) : result bytes :=
  _ ← raise_if (bool_decide (secret = [])) (ValueError "webhook secret cannot be empty");
  Ok secret.

Definition calculate_webhook_signature (raw_body secret : bytes) : result pystr :=
  key ← _normalise_secret secret;
  Ok (hmac_sha256_hex key raw_body).

Fixpoint normalise_secrets (secrets : list bytes) : result (list bytes) :=
  match secrets with
  | [] => Ok []
  | secret :: secrets =>
      secret ← _normalise_secret secret;
      rest ← normalise_secrets secrets;
      Ok (secret :: rest)
  end.

(** [_SIGNATURE_RE.fullmatch]. *)
Definition is_hex (c : Z) : bool := is_digit c || between 97 102 c || between 65 70 c.
Definition signature_shape (signature : pystr) : bool :=
  forallb is_hex signature && (str_len signature =? 64).

(** The loop over all configured secrets. *)
Fixpoint any_match (raw_body : bytes) (candidate : pystr) (secrets : list bytes) (matched : bool)
    : result bool :=
  match secrets with
  | [] => Ok matched
  | secret :: secrets =>
      expected ← calculate_webhook_signature raw_body secret;
      any_match raw_body candidate secrets (bool_decide (expected = candidate) || matched)
  end.

Definition is_valid_webhook_signature (raw_body : bytes) (signature : pystr) (secrets : list bytes)
    : result bool :=
  configured ← normalise_secrets secrets;
  _ ← raise_if (bool_decide (configured = [])) (ValueError "at least one webhook secret is required");
  let signature_has_valid_shape := signature_shape signature in
  let candidate := if signature_has_valid_shape then lower_ascii signature else repeat 48 64 in
  matched ← any_match raw_body candidate configured false;
  Ok (signature_has_valid_shape && matched).

Definition verify_webhook_signature (raw_body : bytes) (signature : pystr) (secrets : list bytes)
    : result unit :=
  valid ← is_valid_webhook_signature raw_body signature secrets;
  raise_if (negb valid) (WebhookVerificationError "invalid Razorpay webhook signature").

(** * Normalisation *)

(** A dictionary built in the order of a [frozenset] is a finite map. *)
Abbreviation entity_map := (gmap pystr json) (only parsing).

Record CanonicalWebhookEvent := mkCanonicalWebhookEvent {
  event_id : pystr;
  event_account_id : pystr;
  event_name : pystr;
  event_type : CanonicalEventType;
  occurred_at_epoch : Z;
  resource_type : pystr;
  resource_id : option pystr;
  resource : entity_map;
  related_resources : list (pystr * entity_map);
  raw_body_sha256 : pystr;
  event_schema_version : Z
}.

Definition event_to_dict (e : CanonicalWebhookEvent) : json :=
  JDict
    [($"schema_version", JInt (event_schema_version e));
     ($"event_id", JStr (event_id e));
     ($"provider_account_id", JStr (event_account_id e));
     ($"event_name", JStr (event_name e));
     ($"event_type", JStr (event_type_value (event_type e)));
     ($"occurred_at_epoch", JInt (occurred_at_epoch e));
     ($"resource_type", JStr (resource_type e));
     ($"resource_id", from_option JStr JNull (resource_id e));
     ($"resource", JDict (map_to_list (resource e)));
     ($"related_resources",
        JDict (map (λ kv : pystr * entity_map, (kv.1, JDict (map_to_list kv.2))) (related_resources e)));
     ($"raw_body_sha256", JStr (raw_body_sha256 e))].

Definition _required_string (container : list (pystr * json)) (field : string) : result pystr :=
  let error := WebhookDecodeError (field ++ " must be a non-empty string")%string in
  match dict_get (lit field) container with
  | Some (JStr value) =>
      _ ← raise_if (bool_decide (value = []) || bool_decide (value ≠ strip value)) error;
      Ok value
  | _ => Raise error
  end.

Definition _required_epoch (container : list (pystr * json)) (field : string) : result Z :=
  let error := WebhookDecodeError (field ++ " must be a non-negative integer epoch")%string in
  match dict_get (lit field) container with
  | Some (JInt value) => _ ← raise_if (value <? 0) error; Ok value
  | _ => Raise error
  end.

(** [isinstance(value, Mapping)], raising [e] otherwise. *)
Definition as_mapping (value : option json) (e : py_error) : result (list (pystr * json)) :=
  match value with Some (JDict d) => Ok d | _ => Raise e end.

Definition _extract_entity (payload : list (pystr * json)) (key : pystr) : result (list (pystr * json)) :=
  wrapper ← as_mapping (dict_get key payload)
              (WebhookDecodeError ("payload." ++ string_of key ++ " must be an object")%string);
  as_mapping (dict_get ($"entity") wrapper)
    (WebhookDecodeError ("payload." ++ string_of key ++ ".entity must be an object")%string).

(** [value is None or type(value) in {bool, int, str}]. *)
Definition is_scalar (value : json) : bool :=
  match value with JNull | JBool _ | JInt _ | JStr _ => true | _ => false end.

Definition keep_field (entity : list (pystr * json)) (sanitized : entity_map) (key : pystr) : entity_map :=
  match dict_get key entity with
  | Some value => if is_scalar value then <[key := value]> sanitized else sanitized
  | None => sanitized
  end.

Definition _sanitize_entity (resource_type : pystr) (entity : list (pystr * json)) : entity_map :=
  foldl (keep_field entity) ∅ (allowed_fields resource_type).

Definition add_related (related : list (pystr * entity_map)) (item : pystr * json)
    : list (pystr * entity_map) :=
  match item.2 with
  | JDict wrapper =>
      match dict_get ($"entity") wrapper with
      | Some (JDict entity) => dict_set item.1 (_sanitize_entity item.1 entity) related
      | _ => related
      end
  | _ => related
  end.
Definition _related_entities (payload : list (pystr * json)) : list (pystr * entity_map) :=
  foldl add_related [] payload.

(** A non-empty string under ["id"]. *)
Definition entity_id (entity : entity_map) : option pystr :=
  match entity !! ($"id") with
  | Some (JStr value) => if bool_decide (value = []) then None else Some value
  | _ => None
  end.

(** The search of an unknown event for its first identified entity. *)
Fixpoint first_candidate (related : list (pystr * entity_map)) : pystr * option pystr * entity_map :=
  match related with
  | [] => ($"unknown", None, ∅)
  | (candidate_type, candidate) :: related =>
      match entity_id candidate with
      | Some candidate_id => (candidate_type, Some candidate_id, candidate)
      | None => first_candidate related
      end
  end.

Section normalize.
Context (nesting_limit : nat).

Definition decode_body (raw_body : bytes) : result json :=
  let error := WebhookDecodeError "webhook body is not valid UTF-8 JSON" in
  match utf8_decode raw_body with
  | None => Raise error
  | Some text =>
      match strict_loads nesting_limit text with
      | Raise JSONDecodeError => Raise error
      | r => r
      end
  end.

(** The event type, resource type, resource identifier and resource. *)
Definition select_resource (payload : list (pystr * json)) (event_name : pystr)
    (related : list (pystr * entity_map))
    : result (CanonicalEventType * (pystr * option pystr * entity_map)) :=
  match dict_get event_name _EVENT_SPECS with
  | None => Ok (UNKNOWN_EVENT, first_candidate related)
  | Some spec =>
      entity ← _extract_entity payload (payload_key spec);
      let resource := _sanitize_entity (payload_key spec) entity in
      match entity_id resource with
      | Some resource_id => Ok (canonical_type spec, (spec_resource_type spec, Some resource_id, resource))
      | None => Raise (WebhookDecodeError
          ("payload." ++ string_of (payload_key spec) ++ ".entity.id must be a non-empty string")%string)
      end
  end.

Definition normalize_verified_webhook (raw_body : bytes) (id : pystr)
    (expected_account_id : option pystr) : result CanonicalWebhookEvent :=
  _ ← raise_if (bool_decide (id = []) || bool_decide (id ≠ strip id))
        (WebhookDecodeError "event_id must be a non-empty string");
  _ ← raise_if (256 <? str_len id) (WebhookDecodeError "event_id exceeds 256 characters");
  value ← decode_body raw_body;
  decoded ← as_mapping (Some value) (WebhookDecodeError "webhook JSON root must be an object");
  account_id ← _required_string decoded "account_id";
  _ ← raise_if (match expected_account_id with
                | Some expected => bool_decide (account_id ≠ expected)
                | None => false end)
        (AccountMismatchError "webhook account_id does not match endpoint account");
  name ← _required_string decoded "event";
  occurred_at ← _required_epoch decoded "created_at";
  payload ← as_mapping (dict_get ($"payload") decoded) (WebhookDecodeError "payload must be an object");
  let related := _related_entities payload in
  '(type, (res_type, res_id, res)) ← select_resource payload name related;
  Ok (mkCanonicalWebhookEvent id account_id name type occurred_at res_type res_id res related
        (sha256_hex raw_body) 1).

Definition verify_and_normalize_webhook (raw_body : bytes) (headers : WebhookHeaders)
    (secrets : list bytes) (expected_account_id : option pystr) : result CanonicalWebhookEvent :=
  _ ← verify_webhook_signature raw_body (signature headers) secrets;
  normalize_verified_webhook raw_body (header_event_id headers) expected_account_id.
End normalize.

(** * The reader *)

Lemma strict_loads_sound nesting_limit text j :
  strict_loads nesting_limit text = Ok j → loads text = Some j ∧ json_nodup j.
Proof.
  apply strict_document_sound; [apply strict_scalar_Ok|]. intros pairs d H. apply reject_duplicates_Ok in H as [-> H].
  by rewrite dict_of_pairs_NoDup.
Qed.

Lemma strict_loads_error nesting_limit text e :
  strict_loads nesting_limit text = Raise e → reader_error (λ e, e = duplicate_error ∨ digits_error e) e.
Proof.
  apply strict_document_error.
  - intros s e' [H|H]%strict_scalar_error; tauto.
  - intros pairs e' H. left. by apply add_pairs_Raise in H.
Qed.

(** * The signature *)

Lemma normalise_secrets_spec secrets :
  normalise_secrets secrets
  = if bool_decide ([] ∈ secrets) then Raise (ValueError "webhook secret cannot be empty") else Ok secrets.
Proof.
  induction secrets as [|secret secrets IH]; [by rewrite bool_decide_false by apply not_elem_of_nil|].
  cbn [normalise_secrets]. unfold _normalise_secret. destruct (decide (secret = [])) as [->|Hne].
  - rewrite (bool_decide_true ([] ∈ _)) by left. done.
  - rewrite (bool_decide_false (secret = [])) by done. rewrite raise_if_false, !bind_Ok_l, IH.
    rewrite (bool_decide_ext ([] ∈ secret :: secrets) ([] ∈ secrets)).
    + by case_bool_decide.
    + rewrite elem_of_cons. split; [by intros [Hs|?]|by right].
Qed.

Definition signed_by (raw_body : bytes) (candidate : pystr) (secret : bytes) : bool :=
  bool_decide (hmac_sha256_hex secret raw_body = candidate).

Lemma any_match_spec raw_body candidate secrets matched :
  [] ∉ secrets →
  any_match raw_body candidate secrets matched = Ok (existsb (signed_by raw_body candidate) secrets || matched).
Proof.
  revert matched. induction secrets as [|secret secrets IH]; intros matched Hne; [done|].
  rewrite not_elem_of_cons in Hne. destruct Hne as [Hs Hne].
  cbn [any_match existsb]. unfold calculate_webhook_signature, _normalise_secret.
  rewrite bool_decide_false by done. rewrite raise_if_false, !bind_Ok_l, IH by done.
  f_equal. unfold signed_by at 2. by destruct (existsb _ secrets), (bool_decide _), matched.
Qed.

Lemma lower_hex_shape s : is_digest (lower_ascii s) = true → signature_shape s = true.
Proof.
  unfold is_digest, signature_shape, lower_ascii, str_len. rewrite length_map, !andb_true_iff. intros [H Hl].
  split; [|done]. clear Hl. induction s as [|c s IH]; [done|]. cbn in *. apply andb_true_iff in H as [Hc H].
  rewrite IH, andb_true_r by done. unfold is_lower_hex, is_hex, is_upper, is_digit, between in *.
  destruct (Z.leb_spec 65 c), (Z.leb_spec c 90); cbn in Hc; lia.
Qed.

Lemma hmac_digest key msg : is_digest (hmac_sha256_hex key msg) = true.
Proof. apply is_digest_sha256. Qed.

(** What [is_valid_webhook_signature] computes, on every input. *)
Lemma is_valid_spec raw_body signature secrets :
  is_valid_webhook_signature raw_body signature secrets
  = if bool_decide ([] ∈ secrets) then Raise (ValueError "webhook secret cannot be empty")
    else if bool_decide (secrets = []) then Raise (ValueError "at least one webhook secret is required")
    else Ok (existsb (signed_by raw_body (lower_ascii signature)) secrets).
Proof.
  unfold is_valid_webhook_signature. rewrite normalise_secrets_spec.
  case_bool_decide as Hne; [done|]. rewrite bind_Ok_l. destruct (decide (secrets = [])) as [->|Hs]; [done|].
  rewrite !(bool_decide_false (secrets = [])), raise_if_false, bind_Ok_l by done. cbv zeta.
  rewrite any_match_spec, bind_Ok_l, orb_false_r by done. f_equal.
  destruct (signature_shape signature) eqn:E; [done|]. cbn [andb]. symmetry.
  apply not_true_is_false. intros (secret & _ & Hs')%existsb_exists.
  apply bool_decide_true_1 in Hs'. pose proof (hmac_digest secret raw_body) as Hd.
  rewrite Hs' in Hd. apply lower_hex_shape in Hd. congruence.
Qed.

Lemma existsb_signed raw_body candidate secrets :
  existsb (signed_by raw_body candidate) secrets = true
  ↔ ∃ secret, secret ∈ secrets ∧ hmac_sha256_hex secret raw_body = candidate.
Proof.
  rewrite existsb_exists. split; intros (secret & Hin & H); exists secret.
  - apply bool_decide_true_1 in H. by rewrite list_elem_of_In.
  - rewrite <- list_elem_of_In. split; [done|]. by apply bool_decide_eq_true.
Qed.

(** * Sanitised entities *)

Lemma keep_field_lookup entity sanitized key k :
  keep_field entity sanitized key !! k
  = if decide (k = key) then
      match dict_get key entity with
      | Some v => if is_scalar v then Some v else sanitized !! k
      | None => sanitized !! k
      end
    else sanitized !! k.
Proof.
  unfold keep_field. case_decide as E.
  - subst. destruct (dict_get key entity) as [v|]; [|done]. destruct (is_scalar v); [|done].
    apply lookup_insert_eq.
  - destruct (dict_get key entity) as [v|]; [|done]. destruct (is_scalar v); [|done].
    by rewrite lookup_insert_ne.
Qed.

(** The scalar value of an allow-listed field. *)
Definition kept_field (resource_type : pystr) (entity : list (pystr * json)) (k : pystr) : option json :=
  if decide (k ∈ allowed_fields resource_type)
  then match dict_get k entity with
       | Some v => if is_scalar v then Some v else None
       | None => None
       end
  else None.

Lemma sanitize_lookup resource_type entity k :
  _sanitize_entity resource_type entity !! k = kept_field resource_type entity k.
Proof.
  unfold _sanitize_entity, kept_field.
  set (value := match dict_get k entity with
                | Some v => if is_scalar v then Some v else None | None => None end).
  assert (∀ l m, m !! k = None ∨ m !! k = value →
    foldl (keep_field entity) m l !! k = if decide (k ∈ l) then value else m !! k) as H.
  { induction l as [|key l IH]; intros m Hm; [done|]. cbn [foldl].
    assert (keep_field entity m key !! k = if decide (k = key) then value else m !! k) as Hk.
    { rewrite keep_field_lookup. destruct (decide (k = key)) as [<-|]; [|done]. unfold value in *.
      destruct (dict_get k entity) as [v|]; [destruct (is_scalar v); [done|]|]; by destruct Hm. }
    rewrite IH by (rewrite Hk; case_decide; tauto). rewrite Hk.
    destruct (decide (k ∈ l)); [by rewrite decide_True by (by right)|].
    destruct (decide (k = key)) as [->|]; [by rewrite decide_True by left|].
    rewrite decide_False; [done|]. by rewrite not_elem_of_cons. }
  rewrite H by (left; apply lookup_empty). by rewrite lookup_empty.
Qed.

(** The sanitised entity of one payload item. *)
Definition related_item (item : pystr * json) : option (pystr * entity_map) :=
  match item.2 with
  | JDict wrapper =>
      match dict_get ($"entity") wrapper with
      | Some (JDict entity) => Some (item.1, _sanitize_entity item.1 entity)
      | _ => None
      end
  | _ => None
  end.

Lemma related_entities_omap payload :
  NoDup payload.*1 → _related_entities payload = omap related_item payload.
Proof.
  intros Hnd. unfold _related_entities.
  assert (∀ related, NoDup (related.*1 ++ payload.*1) →
    foldl add_related related payload = related ++ omap related_item payload) as H.
  { clear Hnd. induction payload as [|item payload IH]; intros related Hnd; [by rewrite app_nil_r|].
    cbn [foldl omap list_omap].
    assert (add_related related item = related ++ option_list (related_item item)) as ->.
    { unfold add_related, related_item. destruct item as [k v]; cbn in *.
      destruct v as [| | | | | |wrapper]; try by rewrite app_nil_r.
      destruct (dict_get _ wrapper) as [[| | | | | |entity]|]; try by rewrite app_nil_r.
      cbn [option_list]. apply dict_set_fresh. apply NoDup_app in Hnd as (_ & Hnd & _).
      intros Hk. eapply Hnd; [exact Hk|left]. }
    rewrite IH.
    - unfold omap at 2. cbn. destruct (related_item item); cbn; by rewrite <- app_assoc.
    - rewrite fmap_app, <- app_assoc. destruct (related_item item) as [[k m]|] eqn:E; cbn in *.
      + assert (k = item.1) as ->; [|done]. unfold related_item in E. destruct item as [k' v]; cbn in *.
        destruct v as [| | | | | |wrapper]; try done.
        destruct (dict_get _ wrapper) as [[| | | | | |entity]|]; try done. congruence.
      + eapply sublist_NoDup; [exact Hnd|]. apply sublist_app; [done|by apply sublist_cons]. }
  by apply (H []).
Qed.

Lemma elem_of_related payload t m :
  NoDup payload.*1 →
  (t, m) ∈ _related_entities payload ↔
  ∃ wrapper entity, dict_get t payload = Some (JDict wrapper)
    ∧ dict_get ($"entity") wrapper = Some (JDict entity) ∧ m = _sanitize_entity t entity.
Proof.
  intros Hnd. rewrite related_entities_omap, list_elem_of_omap by done. split.
  - intros ([k v] & Hin & H). unfold related_item in H. cbn in H.
    destruct v as [| | | | | |wrapper]; try done.
    destruct (dict_get _ wrapper) as [[| | | | | |entity]|] eqn:E; try done. injection H as -> <-.
    exists wrapper, entity. split; [by apply elem_dict_get|done].
  - intros (wrapper & entity & Ht & He & ->). exists (t, JDict wrapper).
    split; [by apply dict_get_elem|]. unfold related_item. cbn [fst snd]. by rewrite He.
Qed.

(** * Normalisation *)
Section normalize_lemmas.
Context (nesting_limit : nat).

Lemma decode_body_Ok raw_body j :
  decode_body nesting_limit raw_body = Ok j →
  json_nodup j ∧ ∃ text, utf8_decode raw_body = Some text ∧ loads text = Some j.
Proof.
  unfold decode_body. destruct (utf8_decode raw_body) as [text|]; [|done].
  intros H. assert (strict_loads nesting_limit text = Ok j) as Hj.
  { destruct (strict_loads nesting_limit text) as [|[]]; done. }
  apply strict_loads_sound in Hj as [? ?]. eauto.
Qed.

(** The entity that the payload of a body carries under a key. *)
Definition body_entity (raw_body : bytes) (key : pystr) (entity : list (pystr * json)) : Prop :=
  ∃ decoded payload wrapper,
    decode_body nesting_limit raw_body = Ok (JDict decoded)
    ∧ dict_get ($"payload") decoded = Some (JDict payload)
    ∧ dict_get key payload = Some (JDict wrapper)
    ∧ dict_get ($"entity") wrapper = Some (JDict entity).

Lemma as_mapping_Ok v e d : as_mapping v e = Ok d ↔ v = Some (JDict d).
Proof. destruct v as [[]|]; cbn; naive_solver. Qed.

Lemma required_string_Ok container field s :
  _required_string container field = Ok s →
  dict_get (lit field) container = Some (JStr s) ∧ s ≠ [] ∧ s = strip s.
Proof.
  unfold _required_string. destruct (dict_get _ _) as [[]|]; try done. intros H. inv_ok. subst. bools.
  split; [done|]. split; [done|]. by apply dec_stable.
Qed.

Lemma required_epoch_Ok container field z :
  _required_epoch container field = Ok z → dict_get (lit field) container = Some (JInt z) ∧ 0 <= z.
Proof.
  unfold _required_epoch. destruct (dict_get _ _) as [[]|]; try done. intros H. inv_ok. subst. bools. done.
Qed.

(** An event is unpacked into the parts of its body. *)
Lemma normalize_Ok raw_body id expected e :
  normalize_verified_webhook nesting_limit raw_body id expected = Ok e →
  event_id e = id ∧ raw_body_sha256 e = sha256_hex raw_body ∧ event_schema_version e = 1
  ∧ (∀ account, expected = Some account → event_account_id e = account)
  ∧ ∃ decoded payload,
      decode_body nesting_limit raw_body = Ok (JDict decoded)
      ∧ dict_get ($"payload") decoded = Some (JDict payload)
      ∧ _required_string decoded "account_id" = Ok (event_account_id e)
      ∧ _required_string decoded "event" = Ok (event_name e)
      ∧ _required_epoch decoded "created_at" = Ok (occurred_at_epoch e)
      ∧ related_resources e = _related_entities payload
      ∧ select_resource payload (event_name e) (related_resources e)
        = Ok (event_type e, (resource_type e, resource_id e, resource e)).
Proof.
  unfold normalize_verified_webhook. intros H. inv_ok.
  repeat match goal with H : as_mapping _ _ = Ok _ |- _ => apply as_mapping_Ok in H end.
  match goal with r : CanonicalEventType * _ |- _ => destruct r as [type [[res_type res_id] res]] end. inv_ok. subst e. cbn. simplify_eq.
  do 3 (split; [done|]). split; [|eexists _, _; repeat split; eassumption].
  intros account ->. bools. by apply dec_stable.
Qed.
End normalize_lemmas.

Lemma entity_id_Some m i : entity_id m = Some i → m !! ($"id") = Some (JStr i) ∧ i ≠ [].
Proof.
  unfold entity_id. destruct (m !! _) as [[]|]; try done.
  case_bool_decide; [done|]. by intros [= ->].
Qed.

Lemma event_specs_key name spec : dict_get name _EVENT_SPECS = Some spec → spec_resource_type spec = payload_key spec.
Proof.
  intros H%dict_get_elem. apply (list_elem_of_fmap_2 snd) in H. cbn [snd] in H.
  assert (Forall (λ s, spec_resource_type s = payload_key s) _EVENT_SPECS.*2) as Hall by (by repeat constructor).
  by apply (proj1 (Forall_forall _ _) Hall).
Qed.

Lemma first_candidate_spec related :
  first_candidate related = ($"unknown", None, ∅)
  ∨ ∃ t i m, first_candidate related = (t, Some i, m) ∧ (t, m) ∈ related ∧ entity_id m = Some i.
Proof.
  induction related as [|[t m] related IH]; cbn; [by left|]. destruct (entity_id m) as [i|] eqn:E.
  - right. exists t, i, m. split; [done|]. by split; [left|].
  - destruct IH as [->|(t' & i & m' & -> & ? & ?)]; [by left|right].
    exists t', i, m'. split; [done|]. by split; [right|].
Qed.

Section theorems.
Context (nesting_limit : nat).

(** The resource part of an event. *)
Definition resource_reflects (raw_body : bytes) (e : CanonicalWebhookEvent) : Prop :=
  match resource_id e with
  | None => event_type e = UNKNOWN_EVENT ∧ resource_type e = $"unknown" ∧ resource e = ∅
  | Some i =>
      i ≠ [] ∧ resource e !! ($"id") = Some (JStr i)
      ∧ ∃ entity, body_entity nesting_limit raw_body (resource_type e) entity
          ∧ resource e = _sanitize_entity (resource_type e) entity
  end.

Lemma decoded_payload_nodup raw_body decoded payload :
  decode_body nesting_limit raw_body = Ok (JDict decoded) →
  dict_get ($"payload") decoded = Some (JDict payload) → NoDup payload.*1.
Proof.
  intros [Hnd _]%decode_body_Ok Hp%dict_get_elem. inversion Hnd as [| | | | | |d _ Hd]; subst.
  specialize (proj1 (Forall_forall _ _) Hd _ Hp). cbn. by inversion 1.
Qed.

Lemma normalize_related raw_body id expected e t m :
  normalize_verified_webhook nesting_limit raw_body id expected = Ok e →
  (t, m) ∈ related_resources e ↔
  ∃ entity, body_entity nesting_limit raw_body t entity ∧ m = _sanitize_entity t entity.
Proof.
  intros (_ & _ & _ & _ & decoded & payload & Hd & Hp & _ & _ & _ & -> & _)%normalize_Ok.
  rewrite elem_of_related by (by eapply decoded_payload_nodup). split.
  - intros (wrapper & entity & Ht & He & ->). exists entity. split; [|done].
    by exists decoded, payload, wrapper.
  - intros (entity & (decoded' & payload' & wrapper & Hd' & Hp' & Ht & He) & ->).
    rewrite Hd in Hd'. injection Hd' as <-. rewrite Hp in Hp'. injection Hp' as <-. by exists wrapper, entity.
Qed.

Lemma normalize_resource raw_body id expected e :
  normalize_verified_webhook nesting_limit raw_body id expected = Ok e →
  resource_reflects raw_body e
  ∧ event_type e = from_option canonical_type UNKNOWN_EVENT (dict_get (event_name e) _EVENT_SPECS).
Proof.
  intros H. pose proof (normalize_related _ _ _ _ (resource_type e) (resource e) H) as Hrel.
  apply normalize_Ok in H as (_ & _ & _ & _ & decoded & payload & Hd & Hp & _ & _ & _ & _ & Hsel).
  unfold resource_reflects, select_resource in *. destruct (dict_get (event_name e) _EVENT_SPECS) as [spec|] eqn:Es.
  - apply bind_Ok in Hsel as (entity & He & Hsel). cbv zeta in Hsel.
    destruct (entity_id _) as [i|] eqn:Ei; [|done].
    apply Ok_inj in Hsel. injection Hsel as Ht Hrt Hid Hr. rewrite <- Hid. cbn. split; [|done].
    apply entity_id_Some in Ei as [Hi Hne]. rewrite Hr in Hi. split; [done|]. split; [done|].
    apply event_specs_key in Es. rewrite <- Hrt, <- Hr, Es. exists entity. split; [|done].
    unfold _extract_entity in He. apply bind_Ok in He as (wrapper & Hw & He).
    apply as_mapping_Ok in Hw, He. by exists decoded, payload, wrapper.
  - apply Ok_inj in Hsel. injection Hsel as Ht Hc. cbn. split; [|done].
    destruct (first_candidate_spec (related_resources e)) as [Hf|(t & i & m & Hf & Hin & Hi)];
      rewrite Hf in Hc; injection Hc as Hrt Hid Hr; rewrite <- Hid; [done|].
    apply entity_id_Some in Hi as [Hi Hne]. rewrite Hr in Hi. rewrite Hrt, Hr in Hin.
    split; [done|]. split; [done|]. exact (proj1 Hrel Hin).
Qed.
End theorems.

Lemma decode_body_error nesting_limit raw_body e :
  decode_body nesting_limit raw_body = Raise e →
  (∃ m, e = WebhookDecodeError m) ∨ e = RecursionError
  ∨ e = ValueError "Exceeds the limit (4300 digits) for integer string conversion".
Proof.
  unfold decode_body. destruct (utf8_decode raw_body) as [text|]; [|intros [= <-]; eauto].
  intros H. destruct (strict_loads nesting_limit text) as [|e'] eqn:E; [done|].
  apply strict_loads_error in E as [->|[->|[->| ->]]]; injection H as <-; eauto.
Qed.

(** The errors a signed request is refused with. *)
Definition refusal (e : py_error) : Prop :=
  (∃ m, e = WebhookDecodeError m) ∨ (∃ m, e = AccountMismatchError m).

Lemma raise_if_Raise b e e' : raise_if b e = Raise e' → e' = e.
Proof. destruct b; [by intros [= ->]|done]. Qed.

Lemma select_resource_refusal payload name related e :
  select_resource payload name related = Raise e → refusal e.
Proof.
  unfold select_resource. destruct (dict_get name _EVENT_SPECS) as [spec|]; [|done].
  unfold _extract_entity, as_mapping. intros H. left. cbv zeta in H.
  repeat match goal with
  | H : _ ≫= _ = Raise _ |- _ => apply bind_Raise in H as [H|(? & _ & H)]
  | H : context [match ?x with _ => _ end] |- _ => destruct x; try discriminate H
  end; injection H as <-; eauto.
Qed.

Lemma required_string_refusal container field e :
  _required_string container field = Raise e → refusal e.
Proof.
  unfold _required_string. destruct (dict_get _ _) as [[]|]; intros H; try (injection H as <-; left; eauto).
  apply bind_Raise in H as [H%raise_if_Raise|(? & _ & H)]; [left; eauto|done].
Qed.

Lemma required_epoch_refusal container field e :
  _required_epoch container field = Raise e → refusal e.
Proof.
  unfold _required_epoch. destruct (dict_get _ _) as [[]|]; intros H; try (injection H as <-; left; eauto).
  apply bind_Raise in H as [H%raise_if_Raise|(? & _ & H)]; [left; eauto|done].
Qed.

Lemma as_mapping_refusal v m e : as_mapping v (WebhookDecodeError m) = Raise e → refusal e.
Proof. destruct v as [[]|]; intros H; try done; injection H as <-; left; eauto. Qed.

Lemma guard_refusal b m e : raise_if b (WebhookDecodeError m) = Raise e → refusal e.
Proof. intros ->%raise_if_Raise. left; eauto. Qed.

Create HintDb refusal.
#[local] Hint Resolve select_resource_refusal required_string_refusal required_epoch_refusal
  as_mapping_refusal guard_refusal : refusal.

(** * Properties *)

(** the signature check decides authenticity: with a list of non-empty
    secrets it answers yes exactly when the signature is, up to letter case,
    the HMAC-SHA256 of the exact body under one of them, at whichever
    position; an empty secret or an empty list is refused. *)
Theorem signature_decides raw_body signature secrets :
  match is_valid_webhook_signature raw_body signature secrets with
  | Ok valid =>
      secrets ≠ [] ∧ ([] ∉ secrets)
      ∧ (valid = true ↔ ∃ secret, secret ∈ secrets ∧ hmac_sha256_hex secret raw_body = lower_ascii signature)
  | Raise e => (secrets = [] ∨ [] ∈ secrets) ∧ ∃ m, e = ValueError m
  end.
Proof.
  rewrite is_valid_spec. case_bool_decide as Hne; [eauto|]. case_bool_decide as Hs; [eauto|].
  split; [done|]. split; [done|]. apply existsb_signed.
Qed.

(** a normalised event says what its body says: its identifiers, name and
    time are the body's; its resource and related resources are exactly the
    sanitised entities the payload carries, the resource being identified by
    a non-empty string; an event of an unlisted name is of the unknown type. *)
Theorem event_reflects_body nesting_limit raw_body id expected e :
  normalize_verified_webhook nesting_limit raw_body id expected = Ok e →
  event_id e = id ∧ raw_body_sha256 e = sha256_hex raw_body
  ∧ (∀ account, expected = Some account → event_account_id e = account)
  ∧ (∃ decoded, decode_body nesting_limit raw_body = Ok (JDict decoded)
       ∧ dict_get ($"account_id") decoded = Some (JStr (event_account_id e))
       ∧ dict_get ($"event") decoded = Some (JStr (event_name e))
       ∧ dict_get ($"created_at") decoded = Some (JInt (occurred_at_epoch e)))
  ∧ event_type e = from_option canonical_type UNKNOWN_EVENT (dict_get (event_name e) _EVENT_SPECS)
  ∧ resource_reflects nesting_limit raw_body e
  ∧ ∀ t m, (t, m) ∈ related_resources e ↔
      ∃ entity, body_entity nesting_limit raw_body t entity ∧ m = _sanitize_entity t entity.
Proof.
  intros H. pose proof (normalize_resource _ _ _ _ _ H) as [Hres Htype].
  pose proof (λ t m, normalize_related _ _ _ _ _ t m H) as Hrel.
  apply normalize_Ok in H as (Hid & Hsha & _ & Hacc & decoded & _ & Hd & _ & Ha & Hn & Ht & _ & _).
  apply required_string_Ok in Ha as [Ha _], Hn as [Hn _]. apply required_epoch_Ok in Ht as [Ht _].
  repeat (split; [done|]). split; [by exists decoded|]. done.
Qed.

(** C38: only allow-listed operational fields survive normalisation: every field
    of the resource and of each related resource is on the allow-list of its
    type, is null, a boolean, an integer or a string, and has the value the
    signed body gives it. *)
Theorem retained_fields_allow_listed nesting_limit raw_body id expected e t m k v :
  normalize_verified_webhook nesting_limit raw_body id expected = Ok e →
  (t, m) = (resource_type e, resource e) ∨ (t, m) ∈ related_resources e →
  m !! k = Some v →
  k ∈ allowed_fields t ∧ is_scalar v = true
  ∧ ∃ entity, body_entity nesting_limit raw_body t entity ∧ dict_get k entity = Some v.
Proof.
  intros H Hm Hk.
  assert (∃ entity, body_entity nesting_limit raw_body t entity ∧ m = _sanitize_entity t entity)
    as (entity & Hb & ->).
  { destruct Hm as [[= -> ->]|Hin]; [|by eapply normalize_related].
    apply normalize_resource in H as [H _]. unfold resource_reflects in H.
    destruct (resource_id e); [by destruct H as (_ & _ & H)|]. destruct H as (_ & _ & H).
    by rewrite H, lookup_empty in Hk. }
  rewrite sanitize_lookup in Hk. unfold kept_field in Hk. case_decide; [|done].
  destruct (dict_get k entity) as [v'|] eqn:E; [|done]. destruct (is_scalar v') eqn:Es; [|done].
  injection Hk as ->. eauto.
Qed.

(** C39: a verified body is normalised or refused: apart from the two limits of
    the interpreter (nesting, digits of an integer) the only exceptions are
    the documented ones, and an event is always of the current schema. *)
Theorem normalization_errors nesting_limit raw_body id expected :
  match normalize_verified_webhook nesting_limit raw_body id expected with
  | Ok e => event_schema_version e = 1
  | Raise e => refusal e ∨ e = RecursionError
               ∨ e = ValueError "Exceeds the limit (4300 digits) for integer string conversion"
  end.
Proof.
  destruct (normalize_verified_webhook _ _ _ _) as [e|e] eqn:H; [by apply normalize_Ok in H as (_ & _ & ? & _)|].
  unfold normalize_verified_webhook in H. cbv zeta in H.
  repeat match goal with
  | H : _ ≫= _ = Raise _ |- _ => apply bind_Raise in H as [H|(? & ? & H)]
  end; try (by eauto with refusal).
  - apply decode_body_error in H as [H|[H|H]]; [|tauto..]. left. by left.
  - apply raise_if_Raise in H as ->. left. right. eauto.
  - match goal with r : CanonicalEventType * _ |- _ => by destruct r as [? [[? ?] ?]] end.
Qed.

(** A signed body of nested brackets makes normalisation raise an error that
    is not one of its own, whatever the recursion limit. *)
Lemma deep_body_escapes nesting_limit id expected :
  id ≠ [] → id = strip id → str_len id <= 256 →
  normalize_verified_webhook nesting_limit (repeat 91 (S nesting_limit)) id expected = Raise RecursionError.
Proof.
  intros Hne Hstrip Hlen. unfold normalize_verified_webhook.
  rewrite bool_decide_false, (bool_decide_false (id ≠ strip id)) by (try done; tauto).
  replace (256 <? str_len id) with false by lia. rewrite !raise_if_false, !bind_Ok_l.
  unfold decode_body.
  assert (∀ n, utf8_decode (repeat 91 n) = Some (repeat 91 n)) as ->.
  { induction n as [|n IH]; [done|]. cbn [repeat utf8_decode between Z.leb Z.compare andb]. by rewrite IH. }
  unfold strict_loads. by rewrite strict_document_brackets.
Qed.

(** * Witnesses *)
Definition sample_id : pystr := $"evt_1".
Definition sample_payload : list (pystr * json) :=
  [($"payment", JDict [($"entity", JDict
     [($"amount", JInt 500); ($"email", JStr ($"a@b.c")); ($"id", JStr ($"pay_1")); ($"notes", JList [])])])].
Definition sample_document : list (pystr * json) :=
  [($"account_id", JStr ($"acc_1")); ($"created_at", JInt 7); ($"event", JStr ($"payment.failed"));
   ($"payload", JDict sample_payload)].
Definition sample_body : bytes := Eval vm_compute in dumps (JDict sample_document).
Definition sample_entity : entity_map := {[ $"id" := JStr ($"pay_1"); $"amount" := JInt 500 ]}.
Lemma sample_normalized_as expected : expected = None ∨ expected = Some ($"acc_1") →
  ∃ e, normalize_verified_webhook 10 sample_body sample_id expected = Ok e
    ∧ event_account_id e = $"acc_1" ∧ resource e = sample_entity ∧ resource_type e = $"payment".
Proof.
  intros Hexp. unfold normalize_verified_webhook.
  assert (∃ d, decode_body 10 sample_body = Ok (JDict d)
    ∧ _required_string d "account_id" = Ok ($"acc_1") ∧ _required_string d "event" = Ok ($"payment.failed")
    ∧ _required_epoch d "created_at" = Ok 7
    ∧ dict_get ($"payload") d = Some (JDict sample_payload)) as (d & -> & Ha & He & Hc & Hp).
  { eexists. split; [vm_compute; reflexivity|]. split_and!; vm_compute; reflexivity. }
  assert (bool_decide (sample_id = []) || bool_decide (sample_id ≠ strip sample_id) = false) as -> by (vm_compute; reflexivity).
  assert ((256 <? str_len sample_id) = false) as -> by (vm_compute; reflexivity).
  rewrite !raise_if_false, !bind_Ok_l. cbn [as_mapping]. rewrite bind_Ok_l, Ha, bind_Ok_l.
  assert (match expected with Some a => bool_decide ($"acc_1" ≠ a) | None => false end = false) as ->.
  { destruct Hexp as [->| ->]; vm_compute; reflexivity. }
  rewrite raise_if_false, bind_Ok_l, He, bind_Ok_l, Hc, bind_Ok_l, Hp. cbn [as_mapping]. rewrite bind_Ok_l. cbv zeta.
  assert (select_resource sample_payload ($"payment.failed") (_related_entities sample_payload)
    = Ok (PAYMENT_FAILED, ($"payment", Some ($"pay_1"), sample_entity))) as -> by (vm_compute; reflexivity).
  eexists. split; [reflexivity|]. done.
Qed.

Lemma sample_normalized : ∃ e, normalize_verified_webhook 10 sample_body sample_id None = Ok e
  ∧ resource e = sample_entity ∧ resource_type e = $"payment".
Proof. destruct (sample_normalized_as None) as (e & ? & _ & ?); [by left|]. by exists e. Qed.

Lemma event_reflects_body_witness :
  ∃ e entity, body_entity 10 sample_body ($"payment") entity ∧ resource e = _sanitize_entity ($"payment") entity
    ∧ resource e = sample_entity.
Proof.
  destruct sample_normalized as (e & He & Hr & Ht). exists e.
  destruct (event_reflects_body 10 sample_body sample_id None e He) as (_ & _ & _ & _ & _ & Hres & _).
  unfold resource_reflects in Hres. rewrite Ht in Hres. destruct (resource_id e) as [i|].
  - destruct Hres as (_ & _ & entity & Hb & Hs). exists entity. split; [exact Hb|]. split; [exact Hs|exact Hr].
  - destruct Hres as (_ & Hu & _). discriminate Hu.
Defined.

Lemma retained_fields_allow_listed_witness :
  ($"amount") ∈ allowed_fields ($"payment") ∧ sample_entity !! ($"email") = None.
Proof.
  split; [|vm_compute; reflexivity]. destruct sample_normalized as (e & He & Hr & Ht).
  refine (proj1 (retained_fields_allow_listed 10 sample_body sample_id None e _ sample_entity _ (JInt 500) He _ _)).
  - left. rewrite Hr, Ht. reflexivity.
  - vm_compute. reflexivity.
Defined.
