(* ===== verification/Inbox.v ===== *)
(** [packages/razorpay/inbox.py]: the provider-event inbox and its in-memory
    reference adapter, over the event record of
    [packages/razorpay/webhooks.py].  The lock makes [store_once] one atomic
    step, so concurrent deliveries are some sequence of steps. *)
From S2P Require Import Prelude PyStr Json Webhooks.

Inductive InboxWriteResult := STORED | DUPLICATE.

Record InboxRecord := mkInboxRecord { event : CanonicalWebhookEvent; received_at_epoch : Z }.

Definition InboxRecord_post_init (r : InboxRecord) : result InboxRecord :=
  _ ← raise_if (received_at_epoch r <? 0)
        (ValueError "received_at_epoch must be a non-negative integer");
  Ok r.

Definition dedupe_key (r : InboxRecord) : pystr * pystr :=
  (event_account_id (event r), event_id (event r)).

(** [self._records]. *)
Abbreviation inbox := (gmap (pystr * pystr) InboxRecord) (only parsing).

(** Different signed content under one event id. *)
Definition conflicts (existing record : InboxRecord) : bool :=
  bool_decide (raw_body_sha256 (event existing) ≠ raw_body_sha256 (event record))
  || bool_decide (event_name (event existing) ≠ event_name (event record)).

Definition store_once (records : inbox) (record : InboxRecord) : result (InboxWriteResult * inbox) :=
  match records !! dedupe_key record with
  | None => Ok (STORED, <[dedupe_key record := record]> records)
  | Some existing =>
      if conflicts existing record
      then Raise (InboxConflictError "provider event id was reused with different content")
      else Ok (DUPLICATE, records)
  end.

Definition inbox_get (records : inbox) (account event : pystr) : option InboxRecord :=
  records !! (account, event).
Definition inbox_len (records : inbox) : Z := Z.of_nat (size records).

(** A sequence of deliveries; a refused one leaves the records as they were. *)
Definition deliver (records : inbox) (record : InboxRecord) : inbox :=
  match store_once records record with Ok (_, records') => records' | Raise _ => records end.
Definition deliver_all (records : inbox) (l : list InboxRecord) : inbox := foldl deliver records l.

(** The outcomes of the deliveries, in order. *)
Fixpoint outcomes (records : inbox) (l : list InboxRecord) : list (result InboxWriteResult) :=
  match l with
  | [] => []
  | record :: l => (fst <$> store_once records record) :: outcomes (deliver records record) l
  end.

(** * The specification: the first record of a key wins *)
Definition first_record (key : pystr * pystr) (l : list InboxRecord) : option InboxRecord :=
  List.find (λ r, bool_decide (dedupe_key r = key)) l.

Definition outcome_after (earlier : list InboxRecord) (record : InboxRecord) : result InboxWriteResult :=
  match first_record (dedupe_key record) earlier with
  | None => Ok STORED
  | Some existing =>
      if conflicts existing record
      then Raise (InboxConflictError "provider event id was reused with different content")
      else Ok DUPLICATE
  end.

Lemma deliver_lookup records record key :
  deliver records record !! key =
  match records !! key with
  | Some r => Some r
  | None => if decide (dedupe_key record = key) then Some record else None
  end.
Proof.
  unfold deliver, store_once. destruct (records !! dedupe_key record) as [existing|] eqn:E.
  - assert (∀ o : option InboxRecord, (if decide (dedupe_key record = key) then Some record else o) = o
      ∨ records !! key = Some existing) as Ho.
    { intros o. case_decide; [right; by subst|by left]. }
    destruct (conflicts _ _); destruct (records !! key) eqn:Ek; try done; case_decide; congruence.
  - destruct (decide (dedupe_key record = key)) as [<-|Hne].
    + by rewrite lookup_insert_eq, E.
    + rewrite lookup_insert_ne by done. by destruct (records !! key).
Qed.

Lemma deliver_all_lookup records l key :
  deliver_all records l !! key = match records !! key with Some r => Some r | None => first_record key l end.
Proof.
  unfold deliver_all, first_record. revert records. induction l as [|r l IH]; intros records; cbn.
  - by destruct (records !! key).
  - rewrite IH, deliver_lookup. destruct (records !! key); [done|].
    case_decide; [by rewrite bool_decide_true|by rewrite bool_decide_false].
Qed.

Lemma first_record_key key l r : first_record key l = Some r → dedupe_key r = key ∧ r ∈ l.
Proof.
  unfold first_record. intros [Hin H]%find_some. apply bool_decide_true_1 in H.
  by rewrite list_elem_of_In.
Qed.

Lemma first_record_in l r : r ∈ l → is_Some (first_record (dedupe_key r) l).
Proof.
  intros Hin%list_elem_of_In. destruct (first_record (dedupe_key r) l) eqn:E; [done|].
  pose proof (find_none _ _ E r Hin) as Hb. cbn in Hb. by rewrite bool_decide_true in Hb.
Qed.

Lemma first_record_app key l l' :
  first_record key (l ++ l') = match first_record key l with Some r => Some r | None => first_record key l' end.
Proof. unfold first_record. induction l as [|r l IH]; cbn; [done|]. by case_bool_decide. Qed.

Lemma outcomes_length records l : length (outcomes records l) = length l.
Proof. revert records. induction l; intros; cbn; [done|]. by f_equal. Qed.

Lemma outcomes_spec earlier l :
  outcomes (deliver_all ∅ earlier) l = imap (λ i r, outcome_after (earlier ++ take i l) r) l.
Proof.
  revert earlier. induction l as [|r l IH]; intros earlier; [done|].
  cbn [outcomes imap]. f_equal.
  - unfold outcome_after, store_once. rewrite deliver_all_lookup, lookup_empty. cbn [take].
    rewrite app_nil_r. destruct (first_record _ _); [by destruct (conflicts _ _)|done].
  - assert (deliver (deliver_all ∅ earlier) r = deliver_all ∅ (earlier ++ [r])) as ->.
    { unfold deliver_all. by rewrite foldl_app. }
    rewrite IH. apply imap_ext. intros i x _. cbn. by rewrite <- app_assoc.
Qed.

(** * Properties *)

(** at-least-once delivery is stored once: after any sequence of
    deliveries the inbox holds, under each account and event id, exactly the
    first record delivered for it; each delivery is answered by what came
    before it: stored when it is the first of its key, a duplicate when the
    first had the same body digest and event name, a conflict otherwise. *)
Theorem inbox_stores_first l :
  (∀ account event, inbox_get (deliver_all ∅ l) account event = first_record (account, event) l)
  ∧ outcomes ∅ l = imap (λ i r, outcome_after (take i l) r) l.
Proof.
  split.
  - intros. unfold inbox_get. by rewrite deliver_all_lookup, lookup_empty.
  - exact (outcomes_spec [] l).
Qed.

(** redelivery is idempotent: delivering a sequence again, in any order
    and with any repetition, leaves the inbox unchanged and stores nothing. *)
Theorem inbox_redelivery_idempotent l again :
  Forall (λ r, r ∈ l) again →
  deliver_all (deliver_all ∅ l) again = deliver_all ∅ l
  ∧ Forall (λ o, o ≠ Ok STORED) (outcomes (deliver_all ∅ l) again).
Proof.
  intros Hag. assert (Hkeys : ∀ r, r ∈ again → is_Some (first_record (dedupe_key r) l)).
  { intros r Hin. apply first_record_in. exact (proj1 (Forall_forall _ _) Hag r Hin). }
  split.
  - apply map_eq. intros key. rewrite !deliver_all_lookup, lookup_empty.
    destruct (first_record key l) eqn:E; [done|]. destruct (first_record key again) as [r|] eqn:Ea; [|done].
    apply first_record_key in Ea as [<- Hin]. destruct (Hkeys _ Hin). congruence.
  - rewrite outcomes_spec. apply Forall_lookup_2. intros i o Hi.
    rewrite list_lookup_imap in Hi. destruct (again !! i) as [r|] eqn:Er; [|done]. injection Hi as <-.
    unfold outcome_after. rewrite first_record_app.
    destruct (first_record (dedupe_key r) l) as [x|] eqn:E; [by destruct (conflicts _ _)|].
    apply list_elem_of_lookup_2, Hkeys in Er as [? ?]. congruence.
Qed.

(** * Witnesses *)
Definition sample_event (id name sha : string) : InboxRecord :=
  mkInboxRecord (mkCanonicalWebhookEvent ($id) ($"acc_1") ($name) PAYMENT_FAILED 1 ($"payment")
    (Some ($"pay_1")) ∅ [] ($sha) 1) 1.

Lemma inbox_redelivery_idempotent_witness :
  deliver_all (deliver_all ∅ [sample_event "e1" "payment.failed" "aa"])
    [sample_event "e1" "payment.failed" "aa"]
  = deliver_all ∅ [sample_event "e1" "payment.failed" "aa"].
Proof. apply inbox_redelivery_idempotent. constructor; [left|constructor]. Defined.
