(* ===== verification/WebhookIngress.v ===== *)
(** [services/control_plane/webhook_ingress.py]: endpoint bindings with
    secret rotation, the endpoint registry, and the ingress service that
    authenticates, normalises and durably deduplicates one request.  The inbox
    is reached through the interface [WebhookInbox]; the in-memory inbox of
    [packages/razorpay/inbox.py] is an instance. *)
From S2P Require Import Prelude PyStr PyTime Sha256 Json Webhooks Inbox.

(** * Endpoint bindings *)
Record EndpointBinding := mkEndpointBinding {
  endpoint_token : pystr;
  binding_merchant_id : pystr;
  binding_account_id : pystr;
  provider_account_identifier : pystr;
  webhook_secrets : list bytes;
  previous_secret_expires_at : option datetime
}.

(** [_TOKEN_RE.fullmatch]. *)
Definition token_char (c : Z) : bool := is_alnum c || one_of ($"_-") c.
Definition token_ok (s : pystr) : bool :=
  forallb token_char s && (24 <=? str_len s) && (str_len s <=? 128).

Definition check_identifier (name : string) (value : pystr) : result unit :=
  raise_if (bool_decide (value = []) || bool_decide (value ≠ strip value))
    (ValueError (name ++ " must be a non-empty string")%string).

Definition EndpointBinding_post_init (self : EndpointBinding) : result EndpointBinding :=
  _ ← raise_if (negb (token_ok (endpoint_token self)))
        (ValueError "endpoint_token must be 24-128 URL-safe characters");
  _ ← check_identifier "merchant_id" (binding_merchant_id self);
  _ ← check_identifier "provider_account_id" (binding_account_id self);
  _ ← check_identifier "provider_account_identifier" (provider_account_identifier self);
  _ ← raise_if (bool_decide (webhook_secrets self = []) || bool_decide ([] ∈ webhook_secrets self))
        (ValueError "at least one non-empty byte webhook secret is required");
  match webhook_secrets self, previous_secret_expires_at self with
  | [_], Some _ => Raise (ValueError "a previous-secret expiry requires exactly two webhook secrets")
  | [_], None => Ok self
  | [current; previous], Some expiry =>
      _ ← raise_if (negb (is_utc expiry)) (ValueError "previous-secret expiry must be an aware UTC datetime");
      _ ← raise_if (bool_decide (current = previous))
            (ValueError "current and previous webhook secrets must be different");
      Ok self
  | _, _ => Raise (ValueError "exactly one previous webhook secret requires a UTC expiry")
  end.

Definition active_webhook_secrets (self : EndpointBinding) (now : datetime) : result (list bytes) :=
  _ ← raise_if (negb (is_utc now)) (ValueError "webhook verification clock must be an aware UTC datetime");
  match previous_secret_expires_at self with
  | Some expiry => Ok (if dt_leb expiry now then take 1 (webhook_secrets self) else webhook_secrets self)
  | None => Ok (webhook_secrets self)
  end.

(** * The registry *)
Fixpoint index_bindings (bindings : list EndpointBinding) (indexed : list (pystr * EndpointBinding))
    : result (list (pystr * EndpointBinding)) :=
  match bindings with
  | [] => Ok indexed
  | binding :: bindings =>
      _ ← raise_if (bool_decide (is_Some (dict_get (endpoint_token binding) indexed)))
            (ValueError "duplicate endpoint token");
      index_bindings bindings (dict_set (endpoint_token binding) binding indexed)
  end.
Definition StaticEndpointRegistry (bindings : list EndpointBinding) := index_bindings bindings [].
Definition registry_find (registry : list (pystr * EndpointBinding)) (token : pystr) :=
  dict_get token registry.

(** * The inbox interface *)
Class WebhookInbox (inbox : Type) := {
  inbox_store : inbox → InboxRecord → result (InboxWriteResult * inbox);
  (** the stored record of an account and event id, for the laws *)
  inbox_find : inbox → pystr * pystr → option InboxRecord
}.

(** What the ingress relies on: the first record of a key is kept, a second
    one is a duplicate or a conflict and changes nothing. *)
Class WebhookInboxLaws (inbox : Type) `{WebhookInbox inbox} : Prop := {
  store_new records record :
    inbox_find records (dedupe_key record) = None →
    ∃ records', inbox_store records record = Ok (STORED, records')
      ∧ inbox_find records' (dedupe_key record) = Some record
      ∧ ∀ key, key ≠ dedupe_key record → inbox_find records' key = inbox_find records key;
  store_known records record existing :
    inbox_find records (dedupe_key record) = Some existing →
    inbox_store records record =
      if conflicts existing record
      then Raise (InboxConflictError "provider event id was reused with different content")
      else Ok (DUPLICATE, records)
}.

#[export] Instance memory_inbox : WebhookInbox (gmap (pystr * pystr) InboxRecord) := {
  inbox_store := store_once;
  inbox_find := λ records key, records !! key
}.

#[export] Instance memory_inbox_laws : WebhookInboxLaws (gmap (pystr * pystr) InboxRecord).
Proof.
  split; cbn; unfold store_once.
  - intros records record ->. eexists. split; [reflexivity|]. split; [apply lookup_insert_eq|].
    intros key Hne. by apply lookup_insert_ne.
  - intros records record existing ->. done.
Qed.

(** * The ingress service *)
Inductive IngressStatus := ACCEPTED | DUPLICATE_REQUEST.

Record IngressReceipt := mkIngressReceipt {
  receipt_status : IngressStatus;
  receipt_merchant_id : pystr;
  receipt_account_id : pystr;
  provider_event_id : pystr;
  receipt_event_name : pystr;
  body_sha256 : pystr;
  canonical_event : CanonicalWebhookEvent
}.

Definition enqueued (r : IngressReceipt) : bool :=
  match receipt_status r with ACCEPTED => true | DUPLICATE_REQUEST => false end.

(** The service; [inbox_durable] and [inbox_check_ready] are the inbox's
    attributes of these names, the second when it is callable. *)
Record WebhookIngress := mkWebhookIngress {
  registry : pystr → option EndpointBinding;
  max_body_bytes : Z;
  inbox_durable : bool;
  inbox_check_ready : option (result bool)
}.

Definition WebhookIngress_init (self : WebhookIngress) : result WebhookIngress :=
  _ ← raise_if (negb ((1024 <=? max_body_bytes self) && (max_body_bytes self <=? 1048576)))
        (ValueError "max_body_bytes must be between 1 KiB and 1 MiB");
  Ok self.

Definition ingress_check_ready (self : WebhookIngress) : result bool :=
  if negb (inbox_durable self) then Ok false
  else match inbox_check_ready self with None => Ok false | Some answer => answer end.

(** [content_type.split(";", 1)[0].strip().lower()]. *)
Fixpoint before_semicolon (s : pystr) : pystr :=
  match s with
  | [] => []
  | c :: s => if c =? 59 then [] else c :: before_semicolon s
  end.
Definition media_type (content_type : pystr) : pystr := lower_ascii (strip (before_semicolon content_type)).

Section accept.
Context {inbox : Type} `{WebhookInbox inbox} (nesting_limit : nat).

Record request := mkRequest {
  request_token : pystr;
  raw_body : bytes;
  request_headers : list (pystr * pystr);
  content_type : pystr;
  request_received_at : Z
}.

Definition accept (self : WebhookIngress) (records : inbox) (now : datetime) (r : request)
    : result (IngressReceipt * inbox) :=
  _ ← raise_if (bool_decide (raw_body r = [])) (IngressError "webhook body cannot be empty");
  _ ← raise_if (max_body_bytes self <? Z.of_nat (length (raw_body r)))
        (PayloadTooLarge "webhook body exceeds configured limit");
  _ ← raise_if (bool_decide (media_type (content_type r) ≠ $"application/json"))
        (UnsupportedMediaType "webhook content type must be application/json");
  _ ← raise_if (request_received_at r <? 0)
        (ValueError "received_at_epoch must be a non-negative integer");
  binding ← match registry self (request_token r) with
            | None => Raise (EndpointNotFound "unknown webhook endpoint")
            | Some binding => Ok binding
            end;
  security_headers ← WebhookHeaders_from_mapping (request_headers r);
  secrets ← active_webhook_secrets binding now;
  event ← verify_and_normalize_webhook nesting_limit (raw_body r) security_headers secrets
            (Some (provider_account_identifier binding));
  record ← InboxRecord_post_init (mkInboxRecord event (request_received_at r));
  '(write_result, records) ← inbox_store records record;
  let status := match write_result with STORED => ACCEPTED | DUPLICATE => DUPLICATE_REQUEST end in
  Ok (mkIngressReceipt status (binding_merchant_id binding) (binding_account_id binding)
        (event_id event) (event_name event) (sha256_hex (raw_body r)) event, records).
End accept.

(** * Lemmas *)

Lemma post_init_secrets b b' :
  EndpointBinding_post_init b = Ok b' →
  b' = b ∧ ([] ∉ webhook_secrets b)
  ∧ ((∃ current, webhook_secrets b = [current] ∧ previous_secret_expires_at b = None)
     ∨ ∃ current previous expiry, webhook_secrets b = [current; previous] ∧ current ≠ previous
         ∧ previous_secret_expires_at b = Some expiry ∧ is_utc expiry = true).
Proof.
  unfold EndpointBinding_post_init, check_identifier. intros H. inv_ok. bools.
  destruct (webhook_secrets b) as [|current [|previous [|? ?]]] eqn:Es; try done.
  - destruct (previous_secret_expires_at b); [done|]. inv_ok. subst. eauto 10.
  - destruct (previous_secret_expires_at b) as [expiry|]; [|done]. inv_ok. bools. subst. eauto 20.
Qed.

(** The secrets that verify a request at [now]: the current one, and the
    previous one while it has not expired. *)
Definition secret_active (b : EndpointBinding) (now : datetime) (secret : bytes) : Prop :=
  webhook_secrets b !! 0%nat = Some secret
  ∨ webhook_secrets b !! 1%nat = Some secret
    ∧ ∃ expiry, previous_secret_expires_at b = Some expiry ∧ dt_ltb now expiry = true.

Lemma active_secrets_spec b b' now secrets :
  EndpointBinding_post_init b = Ok b' → active_webhook_secrets b now = Ok secrets →
  secrets ≠ [] ∧ ([] ∉ secrets) ∧ ∀ secret, secret ∈ secrets ↔ secret_active b now secret.
Proof.
  intros (_ & Hne & Hs)%post_init_secrets H. unfold active_webhook_secrets, secret_active in *. inv_ok.
  destruct Hs as [(c & Hs & He)|(c & p & x & Hs & _ & He & _)]; rewrite Hs, He in *; cbn [take lookup list_lookup] in *.
  - apply Ok_inj in H as <-. split; [done|]. split; [done|]. intros secret. rewrite list_elem_of_singleton.
    split; [intros ->; by left|]. intros [[= ->]|[[=] _]]. done.
  - apply Ok_inj in H as <-. assert (dt_leb x now = negb (dt_ltb now x)) as ->.
    { unfold dt_leb, dt_ltb. lia. }
    destruct (dt_ltb now x) eqn:Ex; cbn [negb].
    + split; [done|]. split; [done|]. intros secret. rewrite elem_of_cons, list_elem_of_singleton.
      split; [intros [->| ->]; [by left|right; eauto]|]. intros [[= ->]|[[= ->] _]]; tauto.
    + split; [done|]. rewrite not_elem_of_cons in Hne. split; [rewrite list_elem_of_singleton; exact (proj1 Hne)|].
      intros secret. rewrite list_elem_of_singleton.
      split; [intros ->; by left|]. intros [[= ->]|[_ (x' & [= <-] & ?)]]; [done|congruence].
Qed.

Lemma verify_webhook_signature_Ok body sig secrets u :
  verify_webhook_signature body sig secrets = Ok u ↔
  secrets ≠ [] ∧ ([] ∉ secrets) ∧ ∃ secret, secret ∈ secrets ∧ hmac_sha256_hex secret body = lower_ascii sig.
Proof.
  unfold verify_webhook_signature. rewrite is_valid_spec. rewrite <- existsb_signed.
  case_bool_decide as H1; [cbn; naive_solver|]. case_bool_decide as H2; [cbn; naive_solver|].
  rewrite bind_Ok_l, raise_if_Ok, negb_false_iff. tauto.
Qed.

Section ingress.
Context {inbox : Type} `{Hlaws : WebhookInboxLaws inbox} (nesting_limit : nat).
Context (self : WebhookIngress).
(** The registry hands out constructed bindings. *)
Context (Hreg : ∀ token b, registry self token = Some b → EndpointBinding_post_init b = Ok b).

(** The guards an accepted request passed, and its event. *)
Definition admissible (r : request) : Prop :=
  raw_body r ≠ [] ∧ Z.of_nat (length (raw_body r)) <= max_body_bytes self
  ∧ media_type (content_type r) = $"application/json" ∧ 0 <= request_received_at r.

Definition authenticated (now : datetime) (r : request) (b : EndpointBinding) (h : WebhookHeaders) : Prop :=
  registry self (request_token r) = Some b ∧ WebhookHeaders_from_mapping (request_headers r) = Ok h
  ∧ is_utc now = true
  ∧ ∃ secret, secret_active b now secret ∧ hmac_sha256_hex secret (raw_body r) = lower_ascii (signature h).

Definition receipt (b : EndpointBinding) (r : request) (e : CanonicalWebhookEvent) (status : IngressStatus) :=
  mkIngressReceipt status (binding_merchant_id b) (binding_account_id b) (event_id e) (event_name e)
    (sha256_hex (raw_body r)) e.

(** Acceptance, unfolded: an admissible, authenticated request whose body
    normalises is answered by the inbox. *)
Lemma accept_inv records now r out :
  accept nesting_limit self records now r = Ok out →
  admissible r ∧ ∃ b h e written,
    authenticated now r b h
    ∧ normalize_verified_webhook nesting_limit (raw_body r) (header_event_id h)
        (Some (provider_account_identifier b)) = Ok e
    ∧ inbox_store records (mkInboxRecord e (request_received_at r)) = Ok (written, snd out)
    ∧ fst out = receipt b r e (match written with STORED => ACCEPTED | DUPLICATE => DUPLICATE_REQUEST end).
Proof using Hreg.
  unfold accept, InboxRecord_post_init, verify_and_normalize_webhook. intros Hacc. inv_ok.
  match goal with p : InboxWriteResult * inbox |- _ => destruct p as [written records'] end. inv_ok. subst out.
  destruct (registry self (request_token r)) as [b|] eqn:Eb; [|done]. inv_ok. subst.
  match goal with H : active_webhook_secrets _ _ = Ok ?s |- _ =>
    assert (is_utc now = true) as Hutc by (unfold active_webhook_secrets in H; inv_ok; by bools);
    pose proof (active_secrets_spec _ _ _ _ (Hreg _ _ Eb) H) as (_ & _ & Hactive) end.
  match goal with H : verify_webhook_signature _ _ _ = Ok _ |- _ =>
    apply verify_webhook_signature_Ok in H as (_ & _ & secret & Hin & Hsig) end.
  bools. split; [split_and!; [done|done|by apply dec_stable|done]|].
  eexists _, _, _, written. split; [|by split_and!].
  split_and!; [done|eassumption|done|]. exists secret. split; [by apply Hactive|done].
Qed.

Lemma accept_intro records now r b h e written records' :
  admissible r → authenticated now r b h →
  normalize_verified_webhook nesting_limit (raw_body r) (header_event_id h)
    (Some (provider_account_identifier b)) = Ok e →
  inbox_store records (mkInboxRecord e (request_received_at r)) = Ok (written, records') →
  accept nesting_limit self records now r
  = Ok (receipt b r e (match written with STORED => ACCEPTED | DUPLICATE => DUPLICATE_REQUEST end), records').
Proof using Hreg.
  intros (Hb & Hl & Hm & Hr) (Hreg' & Hh & Hutc & secret & Hact & Hsig) Hn Hstore.
  unfold accept, InboxRecord_post_init, verify_and_normalize_webhook. cbn [received_at_epoch].
  rewrite (bool_decide_false (raw_body r = [])) by done. rewrite Hm, (bool_decide_false (_ ≠ _)) by tauto.
  replace (max_body_bytes self <? _) with false by lia. replace (request_received_at r <? 0) with false by lia.
  rewrite Hreg', Hh. rewrite !raise_if_false, !bind_Ok_l.
  destruct (active_webhook_secrets b now) as [secrets|] eqn:Ea.
  - rewrite bind_Ok_l. destruct (active_secrets_spec _ _ _ _ (Hreg _ _ Hreg') Ea) as (Hne & Hnil & Hactive).
    assert (verify_webhook_signature (raw_body r) (signature h) secrets = Ok tt) as ->.
    { apply verify_webhook_signature_Ok. split; [done|]. split; [done|]. exists secret. by rewrite Hactive. }
    rewrite bind_Ok_l, Hn, !bind_Ok_l, Hstore. done.
  - unfold active_webhook_secrets in Ea. rewrite Hutc in Ea. cbn in Ea. by destruct (previous_secret_expires_at b).
Qed.
End ingress.

(** * Properties *)

(** C36: only authentic requests are accepted: an accepted request came in through
    a known endpoint, within the size limit, as JSON, signed over its exact
    body by the endpoint's current secret, or by its previous one before that
    expired; the receipt carries the digest of that body and the event that
    the body normalises to, whose account is the endpoint's. *)
Theorem accepted_request_authentic {inbox} `{WebhookInboxLaws inbox} nesting_limit self
    (records : inbox) now r out records' :
  (∀ token b, registry self token = Some b → EndpointBinding_post_init b = Ok b) →
  accept nesting_limit self records now r = Ok (out, records') →
  admissible self r
  ∧ ∃ b h, authenticated self now r b h
      ∧ normalize_verified_webhook nesting_limit (raw_body r) (header_event_id h)
          (Some (provider_account_identifier b)) = Ok (canonical_event out)
      ∧ event_account_id (canonical_event out) = provider_account_identifier b
      ∧ out = receipt b r (canonical_event out) (receipt_status out)
      ∧ raw_body_sha256 (canonical_event out) = body_sha256 out.
Proof.
  intros Hreg Hacc. apply accept_inv in Hacc as (Hadm & b & h & e & written & Ha & Hn & _ & Hout); [|done].
  cbn [fst] in Hout. subst out. split; [done|]. exists b, h. split; [done|].
  pose proof (normalize_Ok _ _ _ _ _ Hn) as (_ & Hsha & _ & Hacct & _).
  split; [exact Hn|]. split; [exact (Hacct _ eq_refl)|]. split; [done|exact Hsha].
Qed.

(** C37: an authentic request is accepted, once: over a lawful inbox its first
    delivery stores the event and is answered ACCEPTED; delivered again, at
    any later time at which its signature still verifies, it is answered
    DUPLICATE and the inbox stays as it is. *)
Theorem authentic_request_accepted_once {inbox} `{WebhookInboxLaws inbox} nesting_limit self
    (records : inbox) now now' r b h e :
  (∀ token b, registry self token = Some b → EndpointBinding_post_init b = Ok b) →
  admissible self r → authenticated self now r b h → authenticated self now' r b h →
  normalize_verified_webhook nesting_limit (raw_body r) (header_event_id h)
    (Some (provider_account_identifier b)) = Ok e →
  inbox_find records (event_account_id e, event_id e) = None →
  ∃ records',
    accept nesting_limit self records now r = Ok (receipt b r e ACCEPTED, records')
    ∧ inbox_find records' (event_account_id e, event_id e) = Some (mkInboxRecord e (request_received_at r))
    ∧ accept nesting_limit self records' now' r = Ok (receipt b r e DUPLICATE_REQUEST, records').
Proof.
  intros Hreg Hadm Ha Ha' Hn Hnew.
  destruct (store_new records (mkInboxRecord e (request_received_at r)) Hnew) as (records' & Hs & Hf & _).
  exists records'. split; [exact (accept_intro _ _ Hreg _ _ _ _ _ _ _ _ Hadm Ha Hn Hs)|]. split; [exact Hf|].
  refine (accept_intro _ _ Hreg _ _ _ _ _ _ DUPLICATE _ Hadm Ha' Hn _).
  rewrite (store_known _ _ _ Hf). unfold conflicts.
  by rewrite !(bool_decide_false (_ ≠ _)) by tauto.
Qed.

(** rotation ends: from the expiry of the previous secret on, a request that
    only that secret signed is refused as unauthentic, before the inbox is
    touched. *)
Theorem retired_secret_refused {inbox} `{WebhookInbox inbox} nesting_limit self (records : inbox) now r b h
    current previous expiry :
  EndpointBinding_post_init b = Ok b → registry self (request_token r) = Some b →
  webhook_secrets b = [current; previous] → previous_secret_expires_at b = Some expiry →
  is_utc now = true → dt_leb expiry now = true →
  admissible self r → WebhookHeaders_from_mapping (request_headers r) = Ok h →
  hmac_sha256_hex previous (raw_body r) = lower_ascii (signature h) →
  hmac_sha256_hex current (raw_body r) ≠ lower_ascii (signature h) →
  accept nesting_limit self records now r
  = Raise (WebhookVerificationError "invalid Razorpay webhook signature").
Proof.
  intros Hb Hreg Hs Hexp Hutc Hle (Hbody & Hl & Hm & Hr) Hh _ Hcur.
  apply post_init_secrets in Hb as (_ & Hne & _). rewrite Hs, not_elem_of_cons in Hne. destruct Hne as [Hc _].
  unfold accept, verify_and_normalize_webhook.
  rewrite (bool_decide_false (raw_body r = [])) by done. rewrite Hm, (bool_decide_false (_ ≠ _)) by tauto.
  replace (max_body_bytes self <? _) with false by lia. replace (request_received_at r <? 0) with false by lia.
  assert (active_webhook_secrets b now = Ok [current]) as Hact.
  { unfold active_webhook_secrets. by rewrite Hutc, Hexp, Hle, Hs. }
  rewrite Hreg, Hh, !raise_if_false, !bind_Ok_l, Hact, bind_Ok_l. unfold verify_webhook_signature. rewrite is_valid_spec.
  rewrite (bool_decide_false ([] ∈ [current])) by (rewrite list_elem_of_singleton; done).
  rewrite (bool_decide_false ([current] = [])) by done. rewrite bind_Ok_l.
  cbn [existsb]. unfold signed_by. by rewrite bool_decide_false by done.
Qed.

(** * Witnesses *)
Definition sample_token : pystr := repeat 97 24.
Definition sample_secret : bytes := [1; 2; 3].
Definition sample_binding : EndpointBinding :=
  mkEndpointBinding sample_token ($"merchant") ($"account") ($"acc_1") [sample_secret] None.
Definition sample_rotating : EndpointBinding :=
  mkEndpointBinding sample_token ($"merchant") ($"account") ($"acc_1") [[9]; sample_secret] (Some (utc 5)).
Definition sample_registry (b : EndpointBinding) (token : pystr) : option EndpointBinding :=
  if decide (token = sample_token) then Some b else None.
Definition sample_ingress (b : EndpointBinding) : WebhookIngress :=
  mkWebhookIngress (sample_registry b) 262144 true None.
Definition sample_signature : pystr := Eval vm_compute in hmac_sha256_hex sample_secret sample_body.
Definition sample_request : request :=
  mkRequest sample_token sample_body
    [($"X-Razorpay-Signature", sample_signature); ($"X-Razorpay-Event-Id", sample_id)]
    ($"application/json; charset=utf-8") 7.

Lemma sample_registry_ok b :
  EndpointBinding_post_init b = Ok b →
  ∀ token b', sample_registry b token = Some b' → EndpointBinding_post_init b' = Ok b'.
Proof. intros Hb token b'. unfold sample_registry. case_decide; [|done]. intros [= <-]. exact Hb. Qed.

Lemma sample_admissible b : admissible (sample_ingress b) sample_request.
Proof. split; [discriminate|]. split; [vm_compute; discriminate|]. split; [vm_compute; reflexivity|]. vm_compute. discriminate. Qed.

Lemma sample_headers :
  WebhookHeaders_from_mapping (request_headers sample_request) = Ok (mkWebhookHeaders sample_signature sample_id).
Proof. vm_compute. reflexivity. Qed.

Lemma sample_signed : hmac_sha256_hex sample_secret sample_body = sample_signature.
Proof. vm_compute. reflexivity. Qed.
Lemma sample_signature_lower : lower_ascii sample_signature = sample_signature.
Proof. vm_compute. reflexivity. Qed.

Lemma sample_authenticated now :
  is_utc now = true →
  authenticated (sample_ingress sample_binding) now sample_request sample_binding
    (mkWebhookHeaders sample_signature sample_id).
Proof.
  intros Hnow. split; [vm_compute; reflexivity|]. split; [exact sample_headers|]. split; [exact Hnow|].
  exists sample_secret. split; [left; reflexivity|]. cbn [signature raw_body sample_request].
  rewrite sample_signature_lower. exact sample_signed.
Qed.

Lemma sample_event_normalized : ∃ e,
  normalize_verified_webhook 10 sample_body sample_id (Some ($"acc_1")) = Ok e ∧ event_account_id e = $"acc_1".
Proof.
  destruct (sample_normalized_as (Some ($"acc_1"))) as (e & He & Ha & _); [by right|]. by exists e.
Qed.

Lemma accepted_request_authentic_witness :
  ∃ out records', accept 10 (sample_ingress sample_binding) (∅ : gmap (pystr * pystr) InboxRecord) (utc 3) sample_request
    = Ok (out, records') ∧ raw_body_sha256 (canonical_event out) = body_sha256 out.
Proof.
  pose proof (sample_registry_ok sample_binding eq_refl) as Hreg.
  destruct sample_event_normalized as (e & He & _).
  assert (∃ s, store_once ∅ (mkInboxRecord e 7) = Ok (STORED, s)) as [s Hs].
  { unfold store_once. rewrite lookup_empty. by eexists. }
  pose proof (accept_intro 10 (sample_ingress sample_binding) Hreg ∅ (utc 3) sample_request sample_binding _ e STORED s
    (sample_admissible _) (sample_authenticated (utc 3) eq_refl) He Hs) as Hacc.
  destruct (accepted_request_authentic 10 (sample_ingress sample_binding) _ _ _ _ _ Hreg Hacc) as (_ & b & h & _ & _ & _ & _ & Hsha).
  eexists _, s. split; [exact Hacc|exact Hsha].
Defined.

Lemma authentic_request_accepted_once_witness :
  ∃ e records', accept 10 (sample_ingress sample_binding) records' (utc 4) sample_request
    = Ok (receipt sample_binding sample_request e DUPLICATE_REQUEST, records' : gmap (pystr * pystr) InboxRecord).
Proof.
  destruct sample_event_normalized as (e & He & _). exists e.
  destruct (authentic_request_accepted_once 10 (sample_ingress sample_binding) (∅ : gmap (pystr * pystr) InboxRecord)
    (utc 3) (utc 4) sample_request sample_binding _ e (sample_registry_ok sample_binding eq_refl)
    (sample_admissible _) (sample_authenticated (utc 3) eq_refl) (sample_authenticated (utc 4) eq_refl) He (lookup_empty _))
    as (records' & _ & _ & H).
  exists records'. exact H.
Defined.

Lemma retired_secret_refused_witness :
  accept 10 (sample_ingress sample_rotating) (∅ : gmap (pystr * pystr) InboxRecord) (utc 5) sample_request
  = Raise (WebhookVerificationError "invalid Razorpay webhook signature").
Proof.
  refine (retired_secret_refused 10 (sample_ingress sample_rotating) ∅ (utc 5) sample_request sample_rotating _
    [9] sample_secret (utc 5) eq_refl eq_refl eq_refl eq_refl eq_refl eq_refl (sample_admissible _) sample_headers _ _).
  - cbn [signature raw_body sample_request]. rewrite sample_signature_lower. exact sample_signed.
  - intros H. vm_compute in H. discriminate H.
Defined.
