(* ===== verification/Effects.v ===== *)
(** Effectful programs: code that calls injected ports.  A program runs on the
    sequence of port calls made so far, appends its own calls, each with the
    answer it got, and ends in a value or a raised exception.  An answer is a
    function of the calls before it, so a port may behave in any way.

    [emits m t Q]: started after the calls [t], [m] makes some calls [l] and
    ends with an outcome [r] such that [Q l r]. *)
From S2P Require Import Prelude.

Definition prog (E A : Type) : Type := list E → list E * result A.

#[export] Instance prog_ret {E} : MRet (prog E) := λ A a t, (t, Ok a).
#[export] Instance prog_bind {E} : MBind (prog E) := λ A B f m t,
  match m t with
  | (t', Ok a) => f a t'
  | (t', Raise e) => (t', Raise e)
  end.

(** A computation that calls no port. *)
Definition pure {E A} (r : result A) : prog E A := λ t, (t, r).

(** Call a port and record the call with its answer. *)
Definition call {E A} (port : list E → result A) (record : result A → E) : prog E A :=
  λ t, let answer := port t in (t ++ [record answer], answer).

(** [try: m except ...]: the handler sees the outcome of [m]. *)
Definition attempt {E A B} (m : prog E A) (handler : result A → prog E B) : prog E B :=
  λ t, let '(t', r) := m t in handler r t'.

Section emits.
Context {E : Type}.
Implicit Types t l : list E.

Definition emits {A} (m : prog E A) t (Q : list E → result A → Prop) : Prop :=
  ∃ l, fst (m t) = t ++ l ∧ Q l (snd (m t)).

Lemma emits_mono {A} (m : prog E A) t (Q Q' : list E → result A → Prop) :
  emits m t Q → (∀ l r, Q l r → Q' l r) → emits m t Q'.
Proof. intros (l & Hl & HQ) H. exists l. auto. Qed.

Lemma emits_and {A} (m : prog E A) t (Q Q' : list E → result A → Prop) :
  emits m t Q → emits m t Q' → emits m t (λ l r, Q l r ∧ Q' l r).
Proof.
  intros (l & Hl & HQ) (l' & Hl' & HQ'). rewrite Hl in Hl'. apply app_inv_head in Hl' as <-.
  by exists l.
Qed.

Lemma emits_ret {A} (a : A) t (Q : list E → result A → Prop) : Q [] (Ok a) → emits (mret a) t Q.
Proof. intros H. exists []. by rewrite app_nil_r. Qed.

Lemma emits_pure {A} (r : result A) t (Q : list E → result A → Prop) : Q [] r → emits (pure r) t Q.
Proof. intros H. exists []. by rewrite app_nil_r. Qed.

Lemma emits_call {A} (port : list E → result A) record t (Q : list E → result A → Prop) :
  Q [record (port t)] (port t) → emits (call port record) t Q.
Proof. intros H. by exists [record (port t)]. Qed.

Lemma emits_bind {A B} (m : prog E A) (f : A → prog E B) t (Q : list E → result B → Prop) :
  emits m t (λ l r, match r with
                    | Ok a => emits (f a) (t ++ l) (λ l' r', Q (l ++ l') r')
                    | Raise e => Q l (Raise e)
                    end) →
  emits (m ≫= f) t Q.
Proof.
  intros (l & Hl & H). unfold emits, mbind, prog_bind. destruct (m t) as [t' [a|e]]; cbn in *; subst t'.
  - destruct H as (l' & Hl' & H). exists (l ++ l'). by rewrite app_assoc.
  - by exists l.
Qed.

(** The common steps: a pure step, and a port call. *)
Lemma emits_pure_bind {A B} (r : result A) (f : A → prog E B) t (Q : list E → result B → Prop) :
  (∀ a, r = Ok a → emits (f a) t Q) → (∀ e, r = Raise e → Q [] (Raise e)) →
  emits (pure r ≫= f) t Q.
Proof.
  intros Ha He. apply emits_bind, emits_pure. destruct r as [a|e]; [|by apply He].
  rewrite app_nil_r. by apply Ha.
Qed.

Lemma emits_call_bind {A B} (port : list E → result A) record (f : A → prog E B) t
    (Q : list E → result B → Prop) :
  (∀ a, port t = Ok a → emits (f a) (t ++ [record (Ok a)]) (λ l r, Q (record (Ok a) :: l) r)) →
  (∀ e, port t = Raise e → Q [record (Raise e)] (Raise e)) →
  emits (call port record ≫= f) t Q.
Proof.
  intros Ha He. apply emits_bind, emits_call. destruct (port t) as [a|e]; [by apply Ha|by apply He].
Qed.

Lemma emits_attempt {A B} (m : prog E A) (handler : result A → prog E B) t
    (Q : list E → result B → Prop) :
  emits m t (λ l r, emits (handler r) (t ++ l) (λ l' r', Q (l ++ l') r')) → emits (attempt m handler) t Q.
Proof.
  intros (l & Hl & H). unfold emits, attempt. destruct (m t) as [t' r]; cbn in *; subst t'.
  destruct H as (l' & Hl' & H). exists (l ++ l'). by rewrite app_assoc.
Qed.

Lemma emits_run {A} (m : prog E A) t (Q : list E → result A → Prop) t' r :
  m t = (t', r) → emits m t Q → ∃ l, t' = t ++ l ∧ Q l r.
Proof. intros H (l & Hl & HQ). rewrite H in *. by exists l. Qed.

(** Runs read backwards. *)
Lemma run_pure {A} (r : result A) t t' x : pure r t = (t', x) → t' = t ∧ x = r.
Proof. by intros [= <- <-]. Qed.

Lemma run_attempt {A B} (m : prog E A) (handler : result A → prog E B) t t' r :
  attempt m handler t = (t', r) → ∃ t1 x, m t = (t1, x) ∧ handler x t1 = (t', r).
Proof. unfold attempt. destruct (m t) as [t1 x]. eauto. Qed.

Lemma run_pure_bind {A B} (r : result A) (f : A → prog E B) t t' b :
  (pure r ≫= f) t = (t', Ok b) → ∃ a, r = Ok a ∧ f a t = (t', Ok b).
Proof. destruct r as [a|e]; [eauto|done]. Qed.

Lemma run_call_bind {A B} (port : list E → result A) record (f : A → prog E B) t t' b :
  (call port record ≫= f) t = (t', Ok b) → ∃ a, port t = Ok a ∧ f a (t ++ [record (Ok a)]) = (t', Ok b).
Proof. unfold mbind, prog_bind, call. destruct (port t) as [a|e]; [eauto|done]. Qed.

Lemma run_bind {A B} (m : prog E A) (f : A → prog E B) t t' b :
  (m ≫= f) t = (t', Ok b) → ∃ t1 a, m t = (t1, Ok a) ∧ f a t1 = (t', Ok b).
Proof. unfold mbind, prog_bind. destruct (m t) as [t1 [a|e]]; [eauto|done]. Qed.
End emits.

#[global] Opaque pure call.
