(* ===== verification/CommandCodec.v ===== *)
(** The shared half of [services/control_plane/effect_command_codec.py]: the
    closed JSON schema helpers, the bound and privacy walk over a payload, the
    canonical reading of a payload, and the reading back of a proposal and of a
    prior plan.  [CreateCommand] and [CancelCommand] build the two command
    codecs on it.

    A payload mapping is a [pyobj]; anything that is not a string, an integer,
    a boolean, [None], a list or a mapping is refused by the walk.  What the
    payload reader returns is [json]. *)
From S2P Require Import Prelude PyStr Sha256 PyTime Json Canonical Digest Values States Actions Gate.
From S2P Require Import Text Reader.

Definition MAX_EFFECT_COMMAND_BYTES : Z := 16 * 1024.
Definition _MAX_DEPTH : Z := 12.
Definition _MAX_SIGNED_64 : Z := 2 ^ 63 - 1.

Definition _SENSITIVE_KEY_WORDS : list pystr :=
  [$"address"; $"authorization"; $"contact"; $"credential"; $"customer"; $"cvv"; $"email"; $"mobile";
   $"pan"; $"password"; $"phone"; $"secret"; $"token"; $"vpa"].
Definition _SENSITIVE_COMPOUND_KEYS : list pystr :=
  [$"api_key"; $"card_number"; $"key_secret"; $"private_key"].

Definition _ENVELOPE_FIELDS : list string :=
  ["bindings"; "command"; "command_type"; "integrity"; "schema"; "version"]%string.
Definition _INTEGRITY_FIELDS : list string := ["algorithm"; "digest"]%string.
Definition _PROPOSAL_FIELDS : list string :=
  ["action_key"; "action_type"; "amount"; "attempt_ordinal"; "case_id"; "created_at"; "decision_version";
   "expected_value_minor"; "expires_at"; "instrument_reference"; "merchant_id"; "model_confidence";
   "payment_method"; "proposal_id"; "requires_approval"]%string.
Definition _MONEY_FIELDS : list string := ["currency"; "minor_units"]%string.
Definition _PLAN_FIELDS : list string :=
  ["action_key"; "aggregate_version"; "allowed"; "case_id"; "decision_version"; "evaluated_at";
   "policy_version"; "proposal_digest"; "proposal_id"; "reasons"; "stage"]%string.

(** * Exceptions *)

(** [isinstance(exc, EffectCommandCodecError)]. *)
Definition codec_error (e : py_error) : bool :=
  match e with
  | EffectCommandSizeError _ | EffectCommandSchemaError _ | EffectCommandIntegrityError _
  | EffectCommandBindingError _ | EffectCommandPrivacyError _ => true
  | _ => false
  end.

(** [isinstance(exc, (TypeError, ValueError))]. *)
Definition type_or_value_error (e : py_error) : bool :=
  match e with
  | DomainError _ | InvalidValue _ | VersionConflict _ _ | InvalidTransition _ _ _
  | AuthorizationBindingError _ | LedgerIntegrityError _ | PaymentLinkValidationError _
  | ReferenceIdError _ | WebhookVerificationError _ | WebhookDecodeError _ | AccountMismatchError _
  | IngressError _ | PayloadTooLarge _ | UnsupportedMediaType _ | EndpointNotFound _
  | ApprovalCommandCodecError _ | ReplayIdempotencyConflict _ | MalformedProviderResponse _ | ValueError _ | TypeError _
  | UnicodeEncodeError | UnicodeDecodeError | JSONDecodeError => true
  | e => codec_error e
  end.

(** [try: m except (TypeError, ValueError) as exc: raise e from exc]. *)
Definition rewrap {A} (m : result A) (e : py_error) : result A :=
  match m with
  | Ok a => Ok a
  | Raise exc => Raise (if type_or_value_error exc then e else exc)
  end.

(** The same, where [if isinstance(exc, EffectCommandCodecError): raise]
    comes first. *)
Definition rewrap_foreign {A} (m : result A) (e : py_error) : result A :=
  match m with
  | Ok a => Ok a
  | Raise exc => Raise (if codec_error exc then exc else if type_or_value_error exc then e else exc)
  end.

Definition schema_error (path message : string) : py_error :=
  EffectCommandSchemaError (path +:+ message).

(** * Fields *)

Definition texts (keys : list pystr) : string := string_of (join ($",") keys).

(** [sorted(keys)] of distinct keys. *)
Definition sorted_strings (keys : list pystr) : list pystr := (sort_items (map (λ k, (k, tt)) keys)).*1.

(** [fields] are listed in sorted order. *)
Definition _exact_object (value : json) (fields : list string) (path : string) :
    result (list (pystr * json)) :=
  match value with
  | JDict copied =>
      let present := copied.*1 in
      let missing := filter (λ f, f ∉ present) (map lit fields) in
      let unknown := sorted_strings (filter (λ k, k ∉ map lit fields) present) in
      let details :=
        (if bool_decide (missing = []) then [] else ["missing=" +:+ texts missing])
        ++ (if bool_decide (unknown = []) then [] else ["unknown=" +:+ texts unknown]) in
      _ ← raise_if (bool_decide (details ≠ []))
            (schema_error path (" has invalid fields (" +:+ String.concat "; " details +:+ ")"));
      Ok copied
  | _ => Raise (schema_error path " must be a JSON object")
  end.

(** [item[key]]. *)
Definition item_of (d : list (pystr * json)) (key : string) : result json :=
  match dict_get (lit key) d with Some v => Ok v | None => Raise (KeyError key) end.

Definition _text (value : json) (path : string) : result pystr :=
  match value with JStr s => Ok s | _ => Raise (schema_error path " must be a string") end.

Definition _boolean (value : json) (path : string) : result bool :=
  match value with JBool b => Ok b | _ => Raise (schema_error path " must be a boolean") end.

Definition outside_64 (z : Z) : bool := (z <? - _MAX_SIGNED_64 - 1) || (_MAX_SIGNED_64 <? z).

Definition _integer (value : json) (path : string) (minimum : option Z) : result Z :=
  match value with
  | JInt z =>
      _ ← raise_if (outside_64 z) (schema_error path " is outside the signed 64-bit boundary");
      _ ← raise_if (match minimum with Some m => z <? m | None => false end)
            (schema_error path " is below its minimum");
      Ok z
  | _ => Raise (schema_error path " must be a canonical JSON integer")
  end.

Definition _optional_integer (value : json) (path : string) : result (option Z) :=
  match value with JNull => Ok None | v => z ← _integer v path None; Ok (Some z) end.

Definition _optional_text (value : json) (path : string) : result (option pystr) :=
  match value with JNull => Ok None | v => s ← _text v path; Ok (Some s) end.

Definition _timestamp (value : json) (path : string) : result datetime :=
  rendered ← _text value path;
  rewrap (parse_canonical_timestamp rendered) (schema_error path " must use canonical UTC microseconds").

Definition _digest (value : json) (path : string) : result pystr :=
  rendered ← _text value path;
  _ ← raise_if (negb (is_digest rendered)) (schema_error path " must be a lowercase SHA-256 digest");
  Ok rendered.

(** * The walk over a payload *)

(** [str.casefold] as far as ASCII is concerned: these are all the characters
    outside ASCII whose full case folding contains an ASCII character; the
    fold of any other stays outside ASCII. *)
Definition ASCII_FOLDS : list (Z * pystr) :=
  [(223, $"ss"); (304, $"i" ++ [775]); (329, 700 :: $"n"); (383, $"s"); (496, $"j" ++ [780]);
   (7830, $"h" ++ [817]); (7831, $"t" ++ [776]); (7832, $"w" ++ [778]); (7833, $"y" ++ [778]);
   (7834, $"a" ++ [702]); (7838, $"ss"); (8490, $"k"); (64256, $"ff"); (64257, $"fi"); (64258, $"fl");
   (64259, $"ffi"); (64260, $"ffl"); (64261, $"st"); (64262, $"st")].
Definition casefold_char (c : Z) : pystr :=
  if is_upper c then [c + 32]
  else match find (λ '(d, _), d =? c) ASCII_FOLDS with Some (_, s) => s | None => [c] end.
Definition casefold (s : pystr) : pystr := concat (map casefold_char s).

(** The maximal runs of characters that satisfy [p], in order. *)
Fixpoint runs_from (p : Z → bool) (run s : pystr) : list pystr :=
  match s with
  | [] => if bool_decide (run = []) then [] else [run]
  | c :: s =>
      if p c then runs_from p (run ++ [c]) s
      else (if bool_decide (run = []) then [] else [run]) ++ runs_from p [] s
  end.
Definition runs (p : Z → bool) (s : pystr) : list pystr := runs_from p [] s.

(** [re.sub("[^a-z0-9]+", "_", folded).strip("_")] joins the alphanumeric runs
    with ["_"], and [split("_")] gives them back. *)
Definition _sensitive_key (key : pystr) : bool :=
  let words := runs (λ c, is_lower c || is_digit c) (casefold key) in
  bool_decide (join ($"_") words ∈ _SENSITIVE_COMPOUND_KEYS)
  || bool_decide (Exists (λ w, w ∈ _SENSITIVE_KEY_WORDS) words).

(** [len(s.encode("utf-8"))]. *)
Definition utf8_len (s : pystr) : result Z := bs ← utf8_encode s; Ok (Z.of_nat (length bs)).

Definition too_large : py_error :=
  EffectCommandSizeError "effect command exceeds the serialized size cap".

Fixpoint _walk_json (value : pyobj) (path : string) (depth : Z) : result Z :=
  if _MAX_DEPTH <? depth
  then Raise (EffectCommandSizeError "effect command exceeds the maximum nesting depth")
  else
    match value with
    | PyNone | PyBool _ => Ok 4
    | PyInt z =>
        _ ← raise_if (outside_64 z)
              (EffectCommandSchemaError "effect command integer exceeds signed 64-bit range");
        Ok (str_len (str_of_Z z))
    | PyStr s =>
        size ← utf8_len s;
        _ ← raise_if (MAX_EFFECT_COMMAND_BYTES <? size + 2)
              (EffectCommandSizeError "effect command contains an oversized string");
        Ok (size + 2)
    | PyDict items =>
        (fix go items total :=
           match items with
           | [] => Ok total
           | (PyStr key, item) :: items =>
               key_size ← utf8_len key;
               _ ← raise_if (MAX_EFFECT_COMMAND_BYTES <? key_size)
                     (EffectCommandSizeError "effect command contains an oversized object key");
               _ ← raise_if (_sensitive_key key)
                     (EffectCommandPrivacyError (path +:+ " contains a prohibited sensitive field"));
               size ← _walk_json item (path +:+ "." +:+ string_of key) (depth + 1);
               let total := total + (key_size + 3) + size in
               _ ← raise_if (MAX_EFFECT_COMMAND_BYTES <? total) too_large;
               go items total
           | _ :: _ => Raise (EffectCommandSchemaError (path +:+ " contains a non-string object key"))
           end) items 2
    | PyList items =>
        (fix go items index total :=
           match items with
           | [] => Ok total
           | item :: items =>
               size ← _walk_json item (path +:+ "[" +:+ string_of (str_of_Z index) +:+ "]") (depth + 1);
               let total := total + (1 + size) in
               _ ← raise_if (MAX_EFFECT_COMMAND_BYTES <? total) too_large;
               go items (index + 1) total
           end) items 0 2
    | _ => Raise (EffectCommandSchemaError (path +:+ " contains a non-JSONB value"))
    end.

Definition _bounded_canonical_bytes (value : pyobj) : result bytes :=
  _ ← _walk_json value "$" 0;
  encoded ← rewrap (canonical_json_bytes value)
              (EffectCommandSchemaError "effect command is not canonical JSON");
  _ ← raise_if (MAX_EFFECT_COMMAND_BYTES <? Z.of_nat (length encoded)) too_large;
  Ok encoded.

(** The same on a value that is JSON already. *)
Definition bounded_bytes (value : json) : result bytes := _bounded_canonical_bytes (pyobj_of_json value).

(** * Reading a payload *)

(** [parsed] is [int(token)]. *)
Definition _parse_canonical_integer (token : pystr) (parsed : Z) : result Z :=
  _ ← raise_if (bool_decide (token = $"-0"))
        (EffectCommandSchemaError "negative zero is not a canonical JSON integer");
  _ ← raise_if (19 <? str_len (drop_while (Z.eqb 45) token))
        (EffectCommandSchemaError "JSON integer exceeds signed 64-bit range");
  _ ← raise_if (outside_64 parsed)
        (EffectCommandSchemaError "JSON integer exceeds signed 64-bit range");
  Ok parsed.

Definition _reject_non_integer_number : py_error :=
  EffectCommandSchemaError "non-integer JSON numbers are forbidden".
Definition _reject_json_constant : py_error :=
  EffectCommandSchemaError "non-finite JSON numbers are forbidden".
Definition _object_without_duplicates : list (pystr * json) → result (list (pystr * json)) :=
  add_pairs (EffectCommandSchemaError "duplicate JSON object keys are forbidden") [].

(** A literal, through the number hooks. *)
Definition command_scalar (s : pystr) : result (json * pystr) :=
  '(j, r) ← or_decode_error (scan_other s);
  match j with
  | JInt z => z ← _parse_canonical_integer (take (length s - length r) s) z; Ok (JInt z, r)
  | JFloat t =>
      Raise (if bool_decide (t ∈ [$"nan"; $"inf"; $"-inf"]) then _reject_json_constant
             else _reject_non_integer_number)
  | _ => Ok (j, r)
  end.

Inductive command_payload_arg :=
  | MappingPayload (items : list (pyobj * pyobj))
  | TextPayload (text : pystr)
  | BytesPayload (raw : bytes).

(** A mapping with JSON values, as JSONB gives it back. *)
Definition jsonb (d : list (pystr * json)) : command_payload_arg :=
  MappingPayload (map (λ kv, (PyStr kv.1, pyobj_of_json kv.2)) d).

Definition not_an_object : py_error :=
  EffectCommandSchemaError "effect command payload must be a JSON object".

Definition as_command_object (value : json) : result (list (pystr * json)) :=
  match value with JDict d => Ok d | _ => Raise not_an_object end.

Section reading.
Context (nesting_limit : nat).

(** [json.loads] with the hooks, its exceptions rewrapped. *)
Definition read_command_text (text : pystr) : result json :=
  match strict_document _object_without_duplicates command_scalar nesting_limit text with
  | Raise JSONDecodeError => Raise (EffectCommandSchemaError "effect command is not valid JSON")
  | Raise RecursionError =>
      Raise (EffectCommandSizeError "effect command exceeds the maximum nesting depth")
  | r => r
  end.

Definition read_raw (raw : bytes) : result (list (pystr * json)) :=
  _ ← raise_if (MAX_EFFECT_COMMAND_BYTES <? Z.of_nat (length raw)) too_large;
  match utf8_decode raw with
  | None => Raise (EffectCommandSchemaError "effect command must be valid UTF-8")
  | Some decoded =>
      parsed ← read_command_text decoded;
      d ← as_command_object parsed;
      canonical ← bounded_bytes (JDict d);
      _ ← raise_if (bool_decide (raw ≠ canonical))
            (EffectCommandSchemaError "serialized effect command is not canonical JSON");
      Ok d
  end.

Definition _coerce_payload (payload : command_payload_arg) : result (list (pystr * json)) :=
  match payload with
  | MappingPayload items =>
      _ ← _walk_json (PyDict items) "$" 0;
      canonical ← _bounded_canonical_bytes (PyDict items);
      match text ← utf8_decode canonical; loads text with
      | None => Raise (AssertionError "canonical serializer produced invalid JSON")
      | Some copied => as_command_object copied
      end
  | TextPayload text =>
      raw ← rewrap (utf8_encode text) (EffectCommandSchemaError "effect command must be valid UTF-8");
      read_raw raw
  | BytesPayload raw => read_raw raw
  end.
End reading.

(** * Reading the domain values back *)

Definition _money (value : json) (path : string) : result Money :=
  item ← _exact_object value _MONEY_FIELDS path;
  rewrap
    (units ← item_of item "minor_units";
     units ← _integer units (path +:+ ".minor_units") (Some 0);
     cur ← item_of item "currency";
     cur ← _text cur (path +:+ ".currency");
     Money_init units cur)
    (schema_error path " violates the Money contract").

Definition probability_text (p : Probability) : pystr :=
  match Probability_to_primitive p with PyStr s => s | _ => [] end.

Definition _probability (value : json) (path : string) : result (option Probability) :=
  match value with
  | JNull => Ok None
  | value =>
      rendered ← _text value path;
      probability ← rewrap (Probability_init (FromStr rendered))
                      (schema_error path " violates the Probability contract");
      _ ← raise_if (bool_decide (probability_text probability ≠ rendered))
            (schema_error path " is not a canonical decimal string");
      Ok (Some probability)
  end.

(** Python's [==] on JSON values without floats: [True == 1], and the order of
    a dictionary does not matter. *)
Fixpoint py_norm (j : json) : json :=
  match j with
  | JBool b => JInt (if b then 1 else 0)
  | JList l => JList (map py_norm l)
  | JDict d => JDict (sort_items (map (λ kv, (kv.1, py_norm kv.2)) d))
  | _ => j
  end.
Definition py_eqb (a b : json) : bool := bool_decide (py_norm a = py_norm b).

(** [prim != item]. *)
Definition differs (prim : result pyobj) (item : list (pystr * json)) : result bool :=
  prim ← prim;
  j ← to_canonical_primitive prim;
  Ok (negb (py_eqb j (JDict item))).

(** [Enum(value)]. *)
Definition enum_of {A} (value_of : A → pystr) (members : list A) (value : pystr) : result A :=
  match List.find (λ a, bool_decide (value_of a = value)) members with
  | Some a => Ok a
  | None => Raise (ValueError (string_of value +:+ " is not a valid member"))
  end.

Definition read_amount (value : json) : result (option Money) :=
  match value with
  | JNull => Ok None
  | value => m ← _money value "$.command.proposal.amount"; Ok (Some m)
  end.

(** The fields of a proposal, in the order the call evaluates them. *)
Definition read_proposal (item : list (pystr * json)) (action_type_value_ : pystr)
    (amount_ : option Money) : result ActionProposal :=
  let at_ := λ key, item_of item key in
  let path := λ key, "$.command.proposal." +:+ key in
  type ← enum_of action_type_value all_action_types action_type_value_;
  id ← at_ "proposal_id"; id ← _text id (path "proposal_id");
  merchant ← at_ "merchant_id"; merchant ← _text merchant (path "merchant_id");
  case ← at_ "case_id"; case ← _text case (path "case_id");
  version ← at_ "decision_version"; version ← _integer version (path "decision_version") (Some 1);
  created ← at_ "created_at"; created ← _timestamp created (path "created_at");
  expires ← at_ "expires_at"; expires ← _timestamp expires (path "expires_at");
  ordinal ← at_ "attempt_ordinal"; ordinal ← _integer ordinal (path "attempt_ordinal") (Some 1);
  method ← at_ "payment_method"; method ← _optional_text method (path "payment_method");
  value ← at_ "expected_value_minor"; value ← _optional_integer value (path "expected_value_minor");
  confidence ← at_ "model_confidence"; confidence ← _probability confidence (path "model_confidence");
  approval ← at_ "requires_approval"; approval ← _boolean approval (path "requires_approval");
  instrument ← at_ "instrument_reference";
  instrument ← _optional_text instrument (path "instrument_reference");
  ActionProposal_post_init
    (mkActionProposal id merchant case version type created expires ordinal amount_ method value
       confidence approval instrument).

Definition _proposal (value : json) : result ActionProposal :=
  item ← _exact_object value _PROPOSAL_FIELDS "$.command.proposal";
  amount_value ← item_of item "amount";
  amount_ ← read_amount amount_value;
  type_value ← item_of item "action_type";
  type_value ← _text type_value "$.command.proposal.action_type";
  proposal ← rewrap_foreign (read_proposal item type_value amount_)
               (EffectCommandSchemaError "proposal violates the ActionProposal contract");
  different ← differs (ActionProposal_to_primitive proposal) item;
  _ ← raise_if different
        (EffectCommandBindingError "proposal derived fields do not match their source fields");
  Ok proposal.

Definition decode_action_proposal (value : json) : result ActionProposal := _proposal value.

(** The members of the enumerations, in declaration order. *)
Definition all_reasons : list GateReason :=
  [PROPOSAL_MERCHANT_MISMATCH; PROPOSAL_CASE_MISMATCH; ACTION_NOT_YET_VALID; ACTION_EXPIRED;
   ACTION_NOT_ALLOWED; ENVIRONMENT_EFFECTS_DISABLED; GLOBAL_KILL_SWITCH_ACTIVE;
   MERCHANT_KILL_SWITCH_ACTIVE; AGGREGATE_VERSION_MISMATCH; RECOVERY_STATE_NOT_ACTIONABLE;
   OBSERVATION_DEADLINE_MISSING; OBSERVATION_WINDOW_ACTIVE; PAYMENT_TRUTH_NOT_UNPAID;
   PROVIDER_SNAPSHOT_FROM_FUTURE; PROVIDER_SNAPSHOT_STALE; ACTIVE_INSTRUMENT_EXISTS;
   ACTIVE_INSTRUMENT_REQUIRED; POLICY_CURRENCY_MISMATCH; CURRENCY_MISMATCH; AMOUNT_MISMATCH;
   PAYMENT_METHOD_MISMATCH; CONSENT_MISSING; CUSTOMER_OPTED_OUT; COOLDOWN_ACTIVE;
   CONTACT_CAP_REACHED; QUIET_HOURS_ACTIVE; INCIDENT_HEALTH_FROM_FUTURE; INCIDENT_HEALTH_STALE;
   PAYMENT_METHOD_UNHEALTHY; ATTEMPT_BUDGET_EXHAUSTED; CONFIDENCE_UNAVAILABLE;
   CONFIDENCE_BELOW_THRESHOLD; ABSTENTION_REQUIRES_APPROVAL; EXTERNAL_DIAGNOSIS_REQUIRES_APPROVAL;
   HIGH_VALUE_REQUIRES_APPROVAL; REASON_APPROVAL_REQUIRED; APPROVAL_REJECTED; APPROVAL_EXPIRED;
   APPROVAL_NOT_YET_VALID; APPROVAL_BINDING_MISMATCH; PLAN_AUTHORIZATION_MISSING;
   PLAN_BINDING_MISMATCH; DURABLE_INTENT_MISSING].
Definition all_stages : list GateStage := [POLICY; EFFECT].

Fixpoint read_reasons (values : list json) : result (list GateReason) :=
  match values with
  | [] => Ok []
  | value :: values =>
      text ← _text value "$.command.prior_plan.reasons[]";
      reason ← enum_of reason_value all_reasons text;
      rest ← read_reasons values;
      Ok (reason :: rest)
  end.

(** The fields of a plan, in the order the call evaluates them. *)
Definition read_plan (item : list (pystr * json)) (reason_values : list json) : result GateDecision :=
  let at_ := λ key, item_of item key in
  let path := λ key, "$.command.prior_plan." +:+ key in
  reasons ← read_reasons reason_values;
  _ ← raise_if (bool_decide (¬ NoDup reasons))
        (EffectCommandSchemaError "prior plan reason codes must be unique");
  stage ← at_ "stage"; stage ← _text stage (path "stage");
  stage ← enum_of stage_value all_stages stage;
  policy ← at_ "policy_version"; policy ← _text policy (path "policy_version");
  id ← at_ "proposal_id"; id ← _text id (path "proposal_id");
  key ← at_ "action_key"; key ← _text key (path "action_key");
  digest ← at_ "proposal_digest"; digest ← _digest digest (path "proposal_digest");
  case ← at_ "case_id"; case ← _text case (path "case_id");
  version ← at_ "decision_version"; version ← _integer version (path "decision_version") (Some 1);
  aggregate ← at_ "aggregate_version";
  aggregate ← _integer aggregate (path "aggregate_version") (Some 0);
  evaluated ← at_ "evaluated_at"; evaluated ← _timestamp evaluated (path "evaluated_at");
  _ ← require_identifier policy "policy_version";
  _ ← require_identifier id "proposal_id";
  _ ← require_identifier case "case_id";
  Ok (mkGateDecision stage policy id key digest case version aggregate evaluated reasons).

Definition _prior_plan (value : json) : result GateDecision :=
  item ← _exact_object value _PLAN_FIELDS "$.command.prior_plan";
  reasons_value ← item_of item "reasons";
  reason_values ←
    match reasons_value with
    | JList l => Ok l
    | _ => Raise (EffectCommandSchemaError "$.command.prior_plan.reasons must be a JSON array")
    end;
  allowed_value ← item_of item "allowed";
  supplied_allowed ← _boolean allowed_value "$.command.prior_plan.allowed";
  plan ← rewrap_foreign (read_plan item reason_values)
           (EffectCommandSchemaError "prior plan violates the GateDecision contract");
  different ←
    (if bool_decide (allowed plan ≠ supplied_allowed) then Ok true
     else differs (GateDecision_to_primitive plan) item);
  _ ← raise_if different
        (EffectCommandBindingError "prior plan derived fields do not match their source fields");
  Ok plan.

(** * The envelope

    Both codecs check the outer envelope in the same steps; [command_kind]
    holds what differs: the names and the messages. *)
Record command_kind := mkCommandKind {
  kind_type : pystr;
  kind_schema : pystr;
  external_type_message : string;
  external_version_message : string;
  schema_message : string;
  version_message : string;
  embedded_type_message : string;
  algorithm_message : string;
  integrity_message : string;
  binding_prefix : string;
  unique_message : string
}.

Definition COMMAND_SCHEMA_VERSION : Z := 1.

Definition _integrity_digest (unsigned : list (pystr * json)) : result pystr :=
  encoded ← bounded_bytes (JDict unsigned); Ok (sha256_hex encoded).

(** The signed envelope of an unsigned one. *)
Definition signed (unsigned : list (pystr * json)) : result (list (pystr * json)) :=
  digest ← _integrity_digest unsigned;
  let envelope :=
    unsigned ++ [($"integrity", JDict [($"algorithm", JStr ($"sha256")); ($"digest", JStr digest)])] in
  _ ← bounded_bytes (JDict envelope);
  Ok envelope.

Definition without (key : pystr) (d : list (pystr * json)) : list (pystr * json) :=
  filter (λ kv, kv.1 ≠ key) d.

(** The checks of the decoder up to the integrity digest; the result is the
    envelope. *)
Definition open_envelope (nesting_limit : nat) (kind : command_kind) (payload : command_payload_arg)
    (command_type : pystr) (command_schema_version : Z) : result (list (pystr * json)) :=
  coerced ← _coerce_payload nesting_limit payload;
  envelope ← _exact_object (JDict coerced) _ENVELOPE_FIELDS "$";
  _ ← raise_if (bool_decide (command_type ≠ kind_type kind))
        (EffectCommandSchemaError (external_type_message kind));
  _ ← raise_if (bool_decide (command_schema_version ≠ COMMAND_SCHEMA_VERSION))
        (EffectCommandSchemaError (external_version_message kind));
  schema ← item_of envelope "schema";
  _ ← raise_if (bool_decide (schema ≠ JStr (kind_schema kind)))
        (EffectCommandSchemaError (schema_message kind));
  version ← item_of envelope "version";
  _ ← raise_if (bool_decide (version ≠ JInt COMMAND_SCHEMA_VERSION))
        (EffectCommandSchemaError (version_message kind));
  embedded ← item_of envelope "command_type";
  _ ← raise_if (bool_decide (embedded ≠ JStr command_type))
        (EffectCommandSchemaError (embedded_type_message kind));
  integrity_value ← item_of envelope "integrity";
  integrity ← _exact_object integrity_value _INTEGRITY_FIELDS "$.integrity";
  algorithm ← item_of integrity "algorithm";
  _ ← raise_if (bool_decide (algorithm ≠ JStr ($"sha256")))
        (EffectCommandSchemaError (algorithm_message kind));
  digest ← item_of integrity "digest";
  supplied_integrity ← _digest digest "$.integrity.digest";
  expected_integrity ← _integrity_digest (without ($"integrity") envelope);
  _ ← raise_if (bool_decide (supplied_integrity ≠ expected_integrity))
        (EffectCommandIntegrityError (integrity_message kind));
  Ok envelope.

(** [for field in fields: _digest(supplied[field])]; the source iterates over a
    set, so only which of two errors comes first may differ. *)
Fixpoint check_digests (supplied : list (pystr * json)) (fields : list string) : result unit :=
  match fields with
  | [] => Ok tt
  | field :: fields =>
      value ← item_of supplied field;
      _ ← _digest value ("$.bindings." +:+ field);
      check_digests supplied fields
  end.

(** The loop that compares the supplied with the expected bindings.
    [hmac.compare_digest] refuses text outside ASCII. *)
Fixpoint compare_bindings (kind : command_kind) (supplied : list (pystr * json))
    (expected : list (string * pystr)) : result unit :=
  match expected with
  | [] => Ok tt
  | (field, value) :: expected =>
      let mismatch := EffectCommandIntegrityError (binding_prefix kind +:+ field +:+ " binding mismatch") in
      found ← item_of supplied field;
      _ ← match found with
          | JStr text =>
              if ascii_str text && ascii_str value then raise_if (bool_decide (text ≠ value)) mismatch
              else Raise (TypeError "comparing strings with non-ASCII characters is not supported")
          | _ => Raise mismatch
          end;
      compare_bindings kind supplied expected
  end.

(** The last checks of the decoder: the bindings the envelope repeats, and its
    equality with the envelope of the command just decoded. *)
Definition close_envelope (kind : command_kind) (fields : list string) (envelope : list (pystr * json))
    (expected : result (list (string * pystr))) (rebuilt : result (list (pystr * json))) : result unit :=
  bindings_value ← item_of envelope "bindings";
  supplied ← _exact_object bindings_value fields "$.bindings";
  _ ← check_digests supplied (filter (λ f, f ≠ "action_key"%string) fields);
  expected ← expected;
  _ ← compare_bindings kind supplied expected;
  rebuilt ← rebuilt;
  given ← bounded_bytes (JDict envelope);
  unique ← bounded_bytes (JDict rebuilt);
  raise_if (bool_decide (given ≠ unique)) (EffectCommandIntegrityError (unique_message kind)).

(** * The walk *)

(** The loops of [_walk_json], named. *)
Fixpoint walk_items (items : list (pyobj * pyobj)) (path : string) (depth total : Z) : result Z :=
  match items with
  | [] => Ok total
  | (PyStr key, item) :: items =>
      key_size ← utf8_len key;
      _ ← raise_if (MAX_EFFECT_COMMAND_BYTES <? key_size)
            (EffectCommandSizeError "effect command contains an oversized object key");
      _ ← raise_if (_sensitive_key key)
            (EffectCommandPrivacyError (path +:+ " contains a prohibited sensitive field"));
      size ← _walk_json item (path +:+ "." +:+ string_of key) (depth + 1);
      _ ← raise_if (MAX_EFFECT_COMMAND_BYTES <? total + (key_size + 3) + size) too_large;
      walk_items items path depth (total + (key_size + 3) + size)
  | _ :: _ => Raise (EffectCommandSchemaError (path +:+ " contains a non-string object key"))
  end.
Fixpoint walk_elements (items : list pyobj) (path : string) (depth index total : Z) : result Z :=
  match items with
  | [] => Ok total
  | item :: items =>
      size ← _walk_json item (path +:+ "[" +:+ string_of (str_of_Z index) +:+ "]") (depth + 1);
      _ ← raise_if (MAX_EFFECT_COMMAND_BYTES <? total + (1 + size)) too_large;
      walk_elements items path depth (index + 1) (total + (1 + size))
  end.

Definition too_deep : py_error :=
  EffectCommandSizeError "effect command exceeds the maximum nesting depth".

Lemma walk_dict items path depth :
  _walk_json (PyDict items) path depth
  = if _MAX_DEPTH <? depth then Raise too_deep else walk_items items path depth 2.
Proof.
  cbn [_walk_json]. destruct (_MAX_DEPTH <? depth); [done|]. generalize 2.
  induction items as [|[k v] items IH]; intros total; [done|]. cbn [walk_items].
  destruct k; try done. destruct (utf8_len s) as [n|]; [|done]. rewrite !bind_Ok_l.
  destruct (MAX_EFFECT_COMMAND_BYTES <? n); [done|]. destruct (_sensitive_key s); [done|].
  rewrite !raise_if_false, !bind_Ok_l. destruct (_walk_json v _ _) as [m|]; [|done]. rewrite !bind_Ok_l.
  cbv zeta. destruct (MAX_EFFECT_COMMAND_BYTES <? total + (n + 3) + m); [done|].
  rewrite !raise_if_false, !bind_Ok_l. apply IH.
Qed.

Lemma walk_list items path depth :
  _walk_json (PyList items) path depth
  = if _MAX_DEPTH <? depth then Raise too_deep else walk_elements items path depth 0 2.
Proof.
  cbn [_walk_json]. destruct (_MAX_DEPTH <? depth); [done|]. generalize 2. generalize 0.
  induction items as [|v items IH]; intros index total; [done|]. cbn [walk_elements].
  destruct (_walk_json v _ _) as [m|]; [|done]. rewrite !bind_Ok_l. cbv zeta.
  destruct (MAX_EFFECT_COMMAND_BYTES <? total + (1 + m)); [done|].
  rewrite !raise_if_false, !bind_Ok_l. apply IH.
Qed.

(** What the walk accepts, on JSON: the bounds on every part, and the weight
    it computes, in which the order of a dictionary does not matter. *)
Definition utf8_weight (s : pystr) : Z := match utf8_len s with Ok n => n | Raise _ => 0 end.

Fixpoint weight (j : json) : Z :=
  match j with
  | JInt z => str_len (str_of_Z z)
  | JStr s => utf8_weight s + 2
  | JList l => 2 + sum_Z (map (λ j, 1 + weight j) l)
  | JDict d => 2 + sum_Z (map (λ kv, utf8_weight kv.1 + 3 + weight kv.2) d)
  | _ => 4
  end.

Definition key_allowed (key : pystr) : bool :=
  is_ok (utf8_len key) && (utf8_weight key <=? MAX_EFFECT_COMMAND_BYTES) && negb (_sensitive_key key).

Fixpoint walkable (depth : Z) (j : json) : bool :=
  (depth <=? _MAX_DEPTH) &&
  match j with
  | JNull | JBool _ => true
  | JInt z => negb (outside_64 z)
  | JFloat _ => false
  | JStr s => is_ok (utf8_len s) && (utf8_weight s + 2 <=? MAX_EFFECT_COMMAND_BYTES)
  | JList l =>
      forallb (walkable (depth + 1)) l
      && (bool_decide (l = []) || (weight j <=? MAX_EFFECT_COMMAND_BYTES))
  | JDict d =>
      forallb (λ kv, key_allowed kv.1 && walkable (depth + 1) kv.2) d
      && (bool_decide (d = []) || (weight j <=? MAX_EFFECT_COMMAND_BYTES))
  end.

Lemma utf8_len_nonneg s : 0 <= utf8_weight s.
Proof. unfold utf8_weight, utf8_len. destruct (utf8_encode s); cbn; lia. Qed.

Lemma sum_nonneg {A} (f : A → Z) l : Forall (λ a, 0 <= f a) l → 0 <= sum_Z (map f l).
Proof. unfold sum_Z. induction 1; cbn; lia. Qed.

Lemma weight_nonneg j : 0 <= weight j.
Proof.
  induction j as [| | | | |l IH|d IH] using json_nested_ind; cbn; try lia.
  - unfold str_len. lia.
  - pose proof (utf8_len_nonneg s). lia.
  - assert (0 <= sum_Z (map (λ j, 1 + weight j) l)); [|lia].
    apply sum_nonneg. eapply Forall_impl; [exact IH|]. cbn. lia.
  - assert (0 <= sum_Z (map (λ kv : pystr * json, utf8_weight kv.1 + 3 + weight kv.2) d)); [|lia].
    apply sum_nonneg. eapply Forall_impl; [exact IH|]. intros kv. pose proof (utf8_len_nonneg kv.1). cbn. lia.
Qed.

(** [m] returns [n] exactly when [b]. *)
Definition decides (m : result Z) (b : bool) (n : Z) : Prop :=
  match m with Ok x => b = true ∧ x = n | Raise _ => b = false end.

Lemma decides_bind (m : result Z) b n (f : Z → result Z) c k :
  decides m b n → (b = true → decides (f n) c k) → decides (m ≫= f) (b && c) k.
Proof.
  unfold decides. destruct m as [x|]; cbn [mbind result_bind]; intros H Hf.
  - destruct H as [-> ->]. by apply Hf.
  - by rewrite H.
Qed.

Lemma decides_guard b e (m : result Z) c k :
  (b = false → decides m c k) → decides (_ ← raise_if b e; m) (negb b && c) k.
Proof. destruct b; cbn; [done|]. auto. Qed.

Lemma decides_ext m b n b' n' : decides m b n → b = b' → (b' = true → n = n') → decides m b' n'.
Proof. unfold decides. destruct m; [|by intros -> ->]. intros [-> ->] <- E. split; [done|auto]. Qed.

Lemma utf8_len_decides s : decides (utf8_len s) (is_ok (utf8_len s)) (utf8_weight s).
Proof. unfold decides, utf8_weight. by destruct (utf8_len s). Qed.

Definition decided (j : json) : Prop :=
  ∀ path depth, decides (_walk_json (pyobj_of_json j) path depth) (walkable depth j) (weight j).

Lemma walk_elements_spec l path depth index total :
  Forall decided l →
  decides (walk_elements (map pyobj_of_json l) path depth index total)
    (forallb (walkable (depth + 1)) l
     && (bool_decide (l = []) || (total + sum_Z (map (λ j, 1 + weight j) l) <=? MAX_EFFECT_COMMAND_BYTES)))
    (total + sum_Z (map (λ j, 1 + weight j) l)).
Proof.
  intros Hl. revert index total. induction Hl as [|j l Hj Hl IH]; intros index total.
  - cbn. split; [done|lia].
  - cbn [map walk_elements forallb].
    eapply decides_ext; [eapply decides_bind; [apply Hj|]; intros _; apply decides_guard; intros _; apply IH| |].
    + assert (0 <= sum_Z (map (λ j, 1 + weight j) l)) as Hn.
      { apply sum_nonneg, Forall_true. intros x. pose proof (weight_nonneg x). lia. }
      rewrite (bool_decide_false (j :: l = [])) by done. unfold sum_Z in *. cbn [foldr].
      destruct (walkable (depth + 1) j), (forallb (walkable (depth + 1)) l); cbn [andb orb]; try done;
        [|by rewrite andb_false_r].
      case_bool_decide as E; [subst l; cbn; lia|]. cbn [orb]. lia.
    + intros _. unfold sum_Z. cbn. lia.
Qed.

Lemma walk_items_spec (d : list (pystr * json)) path depth total :
  Forall (λ kv, decided kv.2) d →
  decides (walk_items (map (λ kv, (PyStr kv.1, pyobj_of_json kv.2)) d) path depth total)
    (forallb (λ kv, key_allowed kv.1 && walkable (depth + 1) kv.2) d
     && (bool_decide (d = [])
         || (total + sum_Z (map (λ kv, utf8_weight kv.1 + 3 + weight kv.2) d) <=? MAX_EFFECT_COMMAND_BYTES)))
    (total + sum_Z (map (λ kv, utf8_weight kv.1 + 3 + weight kv.2) d)).
Proof.
  intros Hl. revert total. induction Hl as [|[k j] d Hj Hl IH]; intros total.
  - cbn. split; [done|lia].
  - cbn [map walk_items forallb fst snd] in *.
    eapply decides_ext.
    { eapply decides_bind; [apply utf8_len_decides|]. intros _. apply decides_guard. intros _.
      apply decides_guard. intros _. eapply decides_bind; [apply Hj|]. intros _.
      apply decides_guard. intros _. apply IH. }
    + assert (0 <= sum_Z (map (λ kv : pystr * json, utf8_weight kv.1 + 3 + weight kv.2) d)) as Hn.
      { apply sum_nonneg, Forall_true. intros x. pose proof (weight_nonneg x.2). pose proof (utf8_len_nonneg x.1). lia. }
      rewrite (bool_decide_false (_ :: d = [])) by done. unfold sum_Z, key_allowed in *. cbn [foldr fst snd].
      rewrite <- Z.leb_antisym.
      destruct (is_ok (utf8_len k)), (utf8_weight k <=? MAX_EFFECT_COMMAND_BYTES), (_sensitive_key k),
        (walkable (depth + 1) j), (forallb _ d); cbn [andb orb negb]; try done;
        [|by rewrite andb_false_r].
      case_bool_decide as E; [subst d; cbn; lia|]. cbn [orb]. lia.
    + intros _. unfold sum_Z. cbn. lia.
Qed.

Lemma walk_spec j : decided j.
Proof.
  induction j as [| | | | |l IH|d IH] using json_nested_ind; intros path depth.
  1-5: cbn [pyobj_of_json _walk_json walkable weight]; rewrite (Z.ltb_antisym depth); destruct (depth <=? _MAX_DEPTH); try done; cbn [negb andb].
  - unfold raise_if. destruct (outside_64 z); by cbn.
  - eapply decides_ext; [eapply decides_bind; [apply utf8_len_decides|]; intros _; apply decides_guard;
      intros _; split; reflexivity| |done].
    by rewrite andb_true_r, <- Z.leb_antisym.
  - cbn [pyobj_of_json walkable]. rewrite walk_list, Z.ltb_antisym. destruct (depth <=? _MAX_DEPTH); [|done].
    by apply walk_elements_spec.
  - cbn [pyobj_of_json walkable]. rewrite walk_dict, Z.ltb_antisym. destruct (depth <=? _MAX_DEPTH); [|done].
    by apply walk_items_spec.
Qed.

Lemma walk_Ok j path depth n : _walk_json (pyobj_of_json j) path depth = Ok n → walkable depth j = true.
Proof. intros H. pose proof (walk_spec j path depth) as Hd. rewrite H in Hd. apply Hd. Qed.

Lemma walk_true j path depth :
  walkable depth j = true → _walk_json (pyobj_of_json j) path depth = Ok (weight j).
Proof.
  intros H. pose proof (walk_spec j path depth) as Hd. unfold decides in Hd.
  destruct (_walk_json _ _ _); [by destruct Hd as [_ ->]|congruence].
Qed.

(** The order of dictionaries does not matter. *)
Lemma sum_Permutation l l' : l ≡ₚ l' → sum_Z l = sum_Z l'.
Proof. unfold sum_Z. induction 1; cbn; lia. Qed.

Lemma weight_sort j : weight (sort_keys j) = weight j.
Proof.
  induction j as [| | | | |l IH|d IH] using json_nested_ind; cbn [sort_keys weight]; try done.
  - f_equal. rewrite map_map. f_equal. apply map_ext_in. intros x Hx%list_elem_of_In.
    rewrite Forall_forall in IH. by rewrite IH.
  - f_equal. erewrite sum_Permutation; [|apply Permutation_map, sort_items_Permutation].
    rewrite map_map. f_equal. apply map_ext_in. intros x Hx%list_elem_of_In.
    rewrite Forall_forall in IH. cbn. by rewrite IH.
Qed.

Lemma forallb_Permutation {A} (f : A → bool) l l' : l ≡ₚ l' → forallb f l = forallb f l'.
Proof. induction 1; cbn; [done|congruence|by destruct (f x), (f y)|congruence]. Qed.

Lemma walkable_sort j depth : walkable depth (sort_keys j) = walkable depth j.
Proof.
  revert depth. induction j as [| | | | |l IH|d IH] using json_nested_ind; intros depth; try done.
  - pose proof (weight_sort (JList l)) as Hw. cbn [sort_keys walkable] in *. rewrite Hw. f_equal. f_equal.
    + induction IH as [|j l Hj _ IHl]; [done|]. cbn [map forallb]. rewrite Hj. f_equal. apply IHl.
      pose proof (weight_sort (JList l)). done.
    + f_equal. by destruct l.
  - pose proof (weight_sort (JDict d)) as Hw. cbn [sort_keys walkable] in *. rewrite Hw. f_equal. f_equal.
    + erewrite forallb_Permutation by apply sort_items_Permutation. clear Hw.
      induction IH as [|j l Hj _ IHl]; [done|]. cbn [map forallb fst snd]. by rewrite Hj, IHl.
    + f_equal. destruct d as [|kv d]; [done|]. apply bool_decide_ext. split; [|done]. intros E.
      pose proof (sort_items_Permutation (map (λ kv, (kv.1, sort_keys kv.2)) (kv :: d))) as HP. rewrite E in HP.
      by apply Permutation_nil in HP.
Qed.

(** * Bytes *)

Lemma bounded_canonical_Ok v bs :
  _bounded_canonical_bytes v = Ok bs →
  canonical_json_bytes v = Ok bs ∧ Z.of_nat (length bs) <= MAX_EFFECT_COMMAND_BYTES
  ∧ is_ok (_walk_json v "$" 0) = true.
Proof.
  unfold _bounded_canonical_bytes, rewrap. intros H. inv_ok. bools.
  destruct (canonical_json_bytes v); [|done]. simplify_eq. by rewrite Hr.
Qed.

Lemma canonical_of_json_bytes j bs :
  json_ok j → canonical_json_bytes (pyobj_of_json j) = Ok bs ↔ utf8_encode (dumps j) = Ok bs.
Proof. intros H. unfold canonical_json_bytes, canonical_json. by rewrite to_canonical_of_json. Qed.

Lemma bounded_bytes_Ok j bs :
  json_ok j →
  bounded_bytes j = Ok bs ↔
  walkable 0 j = true ∧ utf8_encode (dumps j) = Ok bs ∧ Z.of_nat (length bs) <= MAX_EFFECT_COMMAND_BYTES.
Proof.
  intros Hj. unfold bounded_bytes. split.
  - intros (Hc & Hl & Hw)%bounded_canonical_Ok. rewrite canonical_of_json_bytes in Hc by done.
    apply is_ok_true in Hw as [n Hw%walk_Ok]. done.
  - intros (Hw & He & Hl). unfold _bounded_canonical_bytes. rewrite (walk_true j) by done.
    apply canonical_of_json_bytes in He; [|done]. rewrite He. cbn.
    by rewrite (proj2 (Z.ltb_ge _ _)) by lia.
Qed.

Lemma bounded_bytes_sort j bs :
  json_ok j → bounded_bytes (sort_keys j) = Ok bs ↔ bounded_bytes j = Ok bs.
Proof.
  intros Hj. rewrite !bounded_bytes_Ok by (done || by apply sort_keys_ok).
  by rewrite walkable_sort, dumps_sort_keys.
Qed.

(** A string the walk accepted has a UTF-8 form. *)
Lemma utf8_char_nonneg c b : utf8_encode_char c = Ok b → 0 <= c.
Proof. unfold utf8_encode_char, is_surrogate, between. repeat case_match; intros; try done; lia. Qed.

Lemma utf8_len_ok s n : utf8_len s = Ok n → forallb (Z.leb 0) s = true.
Proof.
  unfold utf8_len. intros H. inv_ok. clear H. revert r Hr.
  induction s as [|c s IH]; cbn; intros r Hr; [done|]. inv_ok.
  apply utf8_char_nonneg in Hr0. rewrite (proj2 (Z.leb_le _ _)) by done. eauto.
Qed.

Lemma walk_pyobj_ok v path depth n : _walk_json v path depth = Ok n → pyobj_ok v = true.
Proof.
  revert path depth n. induction v as [| | |s| | | |v IH|v IH|l IH|l IH|] using pyobj_nested_ind;
    intros path depth n H; try done.
  - cbn in H. destruct (_MAX_DEPTH <? depth); [done|]. inv_ok. by eapply utf8_len_ok.
  - cbn in H. by destruct (_MAX_DEPTH <? depth).
  - cbn in H. by destruct (_MAX_DEPTH <? depth).
  - cbn in H. by destruct (_MAX_DEPTH <? depth).
  - rewrite walk_dict in H. destruct (_MAX_DEPTH <? depth); [done|]. cbn [pyobj_ok].
    revert H. generalize 2. induction IH as [|[k v] l Hv _ IHl]; intros total H; [done|].
    cbn [walk_items] in H. destruct k; try done. inv_ok. cbn [forallb fst snd pyobj_ok] in *.
    rewrite (utf8_len_ok s r), (Hv _ _ _ Hr2) by done. by eapply IHl.
  - rewrite walk_list in H. destruct (_MAX_DEPTH <? depth); [done|]. cbn [pyobj_ok].
    revert H. generalize 2. generalize 0. induction IH as [|v l Hv _ IHl]; intros index total H; [done|].
    cbn [walk_elements] in H. inv_ok. cbn [forallb]. rewrite (Hv _ _ _ Hr). by eapply IHl.
Qed.

(** No prohibited key at any depth. *)
Fixpoint private (v : pyobj) : bool :=
  match v with
  | PyDict items =>
      forallb (λ kv, match kv.1 with PyStr k => negb (_sensitive_key k) | _ => false end && private kv.2) items
  | PyList l => forallb private l
  | _ => true
  end.

Lemma walk_private v path depth n : _walk_json v path depth = Ok n → private v = true.
Proof.
  revert path depth n. induction v as [| | |s| | | |v IH|v IH|l IH|l IH|] using pyobj_nested_ind;
    intros path depth n H; try done.
  - rewrite walk_dict in H. destruct (_MAX_DEPTH <? depth); [done|]. cbn [private].
    revert H. generalize 2. induction IH as [|[k v] l Hv _ IHl]; intros total H; [done|].
    cbn [walk_items] in H. destruct k; try done. inv_ok. cbn [forallb fst snd] in *.
    rewrite Hr1, (Hv _ _ _ Hr2). by eapply IHl.
  - rewrite walk_list in H. destruct (_MAX_DEPTH <? depth); [done|]. cbn [private].
    revert H. generalize 2. generalize 0. induction IH as [|v l Hv _ IHl]; intros index total H; [done|].
    cbn [walk_elements] in H. inv_ok. cbn [forallb]. rewrite (Hv _ _ _ Hr). by eapply IHl.
Qed.

(** * What a coerced payload is *)

(** The bytes a payload stands for. *)
Definition payload_bytes (payload : command_payload_arg) : result bytes :=
  match payload with
  | MappingPayload items => canonical_json_bytes (PyDict items)
  | TextPayload text => utf8_encode text
  | BytesPayload raw => Ok raw
  end.

Section coerce.
Context (nesting_limit : nat).

Lemma read_raw_Ok raw d : read_raw nesting_limit raw = Ok d → bounded_bytes (JDict d) = Ok raw.
Proof.
  unfold read_raw. intros H. inv_ok. destruct (utf8_decode raw); [|done]. inv_ok. bools. subst.
  apply dec_stable in Hr3. by subst.
Qed.

(** The dictionary the decoder goes on with has the bytes of the payload. *)
Lemma coerce_bytes payload d :
  _coerce_payload nesting_limit payload = Ok d →
  ∃ bs, payload_bytes payload = Ok bs ∧ canonical_json_bytes (pyobj_of_json (JDict d)) = Ok bs.
Proof.
  destruct payload as [items|text|raw]; cbn [_coerce_payload payload_bytes]; intros H.
  - inv_ok. apply walk_pyobj_ok in Hr. apply bounded_canonical_Ok in Hr0 as (Hc & _ & _).
    exists r0. split; [done|]. unfold canonical_json_bytes in Hc. inv_ok.
    destruct (canonical_json_loads _ _ Hr Hr0) as (j & Hj & Hjs).
    rewrite (utf8_roundtrip r1) in H by done. cbn in H. rewrite Hj in H. destruct j; try done. injection H as <-.
    unfold canonical_json_bytes. by rewrite Hjs.
  - inv_ok. unfold rewrap in Hr. destruct (utf8_encode text); [|done]. simplify_eq.
    apply read_raw_Ok, bounded_canonical_Ok in H as [H _]. eauto.
  - apply read_raw_Ok, bounded_canonical_Ok in H as [H _]. eauto.
Qed.

Lemma coerce_jsonb d bs :
  json_ok (JDict d) → bounded_bytes (JDict d) = Ok bs →
  ∃ d', sort_keys (JDict d) = JDict d' ∧ _coerce_payload nesting_limit (jsonb d) = Ok d'.
Proof.
  intros Hj Hb. eexists. split; [reflexivity|]. unfold jsonb. cbn [_coerce_payload].
  change (PyDict (map _ d)) with (pyobj_of_json (JDict d)). change (_bounded_canonical_bytes _) with (bounded_bytes (JDict d)).
  rewrite Hb. apply bounded_bytes_Ok in Hb as (Hw & He & _); [|done].
  rewrite (walk_true (JDict d)), !bind_Ok_l by done. rewrite (utf8_roundtrip (dumps (JDict d))), bind_Some_l by done.
  by rewrite loads_dumps.
Qed.
End coerce.

(** * Reading dictionaries in key order *)
Definition sorted_dict (d : list (pystr * json)) : list (pystr * json) :=
  sort_items (map (λ kv, (kv.1, sort_keys kv.2)) d).

Lemma sorted_dict_keys d : (sorted_dict d).*1 ≡ₚ d.*1.
Proof. unfold sorted_dict. rewrite sort_items_Permutation. by rewrite <- list_fmap_compose. Qed.

Lemma item_of_Ok d k v : item_of d k = Ok v ↔ dict_get (lit k) d = Some v.
Proof. unfold item_of. destruct (dict_get _ d); naive_solver. Qed.

Lemma item_of_sorted d k v :
  NoDup d.*1 → item_of d k = Ok v → item_of (sorted_dict d) k = Ok (sort_keys v).
Proof.
  intros Hnd. rewrite !item_of_Ok. rewrite !dict_get_iff by (try done; by rewrite sorted_dict_keys).
  intros Hin. unfold sorted_dict. rewrite sort_items_Permutation.
  by apply (list_elem_of_fmap_2 (λ kv : pystr * json, (kv.1, sort_keys kv.2))) in Hin.
Qed.

Lemma filter_none_of {A} (P : A → Prop) `{!∀ x, Decision (P x)} l :
  (∀ x, x ∈ l → ¬ P x) → filter P l = [].
Proof.
  induction l as [|x l IH]; intros Hnone; [done|]. rewrite filter_cons_False by (apply Hnone; left).
  apply IH. intros y Hy. apply Hnone. by right.
Qed.

Lemma exact_object_keys d fields path :
  d.*1 ≡ₚ map lit fields → _exact_object (JDict d) fields path = Ok d.
Proof.
  intros HP. unfold _exact_object. rewrite !filter_none_of; [done| |].
  - intros x Hx Hn. apply Hn. by rewrite <- HP.
  - intros x Hx Hn. apply Hn. by rewrite HP.
Qed.

Lemma exact_object_Ok j fields path d :
  _exact_object j fields path = Ok d → j = JDict d ∧ ∀ k, k ∈ d.*1 ↔ k ∈ map lit fields.
Proof.
  unfold _exact_object. destruct j; try done. intros H. inv_ok. subst. split; [done|].
  apply bool_decide_false_1, dec_stable, app_eq_nil in Hr as [H1 H2].
  destruct (bool_decide (sorted_strings _ = [])) eqn:Eu in H2; [|done]. destruct (bool_decide (filter _ _ = [])) eqn:Em in H1; [|done]. bools.
  assert (filter (λ k, k ∉ map lit fields) d.*1 = []) as Eu'.
  { apply (f_equal length) in Eu. unfold sorted_strings in Eu.
    rewrite length_fmap, sort_items_Permutation, length_map in Eu. by apply nil_length_inv. }
  intros k. split; intros Hk; apply dec_stable; intros Hn.
  - apply (not_elem_of_nil k). rewrite <- Eu'. by apply list_elem_of_filter.
  - apply (not_elem_of_nil k). rewrite <- Em. by apply list_elem_of_filter.
Qed.

(** Reading the fields of a literal dictionary. *)
Lemma lit_inj k k' : lit k = lit k' → k = k'.
Proof.
  revert k'. induction k as [|a k IH]; intros [|a' k'] H; try done. injection H as Ha Hk.
  f_equal; [|by apply IH].
  rewrite <- (Ascii.ascii_N_embedding a), <- (Ascii.ascii_N_embedding a'). f_equal. lia.
Qed.

Lemma item_cons k v d key :
  item_of ((lit k, v) :: d) key = if String.eqb key k then Ok v else item_of d key.
Proof.
  unfold item_of. cbn [dict_get]. destruct (String.eqb_spec key k) as [->|Hne]; [by rewrite decide_True|].
  rewrite decide_False; [done|]. intros E. by apply lit_inj in E.
Qed.

(** A decidable goal without variables. *)
Ltac decide_closed := apply (bool_decide_true_1 _); vm_compute; reflexivity.

Ltac solve_item :=
  lazymatch goal with |- item_of ?d ?k = ?r => let d' := eval hnf in d in change (item_of d' k = r) end;
  repeat (rewrite item_cons; lazymatch goal with |- context [String.eqb ?a ?b] =>
    let v := eval vm_compute in (String.eqb a b) in change (String.eqb a b) with v end; cbv iota);
  reflexivity.

(** * The envelope *)

Lemma filter_sorted (P : pystr * json → Prop) `{!∀ x, Decision (P x)} d :
  sorted_items d → sorted_items (filter P d).
Proof.
  induction d as [|kv d IH]; [done|]. intros [Hkv Hs]. cbn [filter list_filter].
  destruct (decide (P kv)); [|by apply IH]. split; [|by apply IH].
  apply Forall_forall. intros x [_ Hx]%list_elem_of_filter. by apply (proj1 (Forall_forall _ _) Hkv).
Qed.

Lemma filter_keys_NoDup {A} (P : pystr * A → Prop) `{!∀ x, Decision (P x)} d :
  NoDup d.*1 → NoDup (filter P d).*1.
Proof.
  induction d as [|kv d IH]; [done|]. intros [Hk Hnd]%NoDup_cons. destruct (decide (P kv)).
  - rewrite filter_cons_True by done. constructor; [|by apply IH]. contradict Hk.
    apply list_elem_of_fmap in Hk as (x & E & [_ Hx]%list_elem_of_filter). rewrite E. by apply list_elem_of_fmap_2.
  - rewrite filter_cons_False by done. by apply IH.
Qed.

Lemma without_sorted k d :
  NoDup d.*1 → without k (sorted_dict d) = sorted_dict (without k d).
Proof.
  intros Hnd. unfold without, sorted_dict.
  assert (NoDup (map (λ kv : pystr * json, (kv.1, sort_keys kv.2)) d).*1) as Hnd'.
  { change (map ?f d) with (f <$> d). by rewrite <- list_fmap_compose. }
  apply sorted_items_eq.
  - apply filter_sorted. by apply sort_items_sorted.
  - apply sort_items_sorted. change (map ?f ?d) with (f <$> d). rewrite <- list_fmap_compose.
    by apply (filter_keys_NoDup (λ kv, kv.1 ≠ k)).
  - rewrite !sort_items_Permutation. change (map ?f ?d) with (f <$> d).
    induction d as [|kv d IH]; [done|]. cbn in Hnd, Hnd'. apply NoDup_cons in Hnd as [_ Hnd], Hnd' as [_ Hnd'].
    rewrite fmap_cons. destruct (decide (kv.1 ≠ k)).
    + rewrite !filter_cons_True by done. rewrite fmap_cons. constructor. by apply IH.
    + rewrite !filter_cons_False by done. by apply IH.
Qed.

Lemma without_fresh k d v : k ∉ d.*1 → without k (d ++ [(k, v)]) = d.
Proof.
  intros Hk. unfold without. rewrite filter_app, filter_cons_False, filter_nil, app_nil_r by (cbn; tauto).
  induction d as [|kv d IH]; [done|]. cbn in Hk. apply not_elem_of_cons in Hk as [Hne Hk].
  rewrite filter_cons_True by congruence. f_equal. by apply IH.
Qed.

(** The fields of an unsigned envelope. *)
Definition _UNSIGNED_FIELDS : list string :=
  ["bindings"; "command"; "command_type"; "schema"; "version"]%string.

Record unsigned_envelope (kind : command_kind) (u : list (pystr * json)) : Prop := {
  unsigned_ok : json_ok (JDict u);
  unsigned_keys : u.*1 = map lit _UNSIGNED_FIELDS;
  unsigned_type : item_of u "command_type" = Ok (JStr (kind_type kind));
  unsigned_schema : item_of u "schema" = Ok (JStr (kind_schema kind));
  unsigned_version : item_of u "version" = Ok (JInt COMMAND_SCHEMA_VERSION)
}.

Lemma digest_str_ok s : is_digest s = true → str_ok s.
Proof.
  intros H%is_digest_ascii%ascii_str_Forall. eapply Forall_impl; [exact H|].
  cbn. unfold is_ascii, between. lia.
Qed.

Section envelope.
Context (kind : command_kind) (u env : list (pystr * json)).
Context (Hu : unsigned_envelope kind u) (Hs : signed u = Ok env).

Lemma signed_shape :
  ∃ bs, bounded_bytes (JDict u) = Ok bs
    ∧ env = u ++ [($"integrity", JDict [($"algorithm", JStr ($"sha256")); ($"digest", JStr (sha256_hex bs))])]
    ∧ is_ok (bounded_bytes (JDict env)) = true.
Proof using Hs.
  unfold signed, _integrity_digest in Hs. inv_ok. subst. exists r1. by rewrite Hr0.
Qed.

Lemma signed_keys : env.*1 ≡ₚ map lit _ENVELOPE_FIELDS.
Proof using Hu Hs.
  destruct signed_shape as (bs & _ & -> & _). rewrite fmap_app, (unsigned_keys kind u Hu). cbn [map fmap list_fmap].
  unfold _ENVELOPE_FIELDS. cbn [map fst app]. do 3 constructor. apply Permutation_sym.
  apply (Permutation_middle [_; _] []).
Qed.

Lemma signed_NoDup : NoDup env.*1.
Proof using Hu Hs. rewrite signed_keys. decide_closed. Qed.

Lemma signed_json_ok : json_ok (JDict env).
Proof using Hu Hs.
  pose proof signed_NoDup as Hnd. destruct signed_shape as (bs & _ & He & _).
  apply json_ok_dict. split; [done|]. rewrite He. apply Forall_app. split.
  - by apply json_ok_dict, Hu.
  - apply Forall_singleton. cbn. split; [apply lit_ok|]. apply json_ok_dict. split.
    + decide_closed.
    + apply Forall_cons. split; [split; [apply lit_ok|apply json_ok_str, lit_ok]|].
      apply Forall_singleton. split; [apply lit_ok|]. apply json_ok_str, digest_str_ok, is_digest_sha256.
Qed.

Lemma item_app_l d d' k v : item_of d k = Ok v → item_of (d ++ d') k = Ok v.
Proof.
  rewrite !item_of_Ok. induction d as [|[k' v'] d IH]; cbn; [done|]. by case_decide.
Qed.

Lemma signed_item k v : item_of u k = Ok v → item_of (sorted_dict env) k = Ok (sort_keys v).
Proof using Hu Hs.
  intros Hk. apply item_of_sorted; [apply signed_NoDup|].
  destruct signed_shape as (bs & _ & -> & _). by apply item_app_l.
Qed.

(** The decoder accepts the envelope of a signed one up to its integrity
    digest, and goes on with it in key order. *)
Lemma open_signed nesting_limit :
  open_envelope nesting_limit kind (jsonb env) (kind_type kind) COMMAND_SCHEMA_VERSION = Ok (sorted_dict env).
Proof using Hu Hs.
  pose proof signed_json_ok as Hok. pose proof signed_NoDup as Hnd. pose proof signed_keys as Hkeys.
  destruct signed_shape as (bs & Hbs & He & (benv & Hbenv)%is_ok_true).
  unfold open_envelope. destruct (coerce_jsonb nesting_limit env benv) as (d' & Hd' & ->); [done..|].
  change (sort_keys (JDict env)) with (JDict (sorted_dict env)) in Hd'. injection Hd' as <-. rewrite bind_Ok_l.
  rewrite exact_object_keys, bind_Ok_l by (by rewrite sorted_dict_keys).
  rewrite (signed_item "schema" _ (unsigned_schema kind u Hu)),
    (signed_item "version" _ (unsigned_version kind u Hu)),
    (signed_item "command_type" _ (unsigned_type kind u Hu)).
  rewrite !bind_Ok_l. cbn [sort_keys]. rewrite !bool_decide_false by tauto. rewrite !raise_if_false, !bind_Ok_l.
  assert (item_of (sorted_dict env) "integrity"
    = Ok (JDict (sorted_dict [($"algorithm", JStr ($"sha256")); ($"digest", JStr (sha256_hex bs))]))) as ->.
  { rewrite (item_of_sorted _ "integrity" (JDict [($"algorithm", JStr ($"sha256")); ($"digest", JStr (sha256_hex bs))]));
      [done|done|].
    apply item_of_Ok, dict_get_iff; [done|]. rewrite He. apply elem_of_app. right. by apply list_elem_of_singleton. }
  rewrite bind_Ok_l.
  assert (NoDup ([($"algorithm", JStr ($"sha256")); ($"digest", JStr (sha256_hex bs))].*1)) as Hi
    by decide_closed.
  rewrite exact_object_keys, bind_Ok_l by (by rewrite sorted_dict_keys).
  rewrite (item_of_sorted _ "algorithm" (JStr ($"sha256"))), (item_of_sorted _ "digest" (JStr (sha256_hex bs)))
    by (done || solve_item).
  rewrite !bind_Ok_l. cbn [sort_keys]. rewrite bool_decide_false by tauto. rewrite raise_if_false, bind_Ok_l.
  unfold _digest. cbn [_text]. rewrite bind_Ok_l, is_digest_sha256. cbn [negb raise_if]. rewrite !bind_Ok_l.
  rewrite without_sorted by done. rewrite He, without_fresh.
  - unfold _integrity_digest. change (JDict (sorted_dict u)) with (sort_keys (JDict u)).
    rewrite (proj2 (bounded_bytes_sort (JDict u) bs (unsigned_ok kind u Hu)) Hbs), !bind_Ok_l.
    by rewrite bool_decide_false by tauto.
  - rewrite (unsigned_keys kind u Hu). decide_closed.
Qed.

(** Sorted or not, the envelope has the same bytes. *)
Lemma signed_bytes : ∃ bs, bounded_bytes (JDict env) = Ok bs ∧ bounded_bytes (JDict (sorted_dict env)) = Ok bs.
Proof using Hu Hs.
  destruct signed_shape as (_ & _ & _ & (bs & Hbs)%is_ok_true). exists bs. split; [done|].
  apply (bounded_bytes_sort (JDict env)); [|done]. apply signed_json_ok.
Qed.
End envelope.

(** * A proposal is read back from its primitive *)

Lemma py_norm_sort j : json_nodup j → py_norm (sort_keys j) = py_norm j.
Proof.
  induction j as [| | | | |l IH|d IH] using json_nested_ind; [done..| |]; inversion 1; subst.
  - cbn [sort_keys py_norm]. rewrite map_map. f_equal. apply map_ext_in. intros j Hj%list_elem_of_In.
    rewrite Forall_forall in *. auto.
  - cbn [sort_keys py_norm]. f_equal. apply sort_items_Permutation_eq.
    + change (map ?f ?x) with (f <$> x). rewrite <- list_fmap_compose.
      change (NoDup (sorted_dict d).*1). by rewrite sorted_dict_keys.
    + erewrite Permutation_map by apply sort_items_Permutation. rewrite map_map. apply reflexive_eq.
      apply map_ext_in. intros kv Hkv%list_elem_of_In. cbn. rewrite Forall_forall in *. by rewrite IH by auto.
Qed.

Lemma differs_Ok prim j item r :
  prim = Ok j → to_canonical_primitive j = Ok r → py_norm r = py_norm (JDict item) →
  differs prim item = Ok false.
Proof. unfold differs, py_eqb. intros -> Hr E. rewrite bind_Ok_l, Hr, bind_Ok_l. by rewrite bool_decide_true. Qed.

(** The JSON of literal primitives. *)
Lemma literal_canonical items d :
  literal_keys items = true → Forall2 canonical_item items d →
  to_canonical_primitive (PyDict items) = Ok (JDict d).
Proof.
  intros Hk HF. rewrite to_canonical_dict.
  assert (canonical_items items [] = Ok d) as ->; [|done].
  apply canonical_items_spec; [by apply literal_keys_NoDup|]. by exists d.
Qed.

Definition opt_json {A} (f : A → json) (o : option A) : json :=
  match o with None => JNull | Some a => f a end.

Definition money_json (m : Money) : json :=
  JDict [($"currency", JStr (currency m)); ($"minor_units", JInt (minor_units m))].

Definition proposal_json (p : ActionProposal) (key : pystr) : list (pystr * json) :=
  [($"action_key", JStr key);
   ($"action_type", JStr (action_type_value (action_type p)));
   ($"amount", opt_json money_json (amount p));
   ($"attempt_ordinal", JInt (attempt_ordinal p));
   ($"case_id", JStr (proposal_case_id p));
   ($"created_at", JStr (strftime_utc (wall (created_at p))));
   ($"decision_version", JInt (proposal_decision_version p));
   ($"expected_value_minor", opt_json JInt (expected_value_minor p));
   ($"expires_at", JStr (strftime_utc (wall (expires_at p))));
   ($"instrument_reference", opt_json JStr (instrument_reference p));
   ($"merchant_id", JStr (proposal_merchant_id p));
   ($"model_confidence", opt_json (λ c, JStr (probability_text c)) (model_confidence p));
   ($"payment_method", opt_json JStr (payment_method p));
   ($"proposal_id", JStr (proposal_id p));
   ($"requires_approval", JBool (requires_approval p))].

Lemma opt_canonical {A} (f : A → pyobj) (g : A → json) o :
  (∀ a, o = Some a → to_canonical_primitive (f a) = Ok (g a)) →
  to_canonical_primitive (opt_prim f o) = Ok (opt_json g o).
Proof. destruct o; cbn; auto. Qed.

Lemma money_canonical m : to_canonical_primitive (Money_to_primitive m) = Ok (money_json m).
Proof. apply literal_canonical; [vm_compute; reflexivity|]. repeat constructor. Qed.

Lemma probability_canonical c :
  to_canonical_primitive (Probability_to_primitive c) = Ok (JStr (probability_text c)).
Proof. unfold probability_text, Probability_to_primitive. by destruct (prob_value c). Qed.

Lemma proposal_canonical p key :
  action_key p = Ok key → stored (created_at p) = true → stored (expires_at p) = true →
  ∃ prim, ActionProposal_to_primitive p = Ok prim
          ∧ to_canonical_primitive prim = Ok (JDict (proposal_json p key)).
Proof.
  intros Hk Hc He. unfold ActionProposal_to_primitive. rewrite Hk, !stored_timestamp, !bind_Ok_l by done.
  eexists. split; [reflexivity|]. apply literal_canonical; [vm_compute; reflexivity|].
  repeat (apply Forall2_cons; split); try apply Forall2_nil; try (split; reflexivity);
    (split; [reflexivity|]); apply opt_canonical; intros; first [apply money_canonical|apply probability_canonical|done].
Qed.

Lemma find_unique {A} (f : A → pystr) l a :
  a ∈ l → (∀ b, f b = f a → b = a) → List.find (λ b, bool_decide (f b = f a)) l = Some a.
Proof.
  intros Hin Hinj. induction l as [|b l IH]; [by apply not_elem_of_nil in Hin|]. cbn.
  case_bool_decide as E; [by rewrite (Hinj b E)|]. apply IH. apply elem_of_cons in Hin as [->|]; done.
Qed.

Lemma enum_of_member {A} (f : A → pystr) l a :
  a ∈ l → (∀ b, f b = f a → b = a) → enum_of f l (f a) = Ok a.
Proof. intros Hin Hinj. unfold enum_of. by rewrite find_unique. Qed.

Lemma enum_of_Ok {A} (f : A → pystr) l v a : enum_of f l v = Ok a → f a = v.
Proof.
  unfold enum_of. destruct (List.find _ l) as [b|] eqn:E; [|done]. intros [= ->].
  apply List.find_some in E as [_ E]. by apply bool_decide_true_1 in E.
Qed.

Lemma action_type_read a : enum_of action_type_value all_action_types (action_type_value a) = Ok a.
Proof.
  apply enum_of_member; [|intros b; apply action_type_value_inj].
  destruct a; decide_closed.
Qed.

(** Integers within the 64-bit boundary. *)
Definition in_64 (z : Z) : Prop := outside_64 z = false.

Lemma integer_read z path minimum :
  in_64 z → match minimum with Some m => m <= z | None => True end →
  _integer (JInt z) path minimum = Ok z.
Proof.
  unfold in_64. intros H Hm. unfold _integer. rewrite H. destruct minimum as [m|]; [|done].
  by rewrite (proj2 (Z.ltb_ge _ _) Hm).
Qed.

Lemma timestamp_read d path : stored d = true → _timestamp (JStr (strftime_utc (wall d))) path = Ok d.
Proof.
  unfold stored, _timestamp. intros H. bools. cbn [_text]. rewrite bind_Ok_l.
  unfold parse_canonical_timestamp. rewrite strptime_strftime by done. cbn [rewrap].
  apply is_utc_eq in H. rewrite H at 2. done.
Qed.

(** A probability that is what its own rendering reads as; the others of the
    same value are read back in this form. *)
Definition canonical_probability (c : Probability) : Prop :=
  Probability_init (FromStr (probability_text c)) = Ok c.

Lemma probability_read c path :
  canonical_probability c → _probability (JStr (probability_text c)) path = Ok (Some c).
Proof.
  unfold canonical_probability, _probability. intros H. cbn [_text]. rewrite bind_Ok_l, H. cbn [rewrap].
  rewrite bind_Ok_l. by rewrite bool_decide_false by tauto.
Qed.

Lemma money_read m path :
  Money_valid m = true → in_64 (minor_units m) → _money (sort_keys (money_json m)) path = Ok m.
Proof.
  intros Hm Hr. unfold money_json. change (sort_keys (JDict ?d)) with (JDict (sorted_dict d)).
  set (d := [_; _]). assert (NoDup d.*1) as Hnd by decide_closed.
  unfold _money. rewrite exact_object_keys, bind_Ok_l by (by rewrite sorted_dict_keys).
  rewrite (item_of_sorted d "minor_units" (JInt (minor_units m))), (item_of_sorted d "currency" (JStr (currency m)))
    by (done || solve_item).
  rewrite !bind_Ok_l. cbn [sort_keys]. rewrite integer_read, !bind_Ok_l; [|done|].
  - cbn [_text]. rewrite bind_Ok_l. by rewrite (proj2 (Money_init_Ok _ _ m)) by (by destruct m).
  - unfold Money_valid in Hm. bools. done.
Qed.

Lemma opt_text_read o path : _optional_text (sort_keys (opt_json JStr o)) path = Ok o.
Proof. by destruct o. Qed.

Lemma opt_integer_read o path :
  (∀ z, o = Some z → in_64 z) → _optional_integer (sort_keys (opt_json JInt o)) path = Ok o.
Proof. destruct o as [z|]; [|done]. intros H. cbn. by rewrite (H z). Qed.

(** Replace the lookup at the head of the goal by the value [Hi] gives. *)
Ltac read_item Hi :=
  lazymatch goal with |- item_of _ ?k ≫= _ = _ => erewrite (Hi k) by solve_item end;
  rewrite bind_Ok_l; cbn [sort_keys].

Lemma items_sorted d :
  bool_decide (NoDup d.*1) = true → ∀ k v, item_of d k = Ok v → item_of (sorted_dict d) k = Ok (sort_keys v).
Proof. intros Hnd%bool_decide_true_1 k v. by apply item_of_sorted. Qed.

Record proposal_in_range (p : ActionProposal) : Prop := {
  range_version : in_64 (proposal_decision_version p);
  range_ordinal : in_64 (attempt_ordinal p);
  range_amount : ∀ m, amount p = Some m → in_64 (minor_units m);
  range_value : ∀ z, expected_value_minor p = Some z → in_64 z
}.

Lemma read_proposal_back p key :
  ActionProposal_valid p → proposal_in_range p →
  (∀ c, model_confidence p = Some c → canonical_probability c) →
  read_proposal (sorted_dict (proposal_json p key)) (action_type_value (action_type p)) (amount p) = Ok p.
Proof.
  intros Hp [Hv Ho _ Hz] Hc. pose proof (valid_facts p Hp) as Hf.
  pose proof (items_sorted (proposal_json p key) ltac:(vm_compute; reflexivity)) as Hi.
  unfold read_proposal. cbv zeta. rewrite action_type_read, bind_Ok_l.
  assert (∀ path, _probability (sort_keys (opt_json (λ c, JStr (probability_text c)) (model_confidence p))) path
    = Ok (model_confidence p)) as Hprob.
  { intros path. destruct (model_confidence p) as [c|]; [|done]. by apply probability_read, Hc. }
  repeat (read_item Hi;
    first [rewrite opt_text_read | rewrite opt_integer_read by done | rewrite Hprob
          | rewrite timestamp_read by apply Hp
          | rewrite integer_read by (done || apply Hf)
          | idtac]; cbn [_text _boolean]; rewrite bind_Ok_l).
  destruct Hp as [Hinit _ _ _ _]. by destruct p.
Qed.

Lemma amount_read p :
  (∀ m, amount p = Some m → Money_valid m = true ∧ in_64 (minor_units m)) →
  read_amount (sort_keys (opt_json money_json (amount p))) = Ok (amount p).
Proof.
  destruct (amount p) as [m|]; [|done]. intros Hm. destruct (Hm m eq_refl) as [? ?]. cbn [opt_json].
  pose proof (money_read m "$.command.proposal.amount") as Hread. unfold money_json in *. cbn [sort_keys] in *.
  cbn [read_amount]. by rewrite Hread.
Qed.

Lemma proposal_json_ok p key :
  ActionProposal_valid p → action_key p = Ok key → json_ok (JDict (proposal_json p key)).
Proof.
  intros Hp Hk. destruct (ActionProposal_primitive p Hp) as (prim & Hprim & He).
  destruct (proposal_canonical p key Hk) as (prim' & Hprim' & Hc); [apply Hp..|].
  rewrite Hprim in Hprim'. injection Hprim' as <-. eapply to_canonical_ok; [|exact Hc]. by apply evidence_ok.
Qed.

Lemma proposal_read_back p key :
  ActionProposal_valid p → proposal_in_range p →
  (∀ c, model_confidence p = Some c → canonical_probability c) →
  action_key p = Ok key →
  _proposal (sort_keys (JDict (proposal_json p key))) = Ok p.
Proof.
  intros Hp Hr Hc Hk. pose proof (items_sorted (proposal_json p key) ltac:(vm_compute; reflexivity)) as Hi.
  change (sort_keys (JDict ?d)) with (JDict (sorted_dict d)). unfold _proposal.
  rewrite exact_object_keys, bind_Ok_l by (by rewrite sorted_dict_keys).
  read_item Hi. rewrite amount_read, bind_Ok_l.
  2: { intros m Hm. split; [by apply Hp|by apply Hr]. }
  read_item Hi. cbn [_text]. rewrite bind_Ok_l. rewrite read_proposal_back by done. cbn [rewrap_foreign].
  rewrite bind_Ok_l. destruct (proposal_canonical p key Hk) as (prim & Hprim & Hcan); [apply Hp..|].
  erewrite differs_Ok; [done|exact Hprim|exact Hcan|].
  symmetry. apply (py_norm_sort (JDict (proposal_json p key))). by apply json_ok_nodup, proposal_json_ok.
Qed.

(** * A plan is read back from its primitive *)

Definition plan_json (d : GateDecision) : list (pystr * json) :=
  [($"action_key", JStr (decision_action_key d));
   ($"aggregate_version", JInt (decision_aggregate_version d));
   ($"allowed", JBool (allowed d));
   ($"case_id", JStr (decision_case_id d));
   ($"decision_version", JInt (decision_version d));
   ($"evaluated_at", JStr (strftime_utc (wall (decision_evaluated_at d))));
   ($"policy_version", JStr (decision_policy_version d));
   ($"proposal_digest", JStr (decision_proposal_digest d));
   ($"proposal_id", JStr (decision_proposal_id d));
   ($"reasons", JList (map JStr (map reason_value (reasons d))));
   ($"stage", JStr (stage_value (stage d)))].

Lemma strings_canonical l : to_canonical_primitive (PyList (map PyStr l)) = Ok (JList (map JStr l)).
Proof.
  rewrite to_canonical_list. assert (canonical_list (map PyStr l) = Ok (map JStr l)) as ->; [|done].
  induction l as [|s l IH]; [done|]. cbn. by rewrite IH.
Qed.

Lemma plan_canonical d :
  stored (decision_evaluated_at d) = true →
  ∃ prim, GateDecision_to_primitive d = Ok prim ∧ to_canonical_primitive prim = Ok (JDict (plan_json d)).
Proof.
  intros Hd. unfold GateDecision_to_primitive. rewrite stored_timestamp, bind_Ok_l by done.
  eexists. split; [reflexivity|]. apply literal_canonical; [vm_compute; reflexivity|].
  repeat (apply Forall2_cons; split); try apply Forall2_nil; try (split; reflexivity).
  split; [reflexivity|]. apply strings_canonical.
Qed.

(** What the reader requires of a plan: the constructor of a decision checks
    nothing. *)
Record plan_readable (d : GateDecision) : Prop := {
  readable_policy : is_identifier (decision_policy_version d) = true;
  readable_id : is_identifier (decision_proposal_id d) = true;
  readable_case : is_identifier (decision_case_id d) = true;
  readable_key : str_ok (decision_action_key d);
  readable_digest : is_digest (decision_proposal_digest d) = true;
  readable_version : 1 <= decision_version d ∧ in_64 (decision_version d);
  readable_aggregate : 0 <= decision_aggregate_version d ∧ in_64 (decision_aggregate_version d);
  readable_evaluated : stored (decision_evaluated_at d) = true;
  readable_reasons : NoDup (reasons d)
}.

Lemma reason_value_inj a b : reason_value a = reason_value b → a = b.
Proof.
  assert (∀ r, List.find (λ b, bool_decide (reason_value b = reason_value r)) all_reasons = Some r) as Hf.
  { intros r. destruct r; vm_compute; reflexivity. }
  intros E. pose proof (Hf a) as Ha. rewrite E in Ha. rewrite (Hf b) in Ha. congruence.
Qed.

Lemma reason_read r : enum_of reason_value all_reasons (reason_value r) = Ok r.
Proof. apply enum_of_member; [destruct r; decide_closed|]. intros b. apply reason_value_inj. Qed.

Lemma reasons_read l : read_reasons (map sort_keys (map JStr (map reason_value l))) = Ok l.
Proof. induction l as [|r l IH]; [done|]. cbn. by rewrite reason_read, bind_Ok_l, IH. Qed.

Lemma stage_read s : enum_of stage_value all_stages (stage_value s) = Ok s.
Proof. by destruct s. Qed.

Lemma identifier_str_ok s : is_identifier s = true → str_ok s.
Proof.
  intros H%identifier_ascii%ascii_str_Forall. eapply Forall_impl; [exact H|].
  cbn. unfold is_ascii, between. lia.
Qed.

Lemma plan_json_ok d : plan_readable d → json_ok (JDict (plan_json d)).
Proof.
  intros [Hp Hi Hc Hk Hd _ _ _ _]. apply json_ok_dict. split; [decide_closed|].
  assert (∀ r, str_ok (reason_value r)) as Hr by (intros []; apply lit_ok).
  repeat (apply Forall_cons_2; [split; [apply lit_ok|cbn [snd]]|]); try apply Forall_nil_2;
    lazymatch goal with
    | |- json_ok (JStr _) => apply json_ok_str
    | |- json_ok (JList _) => apply json_ok_list
    | _ => constructor
    end; eauto using identifier_str_ok, digest_str_ok, strftime_ok.
  - induction (reasons d) as [|r l IH]; constructor; [by constructor|done].
  - destruct (stage d); apply lit_ok.
Qed.

Lemma plan_read_back d :
  plan_readable d → _prior_plan (sort_keys (JDict (plan_json d))) = Ok d.
Proof.
  intros Hd. pose proof (items_sorted (plan_json d) ltac:(vm_compute; reflexivity)) as Hi.
  change (sort_keys (JDict ?x)) with (JDict (sorted_dict x)). unfold _prior_plan.
  rewrite exact_object_keys, bind_Ok_l by (by rewrite sorted_dict_keys).
  read_item Hi. rewrite bind_Ok_l. read_item Hi. cbn [_boolean]. rewrite bind_Ok_l.
  assert (read_plan (sorted_dict (plan_json d)) (map sort_keys (map JStr (map reason_value (reasons d)))) = Ok d) as ->.
  { destruct Hd as [Hp Hid Hc _ Hdig Hv Ha He Hr]. unfold read_plan. cbv zeta. rewrite reasons_read, bind_Ok_l.
    rewrite bool_decide_false by tauto. rewrite raise_if_false, bind_Ok_l.
    repeat (read_item Hi; first [rewrite timestamp_read by done | rewrite integer_read by tauto
      | unfold _digest; cbn [_text]; rewrite bind_Ok_l, Hdig; cbn [negb raise_if]; rewrite bind_Ok_l | cbn [_text]];
      rewrite bind_Ok_l; try rewrite stage_read, bind_Ok_l).
    rewrite !require_identifier_true by done. by destruct d. }
  cbn [rewrap_foreign]. rewrite bind_Ok_l. rewrite bool_decide_false by tauto.
  destruct (plan_canonical d) as (prim & Hprim & Hcan); [apply Hd|].
  erewrite differs_Ok; [done|exact Hprim|exact Hcan|].
  symmetry. apply (py_norm_sort (JDict (plan_json d))). by apply json_ok_nodup, plan_json_ok.
Qed.

(** * Bindings and bounds *)

Lemma walkable_item depth d k v :
  walkable depth (JDict d) = true → item_of d k = Ok v → walkable (depth + 1) v = true.
Proof.
  cbn [walkable]. intros H Hk. bools. apply item_of_Ok, dict_get_elem, list_elem_of_In in Hk.
  match goal with E : forallb _ d = true |- _ => rewrite forallb_forall in E; specialize (E _ Hk) end.
  cbn in *. by bools.
Qed.

Lemma walkable_int depth z : walkable depth (JInt z) = true → in_64 z.
Proof. cbn. intros H. by bools. Qed.

Lemma proposal_walkable depth p key :
  walkable depth (JDict (proposal_json p key)) = true → proposal_in_range p.
Proof.
  intros H.
  assert (Hi : ∀ k v, item_of (proposal_json p key) k = Ok v → walkable (depth + 1) v = true)
    by (intros; by eapply walkable_item).
  split.
  - eapply walkable_int, (Hi "decision_version"). solve_item.
  - eapply walkable_int, (Hi "attempt_ordinal"). solve_item.
  - intros m Hm. assert (Ha : walkable (depth + 1) (opt_json money_json (amount p)) = true)
      by (eapply (Hi "amount"); solve_item).
    rewrite Hm in Ha. eapply walkable_int, walkable_item; [exact Ha|]. instantiate (1 := "minor_units"%string). solve_item.
  - intros z Hz. assert (Ha : walkable (depth + 1) (opt_json JInt (expected_value_minor p)) = true)
      by (eapply (Hi "expected_value_minor"); solve_item).
    rewrite Hz in Ha. by eapply walkable_int.
Qed.

Definition bindings_json (expected : list (string * pystr)) : list (pystr * json) :=
  map (λ '(field, value), (lit field, JStr value)) expected.

(** Bindings as the encoder writes them: every one but the action key is a
    digest. *)
Definition bindings_ok (expected : list (string * pystr)) : bool :=
  forallb (λ '(field, value), ascii_str value && (String.eqb field "action_key" || is_digest value)) expected.

Lemma bindings_keys expected : (bindings_json expected).*1 = map lit expected.*1.
Proof. induction expected as [|[f v] l IH]; [done|]. cbn. by f_equal. Qed.

Lemma bindings_item expected field value :
  NoDup expected.*1 → (field, value) ∈ expected → item_of (bindings_json expected) field = Ok (JStr value).
Proof.
  induction expected as [|[f v] l IH]; [by intros _ ?%not_elem_of_nil|].
  intros [Hf Hnd]%NoDup_cons Hin. cbn [bindings_json map]. rewrite item_cons.
  apply elem_of_cons in Hin as [[= -> ->]|Hin]; [by rewrite String.eqb_refl|].
  destruct (String.eqb_spec field f) as [->|_]; [|by apply IH].
  destruct Hf. by apply (list_elem_of_fmap_2 fst) in Hin.
Qed.

Lemma bindings_json_ok expected :
  NoDup expected.*1 → bindings_ok expected = true → json_ok (JDict (bindings_json expected)).
Proof.
  intros Hnd Hok. apply json_ok_dict. split.
  - rewrite bindings_keys. apply NoDup_fmap_2; [|done]. intros k k'. apply lit_inj.
  - unfold bindings_ok in Hok. rewrite forallb_Forall in Hok. clear Hnd.
    induction Hok as [|[f v] l Hv _ IH]; constructor; [|done]. bools. split; [apply lit_ok|].
    apply json_ok_str. apply ascii_str_Forall in Hv. eapply Forall_impl; [exact Hv|].
    cbn. unfold is_ascii, between. lia.
Qed.

Section closing.
Context (kind : command_kind) (u env : list (pystr * json)).
Context (Hu : unsigned_envelope kind u) (Hs : signed u = Ok env).
Context (fields : list string) (expected : list (string * pystr)).
Context (Hfields : expected.*1 ≡ₚ fields) (Hnd : NoDup expected.*1) (Hok : bindings_ok expected = true).
Context (Hbind : item_of u "bindings" = Ok (JDict (bindings_json expected))).

Lemma supplied_item field value :
  (field, value) ∈ expected → item_of (sorted_dict (bindings_json expected)) field = Ok (JStr value).
Proof using Hnd.
  intros Hin. apply (item_of_sorted _ field (JStr value)); [|by apply bindings_item].
  rewrite bindings_keys. apply NoDup_fmap_2; [|done]. intros k k'. apply lit_inj.
Qed.

Lemma expected_ok field value :
  (field, value) ∈ expected → ascii_str value = true ∧ (field = "action_key"%string ∨ is_digest value = true).
Proof using Hok.
  intros Hin. unfold bindings_ok in Hok. rewrite forallb_Forall, Forall_forall in Hok. specialize (Hok _ Hin).
  cbn in Hok. bools. split; [done|]. by destruct (String.eqb_spec field "action_key") as [->|]; [left|right].
Qed.

Lemma check_digests_expected l :
  (∀ f, f ∈ l → f ≠ "action_key"%string ∧ f ∈ expected.*1) →
  check_digests (sorted_dict (bindings_json expected)) l = Ok tt.
Proof using Hnd Hok.
  induction l as [|f l IH]; intros Hl; [done|]. cbn [check_digests].
  destruct (Hl f ltac:(left)) as [Hf ([f' v] & E & Hin)%list_elem_of_fmap]. cbn in E. subst f'.
  rewrite (supplied_item f v) by done. rewrite bind_Ok_l. unfold _digest. cbn [_text]. rewrite bind_Ok_l.
  destruct (expected_ok f v Hin) as [_ [->| ->]]; [done|]. cbn. apply IH. intros g Hg. apply Hl. by right.
Qed.

Lemma compare_expected l :
  (∀ b, b ∈ l → b ∈ expected) → compare_bindings kind (sorted_dict (bindings_json expected)) l = Ok tt.
Proof using Hnd Hok.
  induction l as [|[f v] l IH]; intros Hl; [done|]. cbn [compare_bindings].
  assert (Hin : (f, v) ∈ expected) by (apply Hl; left).
  rewrite (supplied_item f v), bind_Ok_l by done. destruct (expected_ok f v Hin) as [-> _]. cbn [andb].
  rewrite bool_decide_false by tauto. cbn [raise_if]. rewrite bind_Ok_l. apply IH. intros b Hb. apply Hl. by right.
Qed.

Lemma close_signed :
  close_envelope kind fields (sorted_dict env) (Ok expected) (Ok env) = Ok tt.
Proof using Hu Hs Hfields Hnd Hok Hbind.
  unfold close_envelope. rewrite (signed_item kind u env Hu Hs "bindings" _ Hbind), bind_Ok_l.
  change (sort_keys (JDict ?d)) with (JDict (sorted_dict d)).
  rewrite exact_object_keys, bind_Ok_l.
  2: { rewrite sorted_dict_keys, bindings_keys. by apply Permutation_map. }
  rewrite check_digests_expected, !bind_Ok_l, compare_expected, !bind_Ok_l; [|done|].
  - destruct (signed_bytes kind u env Hu Hs) as (bs & Hb & ->). rewrite Hb, !bind_Ok_l.
    by rewrite bool_decide_false by tauto.
  - intros f [Hf Hin]%list_elem_of_filter. split; [done|]. by rewrite Hfields.
Qed.
End closing.

(** What the checks of the decoder say. *)
Lemma close_Ok kind fields envelope expected rebuilt :
  close_envelope kind fields envelope expected rebuilt = Ok tt →
  ∃ env bs, rebuilt = Ok env ∧ bounded_bytes (JDict envelope) = Ok bs ∧ bounded_bytes (JDict env) = Ok bs.
Proof.
  unfold close_envelope. intros H. inv_ok. apply bool_decide_false_1, dec_stable in H. subst. eauto.
Qed.

Lemma open_Ok nesting_limit kind payload type version envelope :
  open_envelope nesting_limit kind payload type version = Ok envelope →
  type = kind_type kind ∧ version = COMMAND_SCHEMA_VERSION
  ∧ _coerce_payload nesting_limit payload = Ok envelope.
Proof.
  unfold open_envelope. intros H. inv_ok. subst.
  repeat match goal with E : bool_decide (¬ _) = false |- _ => apply bool_decide_false_1, dec_stable in E end.
  subst. apply exact_object_Ok in Hr0 as [[= ->] _]. done.
Qed.

(** A payload that passes both has the bytes of the rebuilt envelope. *)
Lemma accepted_bytes nesting_limit kind payload type version envelope fields expected rebuilt :
  open_envelope nesting_limit kind payload type version = Ok envelope →
  close_envelope kind fields envelope expected rebuilt = Ok tt →
  ∃ env bs, rebuilt = Ok env ∧ payload_bytes payload = Ok bs ∧ bounded_bytes (JDict env) = Ok bs.
Proof.
  intros (_ & _ & Hc)%open_Ok (env & bs & Hr & Hb & Hb')%close_Ok.
  apply coerce_bytes in Hc as (bs' & Hp & Hj). apply bounded_canonical_Ok in Hb as [Hb _].
  assert (bs' = bs) as -> by congruence. eauto.
Qed.

Lemma rewrap_Ok {A} (m : result A) e a : rewrap m e = Ok a ↔ m = Ok a.
Proof. by destruct m. Qed.
Lemma rewrap_foreign_Ok {A} (m : result A) e a : rewrap_foreign m e = Ok a ↔ m = Ok a.
Proof. by destruct m. Qed.

(** Tests of a value against itself. *)
Ltac decide_same :=
  match goal with
  | |- context [bool_decide (?a = ?a)] => rewrite (bool_decide_true (a = a)) by done
  | |- context [bool_decide (?a ≠ ?a)] => rewrite (bool_decide_false (a ≠ a)) by tauto
  end.

(** * Failures a caller handles

    The workers run the decoders under
    [except (EffectCommandCodecError, TypeError, ValueError)]. *)
Definition handled {A} (m : result A) : Prop := ∀ e, m = Raise e → type_or_value_error e = true.

Section handled_lemmas.
Context {A B : Type}.

Lemma handled_Ok (a : A) : handled (Ok a).
Proof. by intros e. Qed.

Lemma handled_Raise e : type_or_value_error e = true → handled (Raise (A := A) e).
Proof. by intros H e' [= <-]. Qed.

Lemma handled_bind (m : result A) (f : A → result B) :
  handled m → (∀ a, m = Ok a → handled (f a)) → handled (m ≫= f).
Proof. destruct m as [a|e]; cbn; intros Hm Hf; [by apply Hf|]. intros e' [= <-]. by apply Hm. Qed.

Lemma handled_rewrap (m : result A) e : type_or_value_error e = true → handled m → handled (rewrap m e).
Proof. destruct m as [a|e']; cbn; intros He Hm; [done|]. intros e'' [= <-]. by rewrite (Hm e'). Qed.

Lemma handled_rewrap_foreign (m : result A) e :
  type_or_value_error e = true → handled m → handled (rewrap_foreign m e).
Proof.
  destruct m as [a|e']; cbn; intros He Hm; [done|]. intros e'' [= <-]. rewrite (Hm e') by done.
  destruct (codec_error e'); [by apply Hm|done].
Qed.
End handled_lemmas.

Lemma handled_raise_if b e : type_or_value_error e = true → handled (raise_if b e).
Proof. destruct b; cbn; intros; [by apply handled_Raise|apply handled_Ok]. Qed.

Create HintDb handled.
#[export] Hint Resolve handled_Ok handled_Raise handled_bind handled_rewrap handled_rewrap_foreign
  handled_raise_if : handled.
#[export] Hint Extern 1 (type_or_value_error _ = true) => reflexivity : handled.

(** Split a computation into its steps; what is not a guard or a return is left. *)
Ltac handle :=
  repeat lazymatch goal with
  | |- handled (_ ≫= _) => apply handled_bind; [|intros ? ?]
  | |- handled (raise_if _ _) => apply handled_raise_if; first [reflexivity|assumption]
  | |- handled (Ok _) => apply handled_Ok
  | |- handled (Raise _) => apply handled_Raise; first [reflexivity|assumption]
  | |- handled (rewrap _ _) => apply handled_rewrap; [reflexivity|]
  | |- handled (rewrap_foreign _ _) => apply handled_rewrap_foreign; [reflexivity|]
  | |- handled (match ?x with _ => _ end) => destruct x
  end; eauto 2 with handled.

Lemma handled_utf8 s : handled (utf8_encode s).
Proof.
  induction s as [|c s IH]; [handle|]. cbn. handle. unfold utf8_encode_char. handle.
Qed.

(** Values without timestamps: the conversion cannot overflow. *)
Fixpoint no_datetime (v : pyobj) : bool :=
  match v with
  | PyDatetime _ => false
  | PyEnum v | PyPrimitive v => no_datetime v
  | PyDict items => forallb (λ kv, no_datetime kv.2) items
  | PyList l => forallb no_datetime l
  | _ => true
  end.

Lemma handled_canonical v : no_datetime v = true → handled (to_canonical_primitive v).
Proof.
  induction v as [| | |s|t|d|d|v IH|v IH|l IH|l IH|] using pyobj_nested_ind; intros Hv; try done;
    try (cbn; handle; fail); try by apply IH.
  - cbn. handle. destruct d; cbn; handle.
  - rewrite to_canonical_dict. handle. cbn in Hv. generalize (@nil (pystr * json)).
    induction IH as [|[k v] l Hk _ IHl]; intros acc; cbn [canonical_items]; [handle|]. cbn in Hv. bools.
    specialize (Hk Hv). destruct k; handle.
  - rewrite to_canonical_list. handle. cbn in Hv.
    induction IH as [|v l Hk _ IHl]; cbn [canonical_list]; [handle|]. cbn in Hv. bools. specialize (Hk Hv). handle.
Qed.

Lemma handled_canonical_bytes v : no_datetime v = true → handled (canonical_json_bytes v).
Proof.
  intros Hv. unfold canonical_json_bytes, canonical_json. handle; [by apply handled_canonical|apply handled_utf8].
Qed.

Lemma handled_hexdigest v : no_datetime v = true → handled (sha256_hexdigest v).
Proof. intros Hv. with_strategy transparent [sha256_hexdigest] unfold sha256_hexdigest. handle. by apply handled_canonical_bytes. Qed.

#[export] Hint Resolve handled_utf8 handled_canonical handled_canonical_bytes handled_hexdigest : handled.

Lemma handled_walk v path depth : handled (_walk_json v path depth).
Proof.
  revert path depth. induction v as [| | |s|t|d|d|v IH|v IH|l IH|l IH|] using pyobj_nested_ind; intros path depth;
    try (cbn; unfold utf8_len; handle; fail).
  - rewrite walk_dict. handle. generalize 2. induction IH as [|[k v] l Hk _ IHl]; intros total; cbn [walk_items]; [handle|].
    destruct k; unfold utf8_len; handle.
  - rewrite walk_list. handle. generalize 2. generalize 0.
    induction IH as [|v l Hk _ IHl]; intros index total; cbn [walk_elements]; handle.
Qed.

Lemma walk_no_datetime v path depth n : _walk_json v path depth = Ok n → no_datetime v = true.
Proof.
  revert path depth n. induction v as [| | |s| | | |v IH|v IH|l IH|l IH|] using pyobj_nested_ind;
    intros path depth n H; try done; try (cbn in H; by destruct (_MAX_DEPTH <? depth)).
  - rewrite walk_dict in H. destruct (_MAX_DEPTH <? depth); [done|]. cbn [no_datetime].
    revert H. generalize 2. induction IH as [|[k v] l Hv _ IHl]; intros total H; [done|].
    cbn [walk_items] in H. destruct k; try done. inv_ok. cbn [forallb fst snd] in *.
    rewrite (Hv _ _ _ Hr2). by eapply IHl.
  - rewrite walk_list in H. destruct (_MAX_DEPTH <? depth); [done|]. cbn [no_datetime].
    revert H. generalize 2. generalize 0. induction IH as [|v l Hv _ IHl]; intros index total H; [done|].
    cbn [walk_elements] in H. inv_ok. cbn [forallb]. rewrite (Hv _ _ _ Hr). by eapply IHl.
Qed.

Lemma handled_bounded v : handled (_bounded_canonical_bytes v).
Proof.
  unfold _bounded_canonical_bytes. handle; [apply handled_walk|].
  apply handled_canonical_bytes. by eapply walk_no_datetime.
Qed.

#[export] Hint Resolve handled_walk handled_bounded : handled.

(** * What a decoded proposal and plan are *)

Lemma timestamp_Ok v path d : _timestamp v path = Ok d → stored d = true.
Proof.
  unfold _timestamp, parse_canonical_timestamp. intros H. apply bind_Ok in H as (s & _ & H).
  apply rewrap_Ok in H. destruct (strptime_utc s) as [w|] eqn:E; [|done]. injection H as <-.
  unfold stored. cbn. by apply strptime_in_range in E.
Qed.

Lemma money_Ok v path m : _money v path = Ok m → Money_valid m = true.
Proof.
  unfold _money. intros H. apply bind_Ok in H as (d & _ & H). apply rewrap_Ok in H. inv_ok.
  by apply Money_init_Ok in H as [-> ?].
Qed.

Lemma read_amount_Ok v o : read_amount v = Ok o → ∀ m, o = Some m → Money_valid m = true.
Proof. intros H m ->. destruct v; cbn [read_amount] in H; inv_ok; try done; simplify_eq; by eapply money_Ok. Qed.

Lemma span_digits_digits s ds r : span_digits s = (ds, r) → Forall (λ c, is_digit c = true) ds.
Proof.
  revert ds r; induction s as [|c s IH]; intros ds r H; cbn in H; [by injection H as <- <-|].
  destruct (is_digit c) eqn:E; [|by injection H as <- <-].
  destruct (span_digits s) as [ds' r'] eqn:E'. injection H as <- <-. constructor; [done|by eapply IH].
Qed.

Lemma int_of_digits_nonneg s : Forall (λ c, is_digit c = true) s → 0 <= int_of_digits s.
Proof.
  intros H. unfold int_of_digits. apply undigits_range. induction H as [|c s Hc _ IH]; [constructor|].
  constructor; [|done]. unfold is_digit, between, char_digit in *. bools. lia.
Qed.

Lemma decimal_of_str_ok s d : decimal_of_str s = Some d → decimal_ok d = true.
Proof.
  unfold decimal_of_str. set (s' := List.filter _ _). clearbody s'.
  destruct (match s' with [] => _ | _ => _ end) as [negative s1]. intros H.
  destruct (_ || _) in H; [by injection H as <-|].
  destruct (match strip_prefix _ _ with Some _ => _ | None => _ end) as [payload|] in H.
  { destruct (forallb is_digit payload); [|done]. by injection H as <-. }
  destruct (span_digits s1) as [whole r1] eqn:E1. apply span_digits_digits in E1.
  destruct (match r1 with [] => _ | _ => _ end) as [frac r2] eqn:E2.
  assert (Forall (λ c, is_digit c = true) (whole ++ frac)) as Hm.
  { apply Forall_app. split; [done|]. destruct r1 as [|c r1]; [by injection E2 as <- _|].
    destruct (c =? 46); [by eapply span_digits_digits|by injection E2 as <- _]. }
  apply int_of_digits_nonneg in Hm. cbv zeta in H.
  repeat (case_match; simplify_eq; try done); cbn; by apply Z.leb_le.
Qed.

Lemma probability_Ok v path o :
  _probability v path = Ok o → ∀ c, o = Some c → Probability_valid c = true ∧ canonical_probability c.
Proof.
  unfold _probability. intros H c ->. destruct v; inv_ok; try done. simplify_eq.
  match goal with E : rewrap _ _ = Ok c |- _ => apply rewrap_Ok in E; rename E into Hinit end.
  bools. match goal with E : ¬ (_ ≠ _) |- _ => apply dec_stable in E; rename E into Htext end.
  split; [|unfold canonical_probability; by rewrite Htext].
  unfold Probability_init in Hinit. destruct (decimal_of_str _) as [d|] eqn:Hd; [|done].
  apply (Probability_init_valid d); [by eapply decimal_of_str_ok|done].
Qed.

(** The constructor keeps timestamps that are UTC already. *)
Lemma stored_proposal p q :
  ActionProposal_post_init p = Ok q → stored (created_at p) = true → stored (expires_at p) = true → q = p.
Proof.
  unfold ActionProposal_post_init, stored. intros H Hc He. bools.
  rewrite !require_utc_id in H by done. inv_ok. subst. by destruct p.
Qed.

Lemma decoded_proposal v p :
  _proposal v = Ok p →
  ActionProposal_valid p ∧ ∀ c, model_confidence p = Some c → canonical_probability c.
Proof.
  unfold _proposal. intros H. apply bind_Ok in H as (item & _ & H). apply bind_Ok in H as (av & _ & H).
  apply bind_Ok in H as (am & Ha & H). apply bind_Ok in H as (tv & _ & H). apply bind_Ok in H as (ty & _ & H).
  apply bind_Ok in H as (q & Hq & H). inv_ok. subst q. apply rewrap_foreign_Ok in Hq.
  unfold read_proposal in Hq. inv_ok.
  repeat match goal with
  | E : _timestamp _ _ = Ok _ |- _ => apply timestamp_Ok in E
  | E : _probability _ _ = Ok _ |- _ => pose proof (probability_Ok _ _ _ E); clear E
  end.
  pose proof (read_amount_Ok _ _ Ha) as Hamount.
  pose proof (stored_proposal _ _ Hq ltac:(done) ltac:(done)) as ->.
  split; [split; cbn; try done; naive_solver|cbn; naive_solver].
Qed.

Lemma decoded_plan v d :
  _prior_plan v = Ok d → stored (decision_evaluated_at d) = true ∧ 0 <= decision_aggregate_version d
  ∧ is_identifier (decision_policy_version d) = true.
Proof.
  unfold _prior_plan. intros H. apply bind_Ok in H as (item & _ & H). apply bind_Ok in H as (rv & _ & H).
  apply bind_Ok in H as (rl & _ & H). apply bind_Ok in H as (av & _ & H). apply bind_Ok in H as (al & _ & H).
  apply bind_Ok in H as (q & Hq & H). inv_ok. subst q. apply rewrap_foreign_Ok in Hq.
  unfold read_plan in Hq. inv_ok. subst d. cbn.
  repeat match goal with
  | E : _timestamp _ _ = Ok _ |- _ => apply timestamp_Ok in E
  | E : require_identifier _ _ = Ok _ |- _ => apply require_identifier_Ok in E as [_ ?]
  | E : _integer ?j _ (Some 0) = Ok _ |- _ => unfold _integer in E; destruct j; inv_ok; bools; try done
  end.
  subst. split_and!; done.
Qed.

(** * The decoders fail in handled ways only *)

Lemma handled_item d k : lit k ∈ d.*1 → handled (item_of d k).
Proof.
  intros ([k' v] & E & Hin)%list_elem_of_fmap. cbn in E. subst k'. unfold item_of.
  destruct (dict_get (lit k) d) eqn:E; [handle|]. exfalso. revert E Hin. clear.
  induction d as [|[k' v'] d IH]; cbn; [by intros _ ?%not_elem_of_nil|].
  case_decide as Ek; [done|]. intros E [[= E1 _]|Hin]%elem_of_cons; [done|]. by apply IH.
Qed.

Lemma handled_field j fields path d k :
  _exact_object j fields path = Ok d → bool_decide (k ∈ fields) = true → handled (item_of d k).
Proof.
  intros [_ Hd]%exact_object_Ok Hk%bool_decide_true_1. apply handled_item, Hd. by apply list_elem_of_fmap_2.
Qed.

#[export] Hint Extern 1 (handled (item_of ?d _)) =>
  lazymatch goal with H : _exact_object _ _ _ = Ok d |- _ =>
    apply (handled_field _ _ _ _ _ H); vm_compute; reflexivity end : handled.

Lemma handled_exact_object j fields path : handled (_exact_object j fields path).
Proof. unfold _exact_object. handle. Qed.
Lemma handled_text j path : handled (_text j path).
Proof. unfold _text. handle. Qed.
Lemma handled_boolean j path : handled (_boolean j path).
Proof. unfold _boolean. handle. Qed.
Lemma handled_integer j path minimum : handled (_integer j path minimum).
Proof. unfold _integer. handle. Qed.
#[export] Hint Resolve handled_exact_object handled_text handled_boolean handled_integer : handled.

Lemma handled_optional_integer j path : handled (_optional_integer j path).
Proof. unfold _optional_integer. handle. Qed.
Lemma handled_optional_text j path : handled (_optional_text j path).
Proof. unfold _optional_text. handle. Qed.
Lemma handled_timestamp j path : handled (_timestamp j path).
Proof. unfold _timestamp, parse_canonical_timestamp. handle. Qed.
Lemma handled_digest j path : handled (_digest j path).
Proof. unfold _digest. handle. Qed.
Lemma handled_identifier v field : handled (require_identifier v field).
Proof. unfold require_identifier. handle. Qed.
Lemma handled_enum {A} (f : A → pystr) l v : handled (enum_of f l v).
Proof. unfold enum_of. handle. Qed.
#[export] Hint Resolve handled_optional_integer handled_optional_text handled_timestamp handled_digest
  handled_identifier handled_enum : handled.

Lemma handled_money j path : handled (_money j path).
Proof. unfold _money, Money_init. handle. Qed.
Lemma handled_probability j path : handled (_probability j path).
Proof. unfold _probability, Probability_init. handle. Qed.
#[export] Hint Resolve handled_money handled_probability : handled.

Lemma handled_when_some {A} (o : option A) check : (∀ a, handled (check a)) → handled (when_some o check).
Proof. intros H. destruct o; cbn; handle. Qed.

Lemma handled_post_init p :
  is_utc (created_at p) = true → is_utc (expires_at p) = true → handled (ActionProposal_post_init p).
Proof.
  intros Hc He. unfold ActionProposal_post_init. rewrite !require_utc_id by done.
  unfold check_collection_fields, check_instrument_reference, require_payment_method.
  handle; apply handled_when_some; intros; unfold require_payment_method; handle.
Qed.

Lemma stored_utc d : stored d = true → is_utc d = true.
Proof. unfold stored. intros H. by bools. Qed.

Lemma handled_read_proposal j path item type am :
  _exact_object j _PROPOSAL_FIELDS path = Ok item → handled (read_proposal item type am).
Proof.
  intros Hitem. unfold read_proposal. cbv zeta. handle.
  apply handled_post_init; cbn; eapply stored_utc, timestamp_Ok; eassumption.
Qed.

Lemma no_datetime_opt {A} (f : A → pyobj) o : (∀ a, no_datetime (f a) = true) → no_datetime (opt_prim f o) = true.
Proof. destruct o; cbn; auto. Qed.

Lemma probability_no_datetime c : no_datetime (Probability_to_primitive c) = true.
Proof. unfold Probability_to_primitive. by destruct (prob_value c). Qed.

Lemma proposal_no_datetime p prim : ActionProposal_to_primitive p = Ok prim → no_datetime prim = true.
Proof.
  unfold ActionProposal_to_primitive. intros H. inv_ok. subst prim.
  cbn -[opt_prim Money_to_primitive Probability_to_primitive].
  rewrite !no_datetime_opt by (intros; done || apply probability_no_datetime). done.
Qed.

Lemma plan_no_datetime d prim : GateDecision_to_primitive d = Ok prim → no_datetime prim = true.
Proof.
  unfold GateDecision_to_primitive. intros H. inv_ok. subst prim. cbn.
  rewrite andb_true_r. apply forallb_forall. intros x Hx%List.in_map_iff. by destruct Hx as (s & <- & _).
Qed.

Lemma handled_timestamp_text d : is_utc d = true → handled (canonical_timestamp d).
Proof. intros H. unfold canonical_timestamp. rewrite require_utc_id by done. handle. Qed.

Lemma handled_action_key p : handled (action_key p).
Proof. unfold action_key. handle. Qed.

Lemma handled_proposal_primitive p :
  is_utc (created_at p) = true → is_utc (expires_at p) = true → handled (ActionProposal_to_primitive p).
Proof. intros. unfold ActionProposal_to_primitive. handle; try apply handled_action_key; by apply handled_timestamp_text. Qed.

Lemma handled_plan_primitive d : is_utc (decision_evaluated_at d) = true → handled (GateDecision_to_primitive d).
Proof. intros. unfold GateDecision_to_primitive. handle. by apply handled_timestamp_text. Qed.

Lemma handled_differs prim item :
  handled prim → (∀ j, prim = Ok j → no_datetime j = true) → handled (differs prim item).
Proof. intros Hp Hn. unfold differs. handle. apply handled_canonical. by apply Hn. Qed.

Lemma handled_proposal v : handled (_proposal v).
Proof.
  unfold _proposal. handle.
  - unfold read_amount. handle.
  - by eapply handled_read_proposal.
  - match goal with E : rewrap_foreign _ _ = Ok ?q |- _ => apply rewrap_foreign_Ok in E; unfold read_proposal in E end.
    inv_ok. match goal with E : ActionProposal_post_init _ = Ok _ |- _ => rename E into Hq end.
    repeat match goal with E : _timestamp _ _ = Ok _ |- _ => apply timestamp_Ok in E end.
    pose proof (stored_proposal _ _ Hq ltac:(done) ltac:(done)) as ->.
    apply handled_differs; [|apply proposal_no_datetime].
    apply handled_proposal_primitive; by apply stored_utc.
Qed.

Lemma handled_reasons l : handled (read_reasons l).
Proof. induction l as [|v l IH]; cbn [read_reasons]; handle. Qed.

Lemma handled_plan v : handled (_prior_plan v).
Proof.
  unfold _prior_plan. handle.
  - unfold read_plan. cbv zeta. handle. apply handled_reasons.
  - match goal with E : rewrap_foreign _ _ = Ok ?q |- _ => apply rewrap_foreign_Ok in E; unfold read_plan in E end.
    inv_ok. repeat match goal with E : _timestamp _ _ = Ok _ |- _ => apply timestamp_Ok in E end. subst.
    apply handled_differs; [|apply plan_no_datetime]. apply handled_plan_primitive. by apply stored_utc.
Qed.
#[export] Hint Resolve handled_proposal handled_plan handled_action_key : handled.

Lemma command_scalar_Ok s j r : command_scalar s = Ok (j, r) → scan_other s = Some (j, r).
Proof.
  unfold command_scalar. intros H. inv_ok. destruct r0 as [j' r']. apply or_decode_error_Ok in Hr.
  destruct j'; inv_ok; try done; try congruence.
  match goal with E : _parse_canonical_integer _ _ = Ok _ |- _ => unfold _parse_canonical_integer in E end.
  inv_ok. congruence.
Qed.

Lemma command_scalar_error s e :
  command_scalar s = Raise e → e = JSONDecodeError ∨ codec_error e = true.
Proof.
  unfold command_scalar. intros H. apply bind_Raise in H as [H|([j r] & _ & H)].
  - left. destruct (scan_other s); [done|]. by injection H as <-.
  - right. destruct j; try done.
    + apply bind_Raise in H as [H|(z' & _ & H)]; [|done]. unfold _parse_canonical_integer, raise_if in H.
      repeat (case_match; cbn in H; simplify_eq; try done).
    + injection H as <-. by case_match.
Qed.

Lemma without_duplicates_Ok pairs d : _object_without_duplicates pairs = Ok d → d = dict_of_pairs pairs.
Proof. intros [-> H]%reject_duplicates_Ok. by rewrite dict_of_pairs_NoDup. Qed.

Lemma without_duplicates_error pairs e : _object_without_duplicates pairs = Raise e → codec_error e = true.
Proof. by intros ->%add_pairs_Raise. Qed.

(** The documents the reader accepts are what [json.loads] reads, without a
    duplicate key. *)
Lemma read_command_text_Ok nesting_limit text j :
  read_command_text nesting_limit text = Ok j → loads text = Some j ∧ json_nodup j.
Proof.
  unfold read_command_text. intros H.
  apply (strict_document_sound _object_without_duplicates command_scalar command_scalar_Ok without_duplicates_Ok nesting_limit).
  by destruct (strict_document _ _ _ _) as [|[]].
Qed.

Lemma handled_read_text nesting_limit text : handled (read_command_text nesting_limit text).
Proof.
  unfold read_command_text. intros e H.
  destruct (strict_document _ _ _ _) as [j|e'] eqn:E; [done|].
  apply (strict_document_error _ _ (λ e, codec_error e = true) command_scalar_error without_duplicates_error) in E.
  destruct E as [->|[->|E]]; [by injection H as <-..|].
  destruct e'; try done; by injection H as <-.
Qed.

Lemma handled_read_raw nesting_limit raw : handled (read_raw nesting_limit raw).
Proof. unfold read_raw, as_command_object, bounded_bytes. handle. apply handled_read_text. Qed.

Lemma handled_coerce nesting_limit payload : handled (_coerce_payload nesting_limit payload).
Proof.
  destruct payload as [items|text|raw]; cbn [_coerce_payload]; [|handle; apply handled_read_raw..].
  apply handled_bind; [apply handled_walk|intros n Hn]. apply handled_bind; [apply handled_bounded|intros bs Hbs].
  apply bounded_canonical_Ok in Hbs as [Hbs _]. unfold canonical_json_bytes in Hbs. inv_ok.
  destruct (canonical_json_loads (PyDict items) r) as (j & Hj & _); [by eapply walk_pyobj_ok|done|].
  rewrite (utf8_roundtrip r) by done. cbn. rewrite Hj. unfold as_command_object. handle.
Qed.

Lemma handled_integrity u : handled (_integrity_digest u).
Proof. unfold _integrity_digest, bounded_bytes. handle. Qed.

Lemma handled_open nesting_limit kind payload type version :
  handled (open_envelope nesting_limit kind payload type version).
Proof. unfold open_envelope. handle; first [apply handled_coerce|apply handled_integrity]. Qed.

Lemma handled_signed u : handled (signed u).
Proof. unfold signed, bounded_bytes. handle. Qed.

Lemma handled_check_digests supplied fields :
  (∀ f, f ∈ fields → lit f ∈ supplied.*1) → handled (check_digests supplied fields).
Proof.
  induction fields as [|f fields IH]; intros H; cbn [check_digests]; [handle|].
  apply handled_bind; [apply handled_item, H; left|intros v _]. handle. apply IH. intros g Hg. apply H. by right.
Qed.

Lemma handled_compare kind supplied expected :
  (∀ f, f ∈ expected.*1 → lit f ∈ supplied.*1) → handled (compare_bindings kind supplied expected).
Proof.
  induction expected as [|[f v] l IH]; intros H; cbn [compare_bindings]; [handle|].
  apply handled_bind; [apply handled_item, H; left|intros x _]. cbv zeta.
  apply handled_bind; [handle|intros _ _]. apply IH. intros g Hg. apply H. by right.
Qed.

Lemma handled_close nesting_limit kind payload type version fields envelope expected rebuilt :
  open_envelope nesting_limit kind payload type version = Ok envelope →
  handled expected → (∀ b, expected = Ok b → b.*1 = fields) → handled rebuilt →
  handled (close_envelope kind fields envelope expected rebuilt).
Proof.
  intros Hopen He Hb Hr. unfold close_envelope, bounded_bytes.
  apply handled_bind; [|intros bv _].
  - unfold open_envelope in Hopen. inv_ok. subst.
    by apply (handled_field _ _ _ _ "bindings" Hr1).
  - apply handled_bind; [apply handled_exact_object|intros supplied [_ Hs]%exact_object_Ok].
    apply handled_bind; [|intros _ _].
    { apply handled_check_digests. intros f [_ Hf]%list_elem_of_filter. apply Hs. by apply list_elem_of_fmap_2. }
    apply handled_bind; [done|intros b Hbs]. apply handled_bind; [|intros _ _; handle].
    apply handled_compare. intros f Hf. apply Hs. rewrite (Hb b Hbs) in Hf. by apply list_elem_of_fmap_2.
Qed.
