(* ===== verification/Executor.v ===== *)
(** [services/control_plane/executor.py]: the fail-closed executor that creates
    one Standard Payment Link.  [execute] runs over the trace of the port calls
    it makes ([Effects]); the ports may answer anything, raise, and see every
    earlier call. *)
From S2P Require Import Prelude PyStr Sha256 PyTime Json Digest Values States Actions Gate.
From S2P Require Import Text Outbox PaymentLinks Effects.

(** * Commands and durable intents *)
(** [_sha256_json]: [json.dumps(value, sort_keys=True, ...)], UTF-8, SHA-256. *)
Definition _sha256_json (value : json) : result pystr :=
  encoded ← utf8_encode (dumps value); Ok (sha256_hex encoded).

Definition payment_link_request_digest (request : StandardPaymentLinkRequest) : result pystr :=
  encoded ← to_json_bytes request None; Ok (sha256_hex encoded).

Record CreatePaymentLinkCommand := mkCreatePaymentLinkCommand {
  proposal : ActionProposal;
  prior_plan : GateDecision;
  request : StandardPaymentLinkRequest;
  provider_account_id : pystr
}.

Definition CreatePaymentLinkCommand_post_init (c : CreatePaymentLinkCommand) :
    result CreatePaymentLinkCommand :=
  _ ← _require_text (provider_account_id c) "provider_account_id" 128;
  Ok c.

Definition request_digest (c : CreatePaymentLinkCommand) : result pystr :=
  payment_link_request_digest (request c).

Definition command_payload (c : CreatePaymentLinkCommand) : result json :=
  key ← action_key (proposal c);
  plan ← decision_digest (prior_plan c);
  digest ← proposal_digest (proposal c);
  wire ← request_digest c;
  Ok (JDict [($"action_key", JStr key);
             ($"merchant_id", JStr (proposal_merchant_id (proposal c)));
             ($"prior_plan_digest", JStr plan);
             ($"proposal_digest", JStr digest);
             ($"provider_account_id", JStr (provider_account_id c));
             ($"reference_id", JStr (reference_id (request c)));
             ($"request_digest", JStr wire);
             ($"schema", JStr ($"retrywise-create-payment-link-command-v1"))]).

Definition command_payload_digest (c : CreatePaymentLinkCommand) : result pystr :=
  payload ← command_payload c; _sha256_json payload.

Record DurableActionIntent := mkDurableActionIntent {
  intent_action_key : pystr;
  intent_merchant_id : pystr;
  intent_account_id : pystr;
  intent_proposal_digest : pystr;
  intent_plan_digest : pystr;
  intent_request_digest : pystr;
  intent_payload_digest : pystr;
  intent_reference_id : pystr;
  intent_recorded_at : datetime;
  intent_schema_version : Z
}.

Definition DurableActionIntent_post_init (i : DurableActionIntent) : result DurableActionIntent :=
  _ ← _require_text (intent_action_key i) "action_key" 128;
  _ ← _require_text (intent_merchant_id i) "merchant_id" 128;
  _ ← _require_text (intent_account_id i) "provider_account_id" 128;
  _ ← _require_text (intent_reference_id i) "reference_id" 40;
  _ ← require_digest (intent_proposal_digest i) "proposal_digest";
  _ ← require_digest (intent_plan_digest i) "prior_plan_digest";
  _ ← require_digest (intent_request_digest i) "request_digest";
  _ ← require_digest (intent_payload_digest i) "payload_digest";
  recorded ← _require_utc (intent_recorded_at i) "recorded_at";
  _ ← raise_if (bool_decide (intent_schema_version i ≠ 1))
        (ValueError "unsupported durable intent schema_version");
  Ok (mkDurableActionIntent (intent_action_key i) (intent_merchant_id i) (intent_account_id i)
        (intent_proposal_digest i) (intent_plan_digest i) (intent_request_digest i)
        (intent_payload_digest i) (intent_reference_id i) recorded (intent_schema_version i)).

(** [DurableActionIntent.record]. *)
Definition record_intent (c : CreatePaymentLinkCommand) (recorded_at : datetime) :
    result DurableActionIntent :=
  key ← action_key (proposal c);
  digest ← proposal_digest (proposal c);
  plan ← decision_digest (prior_plan c);
  wire ← request_digest c;
  payload ← command_payload_digest c;
  DurableActionIntent_post_init
    (mkDurableActionIntent key (proposal_merchant_id (proposal c)) (provider_account_id c) digest plan
       wire payload (reference_id (request c)) recorded_at 1).

(** [DurableActionIntent.matches]: the conjunction stops at the first [False]. *)
Definition intent_matches (i : DurableActionIntent) (c : CreatePaymentLinkCommand) : result bool :=
  key ← action_key (proposal c);
  and_then (bool_decide (intent_action_key i = key)
            && bool_decide (intent_merchant_id i = proposal_merchant_id (proposal c))
            && bool_decide (intent_account_id i = provider_account_id c))
    (digest ← proposal_digest (proposal c);
     and_then (bool_decide (intent_proposal_digest i = digest))
       (plan ← decision_digest (prior_plan c);
        and_then (bool_decide (intent_plan_digest i = plan))
          (wire ← request_digest c;
           and_then (bool_decide (intent_request_digest i = wire))
             (payload ← command_payload_digest c;
              Ok (bool_decide (intent_payload_digest i = payload)
                  && bool_decide (intent_reference_id i = reference_id (request c))))))).

(** * Provider outcomes *)
Inductive ProviderCreateStatus := CERTAIN_SUCCESS | CERTAIN_FAILURE | AMBIGUOUS.

#[export] Instance ProviderCreateStatus_eq_dec : EqDecision ProviderCreateStatus.
Proof. solve_decision. Defined.

Record ProviderCreateOutcome := mkProviderCreateOutcome {
  outcome_status : ProviderCreateStatus;
  outcome_reason : pystr;
  outcome_link : option pystr
}.

Definition ProviderCreateOutcome_post_init (o : ProviderCreateOutcome) : result ProviderCreateOutcome :=
  _ ← _require_text (outcome_reason o) "reason_code" 256;
  if decide (outcome_status o = CERTAIN_SUCCESS) then
    match outcome_link o with
    | None => Raise (ValueError "certain success requires payment_link_id")
    | Some link => _ ← _require_text link "payment_link_id" 128; Ok o
    end
  else
    _ ← raise_if (bool_decide (outcome_link o ≠ None))
          (ValueError "only certain success may carry payment_link_id");
    Ok o.

Definition succeeded (payment_link_id : pystr) : result ProviderCreateOutcome :=
  ProviderCreateOutcome_post_init
    (mkProviderCreateOutcome CERTAIN_SUCCESS ($"provider_confirmed_create") (Some payment_link_id)).
Definition failed_safely (reason_code : pystr) : result ProviderCreateOutcome :=
  ProviderCreateOutcome_post_init (mkProviderCreateOutcome CERTAIN_FAILURE reason_code None).
Definition ambiguous (reason_code : pystr) : result ProviderCreateOutcome :=
  ProviderCreateOutcome_post_init (mkProviderCreateOutcome AMBIGUOUS reason_code None).

Inductive ExecutionDisposition :=
  | CREATED | ADOPTED | SUPPRESSED | REQUEUED | REQUERY_REQUIRED | ESCALATED | DEAD_LETTERED.

#[export] Instance ExecutionDisposition_eq_dec : EqDecision ExecutionDisposition.
Proof. solve_decision. Defined.

Record ExecutionResult := mkExecutionResult {
  disposition : ExecutionDisposition;
  result_job : OutboxJob;
  effect_decision : GateDecision;
  result_reason : pystr;
  result_reference_id : pystr;
  result_link : option pystr
}.

Definition _AUTHORIZATION_FAULTS : list GateReason :=
  [PLAN_AUTHORIZATION_MISSING; PLAN_BINDING_MISMATCH; DURABLE_INTENT_MISSING].

(** * The ports and their calls *)
(** What [record_effect_authorization] is given. *)
Record EffectAuthorization := mkEffectAuthorization {
  authorized_job : OutboxJob;
  authorized_command : CreatePaymentLinkCommand;
  authorized_decision : GateDecision;
  authorized_context : GateContext;
  authorized_worker : pystr;
  reconciliation_only : bool
}.

Inductive event :=
  | ClockRead (answer : result datetime)
  | IntentLoaded (action_key account : pystr) (answer : result (option DurableActionIntent))
  | ContextLoaded (p : ActionProposal) (account : pystr) (at_ : datetime) (answer : result GateContext)
  | AuthorizationRecorded (a : EffectAuthorization) (answer : result unit)
  | LinkCreated (r : StandardPaymentLinkRequest) (account : pystr) (answer : result ProviderCreateOutcome)
  | LinksLookedUp (reference account : pystr) (answer : result PaymentLinkLookupResult).

Record CreatePaymentLinkExecutor := mkExecutor {
  gate : GatePolicy;
  load_durable_intent : pystr → pystr → list event → result (option DurableActionIntent);
  load_fresh_gate_context : ActionProposal → pystr → datetime → list event → result GateContext;
  create_standard_payment_link :
    StandardPaymentLinkRequest → pystr → list event → result ProviderCreateOutcome;
  lookup_payment_links : pystr → pystr → list event → result PaymentLinkLookupResult;
  clock : list event → result datetime;
  backoff : BackoffPolicy;
  authorization_recorder : option (EffectAuthorization → list event → result unit)
}.

Abbreviation port A := (prog event A) (only parsing).

Section executor.
Context (self : CreatePaymentLinkExecutor).

Definition read_clock : port datetime :=
  now ← call (clock self) ClockRead; pure (_require_utc now "clock result").

Definition _binding_failure (job : OutboxJob) (c : CreatePaymentLinkCommand)
    (intent : option DurableActionIntent) : result (option pystr) :=
  key ← action_key (proposal c);
  if bool_decide (job_action_key job ≠ key) then Ok (Some ($"job_action_key_mismatch"))
  else
    payload ← command_payload_digest c;
    if bool_decide (payload_digest job ≠ payload) then Ok (Some ($"job_payload_digest_mismatch"))
    else if bool_decide (action_type (proposal c) ≠ CREATE_STANDARD_PAYMENT_LINK)
    then Ok (Some ($"proposal_action_type_mismatch"))
    else match amount (proposal c) with
    | None => Ok (Some ($"proposal_amount_missing"))
    | Some m =>
        if bool_decide (minor_units m ≠ amount_minor (request c))
        then Ok (Some ($"proposal_request_amount_mismatch"))
        else if bool_decide (currency m ≠ request_currency (request c))
        then Ok (Some ($"proposal_request_currency_mismatch"))
        else match intent with
        | None => Ok (Some ($"durable_intent_missing"))
        | Some i =>
            matched ← intent_matches i c;
            Ok (if negb matched then Some ($"durable_intent_command_mismatch") else None)
        end
    end.

Definition _requeue (job : OutboxJob) (c : CreatePaymentLinkCommand) (worker_id : pystr)
    (now : datetime) (effect : GateDecision) (reason : pystr) (mode : RetryMode)
    (final : ExecutionDisposition) : result ExecutionResult :=
  updated ← requeue job worker_id (lease_token_of job) now (job_version job) reason (backoff self) mode;
  Ok (mkExecutionResult (if decide (job_state updated = DEAD_LETTER) then DEAD_LETTERED else final)
        updated effect reason (reference_id (request c)) None).

Definition _suppress (job : OutboxJob) (c : CreatePaymentLinkCommand) (worker_id : pystr)
    (now : datetime) (effect : GateDecision) (reason : pystr) : result ExecutionResult :=
  digest ← decision_digest effect;
  completed ← complete job worker_id (lease_token_of job) now (job_version job) ($"suppressed_" ++ digest);
  Ok (mkExecutionResult SUPPRESSED completed effect reason (reference_id (request c)) None).

Definition _escalate (job : OutboxJob) (c : CreatePaymentLinkCommand) (worker_id : pystr)
    (now : datetime) (effect : GateDecision) (reason : pystr) : result ExecutionResult :=
  dead ← dead_letter job worker_id (lease_token_of job) now (job_version job) reason;
  Ok (mkExecutionResult ESCALATED dead effect reason (reference_id (request c)) None).

(** [job.complete(..., result_reference=link)] and the result that reports it. *)
Definition finish (job : OutboxJob) (c : CreatePaymentLinkCommand) (worker_id : pystr)
    (now : datetime) (effect : GateDecision) (final : ExecutionDisposition) (reason link : pystr) :
    result ExecutionResult :=
  completed ← complete job worker_id (lease_token_of job) now (job_version job) link;
  Ok (mkExecutionResult final completed effect reason (reference_id (request c)) (Some link)).

(** What [_reconcile] makes of a lookup. *)
Definition settle (job : OutboxJob) (c : CreatePaymentLinkCommand) (worker_id : pystr)
    (now : datetime) (effect : GateDecision) (lookup : PaymentLinkLookupResult) :
    result ExecutionResult :=
  decision ← decide_ambiguous_create (request c) lookup;
  let reason := lit (create_reason decision) in
  match create_action decision with
  | ADOPT_EXISTING =>
      match adopted_link decision with
      | None => Raise (AssertionError "adoption decision has no payment_link_id")
      | Some link => finish job c worker_id now effect ADOPTED reason link
      end
  | RETRY_CREATE_SAME_REFERENCE =>
      _requeue job c worker_id now effect reason RETRY_SAME_EFFECT REQUEUED
  | REQUERY => _requeue job c worker_id now effect reason RECONCILE_ONLY REQUERY_REQUIRED
  | ESCALATE => _escalate job c worker_id now effect ($"ambiguous_create_conflict:" ++ reason)
  end.

Definition _reconcile (job : OutboxJob) (c : CreatePaymentLinkCommand) (worker_id : pystr)
    (now : datetime) (effect : GateDecision) : port ExecutionResult :=
  lookup ← call (lookup_payment_links self (reference_id (request c)) (provider_account_id c))
             (LinksLookedUp (reference_id (request c)) (provider_account_id c));
  pure (settle job c worker_id now effect lookup).

(** The branch of a denied effect. *)
Definition denied (job : OutboxJob) (c : CreatePaymentLinkCommand) (worker_id : pystr)
    (now : datetime) (effect : GateDecision) : result ExecutionResult :=
  let reason_values := join ($",") (map reason_value (reasons effect)) in
  if existsb (λ r, mem r _AUTHORIZATION_FAULTS) (reasons effect) then
    _escalate job c worker_id now effect ($"effect_authorization_fault:" ++ reason_values)
  else if mem PAYMENT_TRUTH_NOT_UNPAID (reasons effect) then
    _suppress job c worker_id now effect ($"fresh_payment_truth_blocks_collection")
  else
    _suppress job c worker_id now effect ($"effect_gate_denied:" ++ reason_values).

(** The create and its three outcomes. *)
Definition create_effect (job : OutboxJob) (c : CreatePaymentLinkCommand) (worker_id : pystr)
    (now : datetime) (effect : GateDecision) : port ExecutionResult :=
  outcome ← call (create_standard_payment_link self (request c) (provider_account_id c))
              (LinkCreated (request c) (provider_account_id c));
  match outcome_status outcome with
  | CERTAIN_SUCCESS =>
      pure match outcome_link outcome with
           | None => Raise (AssertionError "certain success has no payment_link_id")
           | Some link => finish job c worker_id now effect CREATED (outcome_reason outcome) link
           end
  | CERTAIN_FAILURE =>
      pure (_requeue job c worker_id now effect ($"certain_failure:" ++ outcome_reason outcome)
              RETRY_SAME_EFFECT REQUEUED)
  | AMBIGUOUS => _reconcile job c worker_id now effect
  end.

(** The effect once it is allowed and recorded. *)
Definition allowed_effect (job : OutboxJob) (c : CreatePaymentLinkCommand) (worker_id : pystr)
    (now : datetime) (effect : GateDecision) : port ExecutionResult :=
  if decide (retry_mode job = RECONCILE_ONLY) then _reconcile job c worker_id now effect
  else
    match validate_expiry (request c) (int_timestamp now) with
    | Raise (PaymentLinkValidationError message) =>
        pure (_escalate job c worker_id now effect ($"request_not_effect_safe:" ++ lit message))
    | Raise error => pure (Raise error)
    | Ok _ => create_effect job c worker_id now effect
    end.

Definition record_authorization (job : OutboxJob) (c : CreatePaymentLinkCommand) (worker_id : pystr)
    (effect : GateDecision) (context : GateContext) : port unit :=
  match authorization_recorder self with
  | None => pure (Ok tt)
  | Some recorder =>
      let a := mkEffectAuthorization job c effect context worker_id
                 (bool_decide (retry_mode job = RECONCILE_ONLY)) in
      call (recorder a) (AuthorizationRecorded a)
  end.

Definition execute (job : OutboxJob) (c : CreatePaymentLinkCommand) (worker_id : pystr) :
    port ExecutionResult :=
  started ← read_clock;
  _ ← pure (assert_active_lease job worker_id (lease_token_of job) started);
  intent ← call (load_durable_intent self (job_action_key job) (provider_account_id c))
             (IntentLoaded (job_action_key job) (provider_account_id c));
  binding_failure ← pure (_binding_failure job c intent);
  let durable_binding_proved :=
    bool_decide (is_Some intent) && bool_decide (binding_failure = None) in
  fresh_context ← call (load_fresh_gate_context self (proposal c) (provider_account_id c) started)
                    (ContextLoaded (proposal c) (provider_account_id c) started);
  now ← read_clock;
  _ ← pure (assert_active_lease job worker_id (lease_token_of job) now);
  context ← pure (effect_context fresh_context now durable_binding_proved);
  effect ← pure (evaluate_effect (gate self) (proposal c) context (Some (prior_plan c)));
  match binding_failure with
  | Some failure =>
      pure (_escalate job c worker_id now effect ($"binding_failure:" ++ failure))
  | None =>
      if negb (allowed effect) then pure (denied job c worker_id now effect)
      else
        _ ← record_authorization job c worker_id effect context;
        allowed_effect job c worker_id now effect
  end.

(** * What one execution does *)
(** A call that is no request to the provider. *)
Definition quiet (e : event) : Prop :=
  match e with LinkCreated _ _ _ | LinksLookedUp _ _ _ => False | _ => True end.

(** The authorization call, when there is a recorder. *)
Definition recorded (job : OutboxJob) (c : CreatePaymentLinkCommand) (w : pystr)
    (effect : GateDecision) (context : GateContext) : list event :=
  match authorization_recorder self with
  | None => []
  | Some _ =>
      [AuthorizationRecorded
         (mkEffectAuthorization job c effect context w (bool_decide (retry_mode job = RECONCILE_ONLY)))
         (Ok tt)]
  end.

(** Everything an execution established before it called the provider; [calls]
    are the calls it had made by then. *)
Record authorized (job : OutboxJob) (c : CreatePaymentLinkCommand) (w : pystr) (now : datetime)
    (effect : GateDecision) (calls : list event) : Prop := {
  auth_calls : ∃ started intent fresh context,
    calls = [ClockRead (Ok started);
             IntentLoaded (job_action_key job) (provider_account_id c) (Ok (Some intent));
             ContextLoaded (proposal c) (provider_account_id c) started (Ok fresh);
             ClockRead (Ok now)] ++ recorded job c w effect context
    ∧ _binding_failure job c (Some intent) = Ok None
    ∧ effect_context fresh now true = Ok context
    ∧ evaluate_effect (gate self) (proposal c) context (Some (prior_plan c)) = Ok effect;
  auth_allowed : allowed effect = true;
  auth_lease : holds_lease job w (lease_token_of job) now
}.

(** The outcome of a create that was not ambiguous. *)
Definition after_create (job : OutboxJob) (c : CreatePaymentLinkCommand) (w : pystr) (now : datetime)
    (effect : GateDecision) (answer : result ProviderCreateOutcome) : result ExecutionResult :=
  outcome ← answer;
  if decide (outcome_status outcome = CERTAIN_SUCCESS) then
    match outcome_link outcome with
    | None => Raise (AssertionError "certain success has no payment_link_id")
    | Some link => finish job c w now effect CREATED (outcome_reason outcome) link
    end
  else
    _requeue job c w now effect ($"certain_failure:" ++ outcome_reason outcome) RETRY_SAME_EFFECT REQUEUED.

Definition is_ambiguous (answer : result ProviderCreateOutcome) : Prop :=
  ∃ o, answer = Ok o ∧ outcome_status o = AMBIGUOUS.

(** ** The job an execution leaves *)
Lemma finish_job job c w now effect final reason link res :
  finish job c w now effect final reason link = Ok res →
  settled_job job (result_job res) ∧ is_final (result_job res)
  ∧ disposition res = final ∧ result_link res = Some link
  ∧ (job_state job = LEASED → completion_reference (result_job res) = Some link).
Proof.
  unfold finish, settled_job, is_final. intros H. inv_ok. subst. cbn.
  match goal with E : complete _ _ _ _ _ _ = Ok _ |- _ => apply complete_Ok in E as [[-> ?]|E] end.
  - split_and!; auto. congruence.
  - destruct_and!. split_and!; auto. right. by eexists.
Qed.

Lemma escalate_job job c w now effect reason res :
  _escalate job c w now effect reason = Ok res →
  settled_job job (result_job res) ∧ is_final (result_job res) ∧ result_link res = None.
Proof.
  unfold _escalate, settled_job, is_final. intros H. inv_ok. subst. cbn.
  match goal with E : dead_letter _ _ _ _ _ _ = Ok _ |- _ => apply dead_letter_Ok in E as [[-> ?]|E] end.
  - split_and!; auto.
  - destruct_and!. split_and!; auto. right. by eexists.
Qed.

Lemma suppress_job job c w now effect reason res :
  _suppress job c w now effect reason = Ok res →
  settled_job job (result_job res) ∧ is_final (result_job res) ∧ result_link res = None.
Proof.
  unfold _suppress, settled_job, is_final. intros H. inv_ok. subst. cbn.
  match goal with E : complete _ _ _ _ _ _ = Ok _ |- _ => apply complete_Ok in E as [[-> ?]|E] end.
  - split_and!; auto.
  - destruct_and!. split_and!; auto. right. by eexists.
Qed.

Lemma requeue_job job c w now effect reason mode final res :
  _requeue job c w now effect reason mode final = Ok res →
  settled_job job (result_job res) ∧ retry_mode (result_job res) = mode ∧ result_link res = None.
Proof.
  unfold _requeue, settled_job. intros H. inv_ok. subst. cbn.
  match goal with E : requeue _ _ _ _ _ _ _ _ = Ok _ |- _ => apply requeue_Ok in E end.
  destruct_and!. split_and!; auto. right. by eexists.
Qed.

(** A completed lookup that found no link: the create did not take place. *)
Definition proves_absence (lookup : PaymentLinkLookupResult) : bool :=
  completed lookup && bool_decide (candidates lookup = []).

Lemma settle_job job c w now effect lookup res :
  settle job c w now effect lookup = Ok res →
  settled_job job (result_job res)
  ∧ (proves_absence lookup = true ∨ is_final (result_job res) ∨ retry_mode (result_job res) = RECONCILE_ONLY)
  ∧ (∀ link, result_link res = Some link →
       disposition res = ADOPTED ∧ completed lookup = true
       ∧ ∃ x s, candidates lookup = [x] ∧ link_object x s ∧ PaymentLinks.matches s (request c) = true
                ∧ link = link_id s).
Proof.
  unfold settle. destruct (decide_cases (request c) lookup) as (d & -> & Hcase). rewrite bind_Ok_l.
  destruct d as [action reason link]. cbn [create_action create_reason adopted_link] in *. cbv zeta.
  destruct action; intros H.
  - destruct Hcase as (Hc & x & s & Hl & Ho & Hm & ->).
    apply finish_job in H as (? & ? & Hd & Hlink & _). split_and!; auto.
    intros l El. rewrite Hlink in El. injection El as <-. split; [done|]. split; [done|]. by exists x, s.
  - destruct Hcase as [Hc Hl]. apply requeue_job in H as (? & ? & Hn). split_and!; [done| |congruence].
    left. unfold proves_absence. by rewrite Hc, Hl.
  - apply requeue_job in H as (? & ? & Hn). split_and!; [done|auto|congruence].
  - apply escalate_job in H as (? & ? & Hn). split_and!; [done|auto|congruence].
Qed.

Lemma denied_job job c w now effect res :
  denied job c w now effect = Ok res →
  settled_job job (result_job res) ∧ is_final (result_job res) ∧ result_link res = None.
Proof.
  unfold denied. destruct (existsb _ _); [apply escalate_job|]. destruct (mem _ _); apply suppress_job.
Qed.

(** A result that made no request: the job was suppressed or dead-lettered. *)
Definition stopped (job : OutboxJob) (r : result ExecutionResult) : Prop :=
  ∀ res, r = Ok res →
    settled_job job (result_job res) ∧ is_final (result_job res) ∧ result_link res = None
    ∧ ((disposition res = SUPPRESSED ∧ job_state (result_job res) = COMPLETED)
       ∨ (disposition res = ESCALATED ∧ job_state (result_job res) = DEAD_LETTER)).

(** The complete executions of a delivery: its calls and its outcome. *)
Inductive execution (job : OutboxJob) (c : CreatePaymentLinkCommand) (w : pystr) :
    list event → result ExecutionResult → Prop :=
  | exec_no_request l r : Forall quiet l → stopped job r → execution job c w l r
  | exec_lookup pre now effect answer :
      authorized job c w now effect pre → retry_mode job = RECONCILE_ONLY →
      execution job c w
        (pre ++ [LinksLookedUp (reference_id (request c)) (provider_account_id c) answer])
        (lookup ← answer; settle job c w now effect lookup)
  | exec_create pre now effect answer :
      authorized job c w now effect pre → retry_mode job ≠ RECONCILE_ONLY →
      is_ok (validate_expiry (request c) (int_timestamp now)) = true → ¬ is_ambiguous answer →
      execution job c w (pre ++ [LinkCreated (request c) (provider_account_id c) answer])
        (after_create job c w now effect answer)
  | exec_create_lookup pre now effect outcome answer :
      authorized job c w now effect pre → retry_mode job ≠ RECONCILE_ONLY →
      is_ok (validate_expiry (request c) (int_timestamp now)) = true →
      outcome_status outcome = AMBIGUOUS →
      execution job c w
        (pre ++ [LinkCreated (request c) (provider_account_id c) (Ok outcome);
                 LinksLookedUp (reference_id (request c)) (provider_account_id c) answer])
        (lookup ← answer; settle job c w now effect lookup).

Lemma stopped_raise job e : stopped job (Raise e).
Proof. by intros res. Qed.

Lemma escalate_stopped job c w now effect reason :
  stopped job (_escalate job c w now effect reason).
Proof.
  intros res H. destruct (escalate_job _ _ _ _ _ _ _ H) as (? & ? & ?). split_and!; [done..|].
  unfold _escalate in H. inv_ok. subst. right. split; [done|].
  match goal with E : dead_letter _ _ _ _ _ _ = Ok _ |- _ => apply dead_letter_Ok in E as [[-> ?]|E] end; [done|].
  by destruct_and!.
Qed.

Lemma suppress_stopped job c w now effect reason :
  stopped job (_suppress job c w now effect reason).
Proof.
  intros res H. destruct (suppress_job _ _ _ _ _ _ _ H) as (? & ? & ?). split_and!; [done..|].
  unfold _suppress in H. inv_ok. subst. left. split; [done|].
  match goal with E : complete _ _ _ _ _ _ = Ok _ |- _ => apply complete_Ok in E as [[-> ?]|E] end; [done|].
  by destruct_and!.
Qed.

Lemma denied_stopped job c w now effect : stopped job (denied job c w now effect).
Proof.
  unfold denied. destruct (existsb _ _); [apply escalate_stopped|].
  destruct (mem _ _); apply suppress_stopped.
Qed.

(** What an absent binding failure means. *)
Lemma binding_ok job c intent :
  _binding_failure job c intent = Ok None →
  ∃ i m, intent = Some i ∧ action_key (proposal c) = Ok (job_action_key job)
    ∧ command_payload_digest c = Ok (payload_digest job)
    ∧ action_type (proposal c) = CREATE_STANDARD_PAYMENT_LINK ∧ amount (proposal c) = Some m
    ∧ minor_units m = amount_minor (request c) ∧ currency m = request_currency (request c)
    ∧ intent_matches i c = Ok true.
Proof.
  unfold _binding_failure. intros H. inv_ok.
  case_bool_decide; [done|]. inv_ok. case_bool_decide; [done|]. case_bool_decide; [done|].
  destruct (amount (proposal c)) as [m|]; [|done].
  case_bool_decide; [done|]. case_bool_decide; [done|].
  destruct intent as [i|]; [|done]. inv_ok. destruct r1; [|done].
  exists i, m. split_and!; try done; try congruence; by apply dec_stable.
Qed.

(** ** Stepping through [execute] *)
Lemma emits_read_clock {A} (f : datetime → port A) t (Q : list event → result A → Prop) :
  (∀ d, is_utc d = true →
        emits (f d) (t ++ [ClockRead (Ok d)]) (λ l r, Q (ClockRead (Ok d) :: l) r)) →
  (∀ a e, Q [ClockRead a] (Raise e)) →
  emits (read_clock ≫= f) t Q.
Proof.
  intros Hd He. apply emits_bind. unfold read_clock. apply emits_call_bind; [|intros; apply He].
  intros d _. apply emits_pure. destruct (_require_utc d "clock result") as [u|e] eqn:E; [|apply He].
  apply outbox_utc_Ok in E as [-> Hu]. by apply Hd.
Qed.

Lemma execution_raise job c w l e : Forall quiet l → execution job c w l (Raise e).
Proof. intros H. apply exec_no_request; [done|apply stopped_raise]. Qed.

Lemma reconcile_emits job c w now effect t pre :
  authorized job c w now effect pre → retry_mode job = RECONCILE_ONLY →
  emits (_reconcile job c w now effect) t (λ l r, execution job c w (pre ++ l) r).
Proof.
  intros Ha Hm. unfold _reconcile. apply emits_call_bind.
  - intros a _. apply emits_pure. exact (exec_lookup job c w pre now effect (Ok a) Ha Hm).
  - intros e _. exact (exec_lookup job c w pre now effect (Raise e) Ha Hm).
Qed.

Lemma create_emits job c w now effect t pre :
  authorized job c w now effect pre → retry_mode job ≠ RECONCILE_ONLY →
  is_ok (validate_expiry (request c) (int_timestamp now)) = true →
  emits (create_effect job c w now effect) t (λ l r, execution job c w (pre ++ l) r).
Proof.
  intros Ha Hm Hv. unfold create_effect. apply emits_call_bind.
  - intros o _. destruct (outcome_status o) eqn:Ho.
    + apply emits_pure. assert (¬ is_ambiguous (Ok o)) as Hn by (intros (? & [= <-] & ?); congruence).
      pose proof (exec_create job c w pre now effect (Ok o) Ha Hm Hv Hn) as H.
      unfold after_create in H. rewrite bind_Ok_l, decide_True in H by done. exact H.
    + apply emits_pure. assert (¬ is_ambiguous (Ok o)) as Hn by (intros (? & [= <-] & ?); congruence).
      pose proof (exec_create job c w pre now effect (Ok o) Ha Hm Hv Hn) as H.
      unfold after_create in H. rewrite bind_Ok_l, decide_False in H by congruence. exact H.
    + unfold _reconcile. apply emits_call_bind.
      * intros a _. apply emits_pure. exact (exec_create_lookup job c w pre now effect o (Ok a) Ha Hm Hv Ho).
      * intros e _. exact (exec_create_lookup job c w pre now effect o (Raise e) Ha Hm Hv Ho).
  - intros e _. apply (exec_create job c w pre now effect (Raise e) Ha Hm Hv). by intros (? & ? & _).
Qed.

Lemma allowed_emits job c w now effect t pre :
  authorized job c w now effect pre → Forall quiet pre →
  emits (allowed_effect job c w now effect) t (λ l r, execution job c w (pre ++ l) r).
Proof.
  intros Ha Hq. unfold allowed_effect. case_decide; [by apply reconcile_emits|].
  destruct (validate_expiry (request c) (int_timestamp now)) as [u|e] eqn:E.
  - apply create_emits; [done|done|by rewrite E].
  - destruct e; apply emits_pure; rewrite app_nil_r;
      first [apply execution_raise; exact Hq | apply exec_no_request; [exact Hq|apply escalate_stopped]].
Qed.

Lemma execute_emits job c w t : emits (execute job c w) t (execution job c w).
Proof.
  unfold execute. apply emits_read_clock; [intros started Hs|by intros; apply execution_raise; repeat constructor].
  apply emits_pure_bind; [intros _ _|intros; apply execution_raise; repeat constructor].
  apply emits_call_bind; [intros intent _|intros; apply execution_raise; repeat constructor].
  apply emits_pure_bind; [intros failure Hfail|intros; apply execution_raise; repeat constructor].
  apply emits_call_bind; [intros fresh _|intros; apply execution_raise; repeat constructor].
  apply emits_read_clock; [intros now Hnow|intros; apply execution_raise; repeat constructor].
  apply emits_pure_bind; [intros u Hlease|intros; apply execution_raise; repeat constructor].
  apply emits_pure_bind; [intros context Hctx|intros; apply execution_raise; repeat constructor].
  apply emits_pure_bind; [intros effect Heff|intros; apply execution_raise; repeat constructor].
  destruct failure as [failure|].
  { apply emits_pure, exec_no_request; [repeat constructor|apply escalate_stopped]. }
  destruct (allowed effect) eqn:Hallow; cbn [negb].
  2: { apply emits_pure, exec_no_request; [repeat constructor|apply denied_stopped]. }
  apply active_lease_Ok in Hlease. destruct (binding_ok _ _ _ Hfail) as (i & _ & -> & _).
  cbn [bool_decide] in Hctx. rewrite !bool_decide_true in Hctx by (done || by eexists). cbn [andb] in Hctx.
  assert (Hauth : authorized job c w now effect
    ([ClockRead (Ok started);
      IntentLoaded (job_action_key job) (provider_account_id c) (Ok (Some i));
      ContextLoaded (proposal c) (provider_account_id c) started (Ok fresh); ClockRead (Ok now)]
     ++ recorded job c w effect context)).
  { split; [|done|done]. by exists started, i, fresh, context. }
  unfold record_authorization, recorded in *. destruct (authorization_recorder self) as [recorder|].
  - apply emits_call_bind; [intros [] _|intros; apply execution_raise; repeat constructor].
    eapply emits_mono; [apply (allowed_emits _ _ _ _ _ _ _ Hauth); repeat constructor|]. done.
  - apply emits_pure_bind; [intros _ _|done].
    eapply emits_mono; [apply (allowed_emits _ _ _ _ _ _ _ Hauth); repeat constructor|]. done.
Qed.

End executor.

(** * Sequences of deliveries *)
(** Whether a create may have taken effect without the program knowing: set by
    a create that was not answered with a certain failure, cleared by a
    completed lookup that found no link.  [None]: a create was sent while an
    earlier one was still unresolved. *)
Definition after_event (unresolved : bool) (e : event) : option bool :=
  match e with
  | LinkCreated _ _ answer =>
      if unresolved then None
      else Some match answer with
                | Ok o => negb (bool_decide (outcome_status o = CERTAIN_FAILURE))
                | Raise _ => true
                end
  | LinksLookedUp _ _ (Ok lookup) => Some (unresolved && negb (proves_absence lookup))
  | _ => Some unresolved
  end.

Fixpoint scan (unresolved : bool) (l : list event) : option bool :=
  match l with
  | [] => Some unresolved
  | e :: l => match after_event unresolved e with Some u => scan u l | None => None end
  end.

Definition is_create (e : event) : bool := match e with LinkCreated _ _ _ => true | _ => false end.
Definition is_lookup (e : event) : bool := match e with LinksLookedUp _ _ _ => true | _ => false end.
Definition creates (l : list event) : nat := length (List.filter is_create l).
Definition lookups (l : list event) : nat := length (List.filter is_lookup l).

(** What the worker persists after an execution: nothing (a crash, or a lost
    fence), the job of the result, or a reconcile-only requeue when the
    execution raised. *)
Inductive persisted (leased : OutboxJob) (r : result ExecutionResult) : OutboxJob → Prop :=
  | persist_nothing : persisted leased r leased
  | persist_result res : r = Ok res → persisted leased r (result_job res)
  | persist_exception e w t now v reason b j :
      r = Raise e → requeue leased w t now v reason b RECONCILE_ONLY = Ok j → persisted leased r j.

(** One delivery of the job's command [c], with any ports, policy and worker:
    the job is claimed, and the execution runs to its end or is never begun. *)
Inductive delivery (c : CreatePaymentLinkCommand) : OutboxJob * list event → OutboxJob * list event → Prop :=
  | deliver_claim job h w now d v job' :
      claim job w now d v = Ok job' → delivery c (job, h) (job', h)
  | deliver_execute self job h w now d v leased w' h' r job' :
      claim job w now d v = Ok leased → job_state leased = LEASED →
      execute self leased c w' h = (h', r) → persisted leased r job' →
      delivery c (job, h) (job', h').

Lemma scan_app u l l' : scan u (l ++ l') = scan u l ≫= λ u', scan u' l'.
Proof. revert u. induction l as [|e l IH]; intros u; cbn; [done|]. destruct (after_event u e); [apply IH|done]. Qed.

Lemma scan_quiet u l : Forall quiet l → scan u l = Some u.
Proof. induction 1 as [|e l He _ IH]; cbn; [done|]. by destruct e. Qed.

Lemma creates_app l l' : creates (l ++ l') = (creates l + creates l')%nat.
Proof. unfold creates. by rewrite List.filter_app, length_app. Qed.
Lemma lookups_app l l' : lookups (l ++ l') = (lookups l + lookups l')%nat.
Proof. unfold lookups. by rewrite List.filter_app, length_app. Qed.

Lemma quiet_counts l : Forall quiet l → creates l = 0%nat ∧ lookups l = 0%nat.
Proof. unfold creates, lookups. induction 1 as [|e l He _ [IH1 IH2]]; [done|]. by destruct e. Qed.

Lemma authorized_quiet self job c w now effect pre : authorized self job c w now effect pre → Forall quiet pre.
Proof.
  intros [(st & i & f & ctx & -> & _) _ _]. unfold recorded.
  destruct (authorization_recorder self); repeat constructor.
Qed.

(** An execution of a leased job: its calls are justified, and leave the job so
    that the next delivery is. *)
Lemma execution_justified self job c w l r u :
  execution self job c w l r → (u = true → retry_mode job = RECONCILE_ONLY) →
  ∃ u', scan u l = Some u'
  ∧ ∀ res, r = Ok res → settled_job job (result_job res)
           ∧ (u' = true → is_final (result_job res) ∨ retry_mode (result_job res) = RECONCILE_ONLY).
Proof.
  intros H Hu. destruct H as [l r Hq Hs|pre now eff a Ha Hm|pre now eff a Ha Hm Hv Hn|pre now eff o a Ha Hm Hv Ho].
  - exists u. split; [by apply scan_quiet|]. intros res Hres. destruct (Hs res Hres) as (? & ? & _).
    split; [done|]. by left.
  - rewrite scan_app, (scan_quiet u pre) by (by eapply authorized_quiet). rewrite bind_Some_l. cbn [scan after_event].
    destruct a as [lookup|e]; [|by exists u]. eexists. split; [done|]. intros res Hres. rewrite bind_Ok_l in Hres.
    apply settle_job in Hres as (? & Hc & _). split; [done|]. intros Ht.
    destruct Hc as [Hp|Hc]; [|tauto]. rewrite Hp, andb_false_r in Ht. done.
  - assert (u = false) as -> by (destruct u; [exfalso; apply Hm; auto|done]).
    rewrite scan_app, (scan_quiet false pre) by (by eapply authorized_quiet). rewrite bind_Some_l. cbn [scan after_event].
    eexists. split; [done|]. intros res Hres. destruct a as [o|e]; [|done]. unfold after_create in Hres.
    rewrite bind_Ok_l in Hres. case_decide as Hok.
    + destruct (outcome_link o) as [link|]; [|done]. apply finish_job in Hres as (? & ? & _). tauto.
    + apply requeue_job in Hres as (? & _). split; [done|]. intros Ht. exfalso.
      destruct (outcome_status o) eqn:Eo; [done|done|]. apply Hn. by exists o.
  - assert (u = false) as -> by (destruct u; [exfalso; apply Hm; auto|done]).
    rewrite scan_app, (scan_quiet false pre) by (by eapply authorized_quiet). rewrite bind_Some_l. cbn [scan after_event].
    rewrite Ho. cbn [bool_decide]. destruct a as [lookup|e]; [|by eexists]. eexists. split; [done|].
    intros res Hres. rewrite bind_Ok_l in Hres. apply settle_job in Hres as (? & Hc & _). split; [done|]. intros Ht.
    destruct Hc as [Hp|Hc]; [|tauto]. rewrite Hp, andb_false_r in Ht. done.
Qed.

Lemma execution_counts self job c w l r :
  execution self job c w l r →
  (creates l <= 1)%nat ∧ (lookups l <= 1)%nat ∧ (retry_mode job = RECONCILE_ONLY → creates l = 0%nat).
Proof.
  intros H. destruct H as [l r Hq Hs|pre now eff a Ha Hm|pre now eff a Ha Hm Hv Hn|pre now eff o a Ha Hm Hv Ho].
  - destruct (quiet_counts l Hq) as [-> ->]. lia.
  - destruct (quiet_counts pre (authorized_quiet _ _ _ _ _ _ _ Ha)) as [E1 E2].
    rewrite creates_app, lookups_app, E1, E2. unfold creates, lookups. cbn. lia.
  - destruct (quiet_counts pre (authorized_quiet _ _ _ _ _ _ _ Ha)) as [E1 E2].
    rewrite creates_app, lookups_app, E1, E2. unfold creates, lookups. cbn. split_and!; [lia|lia|tauto].
  - destruct (quiet_counts pre (authorized_quiet _ _ _ _ _ _ _ Ha)) as [E1 E2].
    rewrite creates_app, lookups_app, E1, E2. unfold creates, lookups. cbn. split_and!; [lia|lia|tauto].
Qed.

(** The state of a job with its history of calls, between deliveries. *)
Record deliverable (maximum : Z) (s : OutboxJob * list event) : Prop := {
  del_job : job_ok s.1 ∧ job_max_attempts s.1 = maximum;
  del_budget : Z.of_nat (creates s.2) <= attempts s.1;
  del_scan : ∃ u, scan false s.2 = Some u
    ∧ (u = true → job_state s.1 = LEASED ∨ is_final s.1 ∨ retry_mode s.1 = RECONCILE_ONLY)
}.

Lemma settled_job_ok maximum job j :
  job_ok job ∧ job_max_attempts job = maximum → settled_job job j →
  job_ok j ∧ job_max_attempts j = maximum.
Proof.
  intros [H Hm] [[->|[now [Hok _ _ (_ & _ & _ & E & _)]]] _]; [done|]. split; [done|congruence].
Qed.

Lemma claim_deliverable maximum job h w now d v j :
  deliverable maximum (job, h) → claim job w now d v = Ok j →
  deliverable maximum (j, h)
  ∧ (job_state j = LEASED →
     attempts j = attempts job + 1
     ∧ ∀ u, scan false h = Some u → u = true → retry_mode j = RECONCILE_ONLY).
Proof.
  intros [[Hok Hmax] Hb (u & Hu & Hm)] H. cbn in *.
  apply claim_Ok in H as (_ & [Hj _ _ (_ & _ & _ & E & _)] & _ & Hs & Hc).
  assert (job_ok j ∧ job_max_attempts j = maximum) as Hj' by (split; [done|congruence]).
  destruct Hc as [? Hst Hatt Hmode ?|? ? ? Hst Hatt Hmode ? ? ? ? ?].
  - split; [|congruence]. split; cbn; [done|lia|]. exists u. split; [done|]. intros _. right; right. done.
  - split.
    + split; cbn; [done|lia|]. exists u. split; [done|]. intros _. by left.
    + intros _. split; [done|]. intros u' Hu' ->. rewrite Hu in Hu'. injection Hu' as ->.
      rewrite Hmode. case_bool_decide as Hl; [done|]. destruct (Hm eq_refl) as [?|[[?|?]|?]]; [done| | |done];
        destruct Hs as [[? _]|[? _]]; congruence.
Qed.

Lemma delivery_step c maximum s s' :
  delivery c s s' → deliverable maximum s → deliverable maximum s'.
Proof.
  intros Hstep Hs. destruct Hstep as [job h w now d v job' H|self job h w now d v leased w' h' r job' H Hl Hex Hp].
  - exact (proj1 (claim_deliverable _ _ _ _ _ _ _ _ Hs H)).
  - destruct (claim_deliverable _ _ _ _ _ _ _ _ Hs H) as [[Hok Hb (u & Hu & _)] Hlease]. cbn in *.
    destruct (Hlease Hl) as [Hatt Hmode]. specialize (Hmode u Hu).
    destruct (emits_run _ _ _ _ _ Hex (execute_emits self leased c w' h)) as (l & -> & Hexec).
    destruct (execution_justified _ _ _ _ _ _ u Hexec Hmode) as (u' & Hu' & Hres).
    destruct (execution_counts _ _ _ _ _ _ Hexec) as (Hc & _ & _).
    assert (Hscan : scan false (h ++ l) = Some u') by (by rewrite scan_app, Hu, bind_Some_l).
    assert (Z.of_nat (creates h) <= attempts job) by (by destruct Hs).
    assert (Hcr : Z.of_nat (creates (h ++ l)) <= attempts leased) by (rewrite creates_app; lia).
    destruct Hp as [|res Hr|e w2 t now2 v2 reason b j Hr Hq].
    + split; cbn; [done|done|]. exists u'. auto.
    + destruct (Hres res Hr) as [Hset Hm]. split; cbn; [by eapply settled_job_ok|by rewrite (proj2 Hset)|].
      exists u'. split; [done|]. intros Ht. right. auto.
    + apply requeue_Ok in Hq as (_ & _ & [Hj _ _ (_ & _ & _ & E & _)] & Ha & Hm & _).
      split; cbn; [split; [done|destruct Hok; congruence]|by rewrite Ha|].
      exists u'. auto.
Qed.

Lemma scan_true_false l :
  scan true l = Some false →
  ∃ reference account lookup,
    LinksLookedUp reference account (Ok lookup) ∈ l ∧ proves_absence lookup = true.
Proof.
  induction l as [|e l IH]; [done|]. cbn [scan]. intros H.
  assert (Hrec : scan true l = Some false → ∃ reference account lookup,
    LinksLookedUp reference account (Ok lookup) ∈ e :: l ∧ proves_absence lookup = true).
  { intros (rf & ac & lk & Hin & Hp)%IH. exists rf, ac, lk. split; [by right|done]. }
  destruct e as [| | | | |rf ac [lk|er]]; cbn [after_event] in H; auto; try done.
  destruct (proves_absence lk) eqn:Hp; [|auto]. exists rf, ac, lk. split; [left|done].
Qed.

Lemma scan_create_next r a answer l r' a' answer' l' u :
  scan u (LinkCreated r a answer :: l ++ LinkCreated r' a' answer' :: l') ≠ None →
  (∃ o, answer = Ok o ∧ outcome_status o = CERTAIN_FAILURE)
  ∨ ∃ reference account lookup,
      LinksLookedUp reference account (Ok lookup) ∈ l ∧ proves_absence lookup = true.
Proof.
  cbn [scan after_event]. destruct u; [done|]. intros H. rewrite scan_app in H.
  destruct answer as [o|e].
  - destruct (decide (outcome_status o = CERTAIN_FAILURE)) as [Ho|Ho]; [left; by exists o|right].
    rewrite bool_decide_false in H by done. cbn [negb] in H. apply scan_true_false.
    destruct (scan true l) as [[]|]; [|done|]; cbn in H; done.
  - right. apply scan_true_false. destruct (scan true l) as [[]|]; [|done|]; cbn in H; done.
Qed.

Lemma deliveries_ok c maximum s s' :
  rtc (delivery c) s s' → deliverable maximum s → deliverable maximum s'.
Proof. induction 1; [done|]. eauto using delivery_step. Qed.

Lemma created_deliverable id key digest now maximum available job :
  create id key digest now maximum available = Ok job → deliverable maximum (job, []).
Proof.
  unfold create. intros H. inv_ok. apply job_post_init_ok in H as [-> Hok].
  split; cbn; [done|lia|]. by exists false.
Qed.

(** ** Facts the properties quote *)
Lemma run_execution self job c w t l r :
  execute self job c w t = (t ++ l, r) → execution self job c w l r.
Proof.
  intros H. destruct (emits_run _ _ _ _ _ H (execute_emits self job c w t)) as (l' & El & Hx).
  by apply app_inv_head in El as ->.
Qed.

(** A result without a link says so in its disposition. *)
Definition no_link (res : ExecutionResult) : Prop :=
  result_link res = None ∧ disposition res ≠ CREATED ∧ disposition res ≠ ADOPTED.

Lemma escalate_no_link job c w now effect reason res :
  _escalate job c w now effect reason = Ok res → no_link res.
Proof. unfold _escalate. intros H. inv_ok. by subst. Qed.

Lemma requeue_no_link self job c w now effect reason mode final res :
  _requeue self job c w now effect reason mode final = Ok res →
  final ≠ CREATED → final ≠ ADOPTED → no_link res.
Proof. unfold _requeue. intros H. inv_ok. subst. unfold no_link. cbn. by case_decide. Qed.

(** A link in a settled result is a proof that the create went through. *)
Lemma settle_link self job c w now effect lookup res :
  request_facts (request c) → job_state job = LEASED → settle self job c w now effect lookup = Ok res →
  no_link res
  ∨ ∃ link o, result_link res = Some link ∧ disposition res = ADOPTED
      ∧ job_state (result_job res) = COMPLETED ∧ completion_reference (result_job res) = Some link
      ∧ completed lookup = true ∧ candidates lookup = [JDict o] ∧ proves_create (request c) link o.
Proof.
  intros Hf Hl. unfold settle. destruct (decide_cases (request c) lookup) as (d & -> & Hcase). rewrite bind_Ok_l.
  destruct d as [action reason link]. cbn [create_action create_reason adopted_link] in *. cbv zeta.
  destruct action; intros H.
  - right. destruct Hcase as (Hc & x & s & Hcand & Ho & Hm & ->).
    apply finish_job in H as ([Hset _] & Hfin & Hd & Hlink & Href).
    destruct (proj1 (proves_create_iff _ (link_id s) x Hf) (ex_intro _ s (conj Ho (conj Hm eq_refl)))) as (o & -> & ?).
    exists (link_id s), o. split_and!; auto. specialize (Href Hl).
    destruct Hset as [E|[now' [Hok _ _ _]]].
    + rewrite E in *. destruct Hfin; congruence.
    + apply (fact_completed _ (job_ok_facts _ Hok)). by rewrite Href.
  - left. by eapply requeue_no_link.
  - left. by eapply requeue_no_link.
  - left. by eapply escalate_no_link.
Qed.

(** Where the link of a result comes from. *)
Lemma execution_link self job c w l res :
  job_state job = LEASED → execution self job c w l (Ok res) →
  no_link res
  ∨ (∃ o link, LinkCreated (request c) (provider_account_id c) (Ok o) ∈ l
       ∧ outcome_status o = CERTAIN_SUCCESS ∧ outcome_link o = Some link ∧ disposition res = CREATED
       ∧ result_link res = Some link
       ∧ job_state (result_job res) = COMPLETED ∧ completion_reference (result_job res) = Some link)
  ∨ ∃ now effect answer,
      Ok res = (lookup ← answer; settle self job c w now effect lookup)
      ∧ LinksLookedUp (reference_id (request c)) (provider_account_id c) answer ∈ l.
Proof.
  intros Hl H. remember (Ok res) as r eqn:Er.
  destruct H as [l r Hq Hs|pre now eff a Ha Hm|pre now eff a Ha Hm Hv Hn|pre now eff o a Ha Hm Hv Ho].
  - left. destruct (Hs _ Er) as (_ & _ & ? & Hd). split; [done|].
    destruct Hd as [[-> _]|[-> _]]; done.
  - right; right. exists now, eff, a. split; [done|]. set_solver.
  - destruct a as [o|e]; [|done]. unfold after_create in Er. rewrite bind_Ok_l in Er. case_decide as Ho.
    + right; left. destruct (outcome_link o) as [link|] eqn:Elink; [|done].
      apply finish_job in Er as ([Hset _] & Hfin & Hd & Hlink & Href). exists o, link.
      specialize (Href Hl). split_and!; auto; [set_solver|].
      destruct Hset as [E|[now' [Hok _ _ _]]]; [rewrite E in *; destruct Hfin; congruence|].
      apply (fact_completed _ (job_ok_facts _ Hok)). by rewrite Href.
    + left. by eapply requeue_no_link.
  - right; right. exists now, eff, a. split; [done|]. set_solver.
Qed.

Definition is_clock (e : event) : bool := match e with ClockRead _ => true | _ => false end.

Lemma quiet_no_create l r a x : Forall quiet l → LinkCreated r a x ∉ l.
Proof. intros H Hin. exact (proj1 (Forall_forall _ _) H _ Hin). Qed.

Lemma execution_create self job c w l r req account answer :
  execution self job c w l r → LinkCreated req account answer ∈ l →
  ∃ pre now effect l2, authorized self job c w now effect pre
    ∧ l = pre ++ LinkCreated req account answer :: l2
    ∧ req = request c ∧ account = provider_account_id c ∧ retry_mode job ≠ RECONCILE_ONLY
    ∧ is_ok (validate_expiry req (int_timestamp now)) = true.
Proof.
  intros H Hin. destruct H as [l r Hq _|pre now eff a Ha Hm|pre now eff a Ha Hm Hv _|pre now eff o a Ha Hm Hv _].
  - by apply quiet_no_create in Hin.
  - apply elem_of_app in Hin as [Hin|Hin]; [by apply authorized_quiet in Ha; apply quiet_no_create in Hin|].
    by apply list_elem_of_singleton in Hin.
  - apply elem_of_app in Hin as [Hin|Hin]; [by apply authorized_quiet in Ha; apply quiet_no_create in Hin|].
    apply list_elem_of_singleton in Hin. injection Hin as -> -> ->. by exists pre, now, eff, [].
  - apply elem_of_app in Hin as [Hin|Hin]; [by apply authorized_quiet in Ha; apply quiet_no_create in Hin|].
    rewrite !elem_of_cons, elem_of_nil in Hin. destruct Hin as [Hin|[Hin|[]]]; [|done].
    injection Hin as -> -> ->. by eexists pre, now, eff, _.
Qed.

(** ** Intents *)
Lemma intent_post_init_fields i j :
  DurableActionIntent_post_init i = Ok j →
  intent_action_key j = intent_action_key i ∧ intent_merchant_id j = intent_merchant_id i
  ∧ intent_account_id j = intent_account_id i ∧ intent_proposal_digest j = intent_proposal_digest i
  ∧ intent_plan_digest j = intent_plan_digest i ∧ intent_request_digest j = intent_request_digest i
  ∧ intent_payload_digest j = intent_payload_digest i ∧ intent_reference_id j = intent_reference_id i.
Proof. unfold DurableActionIntent_post_init. intros H. inv_ok. by subst. Qed.

Lemma intent_matches_true i c :
  intent_matches i c = Ok true →
  action_key (proposal c) = Ok (intent_action_key i)
  ∧ intent_merchant_id i = proposal_merchant_id (proposal c) ∧ intent_account_id i = provider_account_id c
  ∧ proposal_digest (proposal c) = Ok (intent_proposal_digest i)
  ∧ decision_digest (prior_plan c) = Ok (intent_plan_digest i)
  ∧ request_digest c = Ok (intent_request_digest i)
  ∧ command_payload_digest c = Ok (intent_payload_digest i)
  ∧ intent_reference_id i = reference_id (request c).
Proof.
  unfold intent_matches, and_then. intros H. inv_ok.
  destruct (_ && _) eqn:E1 in H; [|done]. inv_ok.
  destruct (bool_decide _) eqn:E2 in H; [|done]. inv_ok.
  destruct (bool_decide _) eqn:E3 in H; [|done]. inv_ok.
  destruct (bool_decide _) eqn:E4 in H; [|done]. inv_ok. bools.
  split_and!; congruence.
Qed.

Lemma request_digest_binds c c' h :
  request_ok (request c) → request_ok (request c') → request_digest c = Ok h → request_digest c' = Ok h →
  same_request (request c) (request c') ∨ sha_collision.
Proof.
  unfold request_digest, payment_link_request_digest. intros Hr Hr' H H'.
  destruct (to_json_bytes (request c) None) as [b|] eqn:Eb; [|done].
  destruct (to_json_bytes (request c') None) as [b'|] eqn:Eb'; [|done].
  rewrite bind_Ok_l in H, H'. rewrite <- H' in H. apply Ok_inj, sha256_hex_inj in H.
  destruct (decide (b = b')) as [<-|]; [left; by eapply request_bytes_inj|right; by exists b, b'].
Qed.

(** * Properties *)

(** C15: no blind duplicate: over any number of deliveries of a job, with
    crashes, lost fences, expired leases, exceptions and arbitrary answers of
    every port, a second create is only ever sent after the provider answered
    the previous one with a certain failure, or after a completed lookup that
    found no link for it; and the creates never outnumber the attempt budget. *)
Theorem no_blind_create c id key digest now maximum available job0 job h :
  create id key digest now maximum available = Ok job0 →
  rtc (delivery c) (job0, []) (job, h) →
  (∀ h1 r a answer h2 r' a' answer' h3,
     h = h1 ++ LinkCreated r a answer :: h2 ++ LinkCreated r' a' answer' :: h3 →
     (∃ o, answer = Ok o ∧ outcome_status o = CERTAIN_FAILURE)
     ∨ ∃ reference account lookup,
         LinksLookedUp reference account (Ok lookup) ∈ h2 ∧ proves_absence lookup = true)
  ∧ Z.of_nat (creates h) <= maximum.
Proof.
  intros Hc Hd. pose proof (deliveries_ok _ _ _ _ Hd (created_deliverable _ _ _ _ _ _ _ Hc)) as [[Hok Hm] Hb (u & Hu & _)].
  cbn [fst snd] in *. split.
  - intros h1 r a answer h2 r' a' answer' h3 ->. rewrite scan_app in Hu.
    destruct (scan false h1) as [u1|]; [|done]. rewrite bind_Some_l in Hu.
    eapply (scan_create_next r a answer h2 r' a' answer' h3 u1). by rewrite Hu.
  - destruct (fact_attempts _ (job_ok_facts _ Hok)). lia.
Qed.

(** C16: a create is authorized: when an execution sends a create, it is the
    command's request on the command's account, the delivery is not reconcile-only,
    and before it the execution proved the lease at the clock reading [now],
    the binding of job, command and durable intent, and every condition of the
    effect gate on a context evaluated at [now] with the intent recorded; the
    expiry is valid at [now], and a recorder accepted the authorization first. *)
Theorem create_is_authorized self job c w t l r req account answer :
  execute self job c w t = (t ++ l, r) → LinkCreated req account answer ∈ l →
  req = request c ∧ account = provider_account_id c ∧ retry_mode job ≠ RECONCILE_ONLY
  ∧ ∃ l1 l2 now effect fresh context intent m,
      l = l1 ++ LinkCreated req account answer :: l2 ∧ last (List.filter is_clock l1) = Some (ClockRead (Ok now))
      ∧ holds_lease job w (lease_token_of job) now
      ∧ IntentLoaded (job_action_key job) account (Ok (Some intent)) ∈ l1
      ∧ intent_matches intent c = Ok true
      ∧ action_key (proposal c) = Ok (job_action_key job)
      ∧ command_payload_digest c = Ok (payload_digest job)
      ∧ amount (proposal c) = Some m ∧ minor_units m = amount_minor req ∧ currency m = request_currency req
      ∧ effect_context fresh now true = Ok context
      ∧ gate_spec (gate self) EFFECT (proposal c) context (Some (prior_plan c))
      ∧ is_ok (validate_expiry req (int_timestamp now)) = true
      ∧ (is_Some (authorization_recorder self) →
         AuthorizationRecorded (mkEffectAuthorization job c effect context w false) (Ok tt) ∈ l1).
Proof.
  intros H Hin. apply run_execution in H.
  assert (Hcase : ∃ pre now effect l2, authorized self job c w now effect pre
    ∧ l = pre ++ LinkCreated req account answer :: l2
    ∧ req = request c ∧ account = provider_account_id c ∧ retry_mode job ≠ RECONCILE_ONLY
    ∧ is_ok (validate_expiry req (int_timestamp now)) = true).
  { apply (execution_create _ _ _ _ _ _ _ _ _ H Hin). }
  destruct Hcase as (pre & now & effect & l2 & [(st & i & f & ctx & -> & Hb & Hctx & Heff) Hall Hlease] & -> & -> & -> & Hm & Hv).
  destruct (binding_ok _ _ _ Hb) as (i' & m & [= <-] & ? & ? & ? & ? & ? & ? & ?).
  split_and!; [done..|]. eexists _, l2, now, effect, f, ctx, i, m. split; [reflexivity|].
  apply (evaluate_allowed _ _ _ _ _ _ Heff) in Hall.
  split_and!; try done.
  - unfold recorded. destruct (authorization_recorder self); done.
  - right. left.
  - intros [rc Hrc]. unfold recorded. rewrite Hrc, bool_decide_false by done. set_solver.
Qed.

(** one execution sends at most one create and at most one lookup, and a
    reconcile-only delivery sends no create. *)
Theorem one_create_per_delivery self job c w t l r :
  execute self job c w t = (t ++ l, r) →
  (creates l <= 1)%nat ∧ (lookups l <= 1)%nat ∧ (retry_mode job = RECONCILE_ONLY → creates l = 0%nat).
Proof. intros H%run_execution. by eapply execution_counts. Qed.

(** what a result reports is what the provider said: a result with a link
    completed the job with that link, which either the provider confirmed as
    created in this execution or a completed lookup showed as the single link
    matching the command; every other result carries no link. *)
Theorem result_link_is_proved self job c w t l res :
  request_facts (request c) → job_state job = LEASED →
  execute self job c w t = (t ++ l, Ok res) →
  match result_link res with
  | Some link =>
      job_state (result_job res) = COMPLETED ∧ completion_reference (result_job res) = Some link
      ∧ ((disposition res = CREATED
          ∧ ∃ o, LinkCreated (request c) (provider_account_id c) (Ok o) ∈ l
                 ∧ outcome_status o = CERTAIN_SUCCESS ∧ outcome_link o = Some link)
         ∨ (disposition res = ADOPTED
            ∧ ∃ lookup o, LinksLookedUp (reference_id (request c)) (provider_account_id c) (Ok lookup) ∈ l
                ∧ completed lookup = true ∧ candidates lookup = [JDict o]
                ∧ proves_create (request c) link o))
  | None => disposition res ≠ CREATED ∧ disposition res ≠ ADOPTED
  end.
Proof.
  intros Hf Hl H%run_execution.
  assert (Hsettle : ∀ now effect (answer : result PaymentLinkLookupResult),
    (lookup ← answer; settle self job c w now effect lookup) = Ok res →
    LinksLookedUp (reference_id (request c)) (provider_account_id c) answer ∈ l →
    match result_link res with
    | Some link =>
      job_state (result_job res) = COMPLETED ∧ completion_reference (result_job res) = Some link
      ∧ disposition res = ADOPTED
      ∧ ∃ lookup o, LinksLookedUp (reference_id (request c)) (provider_account_id c) (Ok lookup) ∈ l
          ∧ completed lookup = true ∧ candidates lookup = [JDict o] ∧ proves_create (request c) link o
    | None => disposition res ≠ CREATED ∧ disposition res ≠ ADOPTED
    end).
  { intros now effect [lookup|e] E Hin; [|done]. rewrite bind_Ok_l in E.
    apply settle_link in E as [(-> & ?)|(link & o & -> & ? & ? & ? & ? & ? & ?)]; [done| |done|done].
    split_and!; try done. by exists lookup, o. }
  destruct (execution_link _ _ _ _ _ _ Hl H) as [Hn|[(o & link & ? & ? & ? & ? & Hlink & ? & ?)|(now & eff & a & Hr & Hin)]].
  - destruct Hn as (-> & ? & ?). done.
  - rewrite Hlink. split_and!; try done. left. split; [done|]. by exists o.
  - specialize (Hsettle now eff a (eq_sym Hr) Hin). destruct (result_link res); [|done].
    destruct Hsettle as (? & ? & ? & ?). split_and!; auto.
Qed.

(** a durable intent pins one command: the intent recorded for a command
    matches it, and any command it matches has the same merchant, account,
    action key, proposal and plan digests, and the same provider request, unless
    two different texts have one SHA-256 digest. *)
Theorem intent_binds_command c c' at_ i :
  request_ok (request c) → request_ok (request c') → record_intent c at_ = Ok i →
  intent_matches i c = Ok true
  ∧ (intent_matches i c' = Ok true →
     proposal_merchant_id (proposal c) = proposal_merchant_id (proposal c')
     ∧ provider_account_id c = provider_account_id c'
     ∧ action_key (proposal c) = action_key (proposal c')
     ∧ proposal_digest (proposal c) = proposal_digest (proposal c')
     ∧ decision_digest (prior_plan c) = decision_digest (prior_plan c')
     ∧ (same_request (request c) (request c') ∨ sha_collision)).
Proof.
  intros Hr Hr' H. assert (Hm : intent_matches i c = Ok true).
  { unfold record_intent in H. inv_ok. apply intent_post_init_fields in H. destruct H as (E1&E2&E3&E4&E5&E6&E7&E8).
    unfold intent_matches, and_then. cbn in *.
    repeat match goal with E : _ = Ok _ |- _ => rewrite E; clear E end.
    rewrite !bind_Ok_l. by rewrite !bool_decide_true by congruence. }
  split; [done|]. intros Hm'.
  apply intent_matches_true in Hm as (E1 & E2 & E3 & E4 & E5 & E6 & _ & _).
  apply intent_matches_true in Hm' as (F1 & F2 & F3 & F4 & F5 & F6 & _ & _).
  split_and!; try congruence. by eapply request_digest_binds.
Qed.

(** * Witnesses *)
Definition sample_now : datetime := utc 63082281600000000.
Definition sample_order : StandardPaymentLinkRequest :=
  mkStandardPaymentLinkRequest 10000 ($"INR") ($"rtw_case1_abc") ($"Order 1") (int_timestamp sample_now + 3600)
    [($"case", $"case_1")] None.

Definition or_default {A} (d : A) (r : result A) : A := match r with Ok a => a | Raise _ => d end.

Definition empty_decision : GateDecision :=
  mkGateDecision POLICY [] [] [] [] [] 0 0 sample_now [].
Definition sample_plan : GateDecision :=
  or_default empty_decision (evaluate_policy sample_policy sample_proposal (sample_context ASSESSING None)).
Definition sample_command : CreatePaymentLinkCommand :=
  mkCreatePaymentLinkCommand sample_proposal sample_plan sample_order ($"acc_1").

(** Ports of a provider that answers a create with [outcome] and a lookup with
    [lookup]. *)
Definition sample_executor (outcome : result ProviderCreateOutcome)
    (lookup : result PaymentLinkLookupResult) : CreatePaymentLinkExecutor :=
  mkExecutor sample_policy
    (λ _ _ _, i ← record_intent sample_command sample_now; Ok (Some i))
    (λ _ _ _ _, Ok (sample_context ACTION_QUEUED None))
    (λ _ _ _, outcome) (λ _ _ _, lookup) (λ _, Ok sample_now) (mkBackoffPolicy 1000000 5000000)
    (Some (λ _ _, Ok tt)).

(** A fresh job of [c], claimed at once. *)
Definition claimed_job (c : CreatePaymentLinkCommand) (now : datetime) : result OutboxJob :=
  key ← action_key (proposal c);
  digest ← command_payload_digest c;
  job ← create ($"job_1") key digest now 3 None;
  claim job ($"w1") now (seconds 30) 0.

Lemma claimed_job_Ok c now j :
  claimed_job c now = Ok j →
  ∃ key digest job, create ($"job_1") key digest now 3 None = Ok job
    ∧ claim job ($"w1") now (seconds 30) 0 = Ok j.
Proof.
  unfold claimed_job. intros H.
  apply bind_Ok in H as (key & _ & H). apply bind_Ok in H as (digest & _ & H).
  apply bind_Ok in H as (job & Hc & H). by exists key, digest, job.
Qed.

Definition sample_lease : OutboxJob := or_default sample_pending (claimed_job sample_command sample_now).

Lemma or_default_Ok {A} (d : A) r : is_ok r = true → r = Ok (or_default d r).
Proof. by destruct r. Qed.

Definition sample_success : CreatePaymentLinkExecutor :=
  sample_executor (succeeded ($"plink_1")) (Ok (mkPaymentLinkLookupResult false [])).
Definition sample_execution : list event * result ExecutionResult :=
  execute sample_success sample_lease sample_command ($"w1") [].

(** The sample order is created, on a lease, by an authorized effect. *)
Definition created_ok (x : list event * result ExecutionResult) : bool :=
  match x with
  | (l, Ok res) => existsb is_create l && bool_decide (job_state sample_lease = LEASED)
                   && bool_decide (disposition res = CREATED)
                   && is_ok (claimed_job sample_command sample_now)
                   && is_ok (record_intent sample_command sample_now)
  | _ => false
  end.

Lemma sample_execution_created : created_ok sample_execution = true.
Proof. vm_compute. reflexivity. Qed.

Lemma created_ok_facts x :
  created_ok x = true →
  ∃ l res, x = ([] ++ l, Ok res) ∧ (∃ r a y, LinkCreated r a y ∈ l)
    ∧ job_state sample_lease = LEASED
    ∧ is_ok (claimed_job sample_command sample_now) = true
    ∧ is_ok (record_intent sample_command sample_now) = true.
Proof.
  destruct x as [l [res|e]]; cbn [created_ok]; intros H; [|discriminate H]. exists l, res.
  apply andb_prop in H as [H H5]. apply andb_prop in H as [H H4].
  apply andb_prop in H as [H H3]. apply andb_prop in H as [H1 H2].
  split; [reflexivity|]. split; [|split; [exact (bool_decide_true_1 _ H2)|split; [exact H4|exact H5]]].
  apply existsb_exists in H1 as (e & Hin & He). apply list_elem_of_In in Hin.
  destruct e; try discriminate He. do 3 eexists. exact Hin.
Qed.

Lemma sample_lease_claimed :
  is_ok (claimed_job sample_command sample_now) = true →
  ∃ key digest job, create ($"job_1") key digest sample_now 3 None = Ok job
    ∧ claim job ($"w1") sample_now (seconds 30) 0 = Ok sample_lease.
Proof. intros H. exact (claimed_job_Ok sample_command sample_now _ (or_default_Ok sample_pending _ H)). Qed.

Lemma sample_order_ok : request_ok sample_order.
Proof.
  split; [vm_compute; reflexivity|apply (bool_decide_unpack _); vm_compute; exact I|].
  intros c H. discriminate H.
Qed.

Lemma no_blind_create_witness :
  ∃ key digest job0 h job, create ($"job_1") key digest sample_now 3 None = Ok job0
    ∧ rtc (delivery sample_command) (job0, []) (job, h) ∧ Z.of_nat (creates h) <= 3.
Proof.
  destruct (created_ok_facts _ sample_execution_created) as (l & res & Hx & _ & Hl & Hok & _).
  destruct (sample_lease_claimed Hok) as (key & digest & job0 & Hc & Hclaim).
  assert (Hd : rtc (delivery sample_command) (job0, []) (result_job res, [] ++ l)).
  { apply rtc_once. eapply deliver_execute; [exact Hclaim|exact Hl|exact Hx|].
    apply (persist_result _ _ res). reflexivity. }
  exists key, digest, job0, ([] ++ l), (result_job res). split; [exact Hc|]. split; [exact Hd|].
  exact (proj2 (no_blind_create sample_command _ _ _ _ _ _ _ _ _ Hc Hd)).
Defined.

Lemma create_is_authorized_witness :
  ∃ (l : list event) req account answer, LinkCreated req account answer ∈ l ∧ req = sample_order
    ∧ retry_mode sample_lease ≠ RECONCILE_ONLY.
Proof.
  destruct (created_ok_facts _ sample_execution_created) as (l & res & Hx & (r & a & x & Hin) & _).
  destruct (create_is_authorized _ _ _ _ _ _ _ _ _ _ Hx Hin) as (Hr & _ & Hm & _).
  exists l, r, a, x. split; [exact Hin|]. split; [exact Hr|exact Hm].
Defined.

Lemma one_create_per_delivery_witness :
  ∃ l r, sample_execution = ([] ++ l, r) ∧ (creates l <= 1)%nat.
Proof.
  destruct (created_ok_facts _ sample_execution_created) as (l & res & Hx & _). exists l, (Ok res). split; [exact Hx|].
  exact (proj1 (one_create_per_delivery _ _ _ _ _ _ _ Hx)).
Defined.

Lemma result_link_is_proved_witness :
  ∃ l res, sample_execution = ([] ++ l, Ok res)
    ∧ match result_link res with
      | Some link => job_state (result_job res) = COMPLETED | None => disposition res ≠ CREATED end.
Proof.
  destruct (created_ok_facts _ sample_execution_created) as (l & res & Hx & _ & Hl & _). exists l, res. split; [exact Hx|].
  pose proof (result_link_is_proved sample_success sample_lease sample_command ($"w1") [] l res
    (proj2 (request_facts_ok _ _ (request_valid _ sample_order_ok))) Hl Hx) as H.
  destruct (result_link res); [exact (proj1 H)|exact (proj1 H)].
Defined.

Lemma intent_binds_command_witness :
  ∃ i, record_intent sample_command sample_now = Ok i ∧ intent_matches i sample_command = Ok true.
Proof.
  destruct (created_ok_facts _ sample_execution_created) as (_ & _ & _ & _ & _ & _ & Hi). apply is_ok_true in Hi as [i Hi].
  exists i. split; [exact Hi|].
  exact (proj1 (intent_binds_command sample_command sample_command _ i sample_order_ok sample_order_ok Hi)).
Defined.

(** An escalation can fail: with enough reasons next to an authorization fault
    the dead-letter reason exceeds 512 characters, and the execution raises
    instead of dead-lettering the job. *)
Definition failing_context : GateContext :=
  mkGateContext ($"merchant_2") ($"case_2") sample_now 0 1 DORMANT
    (mkProviderSnapshot PAID (mkMoney 10000 ($"USD")) ($"card") (utc 0) 1 CONFIRMED (utc 0))
    false None true true true false None 0 false 9 true true None true.

Definition failing_executor : CreatePaymentLinkExecutor :=
  mkExecutor sample_policy (load_durable_intent sample_success) (λ _ _ _ _, Ok failing_context)
    (create_standard_payment_link sample_success) (lookup_payment_links sample_success)
    (clock sample_success) (backoff sample_success) None.

Lemma long_escalation_raises :
  snd (execute failing_executor sample_lease sample_command ($"w1") [])
  = Raise (ValueError "reason must be clean, non-empty text").
Proof. vm_compute. reflexivity. Qed.
