(* ===== verification/Adapter.v ===== *)
(** [services/control_plane/razorpay_test_adapter.py]: the Test Mode adapter of
    the provider's HTTP interface: what it sends, how it reads answers, and how
    it classifies the outcome of a create and of a cancellation.  The HTTP
    client is a port: a request is answered with an exception or with a status,
    headers and the chunks of a body that may break off. *)
From S2P Require Import Prelude PyStr PyTime Json Values Text PaymentLinks Reader Effects CommandCodec Executor.

(** * Vocabulary *)
Definition _PAYMENT_LINKS_PATH : pystr := $"/v1/payment_links".
Definition _PAYMENTS_PATH : pystr := $"/v1/payments".
Definition _ORDERS_PATH : pystr := $"/v1/orders".
Definition _MAX_RESPONSE_BYTES : Z := 256 * 1024.
Definition _MAX_LOOKUP_CANDIDATES : Z := 100.

(** [^prefix<p>{1,maximum}$] under [fullmatch]. *)
Definition prefixed_id (prefix : pystr) (p : Z → bool) (maximum : Z) (s : pystr) : bool :=
  starts_with prefix s
  && (let rest := drop (length prefix) s in between 1 maximum (str_len rest) && forallb p rest).

Definition id_char (c : Z) : bool := is_alnum c || one_of ($"_-") c.
Definition _PAYMENT_LINK_ID_RE : pystr → bool := prefixed_id ($"plink_") is_alnum 120.
Definition _PAYMENT_ID_RE : pystr → bool := prefixed_id ($"pay_") id_char 124.
Definition _ORDER_ID_RE : pystr → bool := prefixed_id ($"order_") id_char 122.

(** [^<head><tail>{0,maximum}$] under [fullmatch]. *)
Definition headed (head tail : Z → bool) (maximum : Z) (s : pystr) : bool :=
  match s with c :: rest => head c && (str_len rest <=? maximum) && forallb tail rest | [] => false end.
Definition _PAYMENT_METHOD_RE : pystr → bool :=
  headed is_lower (λ c, is_lower c || is_digit c || one_of ($"_-") c) 31.
Definition _MACHINE_FACT_RE : pystr → bool := headed is_alnum (λ c, is_alnum c || one_of ($"_.:-") c) 99.

Definition _CERTAIN_REJECT_STATUSES : list Z := [400; 401; 402; 403; 404; 405; 406; 410; 413; 415; 422].

Module PaymentLinkStatus.
Inductive payment_link_status := CREATED | PARTIALLY_PAID | EXPIRED | CANCELLED | PAID.
#[global] Instance payment_link_status_eq_dec : EqDecision payment_link_status.
Proof. solve_decision. Defined.
Definition value (s : payment_link_status) : pystr :=
  match s with
  | CREATED => $"created" | PARTIALLY_PAID => $"partially_paid" | EXPIRED => $"expired"
  | CANCELLED => $"cancelled" | PAID => $"paid"
  end.
Definition all : list payment_link_status := [CREATED; PARTIALLY_PAID; EXPIRED; CANCELLED; PAID].
End PaymentLinkStatus.

Module PaymentStatus.
Inductive payment_status := CREATED | AUTHORIZED | CAPTURED | REFUNDED | FAILED.
#[global] Instance payment_status_eq_dec : EqDecision payment_status.
Proof. solve_decision. Defined.
Definition value (s : payment_status) : pystr :=
  match s with
  | CREATED => $"created" | AUTHORIZED => $"authorized" | CAPTURED => $"captured"
  | REFUNDED => $"refunded" | FAILED => $"failed"
  end.
Definition all : list payment_status := [CREATED; AUTHORIZED; CAPTURED; REFUNDED; FAILED].
End PaymentStatus.

Module OrderStatus.
Inductive order_status := CREATED | ATTEMPTED | PAID.
#[global] Instance order_status_eq_dec : EqDecision order_status.
Proof. solve_decision. Defined.
Definition value (s : order_status) : pystr :=
  match s with CREATED => $"created" | ATTEMPTED => $"attempted" | PAID => $"paid" end.
Definition all : list order_status := [CREATED; ATTEMPTED; PAID].
End OrderStatus.

Module ProviderCancelStatus.
Inductive provider_cancel_status := CERTAIN_SUCCESS | CERTAIN_FAILURE | AMBIGUOUS.
#[global] Instance provider_cancel_status_eq_dec : EqDecision provider_cancel_status.
Proof. solve_decision. Defined.
End ProviderCancelStatus.

Export PaymentLinkStatus(payment_link_status, payment_link_status_eq_dec)
  PaymentStatus(payment_status, payment_status_eq_dec)
  OrderStatus(order_status, order_status_eq_dec)
  ProviderCancelStatus(provider_cancel_status, provider_cancel_status_eq_dec).

(** The lookup of a member of a [StrEnum] by its value. *)
Definition member {A} (value : A → pystr) (all : list A) (s : pystr) : option A :=
  find (λ a, bool_decide (value a = s)) all.

(** * Texts *)
Definition not_clean (field : string) : py_error := ValueError (field +:+ " must be clean, non-empty text").
Definition _clean_text (value : pystr) (field : string) (maximum : Z) : result pystr :=
  if clean_text maximum value then Ok value else Raise (not_clean field).

(** The exceptions of the adapter check their own reason code. *)
Definition read_error (reason_code : pystr) : py_error :=
  match _clean_text reason_code "reason_code" 128 with
  | Ok reason => RazorpayReadError (string_of reason)
  | Raise e => e
  end.

Definition _validate_payment_link_id (value : pystr) : result pystr :=
  if _PAYMENT_LINK_ID_RE value then Ok value else Raise (PaymentLinkValidationError "payment_link_id is invalid").

Definition _validate_reference_id (value : pystr) : result pystr :=
  if clean_text 40 value then Ok value else Raise (PaymentLinkValidationError "reference_id is invalid").

Definition _validate_short_url (value : pystr) : result unit :=
  raise_if ((2048 <? str_len value) || negb (starts_with ($"https://rzp.io/") value) || existsb is_control value)
    (PaymentLinkValidationError "short_url is not a trusted Razorpay HTTPS URL").

(** [needle in text], for a non-empty needle. *)
Fixpoint contains (needle text : pystr) : bool :=
  starts_with needle text || match text with [] => false | _ :: text => contains needle text end.

(** [text.replace(sub, "")], for a non-empty [sub]. *)
Fixpoint removed (sub : pystr) (skip : nat) (text : pystr) : pystr :=
  match text, skip with
  | [], _ => []
  | _ :: rest, S skip => removed sub skip rest
  | c :: rest, O => if starts_with sub text then removed sub (length sub - 1) rest else c :: removed sub 0 rest
  end.

(** [int(text)], on ASCII digits. *)
Fixpoint int_digits (after_digit : bool) (s : pystr) : option (list Z) :=
  match s with
  | [] => if after_digit then Some [] else None
  | c :: r =>
      if is_digit c then cons (char_digit c) <$> int_digits true r
      else if (c =? 95) && after_digit then int_digits false r else None
  end.
Definition py_int (text : pystr) : option Z :=
  let s := strip text in
  let '(sign, s) := match s with
                    | c :: r => if c =? 45 then (-1, r) else if c =? 43 then (1, r) else (1, s)
                    | [] => (1, s)
                    end in
  ds ← int_digits false s;
  if 4300 <? Z.of_nat (length ds) then None else Some (sign * undigits ds).

(** [hmac.compare_digest] of two strings. *)
Definition compare_digest (a b : pystr) : result bool :=
  if ascii_str a && ascii_str b then Ok (bool_decide (a = b))
  else Raise (TypeError "comparing strings with non-ASCII characters is not supported").

(** * Records *)

(** [value.get(key)], [value[key]], and the type tests of a field. *)
Definition item (key : string) (d : list (pystr * json)) : result json :=
  match dict_get ($key) d with Some v => Ok v | None => Raise (KeyError key) end.
Definition exactly_str (value : json) : result pystr :=
  match value with JStr s => Ok s | _ => Raise (ValueError "") end.
Definition exactly_int (value : json) : result Z :=
  match value with JInt n => Ok n | _ => Raise (ValueError "") end.
Definition exactly_bool (value : json) : result bool :=
  match value with JBool b => Ok b | _ => Raise (ValueError "") end.
Definition optional_int (value : json) : result (option Z) :=
  match value with JNull => Ok None | JInt n => Ok (Some n) | _ => Raise (ValueError "") end.
Definition member_or_raise {A} (value : A → pystr) (all : list A) (s : pystr) : result A :=
  match member value all s with Some a => Ok a | None => Raise (ValueError "not a valid member") end.

(** ** Payments *)
Record PaymentRecord := mkPaymentRecord {
  payment_id : pystr;
  payment_order_id : pystr;
  payment_status_ : payment_status;
  payment_amount_minor : Z;
  payment_currency : pystr;
  captured_minor : Z;
  refunded_minor : Z;
  payment_method : pystr;
  failure_facts : option pystr * option pystr * option pystr;
  payment_created_at : option Z
}.

Definition payment_invalid : py_error := RazorpayReadError "provider_payment_response_invalid".
Definition fact_ok (fact : option pystr) : bool := match fact with Some f => _MACHINE_FACT_RE f | None => false end.
Definition no_fact (fact : option pystr) : bool := bool_decide (fact = None).

Definition PaymentRecord_post_init (r : PaymentRecord) : result PaymentRecord :=
  let '(source, step, reason) := failure_facts r in
  let status := payment_status_ r in
  _ ← raise_if (negb (_PAYMENT_ID_RE (payment_id r))) payment_invalid;
  _ ← raise_if (negb (_ORDER_ID_RE (payment_order_id r))) payment_invalid;
  _ ← raise_if (payment_amount_minor r <=? 0) payment_invalid;
  _ ← raise_if (negb (is_currency (payment_currency r))) payment_invalid;
  _ ← raise_if (negb ((0 <=? refunded_minor r) && (refunded_minor r <=? captured_minor r)
                      && (captured_minor r <=? payment_amount_minor r))) payment_invalid;
  _ ← raise_if (negb (_PAYMENT_METHOD_RE (payment_method r))) payment_invalid;
  _ ← (if bool_decide (status = PaymentStatus.FAILED) then
         _ ← raise_if (negb (fact_ok source && fact_ok step && fact_ok reason)) payment_invalid;
         raise_if (negb (captured_minor r =? 0) || negb (refunded_minor r =? 0)) payment_invalid
       else raise_if (negb (no_fact source && no_fact step && no_fact reason)) payment_invalid);
  _ ← raise_if (match payment_created_at r with Some at_ => at_ <=? 0 | None => false end) payment_invalid;
  _ ← raise_if (bool_decide (status ∈ [PaymentStatus.CREATED; PaymentStatus.AUTHORIZED])
                && (negb (captured_minor r =? 0) || negb (refunded_minor r =? 0))) payment_invalid;
  _ ← raise_if (bool_decide (status ∈ [PaymentStatus.CAPTURED; PaymentStatus.REFUNDED])
                && (captured_minor r =? 0)) payment_invalid;
  _ ← raise_if (bool_decide (status = PaymentStatus.REFUNDED) && (refunded_minor r =? 0)) payment_invalid;
  Ok r.

Definition _provider_machine_fact (value : json) : pystr :=
  match value with JStr s => if _MACHINE_FACT_RE s then s else $"unknown" | _ => $"unknown" end.

Definition money_received : list payment_status := [PaymentStatus.CAPTURED; PaymentStatus.REFUNDED].

(** The body of the [try]. *)
Definition read_payment (d : list (pystr * json)) : result PaymentRecord :=
  payment_id ← item "id" d ≫= exactly_str;
  order_id ← item "order_id" d ≫= exactly_str;
  raw_status ← item "status" d ≫= exactly_str;
  amount ← item "amount" d ≫= exactly_int;
  currency ← item "currency" d ≫= exactly_str;
  amount_refunded ← exactly_int (default (JInt 0) (dict_get ($"amount_refunded") d));
  captured ← exactly_bool (default (JBool false) (dict_get ($"captured") d));
  method ← item "method" d ≫= exactly_str;
  created_at ← optional_int (json_get "created_at" d);
  status ← member_or_raise PaymentStatus.value PaymentStatus.all raw_status;
  _ ← raise_if (negb (eqb captured (bool_decide (status ∈ money_received)))) (ValueError "");
  let captured_minor := if (captured : bool) || bool_decide (status ∈ money_received) then amount else 0 in
  let fact name := Some (_provider_machine_fact (json_get name d)) in
  let facts := if bool_decide (status = PaymentStatus.FAILED)
               then (fact "error_source", fact "error_step", fact "error_reason") else (None, None, None) in
  PaymentRecord_post_init
    (mkPaymentRecord payment_id order_id status amount currency captured_minor amount_refunded method facts created_at).

(** [except (KeyError, TypeError, ValueError, RazorpayReadError): raise e]. *)
Definition read_or_raise {A} (m : result A) (e : py_error) : result A :=
  match m with
  | Raise (KeyError _) | Raise (RazorpayReadError _) => Raise e
  | Raise exc => Raise (if type_or_value_error exc then e else exc)
  | Ok a => Ok a
  end.

Definition PaymentRecord_from_provider (value : json) : result PaymentRecord :=
  match value with
  | JDict d => read_or_raise (read_payment d) payment_invalid
  | _ => Raise payment_invalid
  end.

(** ** Orders *)
Record OrderRecord := mkOrderRecord {
  order_id : pystr;
  order_amount_minor : Z;
  order_amount_paid_minor : Z;
  order_amount_due_minor : Z;
  order_currency : pystr;
  order_status_ : order_status;
  order_attempts : Z;
  order_created_at : Z
}.

Definition order_invalid : py_error := RazorpayReadError "provider_order_response_invalid".

Definition OrderRecord_post_init (r : OrderRecord) : result OrderRecord :=
  _ ← raise_if (negb (_ORDER_ID_RE (order_id r))) order_invalid;
  _ ← raise_if (order_amount_minor r <=? 0) order_invalid;
  _ ← raise_if (negb (between 0 (order_amount_minor r) (order_amount_paid_minor r))
                || negb (between 0 (order_amount_minor r) (order_amount_due_minor r))
                || negb (order_amount_paid_minor r + order_amount_due_minor r =? order_amount_minor r)) order_invalid;
  _ ← raise_if (negb (is_currency (order_currency r))) order_invalid;
  _ ← raise_if (order_attempts r <? 0) order_invalid;
  _ ← raise_if (order_created_at r <=? 0) order_invalid;
  _ ← raise_if (bool_decide (order_status_ r = OrderStatus.PAID)
                && (negb (order_amount_paid_minor r =? order_amount_minor r)
                    || negb (order_amount_due_minor r =? 0))) order_invalid;
  _ ← raise_if (bool_decide (order_status_ r = OrderStatus.CREATED) && negb (order_attempts r =? 0)) order_invalid;
  Ok r.

Definition read_order (d : list (pystr * json)) : result OrderRecord :=
  let entity := json_get "entity" d in
  _ ← raise_if (bool_decide (entity ≠ JNull) && bool_decide (entity ≠ JStr ($"order"))) (ValueError "");
  order_id ← item "id" d ≫= exactly_str;
  amount ← item "amount" d ≫= exactly_int;
  amount_paid ← item "amount_paid" d ≫= exactly_int;
  amount_due ← item "amount_due" d ≫= exactly_int;
  currency ← item "currency" d ≫= exactly_str;
  raw_status ← item "status" d ≫= exactly_str;
  attempts ← item "attempts" d ≫= exactly_int;
  created_at ← item "created_at" d ≫= exactly_int;
  status ← member_or_raise OrderStatus.value OrderStatus.all raw_status;
  OrderRecord_post_init (mkOrderRecord order_id amount amount_paid amount_due currency status attempts created_at).

Definition OrderRecord_from_provider (value : json) : result OrderRecord :=
  match value with
  | JDict d => read_or_raise (read_order d) order_invalid
  | _ => Raise order_invalid
  end.

(** ** Payment Links *)
Record PaymentLinkRecord := mkPaymentLinkRecord {
  record_link_id : pystr;
  record_reference_id : pystr;
  record_amount_minor : Z;
  record_amount_paid_minor : Z;
  record_currency : pystr;
  record_accept_partial : bool;
  record_upi_link : bool;
  record_status : payment_link_status;
  record_short_url : option pystr
}.

Definition link_invalid (message : string) : py_error := PaymentLinkValidationError message.

Definition PaymentLinkRecord_post_init (r : PaymentLinkRecord) : result PaymentLinkRecord :=
  let paid := record_amount_paid_minor r in
  let amount := record_amount_minor r in
  _ ← _validate_payment_link_id (record_link_id r);
  _ ← _validate_reference_id (record_reference_id r);
  _ ← raise_if (amount <=? 0) (link_invalid "amount must be a positive integer");
  _ ← raise_if ((paid <? 0) || (amount <? paid)) (link_invalid "amount_paid must be between zero and amount");
  _ ← raise_if (negb (is_currency (record_currency r)))
        (link_invalid "currency must be an uppercase three-letter code");
  _ ← match record_status r with
      | PaymentLinkStatus.PAID =>
          raise_if (negb (paid =? amount)) (link_invalid "paid link must have its full amount paid")
      | PaymentLinkStatus.PARTIALLY_PAID =>
          raise_if (negb ((0 <? paid) && (paid <? amount)))
            (link_invalid "partially paid link must have a proper partial amount")
      | _ =>
          raise_if (negb (paid =? 0))
            (link_invalid "created, cancelled, or expired no-partial link cannot have an amount paid")
      end;
  _ ← match record_short_url r with None => Ok tt | Some url => _validate_short_url url end;
  Ok r.

(** The type tests of [PaymentLinkRecord.from_provider]. *)
Definition link_str (value : json) (field : string) : result pystr :=
  match value with
  | JStr s => Ok s
  | _ => Raise (link_invalid ("provider Payment Link " +:+ field +:+ " is invalid"))
  end.
Definition link_int (value : json) (field : string) : result Z :=
  match value with
  | JInt n => Ok n
  | _ => Raise (link_invalid ("provider Payment Link " +:+ field +:+ " is invalid"))
  end.
Definition link_short_url (value : json) : result (option pystr) :=
  match value with JNull => Ok None | _ => Some <$> link_str value "short_url" end.
Definition link_status_of (value : json) : result payment_link_status :=
  status ← link_str value "status";
  match member PaymentLinkStatus.value PaymentLinkStatus.all status with
  | Some s => Ok s
  | None => Raise (link_invalid "provider Payment Link status is invalid")
  end.

Definition PaymentLinkRecord_from_provider (value : json) : result PaymentLinkRecord :=
  match value with
  | JDict d =>
      status ← link_status_of (json_get "status" d);
      short_url ← link_short_url (json_get "short_url" d);
      payment_link_id ← link_str (json_get "id" d) "id";
      reference_id ← link_str (json_get "reference_id" d) "reference_id";
      amount_minor ← link_int (json_get "amount" d) "amount";
      amount_paid_minor ← link_int (json_get "amount_paid" d) "amount_paid";
      currency ← link_str (json_get "currency" d) "currency";
      match json_get "accept_partial" d, json_get "upi_link" d with
      | JBool accept_partial, JBool upi_link =>
          PaymentLinkRecord_post_init
            (mkPaymentLinkRecord payment_link_id reference_id amount_minor amount_paid_minor currency
               accept_partial upi_link status short_url)
      | _, _ => Raise (link_invalid "provider Payment Link mode is invalid")
      end
  | _ => Raise (link_invalid "provider Payment Link must be an object")
  end.

Definition matches_create (self : PaymentLinkRecord) (r : StandardPaymentLinkRequest) : bool :=
  bool_decide (record_reference_id self = reference_id r)
  && (record_amount_minor self =? amount_minor r)
  && bool_decide (record_currency self = request_currency r)
  && negb (record_accept_partial self) && negb (record_upi_link self).

Definition to_reconciliation_candidate (self : PaymentLinkRecord) : json :=
  JDict [($"id", JStr (record_link_id self));
         ($"reference_id", JStr (record_reference_id self));
         ($"amount", JInt (record_amount_minor self));
         ($"currency", JStr (record_currency self));
         ($"accept_partial", JBool (record_accept_partial self));
         ($"upi_link", JBool (record_upi_link self));
         ($"status", JStr (PaymentLinkStatus.value (record_status self)))].

(** ** The outcome of a cancellation *)
Record ProviderCancelOutcome := mkProviderCancelOutcome {
  cancel_status : provider_cancel_status;
  cancel_reason : pystr;
  cancelled_link : option PaymentLinkRecord
}.

Definition ProviderCancelOutcome_post_init (o : ProviderCancelOutcome) : result ProviderCancelOutcome :=
  _ ← _clean_text (cancel_reason o) "reason_code" 128;
  if bool_decide (cancel_status o = ProviderCancelStatus.CERTAIN_SUCCESS) then
    match cancelled_link o with
    | None => Raise (ValueError "certain cancellation success requires a Payment Link")
    | Some r =>
        _ ← raise_if (bool_decide (record_status r ≠ PaymentLinkStatus.CANCELLED))
              (ValueError "certain cancellation success requires cancelled provider state");
        Ok o
    end
  else
    _ ← raise_if (match cancelled_link o with Some _ => true | None => false end)
          (ValueError "only certain cancellation success may contain a Payment Link");
    Ok o.

(** * HTTP *)

(** The answer to a request: the headers the adapter reads (in lower case, as
    the client gives them) and the body, chunk by chunk; [stream_end]: the
    exception that ends it early. *)
Record stream_response := mkStreamResponse {
  stream_status : Z;
  content_length : option pystr;
  content_type : option pystr;
  chunks : list bytes;
  stream_end : option py_error
}.

Inductive http_event :=
  | EpochRead (answer : result Z)
  | HttpCall (method path : pystr) (json_body : option json) (params : list (pystr * pystr))
      (answer : result stream_response).

Record RazorpayTestModePaymentLinkAdapter := mkAdapter {
  pinned_account : pystr;
  closed : bool;
  epoch_clock : list http_event → result Z;
  stream : pystr → pystr → option json → list (pystr * pystr) → list http_event → result stream_response
}.

(** [__init__], the client being what [stream] sends with. *)
Definition adapter_init (key_id key_secret account : pystr) clock stream_ : result RazorpayTestModePaymentLinkAdapter :=
  _ ← _clean_text key_id "key_id" 128;
  _ ← raise_if (starts_with ($"rzp_live_") key_id) (ValueError "live Razorpay credentials are out of scope");
  _ ← raise_if (negb (starts_with ($"rzp_test_") key_id)) (ValueError "Razorpay key id must be a test key");
  _ ← _clean_text key_secret "key_secret" 256;
  account ← _clean_text account "provider_account_id" 128;
  Ok (mkAdapter account false clock stream_).

(** [close]; closing the client has no other effect. *)
Definition close (self : RazorpayTestModePaymentLinkAdapter) : RazorpayTestModePaymentLinkAdapter :=
  mkAdapter (pinned_account self) true (epoch_clock self) (stream self).

Record _BufferedResponse := mkBufferedResponse {
  status_code : Z;
  buffered_type : option pystr;
  content : bytes
}.

Definition too_large_response : py_error := MalformedProviderResponse "response_too_large".

Definition declared_length_ok (header : option pystr) : result unit :=
  match header with
  | None => Ok tt
  | Some raw =>
      match py_int raw with
      | None => Raise (MalformedProviderResponse "response_content_length_invalid")
      | Some n => raise_if ((n <? 0) || (_MAX_RESPONSE_BYTES <? n)) too_large_response
      end
  end.

(** [for chunk in response.iter_bytes(): ...]. *)
Fixpoint read_chunks (content : bytes) (l : list bytes) (end_ : option py_error) : result bytes :=
  match l with
  | [] => match end_ with Some e => Raise e | None => Ok content end
  | chunk :: l =>
      let content := content ++ chunk in
      _ ← raise_if (_MAX_RESPONSE_BYTES <? Z.of_nat (length content)) too_large_response;
      read_chunks content l end_
  end.

Definition buffer (response : stream_response) : result _BufferedResponse :=
  _ ← declared_length_ok (content_length response);
  content ← read_chunks [] (chunks response) (stream_end response);
  Ok (mkBufferedResponse (stream_status response) (content_type response) content).

(** [response.headers.get("content-type", "").lower().split(";", 1)[0].strip()]. *)
Fixpoint before (sep : Z) (s : pystr) : pystr :=
  match s with [] => [] | c :: s => if c =? sep then [] else c :: before sep s end.
Definition media_type (header : option pystr) : pystr :=
  strip (before 59 (lower_ascii (default [] header))).
Definition json_media_type (t : pystr) : bool :=
  bool_decide (t = $"application/json")
  || starts_with (reverse ($"+json")) (reverse t).

Section responses.
Context (nesting_limit : nat).

Definition _decode_object (response : _BufferedResponse) : result (list (pystr * json)) :=
  _ ← raise_if (_MAX_RESPONSE_BYTES <? Z.of_nat (length (content response))) too_large_response;
  _ ← raise_if (negb (json_media_type (media_type (buffered_type response))))
        (MalformedProviderResponse "response_content_type_invalid");
  match loads_bytes nesting_limit (content response) with
  | Raise UnicodeDecodeError | Raise JSONDecodeError => Raise (MalformedProviderResponse "response_json_invalid")
  | Raise e => Raise e
  | Ok (JDict d) => Ok d
  | Ok _ => Raise (MalformedProviderResponse "response_shape_invalid")
  end.

Definition _error_description (response : _BufferedResponse) : result pystr :=
  match _decode_object response with
  | Raise (MalformedProviderResponse _) => Ok []
  | Raise e => Raise e
  | Ok d =>
      Ok match json_get "error" d with
         | JDict error => match json_get "description" error with JStr s => casefold s | _ => [] end
         | _ => []
         end
  end.

Definition _is_duplicate_reference (response : _BufferedResponse) : result bool :=
  if negb (status_code response =? 400) then Ok false
  else
    description ← _error_description response;
    Ok (contains ($"reference") description
        && (contains ($"already exists") description || contains ($"given reference_id") description)).

Definition _is_update_in_progress (response : _BufferedResponse) : result bool :=
  description ← _error_description response;
  Ok (contains ($"update") description && contains ($"progress") description).

Definition _transport_reason (class : transport_error) : pystr :=
  match class with
  | ConnectTimeout => $"provider_connect_timeout_unknown_outcome"
  | ReadTimeout => $"provider_read_timeout_unknown_outcome"
  | WriteTimeout => $"provider_write_timeout_unknown_outcome"
  | PoolTimeout => $"provider_pool_timeout_before_request"
  | OtherTimeout => $"provider_timeout_unknown_outcome"
  | OtherTransport => $"provider_transport_unknown_outcome"
  end.

(** [PaymentLinkRecord.from_provider(_decode_object(response))]. *)
Definition decode_link (response : _BufferedResponse) : result PaymentLinkRecord :=
  d ← _decode_object response; PaymentLinkRecord_from_provider (JDict d).

(** ** Operations *)
Context (self : RazorpayTestModePaymentLinkAdapter).

Definition _ensure_open : result unit :=
  raise_if (closed self) (RazorpayAdapterError "provider_adapter_closed").

Definition account_mismatch : py_error := ProviderAccountMismatchError "provider_account_binding_mismatch".

Definition _assert_account (account : pystr) : result unit :=
  _ ← _ensure_open;
  candidate ← match _clean_text account "provider_account_id" 128 with
              | Ok c => Ok c
              | Raise _ => Raise account_mismatch
              end;
  same ← compare_digest candidate (pinned_account self);
  raise_if (negb same) account_mismatch.

Abbreviation http A := (prog http_event A) (only parsing).

Definition _now_epoch : http Z :=
  value ← call (epoch_clock self) EpochRead;
  _ ← pure (raise_if (value <? 0) (ValueError "epoch_clock must return a non-negative integer"));
  mret value.

Definition _request (method path : pystr) (json_body : option json) (params : list (pystr * pystr)) :
    http _BufferedResponse :=
  response ← call (stream self method path json_body params) (HttpCall method path json_body params);
  pure (buffer response).

(** The part of [create_standard_payment_link] after the answer. *)
Definition create_outcome (r : StandardPaymentLinkRequest) (response : _BufferedResponse) :
    result ProviderCreateOutcome :=
  if status_code response =? 200 then
    match decode_link response with
    | Raise (PaymentLinkValidationError _) | Raise (MalformedProviderResponse _) =>
        ambiguous ($"provider_create_response_invalid")
    | Raise e => Raise e
    | Ok record =>
        if negb (matches_create record r) then ambiguous ($"provider_create_response_conflicts")
        else succeeded (record_link_id record)
    end
  else
    duplicate ← _is_duplicate_reference response;
    if (duplicate : bool) then ambiguous ($"provider_reference_exists_requires_lookup")
    else if bool_decide (status_code response ∈ _CERTAIN_REJECT_STATUSES)
    then failed_safely ($"provider_rejected_create_http_" ++ str_of_Z (status_code response))
    else ambiguous ($"provider_create_http_" ++ str_of_Z (status_code response) ++ $"_unknown_outcome").

(** Its [except] clauses. *)
Definition create_answer (r : StandardPaymentLinkRequest) (answer : result _BufferedResponse) :
    result ProviderCreateOutcome :=
  match answer with
  | Raise (MalformedProviderResponse _) => ambiguous ($"provider_create_response_invalid")
  | Raise (TransportError PoolTimeout) => failed_safely (_transport_reason PoolTimeout)
  | Raise (TransportError class) => ambiguous (_transport_reason class)
  | Raise e => Raise e
  | Ok response => create_outcome r response
  end.

Definition create_standard_payment_link (r : StandardPaymentLinkRequest) (account : pystr) :
    http ProviderCreateOutcome :=
  _ ← pure (_assert_account account);
  now ← _now_epoch;
  payload ← pure (to_payload r (Some now));
  attempt (_request ($"POST") _PAYMENT_LINKS_PATH (Some payload) []) (λ answer, pure (create_answer r answer)).

Definition read_result (answer : result _BufferedResponse) : result _BufferedResponse :=
  match answer with
  | Raise (MalformedProviderResponse _) => Raise (read_error ($"provider_read_response_too_large"))
  | Raise (TransportError class) => Raise (read_error (removed ($"_unknown_outcome") 0 (_transport_reason class)))
  | Raise e => Raise e
  | Ok response =>
      _ ← raise_if (negb (status_code response =? 200))
            (read_error ($"provider_read_http_" ++ str_of_Z (status_code response)));
      Ok response
  end.

Definition _read (path : pystr) (params : list (pystr * pystr)) : http _BufferedResponse :=
  attempt (_request ($"GET") path None params) (λ answer, pure (read_result answer)).

(** What [list_payment_links_by_reference] makes of the answer. *)
Definition listed_records (reference : pystr) (response : _BufferedResponse) : result (list PaymentLinkRecord) :=
  decoded ← match _decode_object response with
            | Raise (MalformedProviderResponse _) => Raise (read_error ($"provider_lookup_response_invalid"))
            | r => r
            end;
  match json_get "payment_links" decoded with
  | JList raw_links =>
      _ ← raise_if (_MAX_LOOKUP_CANDIDATES <? Z.of_nat (length raw_links))
            (read_error ($"provider_lookup_response_invalid"));
      records ← match mapM PaymentLinkRecord_from_provider raw_links with
                | Raise (PaymentLinkValidationError _) => Raise (read_error ($"provider_lookup_candidate_invalid"))
                | r => r
                end;
      _ ← raise_if (existsb (λ record, bool_decide (record_reference_id record ≠ reference)) records)
            (read_error ($"provider_lookup_reference_mismatch"));
      Ok records
  | _ => Raise (read_error ($"provider_lookup_response_invalid"))
  end.

Definition list_payment_links_by_reference (reference account : pystr) : http (list PaymentLinkRecord) :=
  _ ← pure (_assert_account account);
  reference ← pure (_validate_reference_id reference);
  response ← _read _PAYMENT_LINKS_PATH [($"reference_id", reference)];
  pure (listed_records reference response).

Definition lookup_payment_links (reference account : pystr) : http PaymentLinkLookupResult :=
  attempt (list_payment_links_by_reference reference account) (λ records,
    pure match records with
         | Raise (RazorpayReadError _) => PaymentLinkLookupResult_post_init (mkPaymentLinkLookupResult false [])
         | Raise e => Raise e
         | Ok records =>
             PaymentLinkLookupResult_post_init
               (mkPaymentLinkLookupResult true (map to_reconciliation_candidate records))
         end).

Definition fetch_payment_link (payment_link_id account : pystr) : http PaymentLinkRecord :=
  _ ← pure (_assert_account account);
  link ← pure (_validate_payment_link_id payment_link_id);
  response ← _read (_PAYMENT_LINKS_PATH ++ $"/" ++ link) [];
  pure (record ← match decode_link response with
                 | Raise (PaymentLinkValidationError _) | Raise (MalformedProviderResponse _) =>
                     Raise (read_error ($"provider_fetch_response_invalid"))
                 | r => r
                 end;
        same ← compare_digest (record_link_id record) link;
        _ ← raise_if (negb same) (read_error ($"provider_fetch_id_mismatch"));
        Ok record).

(** [except RazorpayReadError: raise; except Exception: raise e]. *)
Definition read_errors_only {A} (m : result A) (e : py_error) : result A :=
  match m with
  | Ok a => Ok a
  | Raise (RazorpayReadError reason) => Raise (RazorpayReadError reason)
  | Raise _ => Raise e
  end.

Definition fetch_payment (payment account : pystr) : http PaymentRecord :=
  _ ← pure (_assert_account account);
  _ ← pure (raise_if (negb (_PAYMENT_ID_RE payment)) (read_error ($"provider_payment_id_invalid")));
  response ← _read (_PAYMENTS_PATH ++ $"/" ++ payment) [];
  pure (record ← read_errors_only (d ← _decode_object response; PaymentRecord_from_provider (JDict d)) payment_invalid;
        same ← compare_digest (payment_id record) payment;
        _ ← raise_if (negb same) (read_error ($"provider_payment_id_mismatch"));
        Ok record).

Definition fetch_order (order account : pystr) : http OrderRecord :=
  _ ← pure (_assert_account account);
  _ ← pure (raise_if (negb (_ORDER_ID_RE order)) (read_error ($"provider_order_id_invalid")));
  response ← _read (_ORDERS_PATH ++ $"/" ++ order) [];
  pure (record ← read_errors_only (d ← _decode_object response; OrderRecord_from_provider (JDict d)) order_invalid;
        same ← compare_digest (order_id record) order;
        _ ← raise_if (negb same) (read_error ($"provider_order_id_mismatch"));
        Ok record).

Definition cancel_with (status : provider_cancel_status) (reason : pystr) : result ProviderCancelOutcome :=
  ProviderCancelOutcome_post_init (mkProviderCancelOutcome status reason None).

(** The part of [cancel_payment_link] after the answer. *)
Definition cancel_outcome (link : pystr) (response : _BufferedResponse) : result ProviderCancelOutcome :=
  if status_code response =? 200 then
    match decode_link response with
    | Raise (PaymentLinkValidationError _) | Raise (MalformedProviderResponse _) =>
        cancel_with ProviderCancelStatus.AMBIGUOUS ($"provider_cancel_response_invalid")
    | Raise e => Raise e
    | Ok record =>
        same ← compare_digest (record_link_id record) link;
        if negb same || bool_decide (record_status record ≠ PaymentLinkStatus.CANCELLED)
        then cancel_with ProviderCancelStatus.AMBIGUOUS ($"provider_cancel_response_conflicts")
        else ProviderCancelOutcome_post_init
               (mkProviderCancelOutcome ProviderCancelStatus.CERTAIN_SUCCESS ($"provider_confirmed_cancel")
                  (Some record))
    end
  else
    updating ← _is_update_in_progress response;
    if (updating : bool) then cancel_with ProviderCancelStatus.AMBIGUOUS ($"provider_cancel_update_in_progress")
    else if bool_decide (status_code response ∈ _CERTAIN_REJECT_STATUSES)
    then cancel_with ProviderCancelStatus.CERTAIN_FAILURE
           ($"provider_rejected_cancel_http_" ++ str_of_Z (status_code response))
    else cancel_with ProviderCancelStatus.AMBIGUOUS
           ($"provider_cancel_http_" ++ str_of_Z (status_code response) ++ $"_unknown_outcome").

Definition cancel_answer (link : pystr) (answer : result _BufferedResponse) : result ProviderCancelOutcome :=
  match answer with
  | Raise (MalformedProviderResponse _) =>
      cancel_with ProviderCancelStatus.AMBIGUOUS ($"provider_cancel_response_invalid")
  | Raise (TransportError PoolTimeout) =>
      cancel_with ProviderCancelStatus.CERTAIN_FAILURE (_transport_reason PoolTimeout)
  | Raise (TransportError class) => cancel_with ProviderCancelStatus.AMBIGUOUS (_transport_reason class)
  | Raise e => Raise e
  | Ok response => cancel_outcome link response
  end.

Definition cancel_path (link : pystr) : pystr := _PAYMENT_LINKS_PATH ++ $"/" ++ link ++ $"/cancel".
Definition cancel_payment_link (payment_link_id account : pystr) : http ProviderCancelOutcome :=
  _ ← pure (_assert_account account);
  link ← pure (_validate_payment_link_id payment_link_id);
  attempt (_request ($"POST") (cancel_path link) None []) (λ answer, pure (cancel_answer link answer)).
End responses.

(** * Lemmas *)

Lemma member_spec {A} (value : A → pystr) all s a : member value all s = Some a → a ∈ all ∧ value a = s.
Proof.
  unfold member. intros H. apply find_some in H as [Hin Hs].
  split; [by apply list_elem_of_In|by bools].
Qed.

Lemma adapter_clean_Ok v f m s : _clean_text v f m = Ok s ↔ s = v ∧ clean_text m v = true.
Proof. unfold _clean_text. destruct (clean_text m v); naive_solver. Qed.

Lemma compare_digest_Ok a b x : compare_digest a b = Ok x → x = bool_decide (a = b).
Proof. unfold compare_digest. destruct (_ && _); [by intros [=]|done]. Qed.

(** ** The body of a response *)

Lemma read_chunks_Ok content l end_ body :
  Z.of_nat (length content) <= _MAX_RESPONSE_BYTES → read_chunks content l end_ = Ok body →
  body = content ++ concat l ∧ end_ = None ∧ Z.of_nat (length body) <= _MAX_RESPONSE_BYTES.
Proof.
  revert content. induction l as [|chunk l IH]; intros content Hc H; cbn [read_chunks concat] in *.
  - destruct end_; [done|]. apply Ok_inj in H as <-. by rewrite app_nil_r.
  - inv_ok. bools. apply IH in H as (-> & -> & Hlen); [|done]. by rewrite app_assoc.
Qed.

Record buffered (response : stream_response) (b : _BufferedResponse) : Prop := {
  buffered_status : status_code b = stream_status response;
  buffered_header : buffered_type b = content_type response;
  buffered_whole : stream_end response = None;
  buffered_content : content b = concat (chunks response);
  buffered_bound : Z.of_nat (length (content b)) <= _MAX_RESPONSE_BYTES
}.

Lemma buffer_Ok response b : buffer response = Ok b → buffered response b.
Proof. unfold buffer. intros H. inv_ok. subst b. apply read_chunks_Ok in Hr0 as (-> & He & Hlen); [|done]. by split. Qed.

(** The answer to a request was read as [b]. *)
Definition answered (answer : result stream_response) (b : _BufferedResponse) : Prop :=
  ∃ response, answer = Ok response ∧ buffer response = Ok b.

Lemma request_run self method path json_body params t t' x :
  _request self method path json_body params t = (t', x) →
  ∃ answer, t' = t ++ [HttpCall method path json_body params answer]
    ∧ stream self method path json_body params t = answer ∧ x = (response ← answer; buffer response).
Proof.
  intros H. unfold _request in H. with_strategy transparent [call pure] unfold call, pure, mbind, prog_bind in H.
  destruct (stream self _ _ _ _ t) as [response|e]; injection H as <- <-; eexists; by split_and!.
Qed.

Lemma answered_iff (answer : result stream_response) b : (response ← answer; buffer response) = Ok b ↔ answered answer b.
Proof. by rewrite bind_Ok. Qed.

(** ** Reading a Payment Link *)

(** The link an answer with status 200 gives. *)
Definition answers_link (limit : nat) (b : _BufferedResponse) (record : PaymentLinkRecord) : Prop :=
  json_media_type (media_type (buffered_type b)) = true
  ∧ ∃ d, loads_bytes limit (content b) = Ok (JDict d) ∧ PaymentLinkRecord_from_provider (JDict d) = Ok record.

Lemma decode_object_Ok limit b d :
  _decode_object limit b = Ok d →
  json_media_type (media_type (buffered_type b)) = true ∧ loads_bytes limit (content b) = Ok (JDict d).
Proof.
  unfold _decode_object. intros H. inv_ok. bools.
  destruct (loads_bytes limit (content b)) as [[]|[]]; try done. by apply Ok_inj in H as ->.
Qed.

Lemma decode_link_Ok limit b record : decode_link limit b = Ok record → answers_link limit b record.
Proof. unfold decode_link. intros H. inv_ok. apply decode_object_Ok in Hr as [Ht Hl]. split; [done|]. by exists r. Qed.

(** What a record of a Payment Link is. *)
Record link_record (r : PaymentLinkRecord) : Prop := {
  link_record_id : _PAYMENT_LINK_ID_RE (record_link_id r) = true;
  link_record_reference : clean_text 40 (record_reference_id r) = true;
  link_record_amount : 0 < record_amount_minor r;
  link_record_paid : 0 <= record_amount_paid_minor r <= record_amount_minor r;
  link_record_currency : is_currency (record_currency r) = true;
  link_record_status :
    match record_status r with
    | PaymentLinkStatus.PAID => record_amount_paid_minor r = record_amount_minor r
    | PaymentLinkStatus.PARTIALLY_PAID => 0 < record_amount_paid_minor r < record_amount_minor r
    | _ => record_amount_paid_minor r = 0
    end
}.

Lemma link_post_init_Ok r r' : PaymentLinkRecord_post_init r = Ok r' → r' = r ∧ link_record r.
Proof.
  unfold PaymentLinkRecord_post_init, _validate_payment_link_id, _validate_reference_id. intros H. inv_ok. bools.
  destruct (_PAYMENT_LINK_ID_RE _) eqn:E1; [|done]. destruct (clean_text 40 _) eqn:E2; [|done].
  split; [done|]. split; [done..|lia|lia|done|]. by destruct (record_status r); bools; try lia; inv_ok; bools.
Qed.

(** The fields of a record are those of the object it was read from. *)
Record read_from (d : list (pystr * json)) (r : PaymentLinkRecord) : Prop := {
  read_id : json_get "id" d = JStr (record_link_id r);
  read_reference : json_get "reference_id" d = JStr (record_reference_id r);
  read_amount : json_get "amount" d = JInt (record_amount_minor r);
  read_amount_paid : json_get "amount_paid" d = JInt (record_amount_paid_minor r);
  read_currency : json_get "currency" d = JStr (record_currency r);
  read_partial : json_get "accept_partial" d = JBool (record_accept_partial r);
  read_upi : json_get "upi_link" d = JBool (record_upi_link r);
  read_status : json_get "status" d = JStr (PaymentLinkStatus.value (record_status r))
}.

Lemma link_str_Ok v f s : link_str v f = Ok s → v = JStr s.
Proof. destruct v; try done. by intros [= ->]. Qed.
Lemma link_int_Ok v f n : link_int v f = Ok n → v = JInt n.
Proof. destruct v; try done. by intros [= ->]. Qed.

Lemma from_provider_Ok v r :
  PaymentLinkRecord_from_provider v = Ok r → ∃ d, v = JDict d ∧ read_from d r ∧ link_record r.
Proof.
  destruct v as [| | | | | |d]; try done. cbn [PaymentLinkRecord_from_provider]. intros H. inv_ok.
  repeat match goal with
  | E : link_str _ _ = Ok _ |- _ => apply link_str_Ok in E
  | E : link_int _ _ = Ok _ |- _ => apply link_int_Ok in E
  end.
  destruct (json_get "accept_partial" d) eqn:E1; try done. destruct (json_get "upi_link" d) eqn:E2; try done.
  apply link_post_init_Ok in H as [-> H]. exists d. split; [done|]. split; [|done]. split; cbn; try congruence.
  unfold link_status_of in Hr. apply bind_Ok in Hr as (s & Hs & Hr). apply link_str_Ok in Hs.
  destruct (member _ _ _) eqn:E; [|done]. apply Ok_inj in Hr as ->. by apply member_spec in E as [_ ->].
Qed.

(** ** Candidates *)

Definition snapshot_of (r : PaymentLinkRecord) : _PaymentLinkSnapshot :=
  mkPaymentLinkSnapshot (record_link_id r) (record_reference_id r) (record_amount_minor r) (record_currency r)
    (record_accept_partial r) (record_upi_link r) (PaymentLinkStatus.value (record_status r)).

Lemma prefixed_id_visible prefix p m m' s :
  (∀ c, p c = true → visible c = true) → forallb visible prefix = true → prefix ≠ [] → str_len prefix + m <= m' →
  prefixed_id prefix p m s = true → clean_text m' s = true.
Proof.
  intros Hp Hpre Hne Hm H. unfold prefixed_id, starts_with in H. bools.
  assert (s = prefix ++ drop (length prefix) s) as Hs.
  { rewrite <- H at 1. by rewrite take_drop. }
  unfold between in H0. bools. rewrite clean_text_visible.
  - apply Z.leb_le. rewrite Hs. unfold str_len in *. rewrite length_app. lia.
  - rewrite Hs. by destruct prefix.
  - rewrite Hs, forallb_app, Hpre. cbn. apply forallb_forall. intros c Hc.
    apply Hp. by apply (proj1 (forallb_forall _ _) H1).
Qed.

Lemma status_known s : PaymentLinkStatus.value s ∈ _LINK_STATUSES.
Proof. destruct s; apply (bool_decide_unpack _); vm_compute; exact I. Qed.

(** A record's candidate is read back as the record. *)
Lemma candidate_snapshot r :
  link_record r → from_mapping (to_reconciliation_candidate r) = Ok (snapshot_of r).
Proof.
  intros [Hid Href Ham _ Hcur _]. apply from_mapping_Ok. split; cbn.
  - eexists. split; [reflexivity|]. done.
  - split_and!; try done; [|apply status_known].
    apply (prefixed_id_visible _ _ _ 128) in Hid; try done.
    intros c. unfold is_alnum, is_upper, is_lower, is_digit, visible, between. lia.
Qed.

Lemma matches_create_snapshot r q : matches (snapshot_of r) q = matches_create r q.
Proof. done. Qed.

(** ** The account and the state of the adapter *)

Lemma assert_account_Ok self account u :
  _assert_account self account = Ok u → closed self = false ∧ account = pinned_account self.
Proof.
  unfold _assert_account, _ensure_open. intros H. inv_ok. bools.
  destruct (_clean_text account _ _) as [c|] eqn:E; [|done]. apply adapter_clean_Ok in E as [-> _].
  injection Hr0 as <-. apply compare_digest_Ok in Hr1 as ->. split; [done|].
  by bools.
Qed.

(** ** Decoding, both ways *)

Lemma decode_link_iff limit response b record :
  buffer response = Ok b → decode_link limit b = Ok record ↔ answers_link limit b record.
Proof.
  intros Hb. split; [apply decode_link_Ok|]. intros (Ht & d & Hl & Hr). apply buffer_Ok in Hb as [_ _ _ _ Hlen].
  unfold decode_link, _decode_object. rewrite Ht, Hl. replace (_ <? _) with false by lia. done.
Qed.

Lemma create_post_init_same o o' : ProviderCreateOutcome_post_init o = Ok o' → o' = o.
Proof.
  unfold ProviderCreateOutcome_post_init. intros H. inv_ok. case_decide; [destruct (outcome_link o)|]; by inv_ok.
Qed.

(** * Properties *)

Section classification.
Context (limit : nat) (self : RazorpayTestModePaymentLinkAdapter).

(** What the classification of a create rests on: the client gave up before it
    had a connection; the provider refused the request for good; the provider
    answered with the very link that was asked for. *)
Definition not_sent (answer : result stream_response) : Prop := answer = Raise (TransportError PoolTimeout).
Definition create_refused (answer : result stream_response) : Prop :=
  ∃ b, answered answer b ∧ status_code b ∈ _CERTAIN_REJECT_STATUSES ∧ _is_duplicate_reference limit b = Ok false.
Definition create_confirmed (r : StandardPaymentLinkRequest) (answer : result stream_response) (link : pystr) : Prop :=
  ∃ b record, answered answer b ∧ status_code b = 200 ∧ answers_link limit b record
    ∧ matches_create record r = true ∧ record_link_id record = link.

(** The client waits for a connection only before it sends. *)
Definition pool_before_request : Prop := ∀ method path body params t response,
  stream self method path body params t = Ok response → stream_end response ≠ Some (TransportError PoolTimeout).

Lemma read_chunks_Raise content l end_ e :
  read_chunks content l end_ = Raise e → e = too_large_response ∨ end_ = Some e.
Proof.
  revert content. induction l as [|chunk l IH]; intros content H; cbn [read_chunks] in H.
  - destruct end_; [|done]. injection H as <-. by right.
  - apply bind_Raise in H as [H|(_ & _ & H)]; [|by eapply IH]. unfold raise_if in H.
    destruct (_ <? _); [|done]. injection H as <-. by left.
Qed.

Lemma buffer_Raise response e :
  buffer response = Raise e → (∃ m, e = MalformedProviderResponse m) ∨ stream_end response = Some e.
Proof.
  unfold buffer, declared_length_ok, raise_if. intros [H|(_ & _ & H)]%bind_Raise.
  - left. repeat case_match; simplify_eq; by eexists.
  - apply bind_Raise in H as [[->|H]%read_chunks_Raise|(? & _ & ?)]; [left; by eexists|by right|done].
Qed.

(** A request without a readable answer was not sent only when the client says so. *)
Lemma unanswered_sent method path body params t answer e :
  pool_before_request → stream self method path body params t = answer →
  (response ← answer; buffer response) = Raise e → not_sent answer ↔ e = TransportError PoolTimeout.
Proof.
  intros Hpool Hans Hb. unfold not_sent. destruct answer as [response|e']; cbn in Hb; [|naive_solver].
  split; [done|]. intros ->. apply buffer_Raise in Hb as [[m ?]|Hb]; [done|]. by apply (Hpool _ _ _ _ _ _ Hans) in Hb.
Qed.

(** The outcome of a create, by its status. *)
Lemma create_outcome_cases r response b o :
  buffer response = Ok b → create_outcome limit r b = Ok o →
  match outcome_status o with
  | CERTAIN_SUCCESS => ∃ link, create_confirmed r (Ok response) link ∧ outcome_link o = Some link
  | CERTAIN_FAILURE => create_refused (Ok response)
  | AMBIGUOUS => (∀ link, ¬ create_confirmed r (Ok response) link) ∧ ¬ create_refused (Ok response)
  end.
Proof.
  intros Hb. assert (answered (Ok response) b) as Ha by (by exists response).
  assert (∀ b', answered (Ok response) b' → b' = b) as Hsame.
  { intros b' (x & [= <-] & Hb'). congruence. }
  unfold create_outcome, ambiguous, failed_safely, succeeded. destruct (Z.eqb_spec (status_code b) 200) as [E|E].
  - assert (¬ create_refused (Ok response)) as Hno.
    { intros (b' & ->%Hsame & Hin & _). rewrite E in Hin. unfold _CERTAIN_REJECT_STATUSES in Hin. set_solver. }
    assert (∀ link, create_confirmed r (Ok response) link → ∃ record,
      decode_link limit b = Ok record ∧ matches_create record r = true) as Hconf.
    { intros link (b' & record & ->%Hsame & _ & Hl & Hm & _). exists record. by rewrite (decode_link_iff _ response). }
    destruct (decode_link limit b) as [record|e] eqn:Hd.
    + destruct (matches_create record r) eqn:Hm; cbn [negb]; intros ->%create_post_init_same; cbn.
      * exists (record_link_id record). split; [|done]. exists b, record. by apply decode_link_Ok in Hd.
      * split; [|done]. intros link (record' & [= <-] & Hm')%Hconf. congruence.
    + destruct e; try done; intros ->%create_post_init_same; cbn; (split; [|done]);
        intros link (record & ? & _)%Hconf; congruence.
  - assert (∀ link, ¬ create_confirmed r (Ok response) link) as Hno.
    { intros link (b' & record & ->%Hsame & ? & _). done. }
    intros H. inv_ok. rename r0 into duplicate. destruct duplicate.
    + apply create_post_init_same in H as ->. cbn. split; [done|]. intros (b' & ->%Hsame & _ & Hd). congruence.
    + case_bool_decide as Hin; apply create_post_init_same in H as ->; cbn.
      * by exists b.
      * split; [done|]. intros (b' & ->%Hsame & ? & _). done.
Qed.

Lemma create_answer_Raise r e o :
  create_answer limit r (Raise e) = Ok o →
  outcome_status o = match e with TransportError PoolTimeout => CERTAIN_FAILURE | _ => AMBIGUOUS end.
Proof. destruct e as []; try done; [|case_match]; by intros ->%create_post_init_same. Qed.

Lemma create_run r account t t' o :
  create_standard_payment_link limit self r account t = (t', Ok o) →
  closed self = false ∧ account = pinned_account self
  ∧ ∃ now, let sent := t ++ [EpochRead (Ok now)] in
      let answer := stream self ($"POST") _PAYMENT_LINKS_PATH (Some (request_payload r)) [] sent in
      t' = sent ++ [HttpCall ($"POST") _PAYMENT_LINKS_PATH (Some (request_payload r)) [] answer]
      ∧ validate_expiry r now = Ok tt ∧ create_answer limit r (response ← answer; buffer response) = Ok o.
Proof.
  intros H. apply run_pure_bind in H as (u & [Hc Ha]%assert_account_Ok & H).
  unfold _now_epoch in H. apply run_bind in H as (t1 & now & Hnow & H).
  apply run_call_bind in Hnow as (v & _ & Hnow). apply run_pure_bind in Hnow as (? & _ & [= <- <-]).
  apply run_pure_bind in H as (payload & Hp & H). unfold to_payload in Hp.
  apply bind_Ok in Hp as ([] & Hexp & [= <-]).
  apply run_attempt in H as (t2 & y & Hy & H). apply request_run in Hy as (answer & -> & <- & ->).
  apply run_pure in H as [-> H]. do 2 (split; [done|]). by exists v.
Qed.

Lemma create_answer_cases r method path body params t o :
  pool_before_request →
  let answer := stream self method path body params t in
  create_answer limit r (response ← answer; buffer response) = Ok o →
  match outcome_status o with
  | CERTAIN_SUCCESS => ∃ link, create_confirmed r answer link ∧ outcome_link o = Some link
  | CERTAIN_FAILURE => not_sent answer ∨ create_refused answer
  | AMBIGUOUS => (∀ link, ¬ create_confirmed r answer link) ∧ ¬ not_sent answer ∧ ¬ create_refused answer
  end.
Proof.
  intros Hpool answer H.
  destruct ((response ← answer; buffer response) : result _BufferedResponse) as [b|e] eqn:Hb.
  - apply answered_iff in Hb as (response & -> & Hb). apply (create_outcome_cases r response) in H; [|done].
    destruct (outcome_status o); [done|by right|]. destruct H. by split_and!.
  - assert (∀ b, ¬ answered answer b) as Hno by (intros b Hans'%answered_iff; congruence).
    apply (unanswered_sent _ _ _ _ _ answer _ Hpool eq_refl) in Hb.
    assert (∀ link, ¬ create_confirmed r answer link) as Hconf by (by intros link (b & ? & ?%Hno & _)).
    assert (¬ create_refused answer) as Href by (by intros (b & ?%Hno & _)).
    apply create_answer_Raise in H as ->.
    destruct e as []; (split_and!; [done| |done]; by intros ?%Hb) || idtac.
    destruct class; (split_and!; [done| |done]; by intros ?%Hb) || (left; by apply Hb).
Qed.

(** C13: the outcome of a create means what the executor takes it for.  One
    request is sent, the wire form of the command, by an open adapter pinned to
    the command's account.  Success exactly when the provider answered with the
    requested link, which is the link reported; certain failure exactly when
    nothing was sent or the provider refused for good and not because the
    reference exists; everything else is ambiguous. *)
Theorem create_outcome_meaning r account t t' o :
  pool_before_request → create_standard_payment_link limit self r account t = (t', Ok o) →
  closed self = false ∧ account = pinned_account self
  ∧ ∃ now answer,
      t' = t ++ [EpochRead (Ok now); HttpCall ($"POST") _PAYMENT_LINKS_PATH (Some (request_payload r)) [] answer]
      ∧ validate_expiry r now = Ok tt
      ∧ match outcome_status o with
        | CERTAIN_SUCCESS => ∃ link, create_confirmed r answer link ∧ outcome_link o = Some link
        | CERTAIN_FAILURE => not_sent answer ∨ create_refused answer
        | AMBIGUOUS => (∀ link, ¬ create_confirmed r answer link) ∧ ¬ not_sent answer ∧ ¬ create_refused answer
        end.
Proof.
  intros Hpool (Hc & Ha & now & -> & Hexp & H)%create_run. do 2 (split; [done|]). eexists now, _.
  split; [by rewrite <- app_assoc|]. split; [done|]. by eapply create_answer_cases.
Qed.

(** ** Lookups *)

(** The answer to a lookup: the links the provider lists, read one by one, all
    of them under the reference that was asked for. *)
Record links_listed (reference : pystr) (b : _BufferedResponse) (records : list PaymentLinkRecord) : Prop := {
  listed_object : ∃ d links, loads_bytes limit (content b) = Ok (JDict d) ∧ json_get "payment_links" d = JList links
    ∧ Z.of_nat (length links) <= _MAX_LOOKUP_CANDIDATES
    ∧ Forall2 (λ v r, PaymentLinkRecord_from_provider v = Ok r) links records;
  listed_reference : Forall (λ r, record_reference_id r = reference) records
}.

Lemma mapM_Ok {A B} (f : A → result B) l l' : mapM f l = Ok l' → Forall2 (λ a b, f a = Ok b) l l'.
Proof.
  revert l'. induction l as [|a l IH]; intros l' H; cbn in H; [by injection H as <-|].
  inv_ok. subst. constructor; [done|]. by apply IH.
Qed.

Lemma listed_records_Ok reference b records :
  listed_records limit reference b = Ok records → links_listed reference b records.
Proof.
  unfold listed_records. intros H. apply bind_Ok in H as (d & Hd & H).
  destruct (_decode_object limit b) as [d'|e] eqn:E; [|by destruct e].
  injection Hd as ->. apply decode_object_Ok in E as [_ E].
  destruct (json_get "payment_links" d) as [| | | | |links|] eqn:Hl; try done. inv_ok. bools.
  destruct (mapM _ links) as [rs|e] eqn:Hm; [|by destruct e]. apply Ok_inj in Hr0 as ->. subst.
  apply mapM_Ok in Hm. split; [by exists d, links|].
  apply Forall_forall. intros record Hin. destruct (decide (record_reference_id record = reference)) as [|Hne]; [done|].
  apply list_elem_of_In in Hin. exfalso.
  assert (existsb (λ r, bool_decide (record_reference_id r ≠ reference)) records = true) as He.
  { apply existsb_exists. exists record. split; [done|]. by apply bool_decide_eq_true. }
  congruence.
Qed.

(** Candidates that come from records decide as their records do. *)
Lemma decide_records q records :
  Forall link_record records →
  ∃ d, decide_ambiguous_create q (mkPaymentLinkLookupResult true (map to_reconciliation_candidate records)) = Ok d
  ∧ match records with
    | [] => create_action d = RETRY_CREATE_SAME_REFERENCE
    | [r] => if matches_create r q then create_action d = ADOPT_EXISTING ∧ adopted_link d = Some (record_link_id r)
             else create_action d = ESCALATE
    | _ => create_action d = ESCALATE
    end.
Proof.
  intros H. destruct records as [|r [|r' records]]; [by eexists| |by eexists].
  inversion_clear H as [|? ? Hr _]. unfold decide_ambiguous_create. cbn [completed candidates negb map].
  rewrite (candidate_snapshot r Hr), matches_create_snapshot. destruct (matches_create r q); by eexists.
Qed.

Lemma read_run path params t t' b :
  _read self path params t = (t', Ok b) →
  let answer := stream self ($"GET") path None params t in
  t' = t ++ [HttpCall ($"GET") path None params answer] ∧ answered answer b ∧ status_code b = 200.
Proof.
  intros H answer. apply run_attempt in H as (t1 & y & Hy & H). apply request_run in Hy as (a & -> & <- & ->).
  apply run_pure in H as [-> H]. split; [done|]. fold answer in H |- *.
  destruct ((response ← answer; buffer response) : result _BufferedResponse) as [b'|e] eqn:E; cbn in H.
  - symmetry in H. apply bind_Ok in H as (u & Hst & H). apply raise_if_Ok in Hst. apply Ok_inj in H as <-. bools.
    by apply answered_iff in E.
  - by destruct e.
Qed.

Lemma lookup_run reference account t t' l :
  lookup_payment_links limit self reference account t = (t', Ok l) → completed l = true →
  let answer := stream self ($"GET") _PAYMENT_LINKS_PATH None [($"reference_id", reference)] t in
  ∃ b records,
    t' = t ++ [HttpCall ($"GET") _PAYMENT_LINKS_PATH None [($"reference_id", reference)] answer]
    ∧ answered answer b ∧ status_code b = 200 ∧ links_listed reference b records
    ∧ l = mkPaymentLinkLookupResult true (map to_reconciliation_candidate records)
    ∧ Forall link_record records.
Proof.
  intros H Hcomp. apply run_attempt in H as (t1 & y & Hy & H). apply run_pure in H as [-> H]. symmetry in H.
  destruct y as [records|e]; [|destruct e; try done; cbn in H; by apply Ok_inj in H as <-].
  unfold PaymentLinkLookupResult_post_init in H. cbn in H. apply Ok_inj in H as <-.
  unfold list_payment_links_by_reference in Hy. apply run_pure_bind in Hy as (u & _ & Hy).
  apply run_pure_bind in Hy as (ref & Href & Hy). unfold _validate_reference_id in Href.
  destruct (clean_text 40 reference); [|done]. apply Ok_inj in Href as <-.
  apply run_bind in Hy as (t2 & b & Hb & Hy). apply read_run in Hb as (-> & Hans & Hst).
  apply run_pure in Hy as [-> Hy]. symmetry in Hy. apply listed_records_Ok in Hy. exists b, records.
  split_and!; try done. destruct Hy as [(? & ? & _ & _ & _ & Hall) _].
  clear -Hall. induction Hall as [|v r vs rs Hv _ IH]; [by constructor|]. constructor; [|done].
  by apply from_provider_Ok in Hv as (? & _ & _ & ?).
Qed.

(** C14: what a lookup proves.  An incomplete lookup has no candidates.  A
    completed one rests on one GET for the reference, answered with status 200
    and a list of at most 100 readable links, all under this reference; and the
    decision after an ambiguous create is a retry exactly when the list is
    empty, the adoption of a link exactly when it is the only one and matches
    the command, an escalation otherwise. *)
Theorem lookup_meaning reference account t t' l :
  lookup_payment_links limit self reference account t = (t', Ok l) →
  if completed l then
    ∃ answer b records,
      t' = t ++ [HttpCall ($"GET") _PAYMENT_LINKS_PATH None [($"reference_id", reference)] answer]
      ∧ answered answer b ∧ status_code b = 200 ∧ links_listed reference b records
      ∧ ∀ q, ∃ d, decide_ambiguous_create q l = Ok d
        ∧ (create_action d = RETRY_CREATE_SAME_REFERENCE ↔ records = [])
        ∧ (∀ link, create_action d = ADOPT_EXISTING ∧ adopted_link d = Some link ↔
             ∃ r, records = [r] ∧ matches_create r q = true ∧ record_link_id r = link)
        ∧ create_action d ≠ REQUERY
  else candidates l = [].
Proof.
  intros H. destruct (completed l) eqn:Hcomp.
  - destruct (lookup_run _ _ _ _ _ H Hcomp) as (b & records & -> & Hans & Hst & Hl & -> & Hrec).
    eexists _, b, records. split_and!; try done. intros q. destruct (decide_records q records Hrec) as (d & Hd & Hcase).
    exists d. split; [done|]. destruct records as [|r [|r' records]]; [|destruct (matches_create r q) eqn:Hm|].
    2: destruct Hcase as [Hcase Hlink].
    all: rewrite Hcase; split_and!; try done; intros link;
      (split; [naive_solver|intros (? & ? & ? & ?); simplify_eq; first [congruence|split; congruence]]).
  - apply run_attempt in H as (t1 & y & Hy & H). apply run_pure in H as [-> H]. symmetry in H.
    unfold PaymentLinkLookupResult_post_init in H.
    destruct y as [records|e]; [|destruct e; try done; cbn in H; by apply Ok_inj in H as <-].
    cbn in H. by apply Ok_inj in H as <-.
Qed.

(** ** Cancellations *)
Definition cancel_confirmed (link : pystr) (answer : result stream_response) (record : PaymentLinkRecord) : Prop :=
  ∃ b, answered answer b ∧ status_code b = 200 ∧ answers_link limit b record
    ∧ record_link_id record = link ∧ record_status record = PaymentLinkStatus.CANCELLED.
Definition cancel_refused (answer : result stream_response) : Prop :=
  ∃ b, answered answer b ∧ status_code b ∈ _CERTAIN_REJECT_STATUSES ∧ _is_update_in_progress limit b = Ok false.

Lemma cancel_post_init_same o o' : ProviderCancelOutcome_post_init o = Ok o' → o' = o.
Proof.
  unfold ProviderCancelOutcome_post_init. intros H. inv_ok.
  destruct (bool_decide _); [destruct (cancelled_link o)|]; by inv_ok.
Qed.

Lemma cancel_outcome_cases link response b o :
  buffer response = Ok b → cancel_outcome limit link b = Ok o →
  match cancel_status o with
  | ProviderCancelStatus.CERTAIN_SUCCESS =>
      ∃ record, cancel_confirmed link (Ok response) record ∧ cancelled_link o = Some record
  | ProviderCancelStatus.CERTAIN_FAILURE => cancel_refused (Ok response)
  | ProviderCancelStatus.AMBIGUOUS =>
      (∀ record, ¬ cancel_confirmed link (Ok response) record) ∧ ¬ cancel_refused (Ok response)
  end.
Proof.
  intros Hb. assert (answered (Ok response) b) as Ha by (by exists response).
  assert (∀ b', answered (Ok response) b' → b' = b) as Hsame by (intros b' (? & [= <-] & ?); congruence).
  unfold cancel_outcome, cancel_with. destruct (Z.eqb_spec (status_code b) 200) as [E|E].
  - assert (¬ cancel_refused (Ok response)) as Hno.
    { intros (b' & ->%Hsame & Hin & _). rewrite E in Hin. unfold _CERTAIN_REJECT_STATUSES in Hin. set_solver. }
    assert (∀ record, cancel_confirmed link (Ok response) record → decode_link limit b = Ok record
      ∧ record_link_id record = link ∧ record_status record = PaymentLinkStatus.CANCELLED) as Hconf.
    { intros record (b' & ->%Hsame & _ & Hl & Hm). by rewrite (decode_link_iff _ response). }
    destruct (decode_link limit b) as [record|e] eqn:Hd.
    + intros H. apply bind_Ok in H as (same & ->%compare_digest_Ok & H).
      destruct (negb _ || bool_decide _) eqn:Hm; apply cancel_post_init_same in H as ->; cbn.
      * split; [|done]. intros record' ([= <-] & H1 & H2)%Hconf. apply orb_true_iff in Hm as [Hm|Hm]; bools; done.
      * bools. apply dec_stable in Hm0. exists record. split; [|done]. exists b. by apply decode_link_Ok in Hd.
    + destruct e; try done; intros ->%cancel_post_init_same; cbn; (split; [|done]);
        intros record (? & _)%Hconf; congruence.
  - assert (∀ record, ¬ cancel_confirmed link (Ok response) record) as Hno.
    { intros record (b' & ->%Hsame & ? & _). done. }
    intros H. apply bind_Ok in H as ([|] & Hu & H).
    + apply cancel_post_init_same in H as ->. cbn. split; [done|]. intros (b' & ->%Hsame & _ & Hd). congruence.
    + case_bool_decide as Hin; apply cancel_post_init_same in H as ->; cbn.
      * by exists b.
      * split; [done|]. intros (b' & ->%Hsame & ? & _). done.
Qed.

Lemma cancel_answer_Raise link e o :
  cancel_answer limit link (Raise e) = Ok o →
  cancel_status o = match e with
                    | TransportError PoolTimeout => ProviderCancelStatus.CERTAIN_FAILURE
                    | _ => ProviderCancelStatus.AMBIGUOUS
                    end.
Proof. destruct e as []; try done; [|case_match]; by intros ->%cancel_post_init_same. Qed.

(** the outcome of a cancellation means what it says: success exactly when
    the provider answered that this very link is cancelled, a certain failure
    exactly when nothing was sent or the provider refused for good and no other
    update of the link is in progress; everything else is ambiguous. *)
Theorem cancel_outcome_meaning link account t t' o :
  pool_before_request → cancel_payment_link limit self link account t = (t', Ok o) →
  closed self = false ∧ account = pinned_account self ∧ _PAYMENT_LINK_ID_RE link = true
  ∧ ∃ answer, t' = t ++ [HttpCall ($"POST") (cancel_path link) None [] answer]
      ∧ match cancel_status o with
        | ProviderCancelStatus.CERTAIN_SUCCESS =>
            ∃ record, cancel_confirmed link answer record ∧ cancelled_link o = Some record
        | ProviderCancelStatus.CERTAIN_FAILURE => not_sent answer ∨ cancel_refused answer
        | ProviderCancelStatus.AMBIGUOUS =>
            (∀ record, ¬ cancel_confirmed link answer record) ∧ ¬ not_sent answer ∧ ¬ cancel_refused answer
        end.
Proof.
  intros Hpool H. apply run_pure_bind in H as (u & [Hc Ha]%assert_account_Ok & H).
  apply run_pure_bind in H as (link' & Hl & H). unfold _validate_payment_link_id in Hl.
  destruct (_PAYMENT_LINK_ID_RE link); [|done]. apply Ok_inj in Hl as <-.
  apply run_attempt in H as (t2 & y & Hy & H). apply request_run in Hy as (answer & -> & Hans & ->).
  apply run_pure in H as [-> H]. do 3 (split; [done|]). exists answer. symmetry in H. split; [done|].
  destruct ((response ← answer; buffer response) : result _BufferedResponse) as [b|e] eqn:Hb.
  - apply answered_iff in Hb as (response & -> & Hb). apply (cancel_outcome_cases link response) in H; [|done].
    destruct (cancel_status o); [done|by right|]. destruct H. by split_and!.
  - assert (∀ b, ¬ answered answer b) as Hno by (intros b Hans'%answered_iff; congruence).
    apply (unanswered_sent _ _ _ _ _ _ _ Hpool Hans) in Hb.
    assert (∀ record, ¬ cancel_confirmed link answer record) as Hconf by (by intros record (b & ?%Hno & _)).
    assert (¬ cancel_refused answer) as Href by (by intros (b & ?%Hno & _)).
    apply cancel_answer_Raise in H as ->.
    destruct e as []; (split_and!; [done| |done]; by intros ?%Hb) || idtac.
    destruct class; (split_and!; [done| |done]; by intros ?%Hb) || (left; by apply Hb).
Qed.

End classification.

(** ** Records *)

(** The exceptions [read_or_raise] replaces. *)
Definition replaced {A} (m : result A) : Prop :=
  match m with
  | Ok _ | Raise (KeyError _) | Raise (RazorpayReadError _) => True
  | Raise e => type_or_value_error e = true
  end.

Lemma replaced_bind {A B} (m : result A) (f : A → result B) :
  replaced m → (∀ a, replaced (f a)) → replaced (m ≫= f).
Proof. intros Hm Hf. destruct m as [a|e]; [apply Hf|]. by destruct e. Qed.
Lemma replaced_raise_if b e : replaced (A := unit) (Raise e) → replaced (raise_if b e).
Proof. by destruct b. Qed.
Lemma replaced_item key d : replaced (item key d).
Proof. unfold item. by destruct (dict_get _ _). Qed.
Lemma replaced_str v : replaced (exactly_str v).
Proof. by destruct v. Qed.
Lemma replaced_int v : replaced (exactly_int v).
Proof. by destruct v. Qed.
Lemma replaced_member {A} (value : A → pystr) all s : replaced (member_or_raise value all s).
Proof. unfold member_or_raise. by destruct (member _ _ _). Qed.
Lemma replaced_read {A} (m : result A) e : replaced m →
  match read_or_raise m e with Ok a => m = Ok a | Raise e' => e' = e end.
Proof. intros Hm. destruct m as [a|x]; [done|]. by destruct x; cbn in *; rewrite ?Hm. Qed.

Ltac replace_step :=
  lazymatch goal with
  | |- replaced (_ ≫= _) => apply replaced_bind; [|intros ?]
  | |- replaced (raise_if _ _) => by apply replaced_raise_if
  | |- replaced (item _ _) => apply replaced_item
  | |- replaced (exactly_str _) => apply replaced_str
  | |- replaced (exactly_int _) => apply replaced_int
  | |- replaced (member_or_raise _ _ _) => apply replaced_member
  | |- replaced (Ok _) => exact I
  | |- replaced (match ?x with _ => _ end) => destruct x
  end.

Lemma replaced_payment d : replaced (read_payment d).
Proof.
  unfold read_payment, PaymentRecord_post_init, optional_int, exactly_bool. repeat replace_step; done.
Qed.

Lemma replaced_order d : replaced (read_order d).
Proof. unfold read_order, OrderRecord_post_init. repeat replace_step; done. Qed.

(** What a payment is: no money without a status that says so. *)
Record payment_record (r : PaymentRecord) : Prop := {
  payment_ids : _PAYMENT_ID_RE (payment_id r) = true ∧ _ORDER_ID_RE (payment_order_id r) = true;
  payment_positive : 0 < payment_amount_minor r;
  payment_captured : captured_minor r = if bool_decide (payment_status_ r ∈ money_received) then payment_amount_minor r else 0;
  payment_refunded : 0 <= refunded_minor r <= captured_minor r;
  payment_refund_known : payment_status_ r = PaymentStatus.REFUNDED → 0 < refunded_minor r;
  payment_failure : let '(source, step, reason) := failure_facts r in
    if bool_decide (payment_status_ r = PaymentStatus.FAILED)
    then fact_ok source = true ∧ fact_ok step = true ∧ fact_ok reason = true
    else source = None ∧ step = None ∧ reason = None
}.

Lemma payment_post_init_Ok r r' :
  PaymentRecord_post_init r = Ok r' →
  captured_minor r = (if bool_decide (payment_status_ r ∈ money_received) then payment_amount_minor r else 0) →
  payment_record r'.
Proof.
  unfold PaymentRecord_post_init. destruct (failure_facts r) as [[source step] reason] eqn:Ef. intros H Hc. cbv zeta in H.
  inv_ok. subst r'. bools. split; [done|lia|done|lia| |].
  - intros Hs. apply andb_false_iff in Hr9 as [Hr9|Hr9]; [by apply bool_decide_false_1 in Hr9|]. bools. lia.
  - rewrite Ef. destruct (bool_decide (payment_status_ r = PaymentStatus.FAILED)); inv_ok; bools; [done|].
    unfold no_fact in *. by bools.
Qed.

Record order_record (r : OrderRecord) : Prop := {
  order_ids : _ORDER_ID_RE (order_id r) = true;
  order_positive : 0 < order_amount_minor r;
  order_balance : 0 <= order_amount_paid_minor r ∧ 0 <= order_amount_due_minor r
    ∧ order_amount_paid_minor r + order_amount_due_minor r = order_amount_minor r;
  order_paid : order_status_ r = OrderStatus.PAID → order_amount_due_minor r = 0;
  order_attempted : 0 <= order_attempts r ∧ (order_status_ r = OrderStatus.CREATED → order_attempts r = 0)
}.

Lemma order_post_init_Ok r r' : OrderRecord_post_init r = Ok r' → order_record r'.
Proof.
  unfold OrderRecord_post_init, between. intros H. inv_ok. subst r'. bools. split; [done|lia|lia| |split; [lia|]].
  - intros Hs. apply andb_false_iff in Hr5 as [Hr5|Hr5]; [by apply bool_decide_false_1 in Hr5|]. bools. lia.
  - intros Hs. apply andb_false_iff in Hr6 as [Hr6|Hr6]; [by apply bool_decide_false_1 in Hr6|]. bools. lia.
Qed.

Definition validation_error (e : py_error) : Prop := ∃ message, e = PaymentLinkValidationError message.

Lemma link_from_provider_Raise v e : PaymentLinkRecord_from_provider v = Raise e → validation_error e.
Proof.
  assert (∀ A (m : result A), validates m → m = Raise e → validation_error e) as H.
  { intros A m Hm ->. destruct e; try done. by eexists. }
  apply H. destruct v as [| | | | | |d]; try exact I. cbn [PaymentLinkRecord_from_provider].
  unfold link_status_of, link_short_url, PaymentLinkRecord_post_init, _validate_payment_link_id,
    _validate_reference_id, _validate_short_url, link_str, link_int, link_invalid.
  repeat lazymatch goal with
  | |- validates (_ ≫= _) => apply validates_bind; [|intros ?]
  | |- validates (raise_if _ _) => apply validates_raise_if
  | |- validates (Ok _) => exact I
  | |- validates (Raise _) => exact I
  | |- validates (_ <$> ?m) => destruct (json_get "short_url" d); exact I
  | |- validates (let _ := _ in _) => cbv zeta
  | |- validates (match ?x with _ => _ end) => destruct x
  end.
Qed.

(** every record the adapter returns is sound, whatever the provider's
    document: amounts are balanced and bounded, money is recorded only with a
    status that says so, failure facts only with a failure; and a document that
    gives no sound record is refused by the record's own exception. *)
Theorem provider_records_sound v :
  match PaymentRecord_from_provider v with Ok r => payment_record r | Raise e => e = payment_invalid end
  ∧ match OrderRecord_from_provider v with Ok r => order_record r | Raise e => e = order_invalid end
  ∧ match PaymentLinkRecord_from_provider v with Ok r => link_record r | Raise e => validation_error e end.
Proof.
  split_and!.
  - destruct v as [| | | | | |d]; try done. cbn [PaymentRecord_from_provider].
    pose proof (replaced_read _ payment_invalid (replaced_payment d)) as H.
    destruct (read_or_raise _ _) as [r|e]; [|done]. unfold read_payment in H. inv_ok. cbv zeta in H.
    apply payment_post_init_Ok in H; [done|]. cbn. bools.
    match goal with E : eqb _ _ = true |- _ => apply eqb_prop in E as -> end. by destruct (bool_decide _).
  - destruct v as [| | | | | |d]; try done. cbn [OrderRecord_from_provider].
    pose proof (replaced_read _ order_invalid (replaced_order d)) as H.
    destruct (read_or_raise _ _) as [r|e]; [|done]. unfold read_order in H. cbv zeta in H. inv_ok.
    by apply order_post_init_Ok in H.
  - destruct (PaymentLinkRecord_from_provider v) as [r|e] eqn:E.
    + by apply from_provider_Ok in E as (? & _ & _ & ?).
    + by apply link_from_provider_Raise in E.
Qed.

(** ** The account the adapter is pinned to *)

(** The operations of the adapter, and the account each is called with. *)
Inductive operation_call :=
  | CreateCall (r : StandardPaymentLinkRequest) (account : pystr)
  | LookupCall (reference account : pystr)
  | FetchLinkCall (link account : pystr)
  | FetchPaymentCall (payment account : pystr)
  | FetchOrderCall (order account : pystr)
  | CancelCall (link account : pystr).

Definition call_account (c : operation_call) : pystr :=
  match c with
  | CreateCall _ a | LookupCall _ a | FetchLinkCall _ a | FetchPaymentCall _ a | FetchOrderCall _ a | CancelCall _ a => a
  end.

Section pinned.
Context (limit : nat) (self : RazorpayTestModePaymentLinkAdapter).

Definition run_operation (c : operation_call) : prog http_event unit :=
  match c with
  | CreateCall r a => _ ← create_standard_payment_link limit self r a; mret tt
  | LookupCall ref a => _ ← lookup_payment_links limit self ref a; mret tt
  | FetchLinkCall l a => _ ← fetch_payment_link limit self l a; mret tt
  | FetchPaymentCall p a => _ ← fetch_payment limit self p a; mret tt
  | FetchOrderCall o a => _ ← fetch_order limit self o a; mret tt
  | CancelCall l a => _ ← cancel_payment_link limit self l a; mret tt
  end.

Definition is_http (e : http_event) : bool := match e with HttpCall _ _ _ _ _ => true | _ => false end.

(** At most one request, of a [POST] only when the operation is one. *)
Definition modest (post : bool) (l : list http_event) : Prop :=
  (length (List.filter is_http l) <= 1)%nat
  ∧ Forall (λ e, match e with HttpCall m _ _ _ _ => m = $"GET" ∨ post = true ∧ m = $"POST" | _ => True end) l.

Lemma modest_nil post : modest post [].
Proof. split; [cbn; lia|constructor]. Qed.

Lemma request_modest (post : bool) m path body params t :
  (m = $"GET" ∨ post = true ∧ m = $"POST") →
  emits (_request self m path body params) t (λ l _, modest post l).
Proof.
  intros Hm. unfold _request. assert (∀ a, modest post [HttpCall m path body params a]) as H.
  { intros a. split; [cbn; lia|constructor; [done|constructor]]. }
  apply emits_call_bind; [|by intros]. intros a _. apply emits_pure. apply H.
Qed.

Lemma read_modest {A} path params t (f : _BufferedResponse → result A) post :
  emits (response ← _read self path params; pure (f response)) t (λ l _, modest post l).
Proof.
  apply emits_bind, emits_attempt. eapply emits_mono; [apply (request_modest post); by left|].
  intros l a Hl. apply emits_pure. rewrite app_nil_r. destruct (read_result a) as [b|e]; [|done].
  apply emits_pure. by rewrite app_nil_r.
Qed.

(** After the account was proved. *)
Lemma asserted {A} account (k : prog http_event A) t post :
  (closed self = false → account = pinned_account self → emits k t (λ l _, modest post l)) →
  emits (_ ← pure (_assert_account self account); k) t (λ l _,
    (closed self = false ∧ account = pinned_account self) ∧ modest post l ∨ l = []).
Proof.
  intros H. apply emits_pure_bind; [|by right]. intros u [Hc Ha]%assert_account_Ok.
  eapply emits_mono; [by apply H|]. intros l r Hl. by left.
Qed.

Definition posts (c : operation_call) : bool := match c with CreateCall _ _ | CancelCall _ _ => true | _ => false end.

Lemma create_modest r account t :
  emits (create_standard_payment_link limit self r account) t (λ l _,
    (closed self = false ∧ account = pinned_account self) ∧ modest true l ∨ l = []).
Proof.
  apply asserted. intros _ _. unfold _now_epoch. apply emits_bind, emits_call_bind.
  2:{ intros e _. split; [cbn; lia|by repeat constructor]. }
  intros now _. apply emits_pure_bind; [|intros e _; split; [cbn; lia|by repeat constructor]].
  intros u _. apply emits_ret. apply emits_pure_bind; [|intros e _; split; [cbn; lia|by repeat constructor]].
  intros payload _. apply emits_attempt. eapply emits_mono; [apply (request_modest true); by right|].
  intros l r' [H1 H2]. apply emits_pure. rewrite app_nil_r. split; [done|]. by constructor.
Qed.

Lemma lookup_modest reference account t :
  emits (lookup_payment_links limit self reference account) t (λ l _,
    (closed self = false ∧ account = pinned_account self) ∧ modest false l ∨ l = []).
Proof.
  apply emits_attempt. eapply emits_mono.
  - apply (asserted _ _ _ false). intros _ _. apply emits_pure_bind; [|intros; apply modest_nil].
    intros ref _. apply read_modest.
  - intros l r H. apply emits_pure. by rewrite app_nil_r.
Qed.

(** the adapter is narrow: an operation sends at most one request, only
    while the adapter is open and only for the account it is pinned to, and
    only a create and a cancellation send anything but a GET. *)
Theorem adapter_pinned c t :
  emits (run_operation c) t (λ l _,
    (length (List.filter is_http l) <= 1)%nat
    ∧ Forall (λ e, match e with HttpCall m _ _ _ _ => m = $"GET" ∨ posts c = true ∧ m = $"POST" | _ => True end) l
    ∧ (List.filter is_http l ≠ [] → closed self = false ∧ call_account c = pinned_account self)).
Proof.
  assert (∀ A (m : prog http_event A) a post,
    emits m t (λ l _, (closed self = false ∧ a = pinned_account self) ∧ modest post l ∨ l = []) →
    emits (_ ← m; mret tt) t (λ l (_ : result unit), modest post l
      ∧ (List.filter is_http l ≠ [] → closed self = false ∧ a = pinned_account self))) as Hrun.
  { intros A m a post H. apply emits_bind. eapply emits_mono; [exact H|]. intros l [x|e] Hl;
      [apply emits_ret; rewrite app_nil_r|]; (destruct Hl as [[Hp Hl]| ->]; [by split|split; [apply modest_nil|done]]). }
  apply (emits_mono _ _ (λ l _, modest (posts c) l
    ∧ (List.filter is_http l ≠ [] → closed self = false ∧ call_account c = pinned_account self)));
    [|by intros l r [[? ?] ?]].
  destruct c as [r a|ref a|l a|p a|o a|l a]; cbn [run_operation posts call_account]; apply Hrun.
  - apply create_modest.
  - apply lookup_modest.
  - apply asserted. intros _ _. apply emits_pure_bind; [|intros; apply modest_nil]. intros; apply read_modest.
  - apply asserted. intros _ _. apply emits_pure_bind; [|intros; apply modest_nil]. intros; apply read_modest.
  - apply asserted. intros _ _. apply emits_pure_bind; [|intros; apply modest_nil]. intros; apply read_modest.
  - apply asserted. intros _ _. apply emits_pure_bind; [|intros; apply modest_nil]. intros link _.
    apply emits_attempt. eapply emits_mono; [apply (request_modest true); by right|].
    intros l' r' H. apply emits_pure. by rewrite app_nil_r.
Qed.
End pinned.

(** ** Documents the adapter does not classify *)

Lemma brackets_decoded n : decode_detected (repeat 91 (S n)) = Some (repeat 91 (S n)).
Proof.
  assert (∀ n, utf8_decode_pass (repeat 91 n) = Some (repeat 91 n)) as H.
  { clear. induction n as [|n IH]; [done|]. cbn [repeat utf8_decode_pass between Z.leb Z.compare andb]. by rewrite IH. }
  assert (∀ c p, c ≠ 91 → strip_prefix (c :: p) (repeat 91 (S n)) = None) as Hp.
  { intros c p Hc. unfold strip_prefix, starts_with. cbn [length repeat take]. rewrite bool_decide_eq_false_2; [done|].
    by intros [= ? _]. }
  unfold decode_detected. rewrite !Hp by lia. specialize (H (S n)).
  destruct n as [|[|[|n]]]; exact H.
Qed.

(** A body nested deeper than the recursion limit is not malformed: it raises
    [RecursionError] out of every operation that reads it. *)
Lemma deep_response_escapes limit b :
  content b = repeat 91 (S limit) → Z.of_nat (S limit) <= _MAX_RESPONSE_BYTES →
  json_media_type (media_type (buffered_type b)) = true →
  _decode_object limit b = Raise RecursionError.
Proof.
  intros Hc Hlen Ht. unfold _decode_object. rewrite Hc, repeat_length, Ht, (proj2 (Z.ltb_ge _ _) Hlen).
  rewrite !raise_if_false, !bind_Ok_l. unfold loads_bytes. by rewrite brackets_decoded, strict_document_brackets.
Qed.

Lemma deep_lookup_escapes limit reference b :
  _decode_object limit b = Raise RecursionError → listed_records limit reference b = Raise RecursionError.
Proof. unfold listed_records. by intros ->. Qed.

Lemma deep_create_escapes limit r b :
  _decode_object limit b = Raise RecursionError → status_code b = 200 → create_outcome limit r b = Raise RecursionError.
Proof. unfold create_outcome, decode_link. by intros -> ->. Qed.

(** An account outside ASCII is accepted by the constructor and by no operation. *)
Lemma non_ascii_account self account :
  closed self = false → clean_text 128 account = true → ascii_str account = false →
  _assert_account self account = Raise (TypeError "comparing strings with non-ASCII characters is not supported").
Proof.
  intros Hc Ht Ha. unfold _assert_account, _ensure_open, _clean_text. rewrite Hc, Ht, raise_if_false, bind_Ok_l.
  rewrite bind_Ok_l. unfold compare_digest. by rewrite Ha.
Qed.

(** * Witnesses *)
Definition sample_link : list (pystr * json) :=
  [($"id", JStr ($"plink_1")); ($"reference_id", JStr (reference_id sample_order));
   ($"amount", JInt (amount_minor sample_order)); ($"amount_paid", JInt 0);
   ($"currency", JStr (request_currency sample_order)); ($"accept_partial", JBool false);
   ($"upi_link", JBool false)].
Definition sample_body (value : json) : bytes := dumps value.
Definition sample_response (status : Z) (body : bytes) : stream_response :=
  mkStreamResponse status None (Some ($"application/json")) [body] None.
Definition sample_adapter (response : stream_response) : RazorpayTestModePaymentLinkAdapter :=
  mkAdapter ($"acc_1") false (λ _, Ok (int_timestamp sample_now)) (λ _ _ _ _ _, Ok response).

Lemma sample_pool response : stream_end response = None → pool_before_request (sample_adapter response).
Proof. intros H m p b q t r [= <-]. by rewrite H. Qed.

Definition answered_as {A} (p : A → bool) (x : list http_event * result A) : bool :=
  match snd x with Ok a => p a | Raise _ => false end.
Lemma answered_facts {A} p (x : list http_event * result A) :
  answered_as p x = true → ∃ t' a, x = (t', Ok a) ∧ p a = true.
Proof. destruct x as [t' [a|]]; [by eexists _, _|done]. Qed.

Definition created_link : stream_response :=
  Eval vm_compute in sample_response 200 (sample_body (JDict (sample_link ++ [($"status", JStr ($"created"))]))).
Definition cancelled_answer : stream_response :=
  Eval vm_compute in sample_response 200 (sample_body (JDict (sample_link ++ [($"status", JStr ($"cancelled"))]))).
Definition listed_answer : stream_response :=
  Eval vm_compute in sample_response 200 (sample_body (JDict
    [($"payment_links", JList [JDict (sample_link ++ [($"status", JStr ($"created"))])])])).

Definition success (o : ProviderCreateOutcome) : bool := bool_decide (outcome_status o = CERTAIN_SUCCESS).
Definition cancel_success (o : ProviderCancelOutcome) : bool :=
  bool_decide (cancel_status o = ProviderCancelStatus.CERTAIN_SUCCESS).

Lemma sample_created :
  answered_as success (create_standard_payment_link 50 (sample_adapter created_link) sample_order ($"acc_1") []) = true.
Proof. by vm_compute. Qed.
Lemma sample_link_cancelled :
  answered_as cancel_success (cancel_payment_link 50 (sample_adapter cancelled_answer) ($"plink_1") ($"acc_1") []) = true.
Proof. by vm_compute. Qed.
Lemma sample_listed :
  answered_as completed (lookup_payment_links 50 (sample_adapter listed_answer) (reference_id sample_order) ($"acc_1") [])
  = true.
Proof. by vm_compute. Qed.

Lemma create_outcome_meaning_witness : ∃ t' o,
  create_standard_payment_link 50 (sample_adapter created_link) sample_order ($"acc_1") [] = (t', Ok o)
  ∧ ∃ now answer link,
      t' = [EpochRead (Ok now); HttpCall ($"POST") _PAYMENT_LINKS_PATH (Some (request_payload sample_order)) [] answer]
      ∧ create_confirmed 50 sample_order answer link ∧ outcome_link o = Some link.
Proof.
  destruct (answered_facts success _ sample_created) as (t' & o & E & Hs). exists t', o. split; [exact E|].
  destruct (create_outcome_meaning 50 (sample_adapter created_link) sample_order ($"acc_1") [] t' o
    (sample_pool created_link eq_refl) E) as (_ & _ & now & answer & Ht & _ & Ho).
  rewrite (bool_decide_true_1 _ Hs) in Ho. destruct Ho as (link & Ho & Hl).
  exists now, answer, link. split; [exact Ht|]. split; [exact Ho|exact Hl].
Defined.

Lemma cancel_outcome_meaning_witness : ∃ t' o,
  cancel_payment_link 50 (sample_adapter cancelled_answer) ($"plink_1") ($"acc_1") [] = (t', Ok o)
  ∧ ∃ answer record, t' = [HttpCall ($"POST") (cancel_path ($"plink_1")) None [] answer]
      ∧ cancel_confirmed 50 ($"plink_1") answer record ∧ cancelled_link o = Some record.
Proof.
  destruct (answered_facts cancel_success _ sample_link_cancelled) as (t' & o & E & Hs). exists t', o. split; [exact E|].
  destruct (cancel_outcome_meaning 50 (sample_adapter cancelled_answer) ($"plink_1") ($"acc_1") [] t' o
    (sample_pool cancelled_answer eq_refl) E) as (_ & _ & _ & answer & Ht & Ho).
  rewrite (bool_decide_true_1 _ Hs) in Ho. destruct Ho as (record & Ho & Hl).
  exists answer, record. split; [exact Ht|]. split; [exact Ho|exact Hl].
Defined.

Lemma lookup_meaning_witness : ∃ t' l,
  lookup_payment_links 50 (sample_adapter listed_answer) (reference_id sample_order) ($"acc_1") [] = (t', Ok l)
  ∧ ∃ answer b records,
      t' = [HttpCall ($"GET") _PAYMENT_LINKS_PATH None [($"reference_id", reference_id sample_order)] answer]
      ∧ answered answer b ∧ status_code b = 200 ∧ links_listed 50 (reference_id sample_order) b records.
Proof.
  destruct (answered_facts completed _ sample_listed) as (t' & l & E & Hc). exists t', l. split; [exact E|].
  pose proof (lookup_meaning 50 (sample_adapter listed_answer) (reference_id sample_order) ($"acc_1") [] t' l E) as H.
  rewrite Hc in H. destruct H as (answer & b & records & Ht & Hans & Hst & Hl & _). exists answer, b, records.
  split; [exact Ht|]. split; [exact Hans|]. split; [exact Hst|exact Hl].
Defined.
