(* ===== verification/ProviderPort.v ===== *)
(** The executor of [executor.py] with the adapter of [razorpay_test_adapter.py]
    behind its two provider ports, as the worker composes them: what the result
    of an execution rests on, down to the provider's answer. *)
From S2P Require Import Prelude PyStr PyTime Json Values Actions Gate Text Outbox PaymentLinks Effects.
From S2P Require Import CommandCodec Executor Adapter.

(** [http] are the requests and clock readings made so far, as the adapter saw
    them; the other ports stay what they are. *)
Definition with_adapter (limit : nat) (adapter : RazorpayTestModePaymentLinkAdapter)
    (http : list Executor.event → list http_event) (e : CreatePaymentLinkExecutor) : CreatePaymentLinkExecutor :=
  mkExecutor (gate e) (load_durable_intent e) (load_fresh_gate_context e)
    (λ r account t, snd (Adapter.create_standard_payment_link limit adapter r account (http t)))
    (λ reference account t, snd (Adapter.lookup_payment_links limit adapter reference account (http t)))
    (clock e) (backoff e) (authorization_recorder e).

(** * The answers in a trace are those of the ports *)
Section genuine.
Context (self : CreatePaymentLinkExecutor).

Definition genuine (e : Executor.event) : Prop :=
  match e with
  | LinkCreated r account answer => ∃ t, Executor.create_standard_payment_link self r account t = answer
  | LinksLookedUp reference account answer => ∃ t, Executor.lookup_payment_links self reference account t = answer
  | _ => True
  end.

Lemma genuine_one e : genuine e → Forall genuine [e].
Proof. by repeat constructor. Qed.

Lemma genuine_call {A} (port : list Executor.event → result A) record (f : A → prog Executor.event ExecutionResult) t :
  (∀ a, port t = a → genuine (record a)) → (∀ a t, emits (f a) t (λ l _, Forall genuine l)) →
  emits (call port record ≫= f) t (λ l _, Forall genuine l).
Proof. intros H Hf. apply emits_call_bind; [|by intros; apply genuine_one, H]. intros a Ha. eapply emits_mono; [apply Hf|].
  intros l r Hl. constructor; [by apply H|done].
Qed.

Lemma genuine_pure {A} (r : result A) (f : A → prog Executor.event ExecutionResult) t :
  (∀ a, emits (f a) t (λ l _, Forall genuine l)) → emits (pure r ≫= f) t (λ l _, Forall genuine l).
Proof. intros Hf. apply emits_pure_bind; [by intros|constructor]. Qed.

Lemma genuine_done (r : result ExecutionResult) t : emits (pure r) t (λ l _, Forall genuine l).
Proof. apply emits_pure. constructor. Qed.

Lemma genuine_reconcile job c w now effect t : emits (_reconcile self job c w now effect) t (λ l _, Forall genuine l).
Proof. apply genuine_call; [by eexists|]. intros. apply genuine_done. Qed.

Lemma genuine_allowed job c w now effect t : emits (allowed_effect self job c w now effect) t (λ l _, Forall genuine l).
Proof.
  unfold allowed_effect. case_decide; [apply genuine_reconcile|].
  destruct (validate_expiry _ _) as [u|[]]; try apply genuine_done.
  apply genuine_call; [by eexists|]. intros o t'.
  destruct (outcome_status o); [apply genuine_done|apply genuine_done|apply genuine_reconcile].
Qed.

Lemma genuine_execute job c w t : emits (execute self job c w) t (λ l _, Forall genuine l).
Proof.
  unfold execute. apply emits_read_clock; [|intros; by apply genuine_one]. intros started _.
  eapply emits_mono; [|intros l r Hl; constructor; [exact I|exact Hl]]. apply genuine_pure; intros _.
  apply genuine_call; [done|]. intros intent t1. apply genuine_pure; intros failure.
  apply genuine_call; [done|]. intros fresh t2. apply emits_read_clock; [|intros; by apply genuine_one]. intros now _.
  eapply emits_mono; [|intros l r Hl; constructor; [exact I|exact Hl]]. do 3 (apply genuine_pure; intros ?).
  destruct failure; [apply genuine_done|]. destruct (negb _); [apply genuine_done|].
  unfold record_authorization. destruct (authorization_recorder self).
  - apply genuine_call; [done|]. intros. apply genuine_allowed.
  - apply genuine_pure; intros _. apply genuine_allowed.
Qed.
End genuine.

(** * What each disposition rests on *)
Section composed.
Context (limit : nat) (adapter : RazorpayTestModePaymentLinkAdapter).
Context (http : list Executor.event → list http_event) (e : CreatePaymentLinkExecutor).

Lemma requeued_as self job c w now effect reason mode final res :
  _requeue self job c w now effect reason mode final = Ok res →
  disposition res = DEAD_LETTERED ∨ disposition res = final.
Proof. unfold _requeue. intros H. inv_ok. subst. cbn. case_decide; auto. Qed.

(** Answers of the provider: to a create with the wire form of the request, and
    to a lookup of its reference. *)
Definition create_answered (q : StandardPaymentLinkRequest) (answer : result stream_response) : Prop :=
  ∃ t, stream adapter ($"POST") _PAYMENT_LINKS_PATH (Some (request_payload q)) [] t = answer.
Definition lookup_answered (q : StandardPaymentLinkRequest) (records : list PaymentLinkRecord) : Prop :=
  ∃ t b, let answer := stream adapter ($"GET") _PAYMENT_LINKS_PATH None [($"reference_id", reference_id q)] t in
    answered answer b ∧ status_code b = 200 ∧ links_listed limit (reference_id q) b records.

Definition rests_on (q : StandardPaymentLinkRequest) (res : ExecutionResult) : Prop :=
  match disposition res with
  | CREATED => ∃ answer link, create_answered q answer ∧ create_confirmed limit q answer link ∧ result_link res = Some link
  | ADOPTED => ∃ r, lookup_answered q [r] ∧ matches_create r q = true ∧ result_link res = Some (record_link_id r)
  | REQUEUED =>
      (∃ answer, create_answered q answer ∧ (not_sent answer ∨ create_refused limit answer)) ∨ lookup_answered q []
  | _ => result_link res = None
  end.

Lemma escalate_rests job c w now effect reason q res :
  _escalate job c w now effect reason = Ok res → rests_on q res.
Proof. unfold _escalate, rests_on. intros H. inv_ok. by subst. Qed.

Lemma settle_rests self job c w now effect reference account t l res :
  snd (Adapter.lookup_payment_links limit adapter reference account (http t)) = Ok l →
  reference = reference_id (request c) →
  settle self job c w now effect l = Ok res → rests_on (request c) res.
Proof.
  intros Hl -> H. destruct (Adapter.lookup_payment_links _ _ _ _ _) as [t' x] eqn:E. cbn in Hl. subst x.
  unfold settle in H. destruct (completed l) eqn:Hc.
  - destruct (lookup_run _ _ _ _ _ _ _ E Hc) as (b & records & _ & Hans & Hst & Hlist & -> & Hrec).
    destruct (decide_records (request c) records Hrec) as (d & Hd & Hcase). rewrite Hd, bind_Ok_l in H. cbv zeta in H.
    assert (lookup_answered (request c) records) as Hla by (exists (http t), b; by split_and!).
    destruct records as [|r [|r' records]]; [|destruct (matches_create r (request c)) eqn:Hm|].
    + rewrite Hcase in H. pose proof (requeue_job _ _ _ _ _ _ _ _ _ _ H) as (_ & _ & Hn).
      unfold rests_on. apply requeued_as in H as [E' | E']; rewrite E'; [done|by right].
    + destruct Hcase as [Hact Hlink]. rewrite Hact, Hlink in H. apply finish_job in H as (_ & _ & Hd' & Hr & _).
      unfold rests_on. rewrite Hd'. by exists r.
    + rewrite Hcase in H. by eapply escalate_rests.
    + rewrite Hcase in H. by eapply escalate_rests.
  - unfold decide_ambiguous_create in H. rewrite Hc in H. cbn in H.
    pose proof (requeue_job _ _ _ _ _ _ _ _ _ _ H) as (_ & _ & Hn).
    unfold rests_on. apply requeued_as in H as [E' | E']; by rewrite E'.
Qed.

(** C1: what the result of an execution over the adapter rests on.  A created
    link was confirmed by the provider's answer to the create; an adopted one is
    the only link the provider lists for the reference, and matches the request;
    a job that may create again rests on a request that was not sent, was
    refused for good, or on a listing without any link; no other result carries
    a link. *)
Theorem result_rests_on_answers job c w t t' res :
  pool_before_request adapter →
  execute (with_adapter limit adapter http e) job c w t = (t', Ok res) → rests_on (request c) res.
Proof.
  intros Hpool H. set (self := with_adapter limit adapter http e) in *.
  destruct (emits_run _ _ _ _ _ H (emits_and _ _ _ _ (execute_emits self job c w t) (genuine_execute self job c w t)))
    as (l & _ & HQ). cbv beta in HQ. destruct HQ as [Hx Hg]. clear H. remember (Ok res) as r eqn:Er.
  destruct Hx as [l r Hq Hs|pre now effect answer _ _|pre now effect answer _ _ _ Hamb|pre now effect o answer _ _ _ _]; subst.
  - destruct (Hs _ eq_refl) as (_ & _ & Hn & [[E _]|[E _]]); unfold rests_on; by rewrite E.
  - apply Forall_app in Hg as [_ Hg]. apply Forall_cons in Hg as [[s Hans] _].
    destruct answer as [l|]; [|done]. exact (settle_rests self job c w now effect _ _ s l res Hans eq_refl Er).
  - apply Forall_app in Hg as [_ Hg]. apply Forall_cons in Hg as [[s Hans] _].
    destruct answer as [o|]; [|done]. cbn in Hans. unfold after_create in Er. rewrite bind_Ok_l in Er.
    destruct (Adapter.create_standard_payment_link _ _ _ _ _) as [t'' x] eqn:E. cbn in Hans. subst x.
    apply create_run in E as (_ & _ & now' & _ & _ & Ho).
    pose proof (create_answer_cases _ _ _ _ _ _ _ _ _ Hpool Ho) as Hcase. case_decide as Hst.
    + rewrite Hst in Hcase. destruct Hcase as (link & Hconf & Hlink). rewrite Hlink in Er.
      apply finish_job in Er as (_ & _ & Hd & Hl & _). unfold rests_on. rewrite Hd.
      eexists _, link. split; [by eexists|]. by split.
    + pose proof (requeue_job _ _ _ _ _ _ _ _ _ _ Er) as (_ & _ & Hn). unfold rests_on.
      apply requeued_as in Er as [E' | E']; rewrite E'; [done|]. left.
      destruct (outcome_status o) eqn:Hs; [done| |by destruct Hamb; exists o].
      eexists. split; [by eexists|done].
  - apply Forall_app in Hg as [_ Hg]. apply Forall_cons in Hg as [_ Hg]. apply Forall_cons in Hg as [[s Hans] _].
    destruct answer as [l|]; [|done]. exact (settle_rests self job c w now effect _ _ s l res Hans eq_refl Er).
Qed.
End composed.

(** * Witness *)
Definition sample_composed : CreatePaymentLinkExecutor :=
  with_adapter 50 (sample_adapter created_link) (λ _, []) sample_success.

Definition created_by (x : list Executor.event * result ExecutionResult) : bool :=
  match snd x with Ok res => bool_decide (disposition res = CREATED) | Raise _ => false end.
Lemma created_by_facts x : created_by x = true → ∃ t' res, x = (t', Ok res) ∧ disposition res = CREATED.
Proof.
  destruct x as [t' [res|]]; [|intros H; discriminate H]. intros H. exists t', res.
  split; [reflexivity|]. exact (bool_decide_true_1 _ H).
Qed.

Lemma sample_composed_created : created_by (execute sample_composed sample_lease sample_command ($"w1") []) = true.
Proof. vm_compute. reflexivity. Qed.

Lemma result_rests_on_answers_witness : ∃ t' res,
  execute sample_composed sample_lease sample_command ($"w1") [] = (t', Ok res)
  ∧ disposition res = CREATED
  ∧ rests_on 50 (sample_adapter created_link) (request sample_command) res.
Proof.
  destruct (created_by_facts _ sample_composed_created) as (t' & res & E & Hd). exists t', res.
  split; [exact E|]. split; [exact Hd|].
  exact (result_rests_on_answers 50 (sample_adapter created_link) (λ _, []) sample_success sample_lease sample_command
    ($"w1") [] t' res (sample_pool created_link eq_refl) E).
Defined.
