(* ===== verification/CreateCommand.v ===== *)
(** The Standard Payment Link command of
    [services/control_plane/effect_command_codec.py]: its privacy rules, its
    bindings, [encode_create_standard_payment_link_command] and
    [decode_create_standard_payment_link_command], over the shared half in
    [CommandCodec]. *)
From S2P Require Import Prelude PyStr Sha256 PyTime Json Canonical Digest Values States Actions Gate.
From S2P Require Import Text Outbox PaymentLinks References Reader CommandCodec Effects Executor.

Definition CREATE_STANDARD_PAYMENT_LINK_COMMAND_TYPE : pystr := $"CREATE_STANDARD_PAYMENT_LINK".
Definition CREATE_STANDARD_PAYMENT_LINK_COMMAND_SCHEMA : pystr :=
  $"retrywise.create-standard-payment-link-command".

Definition create_kind : command_kind := {|
  kind_type := CREATE_STANDARD_PAYMENT_LINK_COMMAND_TYPE;
  kind_schema := CREATE_STANDARD_PAYMENT_LINK_COMMAND_SCHEMA;
  external_type_message := "external command_type is unsupported";
  external_version_message := "external command_schema_version is unsupported";
  schema_message := "effect command schema is unsupported";
  version_message := "effect command schema version is unsupported";
  embedded_type_message := "embedded and external command types differ";
  algorithm_message := "effect command integrity algorithm is unsupported";
  integrity_message := "effect command integrity digest mismatch";
  binding_prefix := "effect command ";
  unique_message := "effect command is not its unique canonical envelope"
|}.

Definition _DESCRIPTION_PREFIX : pystr := $"Retry payment for order ".
Definition _REQUIRED_NOTE_KEYS : list pystr := [$"merchant_order_id"; $"recovery_case_id"].
Definition _BINDING_FIELDS : list string :=
  ["action_key"; "executor_payload_sha256"; "prior_plan_sha256"; "proposal_sha256";
   "provider_request_sha256"]%string.
Definition _COMMAND_FIELDS : list string :=
  ["prior_plan"; "proposal"; "provider_account_id"; "request"]%string.
Definition _REQUEST_FIELDS : list string :=
  ["amount_minor"; "currency"; "description"; "expire_by_epoch"; "notes"; "reference_id"]%string.

(** * Privacy *)

(** The first of every ten consecutive decimal digits (category Nd) of Unicode
    15: what [\d] matches. *)
Definition DECIMAL_ZEROS : list Z :=
  [48; 1632; 1776; 1984; 2406; 2534; 2662; 2790; 2918; 3046; 3174; 3302; 3430; 3558; 3664; 3792; 3872;
   4160; 4240; 6112; 6160; 6470; 6608; 6784; 6800; 6992; 7088; 7232; 7248; 42528; 43216; 43264; 43472;
   43504; 43600; 44016; 65296; 66720; 68912; 69734; 69872; 69942; 70096; 70384; 70736; 70864; 71248;
   71360; 71472; 71904; 72016; 72784; 73040; 73120; 73552; 92768; 92864; 93008; 120782; 120792; 120802;
   120812; 120822; 123200; 123632; 124144; 125264; 130032].
Definition is_decimal (c : Z) : bool := existsb (λ z, between z (z + 9) c) DECIMAL_ZEROS.

(** [_PII_NUMBER_RE.search]: a maximal run of ten to nineteen digits. *)
Definition pii_number (s : pystr) : bool :=
  existsb (λ run, between 10 19 (str_len run)) (runs is_decimal s).

Definition _reject_obvious_sensitive_description (value : pystr) : result unit :=
  raise_if (bool_decide (64 ∈ value) || pii_number value)
    (EffectCommandPrivacyError
       "Payment Link description contains an email, VPA, phone, or account-like number").

Definition _validate_description_binding (value merchant_order_id : pystr) : result unit :=
  _ ← _reject_obvious_sensitive_description value;
  raise_if (bool_decide (value ≠ _DESCRIPTION_PREFIX ++ merchant_order_id))
    (EffectCommandPrivacyError "Payment Link description must use the controller-owned order template").

Fixpoint check_note_items (items : list (pystr * json)) : result (list (pystr * pystr)) :=
  match items with
  | [] => Ok []
  | (key, candidate) :: items =>
      rendered ← _text candidate ("$.command.request.notes." +:+ string_of key);
      value ← rewrap (require_identifier rendered ("notes." +:+ string_of key))
                (EffectCommandPrivacyError "Payment Link notes must contain opaque controller identifiers");
      rest ← check_note_items items;
      Ok ((key, value) :: rest)
  end.

Definition _notes (value : json) : result (list (pystr * pystr)) :=
  match value with
  | JDict copied =>
      let present := copied.*1 in
      _ ← raise_if (bool_decide (Exists (λ k, k ∉ _REQUIRED_NOTE_KEYS) present))
            (EffectCommandPrivacyError "Payment Link notes contain a non-controller field");
      _ ← raise_if (bool_decide (Exists (λ k, k ∉ present) _REQUIRED_NOTE_KEYS))
            (EffectCommandSchemaError "Payment Link notes lack a required controller identifier");
      check_note_items copied
  | _ => Raise (EffectCommandSchemaError "$.command.request.notes must be a JSON object")
  end.

Definition note (notes : list (pystr * pystr)) (key : string) : result pystr :=
  match dict_get (lit key) notes with Some v => Ok v | None => Raise (KeyError key) end.

Definition notes_json (notes : list (pystr * pystr)) : json :=
  JDict (map (λ kv, (kv.1, JStr kv.2)) notes).

(** * Requests *)

(** [except PaymentLinkValidationError]. *)
Definition rewrap_validation {A} (m : result A) (e : py_error) : result A :=
  match m with Raise (PaymentLinkValidationError _) => Raise e | m => m end.

Definition read_request (item : list (pystr * json)) (description : pystr) (notes : list (pystr * pystr)) :
    result StandardPaymentLinkRequest :=
  let at_ := λ key, item_of item key in
  let path := λ key, "$.command.request." +:+ key in
  amount ← at_ "amount_minor"; amount ← _integer amount (path "amount_minor") (Some 1);
  cur ← at_ "currency"; cur ← _text cur (path "currency");
  reference ← at_ "reference_id"; reference ← _text reference (path "reference_id");
  expire ← at_ "expire_by_epoch"; expire ← _integer expire (path "expire_by_epoch") (Some 1);
  StandardPaymentLinkRequest_post_init
    (mkStandardPaymentLinkRequest amount cur reference description expire notes None).

Definition _request (value : json) : result StandardPaymentLinkRequest :=
  item ← _exact_object value _REQUEST_FIELDS "$.command.request";
  description_value ← item_of item "description";
  description ← _text description_value "$.command.request.description";
  _ ← _reject_obvious_sensitive_description description;
  notes_value ← item_of item "notes";
  notes ← _notes notes_value;
  order ← note notes "merchant_order_id";
  _ ← _validate_description_binding description order;
  rewrap_validation (read_request item description notes)
    (EffectCommandSchemaError "provider request violates the StandardPaymentLinkRequest contract").

Definition _request_primitive (r : StandardPaymentLinkRequest) : result (list (pystr * json)) :=
  _ ← raise_if (bool_decide (customer r ≠ None))
        (EffectCommandPrivacyError "customer PII must not be stored in an effect command");
  _ ← _reject_obvious_sensitive_description (description r);
  notes ← _notes (notes_json (notes r));
  order ← note notes "merchant_order_id";
  _ ← _validate_description_binding (description r) order;
  Ok [($"amount_minor", JInt (amount_minor r));
      ($"currency", JStr (request_currency r));
      ($"description", JStr (description r));
      ($"expire_by_epoch", JInt (expire_by_epoch r));
      ($"notes", notes_json notes);
      ($"reference_id", JStr (reference_id r))].

(** * Bindings *)
Section codec.
Context (nfkd : pystr → pystr) (nesting_limit : nat).

(** [any(actual != expected for ...)], the proposal's key and digest being
    properties evaluated for the tuple. *)
Definition plan_bound (c : CreatePaymentLinkCommand) : result bool :=
  let p := proposal c in
  let plan := prior_plan c in
  key ← action_key p;
  digest ← proposal_digest p;
  Ok (bool_decide (decision_proposal_id plan = proposal_id p)
      && bool_decide (decision_action_key plan = key)
      && bool_decide (decision_proposal_digest plan = digest)
      && bool_decide (decision_case_id plan = proposal_case_id p)
      && bool_decide (decision_version plan = proposal_decision_version p)).

Definition _validate_command_binding (c : CreatePaymentLinkCommand) : result unit :=
  let p := proposal c in
  let plan := prior_plan c in
  let r := request c in
  let refuse := λ message, EffectCommandBindingError message in
  _ ← rewrap (require_identifier (provider_account_id c) "provider_account_id")
        (refuse "provider account binding is not an opaque identifier");
  _ ← raise_if (bool_decide (action_type p ≠ CREATE_STANDARD_PAYMENT_LINK))
        (refuse "proposal is not a Standard Payment Link action");
  _ ← raise_if (bool_decide (stage plan ≠ POLICY) || negb (allowed plan))
        (refuse "effect command requires an allowed policy-stage plan");
  bound ← plan_bound c;
  _ ← raise_if (negb bound) (refuse "prior plan is not bound to the proposal");
  m ← match amount p with
      | Some m => Ok m
      | None => Raise (refuse "collection proposal has no amount")
      end;
  _ ← raise_if (bool_decide (minor_units m ≠ amount_minor r))
        (refuse "provider request amount is not bound to the proposal");
  _ ← raise_if (bool_decide (currency m ≠ request_currency r))
        (refuse "provider request currency is not bound to the proposal");
  expected_reference_id ← make_recovery_reference_id nfkd (proposal_case_id p) (provider_account_id c);
  _ ← raise_if (bool_decide (reference_id r ≠ expected_reference_id))
        (refuse "provider request reference is not controller-derived from case and account");
  raise_if (bool_decide (dict_get ($"recovery_case_id") (notes r) ≠ Some (proposal_case_id p)))
    (refuse "provider request recovery case is not bound to the proposal").

Definition _bindings (c : CreatePaymentLinkCommand) : result (list (string * pystr)) :=
  key ← action_key (proposal c);
  payload ← command_payload_digest c;
  plan ← decision_digest (prior_plan c);
  digest ← proposal_digest (proposal c);
  wire ← request_digest c;
  Ok [("action_key", key); ("executor_payload_sha256", payload); ("prior_plan_sha256", plan);
      ("proposal_sha256", digest); ("provider_request_sha256", wire)]%string.

(** A primitive inside the envelope. *)
Definition primitive_json (prim : result pyobj) : result json :=
  prim ← prim; to_canonical_primitive prim.

Definition _unsigned_envelope (c : CreatePaymentLinkCommand) : result (list (pystr * json)) :=
  bindings ← _bindings c;
  plan ← primitive_json (GateDecision_to_primitive (prior_plan c));
  p ← primitive_json (ActionProposal_to_primitive (proposal c));
  r ← _request_primitive (request c);
  Ok [($"bindings", JDict (bindings_json bindings));
      ($"command",
        JDict [($"prior_plan", plan); ($"proposal", p);
               ($"provider_account_id", JStr (provider_account_id c)); ($"request", JDict r)]);
      ($"command_type", JStr CREATE_STANDARD_PAYMENT_LINK_COMMAND_TYPE);
      ($"schema", JStr CREATE_STANDARD_PAYMENT_LINK_COMMAND_SCHEMA);
      ($"version", JInt COMMAND_SCHEMA_VERSION)].

(** * The codec *)

Definition encode_create_standard_payment_link_command (c : CreatePaymentLinkCommand) :
    result (list (pystr * json)) :=
  unsigned ← _unsigned_envelope c;
  _ ← _validate_command_binding c;
  signed unsigned.

Definition encode_create_standard_payment_link_command_json (c : CreatePaymentLinkCommand) : result bytes :=
  envelope ← encode_create_standard_payment_link_command c;
  bounded_bytes (JDict envelope).

Definition read_command (envelope : list (pystr * json)) : result CreatePaymentLinkCommand :=
  command_value ← item_of envelope "command";
  command_value ← _exact_object command_value _COMMAND_FIELDS "$.command";
  proposal_value ← item_of command_value "proposal";
  p ← _proposal proposal_value;
  plan_value ← item_of command_value "prior_plan";
  plan ← _prior_plan plan_value;
  request_value ← item_of command_value "request";
  r ← _request request_value;
  rewrap_foreign
    (account ← item_of command_value "provider_account_id";
     account ← _text account "$.command.provider_account_id";
     CreatePaymentLinkCommand_post_init (mkCreatePaymentLinkCommand p plan r account))
    (EffectCommandSchemaError "effect command violates the executor contract").

Definition decode_create_standard_payment_link_command (payload : command_payload_arg)
    (command_type : pystr) (command_schema_version : Z) : result CreatePaymentLinkCommand :=
  envelope ← open_envelope nesting_limit create_kind payload command_type command_schema_version;
  c ← read_command envelope;
  _ ← _validate_command_binding c;
  _ ← close_envelope create_kind _BINDING_FIELDS envelope (_bindings c)
        (encode_create_standard_payment_link_command c);
  Ok c.
End codec.

(** * What a bound command is *)
Section bound.
Context (nfkd : pystr → pystr).

Record command_bound (c : CreatePaymentLinkCommand) : Prop := {
  bound_account : is_identifier (provider_account_id c) = true;
  bound_type : action_type (proposal c) = CREATE_STANDARD_PAYMENT_LINK;
  bound_stage : stage (prior_plan c) = POLICY;
  bound_allowed : reasons (prior_plan c) = [];
  bound_id : decision_proposal_id (prior_plan c) = proposal_id (proposal c);
  bound_key : action_key (proposal c) = Ok (decision_action_key (prior_plan c));
  bound_digest : proposal_digest (proposal c) = Ok (decision_proposal_digest (prior_plan c));
  bound_case : decision_case_id (prior_plan c) = proposal_case_id (proposal c);
  bound_version : decision_version (prior_plan c) = proposal_decision_version (proposal c);
  bound_amount :
    amount (proposal c) = Some (mkMoney (amount_minor (request c)) (request_currency (request c)));
  bound_reference :
    make_recovery_reference_id nfkd (proposal_case_id (proposal c)) (provider_account_id c)
    = Ok (reference_id (request c));
  bound_recovery :
    dict_get ($"recovery_case_id") (notes (request c)) = Some (proposal_case_id (proposal c))
}.

Lemma validate_Ok c : _validate_command_binding nfkd c = Ok tt ↔ command_bound c.
Proof.
  unfold _validate_command_binding, plan_bound. split.
  - intros H. inv_ok. rewrite rewrap_Ok, require_identifier_Ok in Hr. destruct Hr as [_ Hr].
    bools. repeat match goal with E : ¬ (_ ≠ _) |- _ => apply dec_stable in E end.
    destruct (amount (proposal c)) as [m|] eqn:Em; inv_ok. subst. bools.
    unfold allowed in *. bools. split; try congruence.
    rewrite Em. f_equal. match goal with m : Money |- _ => destruct m; cbn in *; congruence end.
  - intros []. rewrite require_identifier_true by done. cbn [rewrap].
    rewrite bound_key0, bound_digest0, bound_amount0, bound_reference0, bound_type0, bound_stage0.
    cbn [mbind result_bind]. unfold allowed. rewrite bound_recovery0, bound_id0, bound_case0, bound_version0, bound_allowed0.
    cbn [minor_units currency]. by repeat (decide_same; cbn [andb negb orb raise_if mbind result_bind]).
Qed.
End bound.

(** * Round trip *)

Lemma check_note_items_Ok l m :
  check_note_items (map (λ kv : pystr * pystr, (kv.1, JStr kv.2)) l) = Ok m ↔
  m = l ∧ Forall (λ kv, is_identifier kv.2 = true) l.
Proof.
  revert m. induction l as [|[k v] l IH]; intros m; cbn; [split; [intros [= <-]|intros [-> _]]; done|].
  split.
  - intros H. inv_ok. rewrite rewrap_Ok, require_identifier_Ok in Hr. destruct Hr as [-> Hv].
    apply IH in Hr0 as [-> Hl]. subst. by repeat constructor.
  - intros [-> H]. inversion H as [|? ? Hv Hl]; subst. cbn in Hv. rewrite require_identifier_true by done. cbn.
    by rewrite (proj2 (IH l)).
Qed.

Lemma notes_Ok l m :
  _notes (notes_json l) = Ok m →
  m = l ∧ Forall (λ kv, is_identifier kv.2 = true) l ∧ ∀ k, k ∈ l.*1 ↔ k ∈ _REQUIRED_NOTE_KEYS.
Proof.
  unfold _notes, notes_json. intros H. inv_ok. apply check_note_items_Ok in H as [-> Hl].
  split; [done|]. split; [done|]. bools. rewrite keys_map in *. intros k. split; intros Hk; apply dec_stable; intros Hn.
  - apply Hr. apply Exists_exists. eauto.
  - apply Hr0. apply Exists_exists. eauto.
Qed.

Lemma request_primitive_Ok r d :
  _request_primitive r = Ok d →
  customer r = None ∧ _notes (notes_json (notes r)) = Ok (notes r)
  ∧ (∃ order, dict_get ($"merchant_order_id") (notes r) = Some order
       ∧ description r = _DESCRIPTION_PREFIX ++ order)
  ∧ bool_decide (64 ∈ description r) = false ∧ pii_number (description r) = false
  ∧ d = [($"amount_minor", JInt (amount_minor r));
         ($"currency", JStr (request_currency r));
         ($"description", JStr (description r));
         ($"expire_by_epoch", JInt (expire_by_epoch r));
         ($"notes", notes_json (notes r));
         ($"reference_id", JStr (reference_id r))].
Proof.
  unfold _request_primitive, _validate_description_binding, _reject_obvious_sensitive_description.
  intros H. inv_ok. pose proof (notes_Ok _ _ Hr1) as [-> _]. bools.
  apply dec_stable in Hr, Hr3. unfold note in Hr2. destruct (dict_get _ (notes r)) as [order|]; inv_ok. subst.
  split_and!; try done; [|by apply bool_decide_false]. eauto.
Qed.

Lemma ordered_notes l :
  l.*1 = _REQUIRED_NOTE_KEYS → sort_keys (notes_json l) = notes_json l ∧ NoDup l.*1.
Proof.
  intros E. split; [|rewrite E; decide_closed].
  destruct l as [|[k1 v1] [|[k2 v2] [|]]]; try done. injection E as -> ->. vm_compute. reflexivity.
Qed.

Definition request_json (r : StandardPaymentLinkRequest) : list (pystr * json) :=
  [($"amount_minor", JInt (amount_minor r));
   ($"currency", JStr (request_currency r));
   ($"description", JStr (description r));
   ($"expire_by_epoch", JInt (expire_by_epoch r));
   ($"notes", notes_json (notes r));
   ($"reference_id", JStr (reference_id r))].

Lemma request_read_back r :
  _request_primitive r = Ok (request_json r) → StandardPaymentLinkRequest_post_init r = Ok r →
  (notes r).*1 = _REQUIRED_NOTE_KEYS → in_64 (amount_minor r) → in_64 (expire_by_epoch r) →
  _request (sort_keys (JDict (request_json r))) = Ok r.
Proof.
  intros Hprim Hv Hkeys Ha He. pose proof (items_sorted (request_json r) ltac:(vm_compute; reflexivity)) as Hi.
  change (sort_keys (JDict ?d)) with (JDict (sorted_dict d)).
  apply request_primitive_Ok in Hprim as (Hcust & Hn & (order & Horder & Hdesc) & Hat & Hpii & _).
  destruct (ordered_notes (notes r) Hkeys) as [Hsort _]. destruct (request_facts_ok r r Hv) as [_ []].
  assert (Hrej : _reject_obvious_sensitive_description (description r) = Ok tt).
  { unfold _reject_obvious_sensitive_description. by rewrite Hat, Hpii. }
  unfold _request. rewrite exact_object_keys, bind_Ok_l by (by rewrite sorted_dict_keys).
  read_item Hi. cbn [_text]. rewrite bind_Ok_l, Hrej, bind_Ok_l.
  lazymatch goal with |- item_of _ ?k ≫= _ = _ => erewrite (Hi k) by solve_item end. rewrite bind_Ok_l, Hsort, Hn, bind_Ok_l.
  unfold note. rewrite Horder, bind_Ok_l. unfold _validate_description_binding. rewrite Hrej, bind_Ok_l, <- Hdesc.
  decide_same. cbn [raise_if]. rewrite bind_Ok_l.
  assert (read_request (sorted_dict (request_json r)) (description r) (notes r) = Ok r) as ->; [|done].
  unfold read_request. cbv zeta.
  repeat (read_item Hi; first [rewrite integer_read by (done || lia) | cbn [_text]]; rewrite bind_Ok_l).
  destruct r; cbn in *; by subst.
Qed.

Lemma request_json_ok r :
  StandardPaymentLinkRequest_post_init r = Ok r → (notes r).*1 = _REQUIRED_NOTE_KEYS →
  json_ok (JDict (request_json r)).
Proof.
  intros [_ [_ Hc Hr Hd _ Hn]]%request_facts_ok [_ Hnd]%ordered_notes.
  assert (json_ok (notes_json (notes r))).
  { apply (str_dict_ok JStr); [done|]. eapply Forall_impl; [exact Hn|].
    intros kv [? ?]. split; [|constructor]; eauto using clean_text_str_ok. }
  unfold request_json. solve_json_ok.
Qed.

Lemma identifier_clean s : is_identifier s = true → clean_text 128 s = true.
Proof.
  intros H. rewrite clean_text_visible.
  - destruct s as [|c s]; [done|]. cbn [is_identifier] in H. bools. apply Z.leb_le. unfold str_len in *. cbn [length]. lia.
  - by destruct s.
  - destruct s as [|c s]; [done|]. cbn [is_identifier] in H. bools. cbn [forallb].
    rewrite andb_true_iff. split.
    + unfold visible, is_alnum, is_upper, is_lower, is_digit, between in *. lia.
    + eapply forallb_Forall, Forall_impl; [by apply forallb_Forall|]. cbn. intros x Hx.
      unfold identifier_char in Hx. apply orb_true_iff in Hx as [Hx|Hx].
      * unfold visible, is_alnum, is_upper, is_lower, is_digit, between in *. lia.
      * unfold one_of in Hx. apply bool_decide_true_1 in Hx.
        repeat (apply elem_of_cons in Hx as [->|Hx]; [done|]). by apply not_elem_of_nil in Hx.
Qed.

(** What holds of a command the service builds: the constructors accepted its
    parts, its plan comes from a gate (an identifier for a policy version, a
    non-negative aggregate version, a UTC instant), its notes are listed in key
    order, and a model confidence is in the form its own rendering is read in. *)
Record encodable (c : CreatePaymentLinkCommand) : Prop := {
  enc_proposal : ActionProposal_valid (proposal c);
  enc_confidence : ∀ p, model_confidence (proposal c) = Some p → canonical_probability p;
  enc_request : StandardPaymentLinkRequest_post_init (request c) = Ok (request c);
  enc_notes : (notes (request c)).*1 = _REQUIRED_NOTE_KEYS;
  enc_policy : is_identifier (decision_policy_version (prior_plan c)) = true;
  enc_aggregate : 0 <= decision_aggregate_version (prior_plan c);
  enc_evaluated : stored (decision_evaluated_at (prior_plan c)) = true
}.

(** The part of it that holds however the plan was made, but for the instant
    of its evaluation: neither the constructor of a decision nor the encoder
    checks the plan's two versions. *)
Record constructed (c : CreatePaymentLinkCommand) : Prop := {
  con_proposal : ActionProposal_valid (proposal c);
  con_confidence : ∀ p, model_confidence (proposal c) = Some p → canonical_probability p;
  con_request : StandardPaymentLinkRequest_post_init (request c) = Ok (request c);
  con_notes : (notes (request c)).*1 = _REQUIRED_NOTE_KEYS;
  con_evaluated : stored (decision_evaluated_at (prior_plan c)) = true
}.

Definition plan_versions_legal (plan : GateDecision) : Prop :=
  is_identifier (decision_policy_version plan) = true ∧ 0 <= decision_aggregate_version plan.

Lemma constructed_encodable c : constructed c → plan_versions_legal (prior_plan c) → encodable c.
Proof. intros [] []. by split. Qed.

Section theorems.
Context (nfkd : pystr → pystr) (nesting_limit : nat).

Definition command_json (c : CreatePaymentLinkCommand) : list (pystr * json) :=
  [($"prior_plan", JDict (plan_json (prior_plan c)));
   ($"proposal", JDict (proposal_json (proposal c) (decision_action_key (prior_plan c))));
   ($"provider_account_id", JStr (provider_account_id c));
   ($"request", JDict (request_json (request c)))].

Definition unsigned_json (c : CreatePaymentLinkCommand) (bindings : list (string * pystr)) :
    list (pystr * json) :=
  [($"bindings", JDict (bindings_json bindings));
   ($"command", JDict (command_json c));
   ($"command_type", JStr CREATE_STANDARD_PAYMENT_LINK_COMMAND_TYPE);
   ($"schema", JStr CREATE_STANDARD_PAYMENT_LINK_COMMAND_SCHEMA);
   ($"version", JInt COMMAND_SCHEMA_VERSION)].

Lemma digest_of_json j d : _sha256_json j = Ok d → is_digest d = true.
Proof. unfold _sha256_json. intros H. inv_ok. subst. apply is_digest_sha256. Qed.

Lemma create_bindings_ok c b :
  _bindings c = Ok b →
  b.*1 = _BINDING_FIELDS ∧ bindings_ok b = true.
Proof.
  unfold _bindings, command_payload_digest, decision_digest, proposal_digest, request_digest,
    payment_link_request_digest. intros H. inv_ok. subst. split; [done|]. cbn.
  apply action_key_Ok in Hr as (h & -> & Hh). apply digest_of_json in Hr0.
  repeat match goal with E : sha256_hexdigest _ = Ok _ |- _ => apply sha256_hexdigest_digest in E end.
  rewrite ascii_act_key by done. rewrite !is_digest_sha256, !(is_digest_ascii (sha256_hex _)) by apply is_digest_sha256.
  repeat match goal with E : is_digest ?d = true |- _ => rewrite ?E, ?(is_digest_ascii d E); clear E end.
  done.
Qed.

Context (c : CreatePaymentLinkCommand) (Hc : encodable c) (Hb : command_bound nfkd c).

Lemma unsigned_Ok u :
  _unsigned_envelope c = Ok u →
  ∃ b, _bindings c = Ok b ∧ _request_primitive (request c) = Ok (request_json (request c))
       ∧ u = unsigned_json c b.
Proof using Hc Hb.
  unfold _unsigned_envelope, primitive_json. intros H. inv_ok. exists r. split; [done|].
  destruct (plan_canonical (prior_plan c)) as (prim & Hprim & Hcan); [apply Hc|].
  destruct (proposal_canonical (proposal c) (decision_action_key (prior_plan c))) as (prim' & Hprim' & Hcan');
    [apply Hb|apply Hc..|].
  rewrite Hprim in Hr4. injection Hr4 as <-. rewrite Hcan in Hr0. injection Hr0 as <-.
  rewrite Hprim' in Hr3. injection Hr3 as <-. rewrite Hcan' in Hr1. injection Hr1 as <-.
  pose proof (request_primitive_Ok _ _ Hr2) as (_ & _ & _ & _ & _ & Hreq). by subst r2 u.
Qed.

Lemma plan_is_readable :
  in_64 (decision_version (prior_plan c)) → in_64 (decision_aggregate_version (prior_plan c)) →
  plan_readable (prior_plan c).
Proof using Hc Hb.
  intros Hv Ha. destruct (valid_facts _ (enc_proposal _ Hc)).
  split; try apply Hc; rewrite ?(bound_id _ _ Hb), ?(bound_case _ _ Hb), ?(bound_allowed _ _ Hb); try done.
  - destruct (action_key_Ok _ _ (bound_key _ _ Hb)) as (h & -> & Hh%digest_str_ok).
    apply Forall_app. split; [apply lit_ok|done].
  - pose proof (bound_digest _ _ Hb) as E. unfold proposal_digest in E. inv_ok. by eapply sha256_hexdigest_digest.
  - by rewrite (bound_version _ _ Hb) in *.
  - split; [apply Hc|done].
  - constructor.
Qed.
Context (b : list (string * pystr)) (Hbind : _bindings c = Ok b)
        (Hreq : _request_primitive (request c) = Ok (request_json (request c))).
Context (Hwalk : walkable 0 (JDict (unsigned_json c b)) = true).

Lemma command_walkable : walkable 1 (JDict (command_json c)) = true.
Proof using Hwalk. eapply (walkable_item 0 _ "command"); [exact Hwalk|]. solve_item. Qed.

Lemma proposal_range : proposal_in_range (proposal c).
Proof using Hwalk.
  apply (proposal_walkable 2 _ (decision_action_key (prior_plan c))).
  eapply (walkable_item 1 _ "proposal"); [apply command_walkable|]. solve_item.
Qed.

Lemma plan_ready : plan_readable (prior_plan c).
Proof using Hc Hb Hwalk.
  assert (Hplan : walkable 2 (JDict (plan_json (prior_plan c))) = true)
    by (eapply (walkable_item 1 _ "prior_plan"); [apply command_walkable|]; solve_item).
  apply plan_is_readable; eapply (walkable_int 3), (walkable_item 2); try exact Hplan.
  - instantiate (1 := "decision_version"%string). solve_item.
  - instantiate (1 := "aggregate_version"%string). solve_item.
Qed.

Lemma request_range : in_64 (amount_minor (request c)) ∧ in_64 (expire_by_epoch (request c)).
Proof using Hwalk.
  assert (Hr : walkable 2 (JDict (request_json (request c))) = true)
    by (eapply (walkable_item 1 _ "request"); [apply command_walkable|]; solve_item).
  split; eapply (walkable_int 3), (walkable_item 2); try exact Hr.
  - instantiate (1 := "amount_minor"%string). solve_item.
  - instantiate (1 := "expire_by_epoch"%string). solve_item.
Qed.

Lemma command_json_ok : json_ok (JDict (command_json c)).
Proof using Hc Hb Hwalk.
  apply json_ok_dict. split; [decide_closed|].
  repeat (apply Forall_cons_2; [split; [apply lit_ok|cbn [snd]]|]); try apply Forall_nil_2.
  - apply plan_json_ok, plan_ready.
  - apply proposal_json_ok; [apply Hc|apply Hb].
  - by apply json_ok_str, identifier_str_ok, Hb.
  - by apply request_json_ok; apply Hc.
Qed.

Lemma unsigned_is_envelope : unsigned_envelope create_kind (unsigned_json c b).
Proof using Hc Hb Hwalk Hbind.
  split; [|done|solve_item|solve_item|solve_item].
  destruct (create_bindings_ok c b Hbind) as [Hkeys Hok].
  apply json_ok_dict. split; [decide_closed|].
  repeat (apply Forall_cons_2; [split; [apply lit_ok|cbn [snd]]|]); try apply Forall_nil_2.
  - apply bindings_json_ok; [|done]. rewrite Hkeys. decide_closed.
  - apply command_json_ok.
  - apply json_ok_str, lit_ok.
  - apply json_ok_str, lit_ok.
  - constructor.
Qed.

(** The decoder reads the command of the envelope back. *)
Lemma read_command_back env :
  signed (unsigned_json c b) = Ok env → read_command (sorted_dict env) = Ok c.
Proof using Hc Hb Hwalk Hbind Hreq.
  intros Hs. pose proof (items_sorted (command_json c) ltac:(vm_compute; reflexivity)) as Hi.
  unfold read_command.
  rewrite (signed_item _ _ _ unsigned_is_envelope Hs "command" (JDict (command_json c))), bind_Ok_l by solve_item.
  change (sort_keys (JDict ?d)) with (JDict (sorted_dict d)).
  rewrite exact_object_keys, bind_Ok_l by (by rewrite sorted_dict_keys).
  rewrite (Hi "proposal"%string _ ltac:(solve_item)), bind_Ok_l.
  rewrite proposal_read_back, bind_Ok_l; [|apply Hc|apply proposal_range|apply Hc|apply Hb].
  rewrite (Hi "prior_plan"%string _ ltac:(solve_item)), bind_Ok_l.
  rewrite plan_read_back, bind_Ok_l by apply plan_ready.
  rewrite (Hi "request"%string _ ltac:(solve_item)), bind_Ok_l.
  rewrite request_read_back, bind_Ok_l; [|done|apply Hc|apply Hc|apply request_range..].
  rewrite (Hi "provider_account_id"%string _ ltac:(solve_item)), bind_Ok_l. cbn [sort_keys _text]. rewrite bind_Ok_l.
  unfold CreatePaymentLinkCommand_post_init, _require_text. cbn [provider_account_id].
  rewrite identifier_clean by apply Hb. cbn. by destruct c.
Qed.
End theorems.

Lemma encode_Ok nfkd c env :
  encode_create_standard_payment_link_command nfkd c = Ok env →
  ∃ u, _unsigned_envelope c = Ok u ∧ command_bound nfkd c ∧ signed u = Ok env.
Proof.
  unfold encode_create_standard_payment_link_command. intros H. inv_ok. destruct r0.
  exists r. by rewrite <- validate_Ok.
Qed.

Lemma decode_encoded nfkd nesting_limit c env :
  encodable c → encode_create_standard_payment_link_command nfkd c = Ok env →
  decode_create_standard_payment_link_command nfkd nesting_limit (jsonb env)
    CREATE_STANDARD_PAYMENT_LINK_COMMAND_TYPE COMMAND_SCHEMA_VERSION = Ok c.
Proof.
  intros Hc Henc. destruct (encode_Ok _ _ _ Henc) as (u & Hu & Hb & Hs).
  destruct (unsigned_Ok nfkd c Hc Hb u Hu) as (b & Hbind & Hreq & ->).
  destruct (signed_shape _ _ Hs) as (bs & Hbs & _ & _).
  assert (Hwalk : walkable 0 (JDict (unsigned_json c b)) = true).
  { unfold bounded_bytes in Hbs. apply bounded_canonical_Ok in Hbs as (_ & _ & [n Hn]%is_ok_true).
    by apply walk_Ok in Hn. }
  pose proof (unsigned_is_envelope nfkd c Hc Hb b Hbind Hwalk) as Henv.
  destruct (create_bindings_ok c b Hbind) as [Hkeys Hok].
  unfold decode_create_standard_payment_link_command.
  change CREATE_STANDARD_PAYMENT_LINK_COMMAND_TYPE with (kind_type create_kind).
  rewrite (open_signed create_kind _ env Henv Hs), bind_Ok_l.
  rewrite (read_command_back nfkd c Hc Hb b Hbind Hreq Hwalk env Hs), bind_Ok_l.
  rewrite (proj2 (validate_Ok nfkd c) Hb), bind_Ok_l. rewrite Hbind, Henc.
  rewrite (close_signed create_kind _ env Henv Hs _BINDING_FIELDS b); [done| | | |solve_item].
  - by rewrite Hkeys.
  - rewrite Hkeys. decide_closed.
  - done.
Qed.

(** * Properties *)

(** What a successful decoding went through. *)
Lemma decode_Ok nfkd nesting_limit payload type version c :
  decode_create_standard_payment_link_command nfkd nesting_limit payload type version = Ok c →
  ∃ envelope,
    open_envelope nesting_limit create_kind payload type version = Ok envelope
    ∧ read_command envelope = Ok c ∧ command_bound nfkd c
    ∧ close_envelope create_kind _BINDING_FIELDS envelope (_bindings c)
        (encode_create_standard_payment_link_command nfkd c) = Ok tt.
Proof.
  unfold decode_create_standard_payment_link_command. intros H. inv_ok. subst.
  repeat match goal with u : () |- _ => destruct u end. exists r. by rewrite <- validate_Ok.
Qed.

Lemma read_command_Ok envelope c :
  read_command envelope = Ok c →
  (∃ v, _proposal v = Ok (proposal c)) ∧ (∃ v, _prior_plan v = Ok (prior_plan c))
  ∧ (∃ v, _request v = Ok (request c)).
Proof.
  unfold read_command. intros H.
  do 3 (apply bind_Ok in H as (? & _ & H)). apply bind_Ok in H as (p & Hp & H).
  apply bind_Ok in H as (? & _ & H). apply bind_Ok in H as (plan & Hplan & H).
  apply bind_Ok in H as (? & _ & H). apply bind_Ok in H as (r & Hr & H).
  apply rewrap_foreign_Ok in H. unfold CreatePaymentLinkCommand_post_init in H. inv_ok. subst c. cbn.
  split_and!; eauto.
Qed.

Lemma request_Ok v r :
  _request v = Ok r → StandardPaymentLinkRequest_post_init r = Ok r.
Proof.
  unfold _request. intros H.
  do 3 (apply bind_Ok in H as (? & _ & H)). apply bind_Ok in H as ([] & _ & H).
  do 3 (apply bind_Ok in H as (? & _ & H)). apply bind_Ok in H as ([] & _ & H).
  assert (read_request x x1 x3 = Ok r) as Hr.
  { destruct (read_request x x1 x3) as [|[]]; try done. }
  unfold read_request in Hr. inv_ok.
  match goal with E : StandardPaymentLinkRequest_post_init ?q = Ok r |- _ =>
    pose proof (request_facts_ok _ _ E) as [-> _]; exact E end.
Qed.

(** C20: a payload is accepted only in the unique canonical form of its
    command: whatever the decoder accepts, as text, bytes or a JSON mapping, has
    exactly the bytes the encoder writes for the command it returns, and at most
    16 KiB of them. *)
Theorem accepted_payload_canonical nfkd nesting_limit payload type version c :
  decode_create_standard_payment_link_command nfkd nesting_limit payload type version = Ok c →
  type = CREATE_STANDARD_PAYMENT_LINK_COMMAND_TYPE ∧ version = COMMAND_SCHEMA_VERSION
  ∧ ∃ bs, encode_create_standard_payment_link_command_json nfkd c = Ok bs
          ∧ payload_bytes payload = Ok bs ∧ Z.of_nat (length bs) <= MAX_EFFECT_COMMAND_BYTES.
Proof.
  intros (envelope & Ho & _ & _ & Hc)%decode_Ok. pose proof (open_Ok _ _ _ _ _ _ Ho) as (-> & -> & _).
  split; [done|]. split; [done|].
  destruct (accepted_bytes _ _ _ _ _ _ _ _ _ Ho Hc) as (env & bs & Hr & Hp & Hb).
  exists bs. unfold encode_create_standard_payment_link_command_json. rewrite Hr, bind_Ok_l.
  split; [done|]. split; [done|]. by apply bounded_canonical_Ok in Hb as (_ & ? & _).
Qed.

(** C21: a decoded command is authorized as a plan and bound in every field:
    its proposal is one the constructor accepts, its plan allowed exactly that
    proposal, its request carries the amount, the case and the derived reference,
    and no customer data: two controller notes, the fixed description, no
    customer. *)
Theorem decoded_command_bound nfkd nesting_limit payload type version c :
  decode_create_standard_payment_link_command nfkd nesting_limit payload type version = Ok c →
  command_bound nfkd c ∧ ActionProposal_valid (proposal c)
  ∧ StandardPaymentLinkRequest_post_init (request c) = Ok (request c)
  ∧ customer (request c) = None
  ∧ (∀ k, k ∈ (notes (request c)).*1 ↔ k ∈ _REQUIRED_NOTE_KEYS)
  ∧ ∃ order, dict_get ($"merchant_order_id") (notes (request c)) = Some order
             ∧ is_identifier order = true ∧ description (request c) = _DESCRIPTION_PREFIX ++ order.
Proof.
  intros (envelope & _ & Hread & Hb & Hc)%decode_Ok.
  destruct (read_command_Ok _ _ Hread) as ((v & Hp) & _ & (w & Hr)).
  apply close_Ok in Hc as (env & bs & Henc & _). apply encode_Ok in Henc as (u & Hu & _ & _).
  unfold _unsigned_envelope in Hu. inv_ok.
  match goal with E : _request_primitive _ = Ok _ |- _ =>
    apply request_primitive_Ok in E as (Hcust & Hn & (order & Horder & Hd) & _) end.
  pose proof (notes_Ok _ _ Hn) as (_ & Hids & Hkeys).
  split; [done|]. split; [by eapply decoded_proposal|]. split; [by eapply request_Ok|].
  split; [done|]. split; [done|]. exists order. split; [done|]. split; [|done].
  apply dict_get_elem in Horder. exact (proj1 (Forall_forall _ _) Hids _ Horder).
Qed.

(** ** Failures *)

Lemma handled_clean_text j field maximum : handled (_clean_text j field maximum).
Proof. unfold _clean_text. handle. Qed.
#[export] Hint Resolve handled_clean_text : handled.

Lemma handled_check_notes l : handled (check_notes l).
Proof. induction l as [|[k v] l IH]; cbn [check_notes]; handle. Qed.

Lemma handled_request_init r : handled (StandardPaymentLinkRequest_post_init r).
Proof. unfold StandardPaymentLinkRequest_post_init, _strict_positive_int. handle. apply handled_check_notes. Qed.

Lemma handled_description v : handled (_reject_obvious_sensitive_description v).
Proof. unfold _reject_obvious_sensitive_description. handle. Qed.
Lemma handled_description_binding v order : handled (_validate_description_binding v order).
Proof. unfold _validate_description_binding. handle. Qed.

Lemma handled_notes j : handled (_notes j).
Proof.
  unfold _notes. destruct j; handle. clear.
  induction d as [|[k v] d IH]; cbn [check_note_items]; handle.
Qed.

Lemma check_note_items_keys d l : check_note_items d = Ok l → l.*1 = d.*1.
Proof.
  revert l. induction d as [|[k v] d IH]; cbn; intros l H; inv_ok; subst; [done|].
  rewrite rewrap_Ok, require_identifier_Ok in *. destruct_and!. subst. cbn. f_equal. by apply IH.
Qed.

Lemma handled_order j l : _notes j = Ok l → handled (note l "merchant_order_id").
Proof.
  unfold _notes. destruct j; try done. intros H. inv_ok. apply check_note_items_keys in H.
  unfold note. destruct (dict_get _ l) eqn:E; [handle|]. exfalso.
  bools. apply Hr0, Exists_exists. exists ($"merchant_order_id"). split; [left|].
  rewrite <- H. intros ([k v] & Ek & Hin)%list_elem_of_fmap. cbn in Ek. subst k.
  clear -E Hin. induction l as [|[k' v'] l IH]; cbn in *; [by apply not_elem_of_nil in Hin|].
  case_decide as Ek; [done|]. apply elem_of_cons in Hin as [[= E1 _]|Hin]; [done|]. by apply IH.
Qed.

Lemma handled_validation {A} (m : result A) e :
  type_or_value_error e = true → handled m → handled (rewrap_validation m e).
Proof. intros He Hm. destruct m as [|[]]; cbn; try done; by intros e' [= <-]. Qed.

#[export] Hint Resolve handled_request_init handled_description handled_description_binding handled_notes
  handled_order : handled.

Lemma handled_request j : handled (_request j).
Proof.
  unfold _request. handle. apply handled_validation; [done|]. unfold read_request. cbv zeta. handle.
Qed.

Lemma handled_reference nfkd case account : handled (make_recovery_reference_id nfkd case account).
Proof. intros e H%reference_errors. by destruct e. Qed.

Section handled_command.
Context (nfkd : pystr → pystr) (c : CreatePaymentLinkCommand).
Context (Hp : ActionProposal_valid (proposal c)) (Hplan : stored (decision_evaluated_at (prior_plan c)) = true).

Lemma handled_proposal_digest : handled (proposal_digest (proposal c)).
Proof using Hp.
  unfold proposal_digest. handle; [|by eapply handled_hexdigest, proposal_no_datetime].
  apply handled_proposal_primitive; apply stored_utc, Hp.
Qed.

Lemma handled_decision_digest : handled (decision_digest (prior_plan c)).
Proof using Hplan.
  unfold decision_digest. handle; [|by eapply handled_hexdigest, plan_no_datetime].
  by apply handled_plan_primitive, stored_utc.
Qed.

Lemma handled_validate : handled (_validate_command_binding nfkd c).
Proof using Hp.
  unfold _validate_command_binding, plan_bound. cbv zeta. handle;
    first [apply handled_proposal_digest|apply handled_reference].
Qed.

Lemma handled_bindings : handled (_bindings c).
Proof using Hp Hplan.
  unfold _bindings, command_payload_digest, command_payload, _sha256_json, request_digest,
    payment_link_request_digest, to_json_bytes, to_payload.
  handle; first [apply handled_proposal_digest|apply handled_decision_digest].
Qed.

Lemma handled_encode : handled (encode_create_standard_payment_link_command nfkd c).
Proof using Hp Hplan.
  unfold encode_create_standard_payment_link_command, _unsigned_envelope, primitive_json. handle;
    first [apply handled_bindings|apply handled_signed|apply handled_validate|idtac].
  - by apply handled_plan_primitive, stored_utc.
  - by eapply handled_canonical, plan_no_datetime.
  - apply handled_proposal_primitive; apply stored_utc, Hp.
  - by eapply handled_canonical, proposal_no_datetime.
  - unfold _request_primitive. handle.
Qed.
End handled_command.

(** the decoder fails closed: whatever the payload, it returns a command
    or raises an exception the worker's
    [except (EffectCommandCodecError, TypeError, ValueError)] turns into a
    refusal. *)
Theorem decode_failures_handled nfkd nesting_limit payload type version :
  match decode_create_standard_payment_link_command nfkd nesting_limit payload type version with
  | Ok _ => True
  | Raise e => type_or_value_error e = true
  end.
Proof.
  assert (handled (decode_create_standard_payment_link_command nfkd nesting_limit payload type version)) as H.
  { unfold decode_create_standard_payment_link_command.
    apply handled_bind; [apply handled_open|intros envelope Ho]. apply handled_bind.
    { unfold read_command, CreatePaymentLinkCommand_post_init, _require_text.
      assert (handled (item_of envelope "command")) as Hitem.
      { unfold open_envelope in Ho. inv_ok. subst. by eapply handled_field. }
      handle; apply handled_request. }
    intros c Hread. destruct (read_command_Ok _ _ Hread) as ((v & [Hp _]%decoded_proposal) & (w & (Hs & _ & _)%decoded_plan) & _).
    apply handled_bind; [by apply handled_validate|intros _ _].
    apply handled_bind; [|intros _ _; handle].
    eapply handled_close; [exact Ho|by apply handled_bindings| |by apply handled_encode].
    intros b Hb. by apply create_bindings_ok in Hb as [-> _]. }
  destruct (decode_create_standard_payment_link_command _ _ _ _ _); [done|by apply H].
Qed.

(** C19: for a command whose proposal and request are as their constructors
    make them, with the two notes in key order, a model confidence in the form
    its text is read in, and a plan evaluated at a representable UTC instant:
    what the encoder writes is read back, from JSONB, as that command exactly
    when the plan's policy version is a legal identifier and its aggregate
    version is not negative, which the encoder does not check. *)
Theorem create_command_round_trip nfkd nesting_limit c env :
  constructed c → encode_create_standard_payment_link_command nfkd c = Ok env →
  decode_create_standard_payment_link_command nfkd nesting_limit (jsonb env)
    CREATE_STANDARD_PAYMENT_LINK_COMMAND_TYPE COMMAND_SCHEMA_VERSION = Ok c
  ↔ plan_versions_legal (prior_plan c).
Proof.
  intros Hc Henc. split; [|intros Hp; by apply decode_encoded; [apply constructed_encodable|]].
  intros (envelope & _ & Hread & _)%decode_Ok. destruct (read_command_Ok _ _ Hread) as (_ & (v & Hv) & _).
  by apply decoded_plan in Hv as (_ & ? & ?).
Qed.

(** * Witnesses *)
Definition sample_create_request : StandardPaymentLinkRequest :=
  mkStandardPaymentLinkRequest 10000 ($"INR")
    (or_default [] (make_recovery_reference_id id ($"case_1") ($"acc_1")))
    ($"Retry payment for order order_1") (int_timestamp sample_now + 3600)
    [($"merchant_order_id", $"order_1"); ($"recovery_case_id", $"case_1")] None.
Definition sample_create : CreatePaymentLinkCommand :=
  mkCreatePaymentLinkCommand sample_proposal_09 sample_plan sample_create_request ($"acc_1").

Lemma sample_create_encodable : encodable sample_create.
Proof.
  split.
  - apply sample_proposal_09_valid.
  - intros p [= <-]. vm_compute. reflexivity.
  - vm_compute. reflexivity.
  - reflexivity.
  - vm_compute. reflexivity.
  - vm_compute. discriminate.
  - vm_compute. reflexivity.
Qed.

Definition sample_envelope : list (pystr * json) :=
  or_default [] (encode_create_standard_payment_link_command id sample_create).

Lemma sample_create_encodes : encode_create_standard_payment_link_command id sample_create = Ok sample_envelope.
Proof. apply or_default_Ok. vm_compute. reflexivity. Qed.

Lemma sample_create_decodes :
  decode_create_standard_payment_link_command id 100 (jsonb sample_envelope)
    CREATE_STANDARD_PAYMENT_LINK_COMMAND_TYPE COMMAND_SCHEMA_VERSION = Ok sample_create.
Proof. apply decode_encoded; [apply sample_create_encodable|apply sample_create_encodes]. Qed.

Lemma sample_create_constructed : constructed sample_create.
Proof. destruct sample_create_encodable. by split. Qed.

Lemma create_command_round_trip_witness :
  decode_create_standard_payment_link_command id 100 (jsonb sample_envelope)
    CREATE_STANDARD_PAYMENT_LINK_COMMAND_TYPE COMMAND_SCHEMA_VERSION = Ok sample_create.
Proof.
  apply (create_command_round_trip id 100 sample_create sample_envelope).
  - apply sample_create_constructed.
  - apply sample_create_encodes.
  - split; [apply (enc_policy _ sample_create_encodable)|apply (enc_aggregate _ sample_create_encodable)].
Defined.

(** The sample plan under a policy version that is no identifier. *)
Definition unnamed_policy_plan : GateDecision :=
  mkGateDecision (stage sample_plan) ($"policy 1") (decision_proposal_id sample_plan)
    (decision_action_key sample_plan) (decision_proposal_digest sample_plan) (decision_case_id sample_plan)
    (decision_version sample_plan) (decision_aggregate_version sample_plan) (decision_evaluated_at sample_plan)
    (reasons sample_plan).
Definition unnamed_policy_create : CreatePaymentLinkCommand :=
  mkCreatePaymentLinkCommand sample_proposal_09 unnamed_policy_plan sample_create_request ($"acc_1").

(** The encoder accepts a plan whose policy version the decoder refuses. *)
Lemma unreadable_plan_encoded :
  ∃ env, encode_create_standard_payment_link_command id unnamed_policy_create = Ok env
    ∧ is_ok (decode_create_standard_payment_link_command id 100 (jsonb env)
               CREATE_STANDARD_PAYMENT_LINK_COMMAND_TYPE COMMAND_SCHEMA_VERSION) = false.
Proof.
  exists (or_default [] (encode_create_standard_payment_link_command id unnamed_policy_create)).
  split; [apply or_default_Ok|]; vm_compute; reflexivity.
Qed.

Lemma accepted_payload_canonical_witness :
  CREATE_STANDARD_PAYMENT_LINK_COMMAND_TYPE = CREATE_STANDARD_PAYMENT_LINK_COMMAND_TYPE
  ∧ COMMAND_SCHEMA_VERSION = COMMAND_SCHEMA_VERSION
  ∧ ∃ bs, encode_create_standard_payment_link_command_json id sample_create = Ok bs
          ∧ payload_bytes (jsonb sample_envelope) = Ok bs
          ∧ Z.of_nat (length bs) <= MAX_EFFECT_COMMAND_BYTES.
Proof. apply (accepted_payload_canonical id 100 (jsonb sample_envelope)). apply sample_create_decodes. Defined.

Lemma decoded_command_bound_witness :
  command_bound id sample_create ∧ ActionProposal_valid (proposal sample_create)
  ∧ StandardPaymentLinkRequest_post_init (request sample_create) = Ok (request sample_create)
  ∧ customer (request sample_create) = None
  ∧ (∀ k, k ∈ (notes (request sample_create)).*1 ↔ k ∈ _REQUIRED_NOTE_KEYS)
  ∧ ∃ order, dict_get ($"merchant_order_id") (notes (request sample_create)) = Some order
             ∧ is_identifier order = true
             ∧ description (request sample_create) = _DESCRIPTION_PREFIX ++ order.
Proof.
  apply (decoded_command_bound id 100 (jsonb sample_envelope) CREATE_STANDARD_PAYMENT_LINK_COMMAND_TYPE
           COMMAND_SCHEMA_VERSION).
  apply sample_create_decodes.
Defined.
