(* ===== verification/Cancellation.v ===== *)
(** [services/control_plane/cancellation.py]: the fail-closed executor that
    cancels one Payment Link.  [execute] runs over the trace of its port calls
    ([Effects]).  What the provider port returns is any object: an instance of
    the contract's class, or a foreign object read attribute by attribute. *)
From S2P Require Import Prelude PyStr Sha256 PyTime Json Canonical Digest Values States Actions Gate.
From S2P Require Import Text Outbox References Effects.

(** * Vocabulary and checks *)

(** [_PAYMENT_LINK_ID_RE]: plink_[A-Za-z0-9]{1,120}. *)
Definition is_payment_link_id (s : pystr) : bool :=
  starts_with ($"plink_") s && forallb is_alnum (drop 6 s) && (7 <=? str_len s) && (str_len s <=? 126).

(** [_REASON_CODE_RE]: [a-z0-9][a-z0-9_:.-]{0,127}. *)
Definition reason_head (c : Z) : bool := is_lower c || is_digit c.
Definition is_reason_code (s : pystr) : bool :=
  match s with
  | [] => false
  | c :: r => reason_head c && forallb (λ c, reason_head c || one_of ($"_:.-") c) r && (str_len r <=? 127)
  end.

(** [re.sub(r"[^a-z0-9_]", "_", name.casefold())[:80]]. *)
Definition _safe_exception_reason (prefix : pystr) (exc : py_error) : pystr :=
  let name := take 80 (map (λ c, if reason_head c || (c =? 95) then c else 95) (lower_ascii (lit (error_name exc)))) in
  prefix ++ $":" ++ (if decide (name = []) then $"exception" else name).

Inductive DurableInstrumentStatus :=
  | CREATING | UNCERTAIN | ISSUED | ACTIVE_INSTRUMENT | CANCEL_PENDING | PAID_INSTRUMENT
  | PARTIALLY_PAID_INSTRUMENT | CANCELLED_INSTRUMENT | EXPIRED_INSTRUMENT | FAILED_INSTRUMENT.

#[export] Instance DurableInstrumentStatus_eq_dec : EqDecision DurableInstrumentStatus.
Proof. solve_decision. Defined.

(** [status.value.lower()]. *)
Definition instrument_status_lower (s : DurableInstrumentStatus) : pystr :=
  match s with
  | CREATING => $"creating" | UNCERTAIN => $"uncertain" | ISSUED => $"issued"
  | ACTIVE_INSTRUMENT => $"active" | CANCEL_PENDING => $"cancel_pending" | PAID_INSTRUMENT => $"paid"
  | PARTIALLY_PAID_INSTRUMENT => $"partially_paid" | CANCELLED_INSTRUMENT => $"cancelled"
  | EXPIRED_INSTRUMENT => $"expired" | FAILED_INSTRUMENT => $"failed"
  end.

Inductive ProviderPaymentLinkStatus := LINK_CREATED | LINK_PARTIALLY_PAID | LINK_EXPIRED | LINK_CANCELLED | LINK_PAID.

#[export] Instance ProviderPaymentLinkStatus_eq_dec : EqDecision ProviderPaymentLinkStatus.
Proof. solve_decision. Defined.

Definition link_status_value (s : ProviderPaymentLinkStatus) : pystr :=
  match s with
  | LINK_CREATED => $"created" | LINK_PARTIALLY_PAID => $"partially_paid" | LINK_EXPIRED => $"expired"
  | LINK_CANCELLED => $"cancelled" | LINK_PAID => $"paid"
  end.
Definition link_statuses : list ProviderPaymentLinkStatus :=
  [LINK_CREATED; LINK_PARTIALLY_PAID; LINK_EXPIRED; LINK_CANCELLED; LINK_PAID].
(** [ProviderPaymentLinkStatus(value)]. *)
Definition link_status_of (value : pystr) : option ProviderPaymentLinkStatus :=
  List.find (λ s, bool_decide (link_status_value s = value)) link_statuses.

Inductive ProviderCancellationStatus := CANCEL_SUCCESS | CANCEL_FAILURE | CANCEL_AMBIGUOUS.

#[export] Instance ProviderCancellationStatus_eq_dec : EqDecision ProviderCancellationStatus.
Proof. solve_decision. Defined.

Definition cancellation_status_value (s : ProviderCancellationStatus) : pystr :=
  match s with
  | CANCEL_SUCCESS => $"certain_success" | CANCEL_FAILURE => $"certain_failure" | CANCEL_AMBIGUOUS => $"ambiguous"
  end.
Definition cancellation_status_of (value : pystr) : option ProviderCancellationStatus :=
  List.find (λ s, bool_decide (cancellation_status_value s = value)) [CANCEL_SUCCESS; CANCEL_FAILURE; CANCEL_AMBIGUOUS].

Inductive CancellationDisposition :=
  | CANCELLED | ALREADY_CANCELLED | EXPIRED | BLOCKED | RECONCILE_REQUIRED | REVIEW_REQUIRED
  | ESCALATED | DEAD_LETTERED.

#[export] Instance CancellationDisposition_eq_dec : EqDecision CancellationDisposition.
Proof. solve_decision. Defined.

Definition disposition_value (d : CancellationDisposition) : pystr :=
  match d with
  | CANCELLED => $"cancelled" | ALREADY_CANCELLED => $"already_cancelled" | EXPIRED => $"expired"
  | BLOCKED => $"blocked" | RECONCILE_REQUIRED => $"reconcile_required"
  | REVIEW_REQUIRED => $"review_required" | ESCALATED => $"escalated" | DEAD_LETTERED => $"dead_letter"
  end.

(** * The target *)
Record CancellationTarget := mkCancellationTarget {
  target_merchant_id : pystr;
  target_case_id : pystr;
  target_action_id : pystr;
  target_action_key : pystr;
  instrument_id : pystr;
  target_account_id : pystr;
  target_link_id : pystr;
  target_reference_id : pystr;
  target_amount_minor : Z;
  target_currency : pystr
}.

#[export] Instance CancellationTarget_eq_dec : EqDecision CancellationTarget.
Proof. solve_decision. Defined.

(** [try: require_identifier(value) except ValueError: raise ValueError(message)]. *)
Definition identifier_or (message : string) (value : pystr) : result unit :=
  match require_identifier value "" with Ok _ => Ok tt | Raise _ => Raise (ValueError message) end.

Section target.
Context (nfkd : pystr → pystr).

Definition CancellationTarget_post_init (t : CancellationTarget) : result CancellationTarget :=
  _ ← identifier_or "merchant_id must be an opaque identifier" (target_merchant_id t);
  _ ← identifier_or "case_id must be an opaque identifier" (target_case_id t);
  _ ← identifier_or "action_id must be an opaque identifier" (target_action_id t);
  _ ← identifier_or "instrument_id must be an opaque identifier" (instrument_id t);
  _ ← identifier_or "provider_account_id must be an opaque identifier" (target_account_id t);
  action_key ← _require_text (target_action_key t) "action_key" 68;
  _ ← raise_if (negb (starts_with ($"act_") action_key) || negb (is_digest (drop 4 action_key)))
        (ValueError "action_key must be a RetryWise action digest");
  _ ← raise_if (negb (is_payment_link_id (target_link_id t)))
        (ValueError "payment_link_id must be a Razorpay Payment Link id");
  _ ← identifier_or "reference_id must be an opaque provider reference" (target_reference_id t);
  _ ← raise_if (40 <? str_len (target_reference_id t))
        (ValueError "reference_id cannot exceed the provider limit");
  expected ← make_recovery_reference_id nfkd (target_case_id t) (target_account_id t);
  _ ← raise_if (bool_decide (target_reference_id t ≠ expected))
        (ValueError "reference_id must be the controller-derived recovery reference");
  _ ← raise_if (target_amount_minor t <=? 0) (ValueError "amount_minor must be a positive integer");
  _ ← raise_if (negb (is_currency (target_currency t)))
        (ValueError "currency must be a three-letter uppercase code");
  Ok t.
End target.

Definition CancellationTarget_to_primitive (t : CancellationTarget) : pyobj :=
  PyDict
    [(PyStr ($"action_id"), PyStr (target_action_id t));
     (PyStr ($"action_key"), PyStr (target_action_key t));
     (PyStr ($"amount_minor"), PyInt (target_amount_minor t));
     (PyStr ($"case_id"), PyStr (target_case_id t));
     (PyStr ($"currency"), PyStr (target_currency t));
     (PyStr ($"instrument_id"), PyStr (instrument_id t));
     (PyStr ($"merchant_id"), PyStr (target_merchant_id t));
     (PyStr ($"payment_link_id"), PyStr (target_link_id t));
     (PyStr ($"provider_account_id"), PyStr (target_account_id t));
     (PyStr ($"reference_id"), PyStr (target_reference_id t))].

Definition target_material (t : CancellationTarget) : pyobj :=
  PyDict [(PyStr ($"schema"), PyStr ($"retrywise-cancellation-target-v1"));
          (PyStr ($"target"), CancellationTarget_to_primitive t)].
Definition target_digest (t : CancellationTarget) : result pystr := sha256_hexdigest (target_material t).

(** * The command *)
Record CancelPaymentLinkCommand := mkCancelCommand {
  proposal : ActionProposal;
  prior_plan : GateDecision;
  target : CancellationTarget
}.

Definition CancelPaymentLinkCommand_post_init (c : CancelPaymentLinkCommand) : result CancelPaymentLinkCommand :=
  let p := proposal c in
  let plan := prior_plan c in
  let t := target c in
  _ ← raise_if (bool_decide (action_type p ≠ CANCEL_PAYMENT_LINK))
        (ValueError "cancellation command requires a cancellation proposal");
  _ ← raise_if (bool_decide (instrument_reference p ≠ Some (target_link_id t)))
        (ValueError "proposal instrument is not the target Payment Link");
  _ ← raise_if (bool_decide (proposal_merchant_id p ≠ target_merchant_id t)
                || bool_decide (proposal_case_id p ≠ target_case_id t))
        (ValueError "cancellation proposal is not bound to its target");
  key ← action_key p;
  _ ← raise_if (bool_decide (key ≠ target_action_key t))
        (ValueError "cancellation proposal is not bound to its target");
  _ ← raise_if (bool_decide (stage plan ≠ POLICY) || negb (allowed plan))
        (ValueError "cancellation command requires an allowed policy plan");
  digest ← proposal_digest p;
  _ ← raise_if (bool_decide (decision_proposal_id plan ≠ proposal_id p)
                || bool_decide (decision_action_key plan ≠ key)
                || bool_decide (decision_proposal_digest plan ≠ digest)
                || bool_decide (decision_case_id plan ≠ proposal_case_id p)
                || bool_decide (decision_version plan ≠ proposal_decision_version p))
        (ValueError "cancellation policy plan is not bound to the proposal");
  Ok c.

Definition command_material (key plan digest target : pystr) : pyobj :=
  PyDict [(PyStr ($"action_key"), PyStr key);
          (PyStr ($"prior_plan_digest"), PyStr plan);
          (PyStr ($"proposal_digest"), PyStr digest);
          (PyStr ($"schema"), PyStr ($"retrywise-cancel-payment-link-command-v1"));
          (PyStr ($"target_digest"), PyStr target)].

Definition command_payload_digest (c : CancelPaymentLinkCommand) : result pystr :=
  key ← action_key (proposal c);
  plan ← decision_digest (prior_plan c);
  digest ← proposal_digest (proposal c);
  tdigest ← target_digest (target c);
  sha256_hexdigest (command_material key plan digest tdigest).

(** * The durable binding *)
Record DurableInstrumentBinding := mkDurableInstrumentBinding {
  binding_target : CancellationTarget;
  persisted_target_digest : pystr;
  instrument_status : DurableInstrumentStatus;
  binding_recorded_at : datetime;
  binding_schema_version : Z
}.

Definition DurableInstrumentBinding_post_init (b : DurableInstrumentBinding) : result DurableInstrumentBinding :=
  _ ← require_digest (persisted_target_digest b) "persisted_target_digest";
  recorded ← _require_utc (binding_recorded_at b) "recorded_at";
  _ ← raise_if (bool_decide (binding_schema_version b ≠ 1))
        (ValueError "unsupported durable instrument binding schema_version");
  Ok (mkDurableInstrumentBinding (binding_target b) (persisted_target_digest b) (instrument_status b)
        recorded (binding_schema_version b)).

(** [DurableInstrumentBinding.record]. *)
Definition record_binding (t : CancellationTarget) (status : DurableInstrumentStatus) (recorded_at : datetime)
    : result DurableInstrumentBinding :=
  digest ← target_digest t;
  DurableInstrumentBinding_post_init (mkDurableInstrumentBinding t digest status recorded_at 1).

Definition binding_matches (b : DurableInstrumentBinding) (c : CancelPaymentLinkCommand) : result bool :=
  if decide (binding_target b = target c) then
    digest ← target_digest (target c);
    Ok (bool_decide (persisted_target_digest b = digest))
  else Ok false.

(** * Provider truth *)
Record ProviderPaymentLinkTruth := mkTruth {
  truth_link_id : pystr;
  truth_reference_id : pystr;
  truth_amount_minor : Z;
  amount_paid_minor : Z;
  truth_currency : pystr;
  truth_accept_partial : bool;
  truth_upi_link : bool;
  truth_status : ProviderPaymentLinkStatus
}.

Definition ProviderPaymentLinkTruth_post_init (v : ProviderPaymentLinkTruth) : result ProviderPaymentLinkTruth :=
  _ ← raise_if (negb (is_payment_link_id (truth_link_id v))) (ValueError "provider truth payment_link_id is invalid");
  _ ← identifier_or "provider truth reference_id is invalid" (truth_reference_id v);
  _ ← raise_if (40 <? str_len (truth_reference_id v))
        (ValueError "provider truth reference_id exceeds the provider limit");
  _ ← raise_if (truth_amount_minor v <=? 0) (ValueError "provider truth amount_minor is invalid");
  _ ← raise_if ((amount_paid_minor v <? 0) || (truth_amount_minor v <? amount_paid_minor v))
        (ValueError "provider truth amount_paid_minor is outside its amount");
  _ ← raise_if (negb (is_currency (truth_currency v))) (ValueError "provider truth currency is invalid");
  _ ← match truth_status v with
      | LINK_PAID =>
          raise_if (negb (amount_paid_minor v =? truth_amount_minor v))
            (ValueError "paid provider truth must have its full amount paid")
      | LINK_PARTIALLY_PAID =>
          raise_if (negb ((0 <? amount_paid_minor v) && (amount_paid_minor v <? truth_amount_minor v)))
            (ValueError "partially paid provider truth must have a proper partial amount")
      | _ =>
          raise_if (negb (amount_paid_minor v =? 0))
            (ValueError "created, cancelled, or expired no-partial provider truth must be unpaid")
      end;
  Ok v.

Definition truth_matches (v : ProviderPaymentLinkTruth) (t : CancellationTarget) : bool :=
  bool_decide (truth_link_id v = target_link_id t)
  && bool_decide (truth_reference_id v = target_reference_id t)
  && (truth_amount_minor v =? target_amount_minor t)
  && bool_decide (truth_currency v = target_currency t)
  && negb (truth_accept_partial v)
  && negb (truth_upi_link v).

Record ProviderCancellationResult := mkCancellationOutcome {
  outcome_status : ProviderCancellationStatus;
  outcome_reason_code : pystr;
  outcome_payment_link : option ProviderPaymentLinkTruth
}.

Definition ProviderCancellationResult_post_init (o : ProviderCancellationResult)
    : result ProviderCancellationResult :=
  _ ← raise_if (negb (is_reason_code (outcome_reason_code o)))
        (ValueError "reason_code must be a bounded lowercase machine code");
  if decide (outcome_status o = CANCEL_SUCCESS) then
    match outcome_payment_link o with
    | None => Raise (ValueError "certain cancellation success requires provider truth")
    | Some v =>
        _ ← raise_if (bool_decide (truth_status v ≠ LINK_CANCELLED))
              (ValueError "certain cancellation success requires cancelled provider truth");
        Ok o
    end
  else
    _ ← raise_if (bool_decide (is_Some (outcome_payment_link o)))
          (ValueError "only certain cancellation success may carry provider truth");
    Ok o.

(** ** Foreign objects: the attributes a port's answer has, by name *)
Inductive truth_object :=
  | TruthObject (v : ProviderPaymentLinkTruth)
  | ForeignTruth (attributes : list (pystr * json)).

Definition attr_str (attributes : list (pystr * json)) (name : string) : option pystr :=
  match dict_get (lit name) attributes with Some (JStr s) => Some s | _ => None end.
Definition attr_int (attributes : list (pystr * json)) (name : string) : option Z :=
  match dict_get (lit name) attributes with Some (JInt z) => Some z | _ => None end.
Definition attr_bool (attributes : list (pystr * json)) (name : string) : option bool :=
  match dict_get (lit name) attributes with Some (JBool b) => Some b | _ => None end.

(** [ProviderPaymentLinkTruth(...)] from the attributes; a missing attribute, a
    wrong type and a refused value all give [None]. *)
Definition foreign_truth (attributes : list (pystr * json)) : option ProviderPaymentLinkTruth :=
  status_value ← attr_str attributes "status";
  status ← link_status_of status_value;
  link ← attr_str attributes "payment_link_id";
  reference ← attr_str attributes "reference_id";
  amount ← attr_int attributes "amount_minor";
  paid ← attr_int attributes "amount_paid_minor";
  currency ← attr_str attributes "currency";
  partial ← attr_bool attributes "accept_partial";
  upi ← attr_bool attributes "upi_link";
  result_option (ProviderPaymentLinkTruth_post_init (mkTruth link reference amount paid currency partial upi status)).

(** The truth, or the failure. *)
Definition _normalize_truth (value : truth_object) : ProviderPaymentLinkTruth + pystr :=
  match value with
  | TruthObject v => inl v
  | ForeignTruth attributes =>
      match foreign_truth attributes with
      | Some v => inl v
      | None => inr ($"provider_truth_contract_invalid")
      end
  end.

(** A missing attribute is [None]; the link attribute may hold Python's None. *)
Inductive outcome_object :=
  | OutcomeObject (o : ProviderCancellationResult)
  | ForeignOutcome (status reason_code : option json) (payment_link : option (option truth_object)).

Definition _normalize_cancel_outcome (value : outcome_object) : ProviderCancellationResult + pystr :=
  let invalid := inr ($"provider_cancel_contract_invalid") in
  match value with
  | OutcomeObject o => inl o
  | ForeignOutcome (Some (JStr status)) (Some reason) (Some link) =>
      match cancellation_status_of status with
      | None => invalid
      | Some status =>
          let finish (payment_link : option ProviderPaymentLinkTruth) :=
            match reason with
            | JStr reason =>
                match ProviderCancellationResult_post_init (mkCancellationOutcome status reason payment_link) with
                | Ok o => inl o
                | Raise _ => invalid
                end
            | _ => invalid
            end in
          match link with
          | None => finish None
          | Some raw =>
              match _normalize_truth raw with
              | inl v => finish (Some v)
              | inr failure => inr failure
              end
          end
      end
  | _ => invalid
  end.

(** * The ports and their calls *)
Inductive loaded_binding :=
  | NoBinding
  | Loaded (b : DurableInstrumentBinding)
  | OtherBinding.

(** What [record_cancellation_authorization] is given. *)
Record CancellationAuthorization := mkCancellationAuthorization {
  authorized_job : OutboxJob;
  authorized_command : CancelPaymentLinkCommand;
  authorized_decision : GateDecision;
  authorized_context : GateContext;
  authorized_worker : pystr
}.

Inductive event :=
  | ClockRead (answer : result datetime)
  | BindingLoaded (t : CancellationTarget) (digest : pystr) (answer : result loaded_binding)
  | ContextLoaded (p : ActionProposal) (account : pystr) (at_ : datetime) (answer : result GateContext)
  | LinkFetched (link account : pystr) (answer : result truth_object)
  | AuthorizationRecorded (a : CancellationAuthorization) (answer : result unit)
  | LinkCancelled (link account : pystr) (answer : result outcome_object).

Record CancelPaymentLinkExecutor := mkCancelExecutor {
  gate : GatePolicy;
  load_cancellation_binding : CancellationTarget → pystr → list event → result loaded_binding;
  load_fresh_gate_context : ActionProposal → pystr → datetime → list event → result GateContext;
  fetch_payment_link : pystr → pystr → list event → result truth_object;
  cancel_payment_link : pystr → pystr → list event → result outcome_object;
  clock : list event → result datetime;
  backoff : BackoffPolicy;
  authorization_recorder : option (CancellationAuthorization → list event → result unit)
}.

Record CancellationExecutionResult := mkCancellationResult {
  disposition : CancellationDisposition;
  result_job : OutboxJob;
  effect_decision : GateDecision;
  result_reason : pystr;
  result_link_id : pystr;
  result_target_digest : pystr;
  provider_status : option ProviderPaymentLinkStatus;
  cancel_attempted : bool
}.

Definition _AUTHORIZATION_FAULTS : list GateReason :=
  [PLAN_AUTHORIZATION_MISSING; PLAN_BINDING_MISMATCH; DURABLE_INTENT_MISSING].
Definition _BINDING_STATUSES_WITH_PROVIDER_TARGET : list DurableInstrumentStatus :=
  [UNCERTAIN; ISSUED; ACTIVE_INSTRUMENT; CANCEL_PENDING; PAID_INSTRUMENT; PARTIALLY_PAID_INSTRUMENT;
   CANCELLED_INSTRUMENT; EXPIRED_INSTRUMENT].
Definition _CANCELLABLE_BINDING_STATUSES : list DurableInstrumentStatus :=
  [UNCERTAIN; ISSUED; ACTIVE_INSTRUMENT; CANCEL_PENDING].
Definition _PAID_BINDING_STATUSES : list DurableInstrumentStatus := [PAID_INSTRUMENT; PARTIALLY_PAID_INSTRUMENT].
Definition _TERMINAL_BINDING_STATUSES : list DurableInstrumentStatus := [CANCELLED_INSTRUMENT; EXPIRED_INSTRUMENT].

Abbreviation port A := (prog event A) (only parsing).

(** * The executor *)
Section executor.
Context (self : CancelPaymentLinkExecutor) (job : OutboxJob) (c : CancelPaymentLinkCommand) (worker_id : pystr).

Definition _now : port datetime :=
  now ← call (clock self) ClockRead; pure (_require_utc now "clock result").

Definition _load_binding : port loaded_binding :=
  digest ← pure (target_digest (target c));
  call (load_cancellation_binding self (target c) digest) (BindingLoaded (target c) digest).

Definition _binding_failure (binding : loaded_binding) (now : datetime) : result (option pystr) :=
  key ← action_key (proposal c);
  if bool_decide (job_action_key job ≠ key) then Ok (Some ($"job_action_key_mismatch"))
  else
    payload ← command_payload_digest c;
    if bool_decide (payload_digest job ≠ payload) then Ok (Some ($"job_payload_digest_mismatch"))
    else match binding with
    | NoBinding => Ok (Some ($"durable_instrument_binding_missing"))
    | OtherBinding => Ok (Some ($"durable_instrument_binding_type_invalid"))
    | Loaded b =>
        matched ← binding_matches b c;
        Ok (if negb matched then Some ($"durable_instrument_binding_mismatch")
            else if dt_ltb now (binding_recorded_at b) then Some ($"durable_instrument_binding_from_future")
            else if bool_decide (instrument_status b ∉ _BINDING_STATUSES_WITH_PROVIDER_TARGET)
            then Some ($"instrument_status_has_no_cancellable_provider_target")
            else None)
    end.

Definition _fetch_truth : port (ProviderPaymentLinkTruth + pystr) :=
  attempt
    (call (fetch_payment_link self (target_link_id (target c)) (target_account_id (target c)))
       (LinkFetched (target_link_id (target c)) (target_account_id (target c))))
    (λ answer, pure (Ok match answer with
                        | Ok raw => _normalize_truth raw
                        | Raise exc => inr (_safe_exception_reason ($"provider_fetch_exception") exc)
                        end)).

Definition _result (final : CancellationDisposition) (j : OutboxJob) (effect : GateDecision) (reason : pystr)
    (status : option ProviderPaymentLinkStatus) (attempted : bool) : result CancellationExecutionResult :=
  digest ← target_digest (target c);
  Ok (mkCancellationResult final j effect reason (target_link_id (target c)) digest status attempted).

Definition _complete (effect : GateDecision) (reason : pystr) (final : CancellationDisposition)
    (status : ProviderPaymentLinkStatus) (attempted : bool) : port CancellationExecutionResult :=
  now ← _now;
  pure (digest ← target_digest (target c);
        completed ← complete job worker_id (lease_token_of job) now (job_version job)
                      (disposition_value final ++ $":" ++ digest);
        _result final completed effect reason (Some status) attempted).

Definition _dead_letter (effect : GateDecision) (reason : pystr) (final : CancellationDisposition)
    (status : option ProviderPaymentLinkStatus) (attempted : bool) : port CancellationExecutionResult :=
  now ← _now;
  pure (dead ← dead_letter job worker_id (lease_token_of job) now (job_version job) reason;
        _result final dead effect reason status attempted).

Definition _review (effect : GateDecision) (reason : pystr) (status : ProviderPaymentLinkStatus)
    (attempted : bool) : port CancellationExecutionResult :=
  _dead_letter effect reason REVIEW_REQUIRED (Some status) attempted.

Definition _requeue (effect : GateDecision) (reason : pystr) (mode : RetryMode)
    (status : option ProviderPaymentLinkStatus) (attempted : bool) : port CancellationExecutionResult :=
  now ← _now;
  pure (updated ← requeue job worker_id (lease_token_of job) now (job_version job) reason (backoff self) mode;
        _result (if decide (job_state updated = DEAD_LETTER) then DEAD_LETTERED else RECONCILE_REQUIRED)
          updated effect reason status attempted).

(** [None] is returned when the link still has to be cancelled. *)
Definition _resolve_without_cancel (effect : GateDecision) (b : DurableInstrumentBinding)
    (truth : ProviderPaymentLinkTruth) (phase : pystr) (attempted : bool)
    : option (port CancellationExecutionResult) :=
  let status := instrument_status b in
  if bool_decide (status ∈ _PAID_BINDING_STATUSES) then
    Some (_review effect (phase ++ $"_durable_" ++ instrument_status_lower status ++ $"_requires_review")
            (truth_status truth) attempted)
  else match truth_status truth with
  | LINK_PAID | LINK_PARTIALLY_PAID =>
      Some (_review effect (phase ++ $"_provider_" ++ link_status_value (truth_status truth) ++ $"_requires_review")
              (truth_status truth) attempted)
  | LINK_CANCELLED =>
      Some (_complete effect (phase ++ $"_provider_already_cancelled") ALREADY_CANCELLED (truth_status truth) attempted)
  | LINK_EXPIRED =>
      Some (_complete effect (phase ++ $"_provider_expired") EXPIRED (truth_status truth) attempted)
  | LINK_CREATED =>
      if bool_decide (status ∈ _TERMINAL_BINDING_STATUSES) then
        Some (_requeue effect
                (phase ++ $"_durable_" ++ instrument_status_lower status ++ $"_" ++ $"conflicts_with_created_provider_truth")
                RECONCILE_ONLY (Some (truth_status truth)) attempted)
      else if bool_decide (status ∉ _CANCELLABLE_BINDING_STATUSES) then
        Some (_dead_letter effect (phase ++ $"_instrument_status_not_cancellable") ESCALATED
                (Some (truth_status truth)) attempted)
      else None
  end.

(** The binding of a checked load, or the failure. *)
Definition checked_binding (binding : loaded_binding) (failure : option pystr) : DurableInstrumentBinding + pystr :=
  match failure, binding with
  | Some failure, _ => inr failure
  | None, Loaded b => inl b
  | None, _ => inr ($"binding_missing")
  end.

(** [_load_binding] and [_binding_failure] with a fresh clock reading. *)
Definition refresh_binding : port (DurableInstrumentBinding + pystr) :=
  binding ← _load_binding;
  now ← _now;
  failure ← pure (_binding_failure binding now);
  pure (Ok (checked_binding binding failure)).

Definition _reconcile_after_effect (effect : GateDecision) (reason : pystr) : port CancellationExecutionResult :=
  fetched ← _fetch_truth;
  refreshed ← refresh_binding;
  match refreshed, fetched with
  | inr failure, _ =>
      _dead_letter effect ($"post_cancel_binding_failure:" ++ failure) ESCALATED
        (match fetched with inl truth => Some (truth_status truth) | inr _ => None end) true
  | inl _, inr fetch_failure =>
      _requeue effect ($"post_cancel_truth_unavailable:" ++ reason ++ $":" ++ fetch_failure) RECONCILE_ONLY None true
  | inl b, inl truth =>
      let status := instrument_status b in
      if negb (truth_matches truth (target c)) then
        _dead_letter effect ($"post_cancel_provider_target_mismatch") ESCALATED (Some (truth_status truth)) true
      else if bool_decide (status ∈ _PAID_BINDING_STATUSES) then
        _review effect ($"post_cancel_durable_" ++ instrument_status_lower status ++ $"_requires_review")
          (truth_status truth) true
      else match truth_status truth with
      | LINK_PAID | LINK_PARTIALLY_PAID =>
          _review effect ($"post_cancel_provider_" ++ link_status_value (truth_status truth) ++ $"_requires_review")
            (truth_status truth) true
      | LINK_CANCELLED =>
          _complete effect ($"post_cancel_provider_cancelled:" ++ reason) CANCELLED (truth_status truth) true
      | _ =>
          match _resolve_without_cancel effect b truth ($"post_cancel") true with
          | Some terminal => terminal
          | None =>
              _requeue effect ($"post_cancel_fresh_unpaid_link_grants_effect_retry:" ++ reason) RETRY_SAME_EFFECT
                (Some (truth_status truth)) true
          end
      end
  end.

(** The reason that a provider outcome gives. *)
Definition outcome_reason (answer : result outcome_object) : pystr :=
  match answer with
  | Raise exc => _safe_exception_reason ($"cancel_port_exception") exc
  | Ok raw =>
      match _normalize_cancel_outcome raw with
      | inr failure => $"cancel_outcome_invalid:" ++ failure
      | inl o =>
          let reason := cancellation_status_value (outcome_status o) ++ $":" ++ outcome_reason_code o in
          if bool_decide (outcome_status o = CANCEL_SUCCESS)
             && match outcome_payment_link o with
                | None => true
                | Some truth => negb (truth_matches truth (target c))
                end
          then reason ++ $":response_target_mismatch" else reason
      end
  end.

Definition record_authorization (effect : GateDecision) (context : GateContext) : port unit :=
  match authorization_recorder self with
  | None => pure (Ok tt)
  | Some recorder =>
      let a := mkCancellationAuthorization job c effect context worker_id in
      call (recorder a) (AuthorizationRecorded a)
  end.

(** The provider mutation and its reconciliation. *)
Definition cancel_effect (effect : GateDecision) : port CancellationExecutionResult :=
  attempt
    (call (cancel_payment_link self (target_link_id (target c)) (target_account_id (target c)))
       (LinkCancelled (target_link_id (target c)) (target_account_id (target c))))
    (λ answer, _reconcile_after_effect effect (outcome_reason answer)).

Definition reason_values (effect : GateDecision) : pystr := join ($",") (map reason_value (reasons effect)).

(** From the last clock reading to the provider. *)
Definition final_effect (truth : ProviderPaymentLinkTruth) : port CancellationExecutionResult :=
  before_effect ← _now;
  _ ← pure (assert_active_lease job worker_id (lease_token_of job) before_effect);
  final_context ← call (load_fresh_gate_context self (proposal c) (target_account_id (target c)) before_effect)
                    (ContextLoaded (proposal c) (target_account_id (target c)) before_effect);
  context ← pure (effect_context final_context before_effect true);
  final ← pure (evaluate_effect (gate self) (proposal c) context (Some (prior_plan c)));
  if negb (allowed final) then
    _dead_letter final ($"final_effect_gate_denied:" ++ reason_values final) BLOCKED (Some (truth_status truth)) false
  else if negb (amount_paid_minor truth =? 0) then
    _review final ($"final_provider_amount_paid_requires_review") (truth_status truth) false
  else
    _ ← record_authorization final final_context;
    cancel_effect final.

(** After the first provider read. *)
Definition with_truth (effect : GateDecision) (b : DurableInstrumentBinding) (truth : ProviderPaymentLinkTruth)
    : port CancellationExecutionResult :=
  if negb (truth_matches truth (target c)) then
    _dead_letter effect ($"pre_cancel_provider_target_mismatch") ESCALATED (Some (truth_status truth)) false
  else match _resolve_without_cancel effect b truth ($"pre_cancel") false with
  | Some terminal => terminal
  | None =>
      refreshed ← refresh_binding;
      match refreshed with
      | inr failure =>
          _dead_letter effect ($"pre_effect_binding_failure:" ++ failure) ESCALATED (Some (truth_status truth)) false
      | inl b' =>
          match _resolve_without_cancel effect b' truth ($"pre_effect") false with
          | Some terminal => terminal
          | None =>
              if decide (retry_mode job = RECONCILE_ONLY) then
                _requeue effect ($"reconcile_only_fresh_unpaid_link_grants_effect_retry") RETRY_SAME_EFFECT
                  (Some (truth_status truth)) false
              else final_effect truth
          end
      end
  end.

Definition execute : port CancellationExecutionResult :=
  now ← _now;
  _ ← pure (assert_active_lease job worker_id (lease_token_of job) now);
  binding ← _load_binding;
  failure ← pure (_binding_failure binding now);
  let checked := checked_binding binding failure in
  let proved := match checked with inl _ => true | inr _ => false end in
  fresh ← call (load_fresh_gate_context self (proposal c) (target_account_id (target c)) now)
            (ContextLoaded (proposal c) (target_account_id (target c)) now);
  context ← pure (effect_context fresh now proved);
  effect ← pure (evaluate_effect (gate self) (proposal c) context (Some (prior_plan c)));
  match checked with
  | inr failure => _dead_letter effect ($"binding_failure:" ++ failure) ESCALATED None false
  | inl b =>
      if negb (allowed effect) then
        _dead_letter effect
          ((if existsb (λ r, mem r _AUTHORIZATION_FAULTS) (reasons effect)
            then $"effect_authorization_fault" else $"effect_gate_denied") ++ $":" ++ reason_values effect)
          BLOCKED None false
      else
        fetched ← _fetch_truth;
        match fetched with
        | inr fetch_failure =>
            _requeue effect ($"pre_cancel_truth_unavailable:" ++ fetch_failure)
              (if decide (retry_mode job = RECONCILE_ONLY) then RECONCILE_ONLY else NORMAL_RETRY) None false
        | inl truth => with_truth effect b truth
        end
  end.
End executor.

(** * What one execution does *)
Definition is_cancel (e : event) : bool := match e with LinkCancelled _ _ _ => true | _ => false end.
Definition quiet (e : event) : Prop := is_cancel e = false.

(** The provider truth a fetch gave, and the last one of a trace. *)
Definition read_truth (answer : result truth_object) : option ProviderPaymentLinkTruth :=
  match answer with
  | Ok raw => match _normalize_truth raw with inl v => Some v | inr _ => None end
  | Raise _ => None
  end.

Fixpoint last_truth (seen : option ProviderPaymentLinkTruth) (l : list event) : option ProviderPaymentLinkTruth :=
  match l with
  | [] => seen
  | LinkFetched _ _ answer :: l => last_truth (read_truth answer) l
  | _ :: l => last_truth seen l
  end.

(** What the last load of the durable binding returned. *)
Fixpoint last_binding (seen : option loaded_binding) (l : list event) : option loaded_binding :=
  match l with
  | [] => seen
  | BindingLoaded _ _ answer :: l => last_binding (result_option answer) l
  | _ :: l => last_binding seen l
  end.

Section theory.
Context (self : CancelPaymentLinkExecutor) (job : OutboxJob) (c : CancelPaymentLinkCommand) (w : pystr).

(** An exact, current binding of the command, as a load returned it. *)
Definition bound (b : DurableInstrumentBinding) (now : datetime) : Prop :=
  _binding_failure job c (Loaded b) now = Ok None.

(** The last truth [T] is of this very link, which has the given status. *)
Definition shown (T : option ProviderPaymentLinkTruth) (status : ProviderPaymentLinkStatus) : Prop :=
  ∃ v, T = Some v ∧ truth_matches v (target c) = true ∧ truth_status v = status.

Definition link_paid (v : ProviderPaymentLinkTruth) : Prop :=
  truth_status v = LINK_PAID ∨ truth_status v = LINK_PARTIALLY_PAID.

(** The binding [B] read last is refused at a clock reading of [l]. *)
Definition refused (l : list event) (B : option loaded_binding) : Prop :=
  ∃ b now failure f, B = Some b ∧ ClockRead (Ok now) ∈ l
    ∧ _binding_failure job c b now = Ok failure ∧ checked_binding b failure = inr f.

Definition recorded_as (B : option loaded_binding) (statuses : list DurableInstrumentStatus) : Prop :=
  ∃ b, B = Some (Loaded b) ∧ instrument_status b ∈ statuses.

(** What the next attempt may do, and what that rests on. *)
Definition requeue_rests_on (T : option ProviderPaymentLinkTruth) (B : option loaded_binding) (attempted : bool)
    (mode : RetryMode) : Prop :=
  match mode with
  | NORMAL_RETRY => T = None ∧ attempted = false ∧ retry_mode job ≠ RECONCILE_ONLY
  | RECONCILE_ONLY =>
      T = None ∧ (attempted = true ∨ retry_mode job = RECONCILE_ONLY)
      ∨ shown T LINK_CREATED ∧ recorded_as B _TERMINAL_BINDING_STATUSES
  | RETRY_SAME_EFFECT => shown T LINK_CREATED ∧ (attempted = true ∨ retry_mode job = RECONCILE_ONLY)
  end.

(** What each disposition rests on: the last provider truth [T], the durable
    binding [B] read last, and whether a cancellation was sent. *)
Definition rests_on (l : list event) (T : option ProviderPaymentLinkTruth) (B : option loaded_binding)
    (attempted : bool) (res : CancellationExecutionResult) : Prop :=
  match disposition res with
  | CANCELLED => job_state (result_job res) = COMPLETED ∧ attempted = true ∧ shown T LINK_CANCELLED
  | ALREADY_CANCELLED => job_state (result_job res) = COMPLETED ∧ attempted = false ∧ shown T LINK_CANCELLED
  | EXPIRED => job_state (result_job res) = COMPLETED ∧ shown T LINK_EXPIRED
  | REVIEW_REQUIRED =>
      job_state (result_job res) = DEAD_LETTER
      ∧ ∃ v, T = Some v ∧ truth_matches v (target c) = true
             ∧ (link_paid v ∨ recorded_as B _PAID_BINDING_STATUSES ∨ amount_paid_minor v ≠ 0)
  | ESCALATED =>
      job_state (result_job res) = DEAD_LETTER
      ∧ ((∃ v, T = Some v ∧ truth_matches v (target c) = false)
         ∨ refused l B ∧ (attempted = true ∨ T = None ∨ shown T LINK_CREATED))
  | BLOCKED =>
      job_state (result_job res) = DEAD_LETTER ∧ attempted = false
      ∧ allowed (effect_decision res) = false ∧ (T = None ∨ shown T LINK_CREATED)
  | RECONCILE_REQUIRED =>
      job_state (result_job res) = PENDING ∧ requeue_rests_on T B attempted (retry_mode (result_job res))
  | DEAD_LETTERED =>
      job_state (result_job res) = DEAD_LETTER ∧ requeue_rests_on T B attempted (retry_mode (result_job res))
  end.

(** A settlement: one clock reading, then a result for which [P] holds. *)
Definition settles (m : port CancellationExecutionResult) (P : CancellationExecutionResult → Prop) : Prop :=
  ∀ t, emits m t (λ l r, (∃ a, l = [ClockRead a]) ∧ ∀ res, r = Ok res → P res).

Lemma settles_mono m (P P' : CancellationExecutionResult → Prop) :
  settles m P → (∀ res, P res → P' res) → settles m P'.
Proof. intros H HP t. eapply emits_mono; [apply H|]. cbn. intros l r [? Hr]. eauto. Qed.

Lemma now_settles (f : datetime → result CancellationExecutionResult) (P : CancellationExecutionResult → Prop) :
  (∀ d res, f d = Ok res → P res) → settles (now ← _now self; pure (f now)) P.
Proof.
  intros Hf t. unfold _now. apply emits_bind, emits_call_bind.
  - intros d _. apply emits_pure. destruct (_require_utc d "clock result") as [d'|e].
    + apply emits_pure. split; [by eexists|]. eauto.
    + split; [by eexists|done].
  - intros e _. split; [by eexists|done].
Qed.

Lemma complete_settles effect reason final status attempted :
  settles (_complete self job c w effect reason final status attempted)
    (λ res, settled_job job (result_job res) ∧ job_state (result_job res) = COMPLETED ∧ disposition res = final
            ∧ cancel_attempted res = attempted).
Proof.
  apply now_settles. intros d res H. unfold _result in H. inv_ok. subst. cbn.
  match goal with E : complete _ _ _ _ _ _ = Ok _ |- _ => apply complete_settled in E as [? ?] end. done.
Qed.

Lemma dead_letter_settles effect reason final status attempted :
  settles (_dead_letter self job c w effect reason final status attempted)
    (λ res, settled_job job (result_job res) ∧ job_state (result_job res) = DEAD_LETTER ∧ disposition res = final
            ∧ effect_decision res = effect ∧ cancel_attempted res = attempted).
Proof.
  apply now_settles. intros d res H. unfold _result in H. inv_ok. subst. cbn.
  match goal with E : dead_letter _ _ _ _ _ _ = Ok _ |- _ => apply dead_letter_settled in E as [? ?] end. done.
Qed.

Lemma requeue_settles effect reason mode status attempted :
  settles (_requeue self job c w effect reason mode status attempted)
    (λ res, settled_job job (result_job res) ∧ retry_mode (result_job res) = mode
            ∧ (job_state (result_job res) = DEAD_LETTER ∧ disposition res = DEAD_LETTERED
               ∨ job_state (result_job res) = PENDING ∧ disposition res = RECONCILE_REQUIRED)
            ∧ cancel_attempted res = attempted).
Proof.
  apply now_settles. intros d res H. unfold _result in H. inv_ok. subst. cbn.
  match goal with E : requeue _ _ _ _ _ _ _ _ = Ok _ |- _ => apply requeue_settled in E as (? & ? & Hs) end.
  split_and!; [done|done| |done]. case_decide; destruct Hs; [by left|congruence|congruence|by right].
Qed.

(** The four kinds of settlement, with what they rest on. *)
Definition reports (l : list event) (T : option ProviderPaymentLinkTruth) (B : option loaded_binding)
    (attempted : bool) (res : CancellationExecutionResult) : Prop :=
  settled_job job (result_job res) ∧ cancel_attempted res = attempted ∧ rests_on l T B attempted res.

Lemma refused_app pre l post B : refused l B → refused (pre ++ l ++ post) B.
Proof.
  intros (b & now & failure & f & ? & ? & ?). exists b, now, failure, f. rewrite !elem_of_app. tauto.
Qed.

Lemma reports_app pre l post T B attempted res :
  reports l T B attempted res → reports (pre ++ l ++ post) T B attempted res.
Proof.
  intros (Hj & Ha & Hr). split; [done|]. split; [done|]. unfold rests_on in *.
  destruct (disposition res); try done. destruct Hr as [? [?|[? ?]]]; (split; [done|]); [by left|right].
  split; [by apply refused_app|done].
Qed.

Lemma escalated_reports l T B effect reason status attempted :
  (∃ v, T = Some v ∧ truth_matches v (target c) = false)
  ∨ refused l B ∧ (attempted = true ∨ T = None ∨ shown T LINK_CREATED) →
  settles (_dead_letter self job c w effect reason ESCALATED status attempted) (reports l T B attempted).
Proof.
  intros Hf. eapply settles_mono; [apply dead_letter_settles|]. intros res (Hj & Hs & Hd & _ & Ha).
  split; [done|]. split; [done|]. unfold rests_on. by rewrite Hd.
Qed.

Lemma blocked_reports l T B effect reason status :
  allowed effect = false → T = None ∨ shown T LINK_CREATED →
  settles (_dead_letter self job c w effect reason BLOCKED status false) (reports l T B false).
Proof.
  intros He Hf. eapply settles_mono; [apply dead_letter_settles|]. intros res (Hj & Hs & Hd & Heff & Ha).
  split; [done|]. split; [done|]. unfold rests_on. by rewrite Hd, Heff.
Qed.

Lemma review_reports l v B effect reason status attempted :
  truth_matches v (target c) = true →
  link_paid v ∨ recorded_as B _PAID_BINDING_STATUSES ∨ amount_paid_minor v ≠ 0 →
  settles (_review self job c w effect reason status attempted) (reports l (Some v) B attempted).
Proof.
  intros Hm Hf. eapply settles_mono; [apply dead_letter_settles|]. intros res (Hj & Hs & Hd & _ & Ha).
  split; [done|]. split; [done|]. unfold rests_on. rewrite Hd. split; [done|]. by exists v.
Qed.

Lemma complete_reports l v B effect reason final status (attempted : bool) :
  truth_matches v (target c) = true →
  truth_status v = LINK_CANCELLED ∧ final = (if attempted then CANCELLED else ALREADY_CANCELLED)
  ∨ truth_status v = LINK_EXPIRED ∧ final = EXPIRED →
  settles (_complete self job c w effect reason final status attempted) (reports l (Some v) B attempted).
Proof.
  intros Hm Hf. eapply settles_mono; [apply complete_settles|]. intros res (Hj & Hs & Hd & Ha).
  split; [done|]. split; [done|]. unfold rests_on. rewrite Hd.
  destruct Hf as [[? ->]|[? ->]]; [destruct attempted|]; split_and!; try done; by exists v.
Qed.

Lemma requeue_reports l T B effect reason mode status attempted :
  requeue_rests_on T B attempted mode →
  settles (_requeue self job c w effect reason mode status attempted) (reports l T B attempted).
Proof.
  intros Hm. eapply settles_mono; [apply requeue_settles|]. intros res (Hj & Hmode & Hs & Ha).
  split; [done|]. split; [done|]. unfold rests_on. destruct Hs as [[? ->]|[? ->]]; by rewrite Hmode.
Qed.

(** A binding that passed its checks has one of the statuses with a target. *)
Lemma bound_status b now : bound b now → instrument_status b ∈ _BINDING_STATUSES_WITH_PROVIDER_TARGET.
Proof.
  unfold bound, _binding_failure. intros H. apply bind_Ok in H as (key & _ & H).
  case_bool_decide; [done|]. apply bind_Ok in H as (payload & _ & H).
  case_bool_decide; [done|]. apply bind_Ok in H as (matched & _ & H).
  destruct matched; [|done]. cbn [negb] in H. destruct (dt_ltb now (binding_recorded_at b)); [done|].
  case_bool_decide as Hs; [done|]. by destruct (decide (instrument_status b ∈ _BINDING_STATUSES_WITH_PROVIDER_TARGET)).
Qed.

Lemma target_statuses s :
  s ∈ _BINDING_STATUSES_WITH_PROVIDER_TARGET →
  s ∈ _PAID_BINDING_STATUSES ∨ s ∈ _TERMINAL_BINDING_STATUSES ∨ s ∈ _CANCELLABLE_BINDING_STATUSES.
Proof. unfold _BINDING_STATUSES_WITH_PROVIDER_TARGET. destruct s; set_solver. Qed.

Lemma resolve_some l effect b now v phase attempted m :
  bound b now → truth_matches v (target c) = true →
  (truth_status v = LINK_CANCELLED → attempted = false ∨ recorded_as (Some (Loaded b)) _PAID_BINDING_STATUSES) →
  _resolve_without_cancel self job c w effect b v phase attempted = Some m →
  settles m (reports l (Some v) (Some (Loaded b)) attempted).
Proof.
  intros Hb%bound_status%target_statuses Hm Hc. unfold _resolve_without_cancel. cbv zeta.
  case_bool_decide as Hp.
  { intros [= <-]. apply review_reports; [done|]. right; left. by exists b. }
  assert (truth_status v = LINK_CANCELLED → attempted = false) as Hc'.
  { intros E. destruct (Hc E) as [?|(b' & [= <-] & ?)]; done. }
  clear Hc. destruct (truth_status v) eqn:Ev.
  - case_bool_decide.
    + intros [= <-]. apply requeue_reports. right. split; [by exists v|by exists b].
    + case_bool_decide; [|done]. destruct Hb as [?|[?|?]]; done.
  - intros [= <-]. apply review_reports; [done|]. left. by right.
  - intros [= <-]. apply complete_reports; auto.
  - intros [= <-]. apply complete_reports; [done|]. left. by rewrite Hc'.
  - intros [= <-]. apply review_reports; [done|]. left. by left.
Qed.

Lemma resolve_none effect b v phase attempted :
  _resolve_without_cancel self job c w effect b v phase attempted = None →
  truth_status v = LINK_CREATED ∧ instrument_status b ∈ _CANCELLABLE_BINDING_STATUSES.
Proof.
  unfold _resolve_without_cancel. cbv zeta. case_bool_decide; [done|].
  destruct (truth_status v); try done. case_bool_decide; [done|]. case_bool_decide as Hc; [done|].
  intros _. by split.
Qed.

(** The authorization call, when there is a recorder. *)
Definition recorded (effect : GateDecision) (context : GateContext) : list event :=
  match authorization_recorder self with
  | None => []
  | Some _ => [AuthorizationRecorded (mkCancellationAuthorization job c effect context w) (Ok tt)]
  end.

(** Everything an execution established before it asked the provider to cancel:
    [calls] are the calls it had made by then. *)
Record authorized (calls : list event) : Prop := {
  auth_mode : retry_mode job ≠ RECONCILE_ONLY;
  auth_calls : ∃ d now b fresh raw b' checked before final v ctx first ctx' effect,
    calls =
      [ClockRead (Ok now);
       BindingLoaded (target c) d (Ok (Loaded b));
       ContextLoaded (proposal c) (target_account_id (target c)) now (Ok fresh);
       LinkFetched (target_link_id (target c)) (target_account_id (target c)) (Ok raw);
       BindingLoaded (target c) d (Ok (Loaded b'));
       ClockRead (Ok checked);
       ClockRead (Ok before);
       ContextLoaded (proposal c) (target_account_id (target c)) before (Ok final)] ++ recorded effect final
    ∧ target_digest (target c) = Ok d
    ∧ bound b now ∧ bound b' checked
    ∧ instrument_status b ∈ _CANCELLABLE_BINDING_STATUSES ∧ instrument_status b' ∈ _CANCELLABLE_BINDING_STATUSES
    ∧ _normalize_truth raw = inl v ∧ truth_matches v (target c) = true
    ∧ truth_status v = LINK_CREATED ∧ amount_paid_minor v = 0
    ∧ holds_lease job w (lease_token_of job) now ∧ holds_lease job w (lease_token_of job) before
    ∧ effect_context fresh now true = Ok ctx
    ∧ evaluate_effect (gate self) (proposal c) ctx (Some (prior_plan c)) = Ok first ∧ allowed first = true
    ∧ effect_context final before true = Ok ctx'
    ∧ evaluate_effect (gate self) (proposal c) ctx' (Some (prior_plan c)) = Ok effect ∧ allowed effect = true
}.

(** The complete executions of a delivery. *)
Definition cancels_once (l : list event) : Prop :=
  ∃ pre answer fetched post,
    l = pre ++ LinkCancelled (target_link_id (target c)) (target_account_id (target c)) answer
          :: LinkFetched (target_link_id (target c)) (target_account_id (target c)) fetched :: post
    ∧ authorized pre ∧ Forall quiet pre ∧ Forall quiet post.

Definition execution (l : list event) (r : result CancellationExecutionResult) : Prop :=
  (Forall quiet l ∨ cancels_once l)
  ∧ ∀ res, r = Ok res → reports l (last_truth None l) (last_binding None l) (existsb is_cancel l) res.

Lemma last_truth_app seen l l' : last_truth seen (l ++ l') = last_truth (last_truth seen l) l'.
Proof. revert seen. induction l as [|[] l IH]; intros seen; cbn; auto. Qed.

Lemma last_binding_app seen l l' : last_binding seen (l ++ l') = last_binding (last_binding seen l) l'.
Proof. revert seen. induction l as [|[] l IH]; intros seen; cbn; auto. Qed.

Lemma quiet_no_cancel l : Forall quiet l → existsb is_cancel l = false.
Proof. induction 1 as [|e l He _ IH]; [done|]. cbn. by rewrite He, IH. Qed.

Lemma cancel_execution_raise l e : Forall quiet l → execution l (Raise e).
Proof. intros H. split; [by left|done]. Qed.

Lemma settle_execution pre m t :
  Forall quiet pre → settles m (reports pre (last_truth None pre) (last_binding None pre) false) →
  emits m t (λ l r, execution (pre ++ l) r).
Proof.
  intros Hq Hm. eapply emits_mono; [apply Hm|]. cbn. intros l r ([a ->] & Hr).
  assert (Forall quiet (pre ++ [ClockRead a])) as Hq' by (apply Forall_app; split; [done|by repeat constructor]).
  split; [by left|]. intros res Hres. rewrite last_truth_app, last_binding_app, quiet_no_cancel by done.
  apply (reports_app [] pre [ClockRead a]). by apply Hr.
Qed.

(** ** Stepping through [execute] *)
Lemma emits_now {A} (f : datetime → port A) t (Q : list event → result A → Prop) :
  (∀ d, is_utc d = true →
        emits (f d) (t ++ [ClockRead (Ok d)]) (λ l r, Q (ClockRead (Ok d) :: l) r)) →
  (∀ a e, Q [ClockRead a] (Raise e)) →
  emits (_now self ≫= f) t Q.
Proof.
  intros Hd He. apply emits_bind. unfold _now. apply emits_call_bind; [|intros; apply He].
  intros d _. apply emits_pure. destruct (_require_utc d "clock result") as [u|e] eqn:E; [|apply He].
  apply outbox_utc_Ok in E as [-> Hu]. by apply Hd.
Qed.

Lemma emits_load_binding {A} (f : loaded_binding → port A) t (Q : list event → result A → Prop) :
  (∀ d b, target_digest (target c) = Ok d →
     emits (f b) (t ++ [BindingLoaded (target c) d (Ok b)]) (λ l r, Q (BindingLoaded (target c) d (Ok b) :: l) r)) →
  (∀ d e, Q [BindingLoaded (target c) d (Raise e)] (Raise e)) →
  (∀ e, Q [] (Raise e)) →
  emits (_load_binding self c ≫= f) t Q.
Proof.
  intros Hf Hr He. unfold _load_binding. apply emits_bind.
  apply emits_pure_bind; [|intros; apply He]. intros d Hd. apply emits_call.
  destruct (load_cancellation_binding _ _ _ _); [by apply Hf|apply Hr].
Qed.

(** A refreshed binding is current and exact. *)
Lemma emits_refresh {A} (f : DurableInstrumentBinding + pystr → port A) t (Q : list event → result A → Prop) :
  (∀ d b now x, target_digest (target c) = Ok d → (∀ b', x = inl b' → b = Loaded b' ∧ bound b' now) →
     (∀ failure, x = inr failure → refused [ClockRead (Ok now)] (Some b)) →
     emits (f x) ((t ++ [BindingLoaded (target c) d (Ok b)]) ++ [ClockRead (Ok now)])
       (λ l r, Q (BindingLoaded (target c) d (Ok b) :: ClockRead (Ok now) :: l) r)) →
  (∀ l e, Forall quiet l → last_truth None l = None → (∀ seen, last_truth seen l = seen) → Q l (Raise e)) →
  emits (refresh_binding self job c ≫= f) t Q.
Proof.
  intros Hf He. unfold refresh_binding. apply emits_bind, emits_load_binding.
  - intros d b Hd. apply emits_now.
    + intros now _. apply emits_pure_bind; [|intros; apply He; by repeat constructor].
      intros failure Hfail. apply emits_pure. cbn [app].
      pose proof (Hf d b now (checked_binding b failure) Hd) as H. rewrite <- app_assoc in H. apply H.
      * intros b' E. unfold checked_binding in E. destruct failure; [done|]. destruct b; try done.
        injection E as ->. done.
      * intros f' E. exists b, now, failure, f'. split; [done|]. split; [by apply list_elem_of_singleton|done].
    + intros a e. apply He; by repeat constructor.
  - intros d e. apply He; by repeat constructor.
  - intros e. apply He; by repeat constructor.
Qed.

Lemma emits_fetch {A} (f : ProviderPaymentLinkTruth + pystr → port A) t (Q : list event → result A → Prop) :
  (∀ answer x, (∀ v, x = inl v ↔ read_truth answer = Some v) →
     emits (f x) (t ++ [LinkFetched (target_link_id (target c)) (target_account_id (target c)) answer])
       (λ l r, Q (LinkFetched (target_link_id (target c)) (target_account_id (target c)) answer :: l) r)) →
  emits (_fetch_truth self c ≫= f) t Q.
Proof.
  intros Hf. unfold _fetch_truth. apply emits_bind, emits_attempt, emits_call, emits_pure.
  rewrite !app_nil_r. apply Hf. intros v. unfold read_truth.
  destruct (fetch_payment_link _ _ _ _) as [raw|e]; [|done]. destruct (_normalize_truth raw); naive_solver.
Qed.

(** After the provider was asked to cancel. *)
Definition reconciled (l : list event) (r : result CancellationExecutionResult) : Prop :=
  ∃ fetched post,
    l = LinkFetched (target_link_id (target c)) (target_account_id (target c)) fetched :: post
    ∧ Forall quiet post
    ∧ ∀ res, r = Ok res → ∃ B, (∀ seen, last_binding seen l = B) ∧ reports l (last_truth None l) B true res.

(** What was known after the truth and the binding were read again. *)
Definition reread (fetched : result truth_object) (d : pystr) (b : loaded_binding) (now : datetime) : list event :=
  [LinkFetched (target_link_id (target c)) (target_account_id (target c)) fetched;
   BindingLoaded (target c) d (Ok b); ClockRead (Ok now)].

Lemma settle_reconciled fetched d b now m t :
  settles m (reports (reread fetched d b now) (read_truth fetched) (Some b) true) →
  emits m t (λ l r, reconciled (reread fetched d b now ++ l) r).
Proof.
  intros Hm. eapply emits_mono; [apply Hm|]. cbn. intros l r ([a ->] & Hr).
  eexists fetched, _. split; [reflexivity|]. split; [by repeat constructor|].
  intros res Hres. exists (Some b). split; [done|].
  apply (reports_app [] (reread fetched d b now) [ClockRead a]). by apply Hr.
Qed.

Lemma cancel_reconcile_emits effect reason t :
  emits (_reconcile_after_effect self job c w effect reason) t reconciled.
Proof.
  unfold _reconcile_after_effect. apply emits_fetch. intros fetched x Hx.
  apply emits_refresh; [|intros l e Hq _ _; by exists fetched, l].
  intros d b now y Hd Hb Hf. pose proof (settle_reconciled fetched d b now) as Hset. cbn [app reread] in Hset.
  destruct y as [b'|failure].
  2: { apply Hset, escalated_reports. right. split; [|by left].
       apply (refused_app [_; _] [ClockRead (Ok now)] []). by eapply Hf. }
  destruct (Hb b' eq_refl) as [-> Hbound]. destruct x as [v|failure].
  2: { apply Hset, requeue_reports. left. split; [|by left].
       destruct (read_truth fetched) as [v|]; [|done]. by pose proof (proj2 (Hx v) eq_refl). }
  rewrite (proj1 (Hx v) eq_refl) in Hset. cbv zeta.
  destruct (truth_matches v (target c)) eqn:Hm; cbn [negb].
  2: { apply Hset, escalated_reports. left. by exists v. }
  case_bool_decide as Hp.
  { apply Hset, review_reports; [done|]. right; left. by exists b'. }
  assert (∀ m, truth_status v ≠ LINK_CANCELLED →
    _resolve_without_cancel self job c w effect b' v ($"post_cancel") true = Some m →
    settles m (reports (reread fetched d (Loaded b') now) (Some v) (Some (Loaded b')) true)) as Hresolve.
  { intros m Hne. by eapply resolve_some. }
  destruct (truth_status v) eqn:Ev.
  - destruct (_resolve_without_cancel _ _ _ _ _ _ _ _ _) as [m|] eqn:Er; [by apply Hset, Hresolve|].
    apply Hset, requeue_reports. split; [by exists v|by left].
  - apply Hset, review_reports; [done|]. left. by right.
  - destruct (_resolve_without_cancel _ _ _ _ _ _ _ _ _) as [m|] eqn:Er; [by apply Hset, Hresolve|].
    apply resolve_none in Er as [? _]. congruence.
  - apply Hset, complete_reports; auto.
  - apply Hset, review_reports; [done|]. left. by left.
Qed.

Lemma cancel_emits effect pre t :
  authorized pre → Forall quiet pre →
  emits (cancel_effect self job c w effect) t (λ l r, execution (pre ++ l) r).
Proof.
  intros Ha Hq. unfold cancel_effect. apply emits_attempt, emits_call.
  eapply emits_mono; [apply cancel_reconcile_emits|]. cbn. intros l r (fetched & post & -> & Hp & Hr). split.
  - right. by eexists pre, _, fetched, post.
  - intros res Hres. destruct (Hr res Hres) as (B & HB & Hrep).
    rewrite last_truth_app, last_binding_app, existsb_app. cbn [existsb is_cancel orb]. rewrite orb_true_r.
    specialize (HB (last_binding None pre)). cbn [last_binding] in *. rewrite HB.
    match goal with |- reports (pre ++ ?e :: ?l) _ _ _ _ =>
      apply (reports_app (pre ++ [e]) l []) in Hrep; by rewrite app_nil_r, <- app_assoc in Hrep end.
Qed.

(** The calls up to the second binding, and what they established. *)
Record prepared (calls : list event) (v : ProviderPaymentLinkTruth) : Prop := {
  prep_calls : ∃ d now b fresh raw b' checked ctx first,
    calls =
      [ClockRead (Ok now);
       BindingLoaded (target c) d (Ok (Loaded b));
       ContextLoaded (proposal c) (target_account_id (target c)) now (Ok fresh);
       LinkFetched (target_link_id (target c)) (target_account_id (target c)) (Ok raw);
       BindingLoaded (target c) d (Ok (Loaded b'));
       ClockRead (Ok checked)]
    ∧ target_digest (target c) = Ok d
    ∧ bound b now ∧ bound b' checked
    ∧ instrument_status b ∈ _CANCELLABLE_BINDING_STATUSES ∧ instrument_status b' ∈ _CANCELLABLE_BINDING_STATUSES
    ∧ _normalize_truth raw = inl v
    ∧ holds_lease job w (lease_token_of job) now
    ∧ effect_context fresh now true = Ok ctx
    ∧ evaluate_effect (gate self) (proposal c) ctx (Some (prior_plan c)) = Ok first ∧ allowed first = true;
  prep_matches : truth_matches v (target c) = true;
  prep_created : truth_status v = LINK_CREATED
}.

Lemma prepared_facts calls v :
  prepared calls v → Forall quiet calls ∧ last_truth None calls = Some v.
Proof.
  intros [(d & now & b & fresh & raw & b' & checked & ctx & first & -> & _ & _ & _ & _ & _ & Hv & _) _ _].
  split; [by repeat constructor|]. cbn. by rewrite Hv.
Qed.

Lemma final_emits calls v t :
  prepared calls v → retry_mode job ≠ RECONCILE_ONLY →
  emits (final_effect self job c w v) t (λ l r, execution (calls ++ l) r).
Proof.
  intros Hp Hmode. destruct (prepared_facts _ _ Hp) as [Hq Hl].
  assert (∀ l e, Forall quiet l → execution (calls ++ l) (Raise e)) as Hraise.
  { intros l e H. apply cancel_execution_raise, Forall_app. done. }
  unfold final_effect. apply emits_now; [intros before _|intros; apply Hraise; by repeat constructor].
  apply emits_pure_bind; [intros u Hlease%active_lease_Ok|intros; apply Hraise; by repeat constructor].
  apply emits_call_bind; [intros final _|intros; apply Hraise; by repeat constructor].
  apply emits_pure_bind; [intros ctx' Hctx'|intros; apply Hraise; by repeat constructor].
  apply emits_pure_bind; [intros effect Heff|intros; apply Hraise; by repeat constructor].
  set (more := [ClockRead (Ok before); ContextLoaded (proposal c) (target_account_id (target c)) before (Ok final)]).
  assert (Forall quiet (calls ++ more)) as Hq' by (apply Forall_app; split; [done|by repeat constructor]).
  assert (last_truth None (calls ++ more) = Some v) as Hl' by (by rewrite last_truth_app, Hl).
  assert (shown (Some v) LINK_CREATED) as Hshown by (exists v; split; [done|]; destruct Hp; done).
  assert (∀ m, (∀ l B, settles m (reports l (Some v) B false)) → ∀ t, emits m t (λ l r, execution
    (calls ++ ClockRead (Ok before) :: ContextLoaded (proposal c) (target_account_id (target c)) before (Ok final) :: l) r))
    as Hset.
  { intros m Hm t'. pose proof (settle_execution (calls ++ more) m t' Hq') as H. rewrite Hl' in H.
    eapply emits_mono; [by apply H|]. cbn. intros l r. by rewrite <- app_assoc. }
  destruct (allowed effect) eqn:Hallow; cbn [negb].
  2: { apply Hset. intros l B. apply blocked_reports; [done|by right]. }
  destruct (Z.eqb_spec (amount_paid_minor v) 0) as [Hpaid|]; cbn [negb].
  2: { apply Hset. intros l B. apply review_reports; [by destruct Hp|]. by do 2 right. }
  assert (authorized (calls ++ more ++ recorded effect final)) as Hauth.
  { destruct Hp as [(d & now & b & fresh & raw & b' & checked & ctx & first & -> & ? & ? & ? & ? & ? & ? & ? & ? & ? & ?) Hm Hc].
    split; [done|]. exists d, now, b, fresh, raw, b', checked, before, final, v, ctx, first, ctx', effect.
    split; [done|]. by split_and!. }
  unfold record_authorization, recorded in *. destruct (authorization_recorder self) as [recorder|].
  - apply emits_call_bind; [intros [] _|intros; apply Hraise; by repeat constructor].
    eapply emits_mono; [apply (cancel_emits effect _ _ Hauth)|cbn; intros l r; by rewrite <- app_assoc].
    apply Forall_app; split; [done|by repeat constructor].
  - apply emits_pure_bind; [intros _ _|done]. rewrite app_nil_r in Hauth.
    eapply emits_mono; [apply (cancel_emits effect _ _ Hauth Hq')|cbn; intros l r; by rewrite <- app_assoc].
Qed.

Lemma truth_emits effect d now b fresh raw v ctx first t :
  let calls :=
    [ClockRead (Ok now);
     BindingLoaded (target c) d (Ok (Loaded b));
     ContextLoaded (proposal c) (target_account_id (target c)) now (Ok fresh);
     LinkFetched (target_link_id (target c)) (target_account_id (target c)) (Ok raw)] in
  target_digest (target c) = Ok d → bound b now → _normalize_truth raw = inl v →
  holds_lease job w (lease_token_of job) now → effect_context fresh now true = Ok ctx →
  evaluate_effect (gate self) (proposal c) ctx (Some (prior_plan c)) = Ok first → allowed first = true →
  emits (with_truth self job c w effect b v) t (λ l r, execution (calls ++ l) r).
Proof.
  intros calls Hd Hb Hv Hlease Hctx Heff Hallow.
  assert (Forall quiet calls) as Hq by (by repeat constructor).
  assert (last_truth None calls = Some v) as Hl by (cbn; by rewrite Hv).
  assert (∀ m, settles m (reports calls (Some v) (Some (Loaded b)) false) →
    ∀ t, emits m t (λ l r, execution (calls ++ l) r)) as Hset.
  { intros m Hm t'. apply settle_execution; [done|]. by rewrite Hl. }
  unfold with_truth. destruct (truth_matches v (target c)) eqn:Hm; cbn [negb].
  2: { apply Hset, escalated_reports. left. by exists v. }
  destruct (_resolve_without_cancel _ _ _ _ _ b v _ _) as [m|] eqn:Er.
  { apply Hset. eapply resolve_some; [done|done|by left|done]. }
  apply resolve_none in Er as [Hc Hsb].
  apply emits_refresh; [|intros l e H _ _; apply cancel_execution_raise, Forall_app; by split].
  intros d' b2 now' x Hd' Hx Hf. rewrite Hd in Hd'. injection Hd' as <-.
  set (more := [BindingLoaded (target c) d (Ok b2); ClockRead (Ok now')]).
  assert (Forall quiet (calls ++ more)) as Hq' by (apply Forall_app; split; [done|by repeat constructor]).
  assert (shown (Some v) LINK_CREATED) as Hshown by (by exists v).
  assert (∀ m, settles m (reports (calls ++ more) (Some v) (Some b2) false) → ∀ t, emits m t (λ l r, execution
    (calls ++ BindingLoaded (target c) d (Ok b2) :: ClockRead (Ok now') :: l) r)) as Hset'.
  { intros m Hmm t'. pose proof (settle_execution (calls ++ more) m t' Hq') as H.
    rewrite last_truth_app, Hl in H. eapply emits_mono; [by apply H|]. cbn. done. }
  destruct x as [b'|failure].
  2: { apply Hset', escalated_reports. right. split; [|by do 2 right].
       apply (refused_app (calls ++ [_]) [ClockRead (Ok now')] []). by eapply Hf. }
  destruct (Hx b' eq_refl) as [-> Hb'].
  destruct (_resolve_without_cancel _ _ _ _ _ b' v _ _) as [m|] eqn:Er'.
  { apply Hset'. eapply resolve_some; [done|done|by left|done]. }
  apply resolve_none in Er' as [_ Hsb'].
  case_decide as Hmode; [apply Hset', requeue_reports; split; [done|by right]|].
  assert (prepared (calls ++ more) v) as Hprep.
  { split; [|done..]. exists d, now, b, fresh, raw, b', now', ctx, first. split; [done|]. by split_and!. }
  eapply emits_mono; [apply (final_emits _ _ _ Hprep Hmode)|]. cbn. done.
Qed.

Lemma cancel_execute_emits t : emits (execute self job c w) t execution.
Proof.
  assert (∀ l e, Forall quiet l → execution l (Raise e)) as Hraise by exact cancel_execution_raise.
  unfold execute. apply emits_now; [intros now _|intros; apply Hraise; by repeat constructor].
  apply emits_pure_bind; [intros u Hlease%active_lease_Ok|intros; apply Hraise; by repeat constructor].
  apply emits_load_binding; [intros d b Hd|intros; apply Hraise; by repeat constructor..].
  apply emits_pure_bind; [intros failure Hfail|intros; apply Hraise; by repeat constructor]. cbv zeta.
  apply emits_call_bind; [intros fresh _|intros; apply Hraise; by repeat constructor].
  apply emits_pure_bind; [intros ctx Hctx|intros; apply Hraise; by repeat constructor].
  apply emits_pure_bind; [intros first Heff|intros; apply Hraise; by repeat constructor].
  set (calls := [ClockRead (Ok now); BindingLoaded (target c) d (Ok b);
                 ContextLoaded (proposal c) (target_account_id (target c)) now (Ok fresh)]).
  assert (∀ m, settles m (reports calls None (Some b) false) →
    ∀ t, emits m t (λ l r, execution (calls ++ l) r)) as Hset.
  { intros m Hm t'. apply settle_execution; [by repeat constructor|done]. }
  destruct (checked_binding b failure) as [b'|f] eqn:Ec.
  2: { apply Hset, escalated_reports. right. split; [|by right; left].
       exists b, now, failure, f. split; [done|]. split; [by left|done]. }
  assert (b = Loaded b' ∧ failure = None) as [-> ->].
  { unfold checked_binding in Ec. destruct failure; [done|]. destruct b; try done. by injection Ec as ->. }
  destruct (allowed first) eqn:Hallow; cbn [negb]; [|by apply Hset, blocked_reports; [|left]].
  apply emits_fetch. intros answer x Hx. destruct x as [v|f].
  - pose proof (proj1 (Hx v) eq_refl) as Hv. unfold read_truth in Hv. destruct answer as [raw|e]; [|done].
    destruct (_normalize_truth raw) as [v'|] eqn:En; [|done]. injection Hv as ->.
    eapply emits_mono; [eapply truth_emits; eassumption|]. cbn. done.
  - assert (read_truth answer = None) as Hn.
    { destruct (read_truth answer) as [v|]; [|done]. by pose proof (proj2 (Hx v) eq_refl). }
    pose (fetch := LinkFetched (target_link_id (target c)) (target_account_id (target c)) answer).
    eapply emits_mono; [apply (settle_execution (calls ++ [fetch]))|by cbn].
    + by repeat constructor.
    + cbn. rewrite Hn. apply requeue_reports. case_decide; [left|]; split_and!; try done. by right.
Qed.

Lemma execution_run t l r : execute self job c w t = (t ++ l, r) → execution l r.
Proof.
  intros H. destruct (emits_run _ _ _ _ _ H (cancel_execute_emits t)) as (l' & Hl & He).
  apply app_inv_head in Hl as ->. done.
Qed.

(** A cancel of the trace is the only one, and follows its authorization. *)
Lemma execution_cancel l r e :
  execution l r → e ∈ l → is_cancel e = true → cancels_once l.
Proof.
  intros [[Hq|H] _] Hin He; [|done]. rewrite Forall_forall in Hq. specialize (Hq _ Hin). unfold quiet in Hq. congruence.
Qed.

(** ** Reading the table the other way *)
Lemma shown_inj v status : shown (Some v) status → truth_matches v (target c) = true ∧ truth_status v = status.
Proof. by intros (v' & [= <-] & ? & ?). Qed.

Lemma rests_on_mismatch l v B attempted res :
  truth_matches v (target c) = false → rests_on l (Some v) B attempted res →
  job_state (result_job res) = DEAD_LETTER ∧ disposition res = ESCALATED.
Proof.
  intros Hm. assert (∀ status, ¬ shown (Some v) status) as Hno by (intros st [? _]%shown_inj; congruence).
  assert (∀ mode, ¬ requeue_rests_on (Some v) B attempted mode) as Hreq.
  { intros []; cbn; naive_solver. }
  unfold rests_on. destruct (disposition res); intros Hr.
  - by destruct Hr as (_ & _ & []%Hno).
  - by destruct Hr as (_ & _ & []%Hno).
  - by destruct Hr as (_ & []%Hno).
  - destruct Hr as (_ & _ & _ & [?|[]%Hno]); done.
  - by destruct Hr as [_ []%Hreq].
  - destruct Hr as (_ & v' & [= <-] & ? & _). congruence.
  - by destruct Hr.
  - by destruct Hr as [_ []%Hreq].
Qed.

Lemma rests_on_paid l B v attempted res :
  truth_matches v (target c) = true → link_paid v → rests_on l (Some v) B attempted res →
  job_state (result_job res) = DEAD_LETTER
  ∧ (disposition res = REVIEW_REQUIRED ∨ disposition res = ESCALATED ∧ attempted = true ∧ refused l B).
Proof.
  intros Hm Hp. assert (∀ status, shown (Some v) status → status = LINK_PAID ∨ status = LINK_PARTIALLY_PAID) as Hno.
  { intros st [_ <-]%shown_inj. exact Hp. }
  assert (¬ shown (Some v) LINK_CREATED) as Hc by (intros ?%Hno; naive_solver).
  assert (∀ mode, ¬ requeue_rests_on (Some v) B attempted mode) as Hreq by (intros []; cbn; naive_solver).
  unfold rests_on. destruct (disposition res); intros Hr.
  - destruct Hr as (_ & _ & ?%Hno). naive_solver.
  - destruct Hr as (_ & _ & ?%Hno). naive_solver.
  - destruct Hr as (_ & ?%Hno). naive_solver.
  - destruct Hr as (_ & _ & _ & [?|?]); done.
  - destruct Hr as [_ []%Hreq].
  - split; [apply Hr|by left].
  - destruct Hr as (? & [(v' & [= <-] & ?)|[? [?|[?|?]]]]); [congruence| |done..]. split; [done|by right].
  - destruct Hr as [_ []%Hreq].
Qed.

Lemma rests_on_completed l T B attempted res :
  rests_on l T B attempted res →
  job_state (result_job res) = COMPLETED ↔
    disposition res = CANCELLED ∨ disposition res = ALREADY_CANCELLED ∨ disposition res = EXPIRED.
Proof.
  unfold rests_on. destruct (disposition res); intros [-> _]; naive_solver.
Qed.
End theory.

(** * Identity of the command *)
Lemma identifier_or_Ok m v u : identifier_or m v = Ok u → is_identifier v = true.
Proof.
  unfold identifier_or. destruct (require_identifier v "") as [x|] eqn:E; [|done].
  by apply require_identifier_Ok in E as [_ ?].
Qed.

Lemma ascii_app s t : ascii_str s = true → ascii_str t = true → ascii_str (s ++ t) = true.
Proof. unfold ascii_str. rewrite forallb_app. by intros -> ->. Qed.

Lemma starts_with_app p s : starts_with p s = true → s = p ++ drop (length p) s.
Proof. intros H%bool_decide_true_1. rewrite <- H at 1. by rewrite take_drop. Qed.

Lemma target_ascii nfkd t t' :
  CancellationTarget_post_init nfkd t = Ok t' →
  Forall (λ s, ascii_str s = true)
    [target_merchant_id t; target_case_id t; target_action_id t; target_action_key t; instrument_id t;
     target_account_id t; target_link_id t; target_reference_id t; target_currency t].
Proof.
  unfold CancellationTarget_post_init. intros H. inv_ok.
  repeat match goal with E : identifier_or _ _ = Ok _ |- _ => apply identifier_or_Ok, identifier_ascii in E end.
  match goal with E : _require_text _ _ _ = Ok _ |- _ => apply require_text_Ok in E as [-> _] end.
  bools. repeat constructor; try done.
  - rewrite (starts_with_app ($"act_") (target_action_key t)) by done. apply ascii_app; [done|].
    by apply is_digest_ascii.
  - match goal with E : is_payment_link_id _ = true |- _ => unfold is_payment_link_id in E; bools end.
    rewrite (starts_with_app ($"plink_") (target_link_id t)) by done. apply ascii_app; [done|].
    apply (Forall_ascii is_alnum); [by apply is_alnum_ascii|]. by apply forallb_Forall.
  - by apply currency_ascii.
Qed.

Lemma target_evidence nfkd t t' :
  CancellationTarget_post_init nfkd t = Ok t' → evidence (target_material t) = true.
Proof.
  intros H%target_ascii. repeat match goal with E : Forall _ (_ :: _) |- _ => inversion_clear E end.
  unfold target_material, CancellationTarget_to_primitive. cbn [evidence forallb fst snd].
  repeat match goal with E : ascii_str _ = true |- _ => rewrite E; clear E end. done.
Qed.

Lemma canon_eq_target t t' :
  canon_eq (CancellationTarget_to_primitive t) (CancellationTarget_to_primitive t') → t = t'.
Proof.
  unfold CancellationTarget_to_primitive. intros E.
  same_field E ($"action_id") E1. same_field E ($"action_key") E2. same_field E ($"amount_minor") E3.
  same_field E ($"case_id") E4. same_field E ($"currency") E5. same_field E ($"instrument_id") E6.
  same_field E ($"merchant_id") E7. same_field E ($"payment_link_id") E8.
  same_field E ($"provider_account_id") E9. same_field E ($"reference_id") E10.
  apply canon_eq_str in E1, E2, E4, E5, E6, E7, E8, E9, E10. apply canon_eq_int in E3.
  destruct t, t'. cbn in *. by subst.
Qed.

(** Equal target digests: one target, or a collision. *)
Lemma target_digest_inj nfkd t t' h :
  CancellationTarget_post_init nfkd t = Ok t → CancellationTarget_post_init nfkd t' = Ok t' →
  target_digest t = Ok h → target_digest t' = Ok h →
  t = t' ∨ collides (target_material t) (target_material t').
Proof.
  intros Ht%target_evidence Ht'%target_evidence H H'.
  destruct (sha256_hexdigest_inj (target_material t) (target_material t') h Ht Ht' H H') as [E|]; [left|by right].
  unfold target_material in E. same_field E ($"target") E1. by apply canon_eq_target.
Qed.

Lemma command_evidence key plan digest tdigest :
  ascii_str key = true → ascii_str plan = true → ascii_str digest = true → ascii_str tdigest = true →
  evidence (command_material key plan digest tdigest) = true.
Proof.
  intros H1 H2 H3 H4. unfold command_material. cbn [evidence forallb fst snd]. by rewrite H1, H2, H3, H4.
Qed.

Lemma payload_parts c h :
  command_payload_digest c = Ok h →
  ∃ key plan digest tdigest,
    action_key (proposal c) = Ok key ∧ decision_digest (prior_plan c) = Ok plan
    ∧ proposal_digest (proposal c) = Ok digest ∧ target_digest (target c) = Ok tdigest
    ∧ sha256_hexdigest (command_material key plan digest tdigest) = Ok h
    ∧ evidence (command_material key plan digest tdigest) = true.
Proof.
  unfold command_payload_digest. intros H.
  apply bind_Ok in H as (key & Hk & H). apply bind_Ok in H as (plan & Hp & H).
  apply bind_Ok in H as (digest & Hd & H). apply bind_Ok in H as (tdigest & Ht & H).
  exists key, plan, digest, tdigest. do 5 (split; [done|]). apply command_evidence.
  - apply action_key_Ok in Hk as (k & -> & Hk). by apply ascii_act_key.
  - unfold decision_digest in Hp. apply bind_Ok in Hp as (? & _ & Hp). by eapply is_digest_ascii, sha256_hexdigest_digest.
  - unfold proposal_digest in Hd. apply bind_Ok in Hd as (? & _ & Hd). by eapply is_digest_ascii, sha256_hexdigest_digest.
  - by eapply is_digest_ascii, sha256_hexdigest_digest.
Qed.

(** What an absent binding failure means. *)
Lemma bound_exact job c b now :
  bound job c b now →
  binding_target b = target c ∧ target_digest (target c) = Ok (persisted_target_digest b)
  ∧ action_key (proposal c) = Ok (job_action_key job) ∧ command_payload_digest c = Ok (payload_digest job)
  ∧ dt_ltb now (binding_recorded_at b) = false.
Proof.
  unfold bound, _binding_failure. intros H. apply bind_Ok in H as (key & Hk & H).
  case_bool_decide as H1; [done|]. apply bind_Ok in H as (payload & Hp & H).
  case_bool_decide as H2; [done|]. apply bind_Ok in H as (matched & Hm & H).
  subst.
  destruct matched; [|done]. cbn [negb] in H. destruct (dt_ltb now (binding_recorded_at b)); [done|].
  unfold binding_matches in Hm. case_decide as Ht; [|done]. apply bind_Ok in Hm as (d & Hd & Hm).
  apply Ok_inj in Hm. apply bool_decide_true_1 in Hm. subst. split_and!; done.
Qed.

Lemma filter_quiet l : Forall quiet l → List.filter is_cancel l = [].
Proof. induction 1 as [|e l He _ IH]; [done|]. cbn. unfold quiet in He. by rewrite He. Qed.

(** The only element of a kind splits a list in one way. *)
Lemma split_unique {A} (p : A → bool) l1 l2 x y k1 k2 :
  l1 ++ x :: k1 = l2 ++ y :: k2 → p x = true → p y = true →
  Forall (λ z, p z = false) l1 → Forall (λ z, p z = false) k1 → l2 = l1 ∧ k2 = k1.
Proof.
  revert l2. induction l1 as [|z l1 IH]; intros l2 E Hx Hy H1 Hk.
  - destruct l2 as [|z l2]; cbn in E; [by injection E as _ ->|]. injection E as _ ->. exfalso.
    apply Forall_app in Hk as [_ Hk]. inversion Hk. congruence.
  - inversion_clear H1. destruct l2 as [|z' l2]; cbn in E; [injection E as -> _; congruence|].
    injection E as -> E. by destruct (IH l2 E) as [-> ->].
Qed.

(** * Properties *)

(** C17: a provider cancellation is authorized: whenever an execution asks the
    provider to cancel a link, it is the command's link and account; the job
    is leased and not in reconcile-only mode; the durable binding was read
    twice, both times exact, current and cancellable; the provider's own truth
    was read first and shows this very link open and unpaid; and the effect
    gate allowed the proposal on a first and on a final fresh context. *)
Theorem cancel_is_authorized self job c w t l r link account answer :
  execute self job c w t = (t ++ l, r) → LinkCancelled link account answer ∈ l →
  link = target_link_id (target c) ∧ account = target_account_id (target c)
  ∧ ∃ pre post, l = pre ++ LinkCancelled link account answer :: post ∧ authorized self job c w pre
      ∧ ∀ d b, BindingLoaded (target c) d (Ok (Loaded b)) ∈ pre →
          binding_target b = target c ∧ target_digest (target c) = Ok (persisted_target_digest b)
          ∧ command_payload_digest c = Ok (payload_digest job)
          ∧ instrument_status b ∈ _CANCELLABLE_BINDING_STATUSES.
Proof.
  intros H Hin. apply execution_run in H. destruct (execution_cancel _ _ _ _ _ _ _ H Hin eq_refl)
    as (pre & answer' & fetched & post & -> & Ha & Hq & Hq').
  assert (LinkCancelled link account answer
    = LinkCancelled (target_link_id (target c)) (target_account_id (target c)) answer') as Heq.
  { rewrite Forall_forall in Hq, Hq'. apply elem_of_app in Hin as [Hin|Hin]; [by specialize (Hq _ Hin)|].
    apply elem_of_cons in Hin as [|Hin]; [done|]. apply elem_of_cons in Hin as [|Hin]; [done|].
    by specialize (Hq' _ Hin). }
  injection Heq as -> -> ->. split; [done|]. split; [done|]. eexists pre, _. split; [done|]. split; [done|].
  intros d b Hb. destruct Ha as [_ (d' & now & b1 & fresh & raw & b2 & checked & before & final & v & ctx & first
    & ctx' & effect & -> & _ & Hb1 & Hb2 & Hs1 & Hs2 & _)].
  assert (b = b1 ∨ b = b2) as Hor.
  { unfold recorded in Hb. destruct (authorization_recorder self); cbn in Hb;
      rewrite !elem_of_cons, elem_of_nil in Hb; naive_solver. }
  destruct Hor as [-> | ->].
  - apply bound_exact in Hb1 as (? & ? & _ & ? & _). done.
  - apply bound_exact in Hb2 as (? & ? & _ & ? & _). done.
Qed.

(** one cancellation per delivery, and never the last word: an execution asks
    the provider to cancel at most once, and the very next call reads the
    provider's truth again, whatever the cancellation answered. *)
Theorem one_cancel_then_read self job c w t l r :
  execute self job c w t = (t ++ l, r) →
  (length (List.filter is_cancel l) <= 1)%nat
  ∧ ∀ pre e post, l = pre ++ e :: post → is_cancel e = true →
      ∃ fetched rest, post = LinkFetched (target_link_id (target c)) (target_account_id (target c)) fetched :: rest.
Proof.
  intros H%execution_run. destruct H as [[Hq|(pre & answer & fetched & post & -> & _ & Hq & Hq')] _].
  - rewrite (filter_quiet l Hq). split; [cbn; lia|]. intros pre e post -> He.
    apply Forall_app in Hq as [_ Hq]. inversion Hq as [|? ? Hc]; subst. unfold quiet in Hc. congruence.
  - split.
    + rewrite List.filter_app. cbn. rewrite (filter_quiet pre Hq), (filter_quiet post Hq'). cbn. lia.
    + intros pre' e post' Heq He. exists fetched, post.
      assert (pre' = pre ∧ post' = LinkFetched (target_link_id (target c)) (target_account_id (target c)) fetched :: post)
        as [_ ->]; [|done].
      apply (split_unique is_cancel pre pre' _ e _ post' Heq eq_refl He); [done|].
      by constructor.
Qed.

(** C18: every result rests on what was read last.  With the last provider
    truth, the durable binding read last, and whether a cancellation was sent
    (which the result tells): the job is completed exactly as cancelled,
    already cancelled or expired when that truth is of this very link in that
    state; a requeue grants the cancellation again only on this link read as
    open, after a cancellation or in reconcile-only mode, stays reconcile-only
    only without a truth or against a terminal record, and is an ordinary
    retry only when nothing was read and nothing sent; a truth of another link
    is escalated; and this link read as paid or partially paid goes to review,
    unless a cancellation was sent and the binding was refused after it, which
    is escalated. *)
Theorem result_is_proved self job c w t l res :
  execute self job c w t = (t ++ l, Ok res) →
  settled_job job (result_job res) ∧ cancel_attempted res = existsb is_cancel l
  ∧ rests_on job c l (last_truth None l) (last_binding None l) (existsb is_cancel l) res
  ∧ (∀ v, last_truth None l = Some v → truth_matches v (target c) = false →
       job_state (result_job res) = DEAD_LETTER ∧ disposition res = ESCALATED)
  ∧ (∀ v, last_truth None l = Some v → truth_matches v (target c) = true → link_paid v →
       job_state (result_job res) = DEAD_LETTER
       ∧ (disposition res = REVIEW_REQUIRED
          ∨ disposition res = ESCALATED ∧ existsb is_cancel l = true ∧ refused job c l (last_binding None l)))
  ∧ (job_state (result_job res) = COMPLETED ↔
       disposition res = CANCELLED ∨ disposition res = ALREADY_CANCELLED ∨ disposition res = EXPIRED).
Proof.
  intros H%execution_run. destruct H as [_ H]. destruct (H res eq_refl) as (Hj & Ha & Hr).
  split_and!; [done..| | |].
  - intros v Hv Hm. rewrite Hv in Hr. by eapply rests_on_mismatch.
  - intros v Hv Hm Hp. rewrite Hv in Hr. by eapply rests_on_paid.
  - by eapply rests_on_completed.
Qed.

(** the payload digest identifies the target: two valid commands with one
    payload digest cancel the same target, down to its amount and reference,
    unless one of the four pairs of digested values is a SHA-256 collision. *)
Theorem payload_binds_target nfkd c c' h :
  CancellationTarget_post_init nfkd (target c) = Ok (target c) →
  CancellationTarget_post_init nfkd (target c') = Ok (target c') →
  command_payload_digest c = Ok h → command_payload_digest c' = Ok h →
  target c = target c' ∨ ∃ v v', collides v v'.
Proof.
  intros Ht Ht' (key & plan & digest & td & _ & _ & _ & Htd & H & He)%payload_parts
    (key' & plan' & digest' & td' & _ & _ & _ & Htd' & H' & He')%payload_parts.
  destruct (sha256_hexdigest_inj _ _ _ He He' H H') as [E|]; [|by right; eauto].
  unfold command_material in E. same_field E ($"target_digest") E1. apply canon_eq_str in E1 as <-.
  destruct (target_digest_inj nfkd _ _ _ Ht Ht' Htd Htd') as [|]; [by left|by right; eauto].
Qed.

(** * Witnesses *)
Definition sample_now : datetime := utc 63082281600000000.
Definition sample_cancel_proposal : ActionProposal :=
  mkActionProposal ($"prop_9") ($"merchant_1") ($"case_1") 1 CANCEL_PAYMENT_LINK
    sample_now (utc 63082282500000000) 1 None None None None false (Some ($"plink_1")).
Definition or_else_default {A} (d : A) (r : result A) : A := match r with Ok a => a | Raise _ => d end.

Definition sample_link_snapshot : ProviderSnapshot :=
  mkProviderSnapshot UNPAID (mkMoney 10000 ($"INR")) ($"upi") (utc 63082281590000000) 1 NORMAL (utc 63082281590000000).
Definition sample_cancel_context : GateContext :=
  mkGateContext ($"merchant_1") ($"case_1") sample_now 4 4 ACTIVE sample_link_snapshot true
    (Some (utc 63082281500000000)) false false true false None 0 false 0 false false None true.

Definition sample_reference : pystr :=
  Eval vm_compute in or_else_default [] (make_recovery_reference_id id ($"case_1") ($"acc_1")).
Definition sample_action_key : pystr := Eval vm_compute in or_else_default [] (action_key sample_cancel_proposal).
Definition sample_target : CancellationTarget :=
  mkCancellationTarget ($"merchant_1") ($"case_1") ($"action_1") sample_action_key ($"instrument_1") ($"acc_1")
    ($"plink_1") sample_reference 10000 ($"INR").
Definition sample_cancel_plan : GateDecision :=
  or_else_default (mkGateDecision POLICY [] [] [] [] [] 0 0 sample_now [])
    (evaluate_policy sample_policy sample_cancel_proposal sample_cancel_context).
Definition sample_cancel : CancelPaymentLinkCommand :=
  mkCancelCommand sample_cancel_proposal sample_cancel_plan sample_target.

(** The provider shows the link open until it has been asked to cancel it. *)
Definition sample_truth (status : ProviderPaymentLinkStatus) : ProviderPaymentLinkTruth :=
  mkTruth ($"plink_1") sample_reference 10000 0 ($"INR") false false status.
Definition sample_canceller : CancelPaymentLinkExecutor :=
  mkCancelExecutor sample_policy
    (λ t _ _, b ← record_binding t ACTIVE_INSTRUMENT sample_now; Ok (Loaded b))
    (λ _ _ _ _, Ok sample_cancel_context)
    (λ _ _ l, Ok (TruthObject (sample_truth (if existsb is_cancel l then LINK_CANCELLED else LINK_CREATED))))
    (λ _ _ _, Raise (RuntimeError "timeout")) (λ _, Ok sample_now) (mkBackoffPolicy 1000000 5000000)
    (Some (λ _ _, Ok tt)).

Definition sample_cancel_job : result OutboxJob :=
  digest ← command_payload_digest sample_cancel;
  job ← create ($"job_9") sample_action_key digest sample_now 3 None;
  claim job ($"w1") sample_now (seconds 30) 0.

Definition cancelled_ok (j : result OutboxJob) : bool :=
  match j with
  | Ok job =>
      match execute sample_canceller job sample_cancel ($"w1") [] with
      | (l, Ok res) => existsb is_cancel l && bool_decide (disposition res = CANCELLED)
                       && bool_decide (job_state job = LEASED)
      | _ => false
      end
  | Raise _ => false
  end.

(** The cancellation times out, the provider then shows the link cancelled. *)
Lemma sample_cancelled : cancelled_ok sample_cancel_job = true.
Proof. vm_compute. reflexivity. Qed.

Lemma sample_cancellation :
  ∃ job l res, execute sample_canceller job sample_cancel ($"w1") [] = ([] ++ l, Ok res)
    ∧ job_state job = LEASED ∧ disposition res = CANCELLED ∧ ∃ link a x, LinkCancelled link a x ∈ l.
Proof.
  pose proof sample_cancelled as H. unfold cancelled_ok in H. destruct sample_cancel_job as [job|e]; [|discriminate H].
  destruct (execute sample_canceller job sample_cancel ($"w1") []) as [l [res|e]] eqn:E; [|discriminate H].
  apply andb_prop in H as [H H3]. apply andb_prop in H as [H1 H2]. exists job, l, res.
  split; [exact E|]. split; [exact (bool_decide_true_1 _ H3)|]. split; [exact (bool_decide_true_1 _ H2)|].
  apply existsb_exists in H1 as (ev & Hin & Hev). apply list_elem_of_In in Hin.
  destruct ev; try discriminate Hev. do 3 eexists. exact Hin.
Qed.

Lemma cancel_is_authorized_witness :
  ∃ (l : list event) link account answer, LinkCancelled link account answer ∈ l ∧ link = $"plink_1".
Proof.
  destruct sample_cancellation as (job & l & res & E & _ & _ & link & a & x & Hin).
  destruct (cancel_is_authorized _ _ _ _ _ _ _ _ _ _ E Hin) as (Hlink & _). exists l, link, a, x.
  split; [exact Hin|exact Hlink].
Defined.

Lemma one_cancel_then_read_witness :
  ∃ l r, (∃ job, execute sample_canceller job sample_cancel ($"w1") [] = ([] ++ l, r))
    ∧ (length (List.filter is_cancel l) <= 1)%nat.
Proof.
  destruct sample_cancellation as (job & l & res & E & _). exists l, (Ok res). split; [by exists job|].
  exact (proj1 (one_cancel_then_read _ _ _ _ _ _ _ E)).
Defined.

Lemma result_is_proved_witness :
  ∃ l res, disposition res = CANCELLED ∧ cancel_attempted res = existsb is_cancel l
    ∧ job_state (result_job res) = COMPLETED.
Proof.
  destruct sample_cancellation as (job & l & res & E & _ & Hd & _). exists l, res. split; [exact Hd|].
  destruct (result_is_proved _ _ _ _ _ _ _ E) as (_ & Ha & _ & _ & _ & Hc).
  split; [exact Ha|]. exact (proj2 Hc (or_introl Hd)).
Defined.

Lemma payload_binds_target_witness :
  ∃ h, command_payload_digest sample_cancel = Ok h ∧ (sample_target = sample_target ∨ ∃ v v', collides v v').
Proof.
  assert (is_ok (command_payload_digest sample_cancel) = true) as [h Hh]%is_ok_true by (vm_compute; reflexivity).
  assert (CancellationTarget_post_init id sample_target = Ok sample_target) as Ht by (vm_compute; reflexivity).
  exists h. split; [exact Hh|]. exact (payload_binds_target id sample_cancel sample_cancel h Ht Ht Hh Hh).
Defined.
