(* ===== verification/CancelCommand.v ===== *)
(** [services/control_plane/cancellation_command_codec.py]: the Payment Link
    cancellation command on the wire, over the shared half of the effect command
    codec in [CommandCodec]. *)
From S2P Require Import Prelude PyStr Sha256 PyTime Json Canonical Digest Values States Actions Gate.
From S2P Require Import Text Outbox References Reader CommandCodec Effects Cancellation.

Definition CANCEL_PAYMENT_LINK_COMMAND_TYPE : pystr := $"CANCEL_PAYMENT_LINK".
Definition CANCEL_PAYMENT_LINK_COMMAND_SCHEMA : pystr := $"retrywise.cancel-payment-link-command".

Definition cancel_kind : command_kind := {|
  kind_type := CANCEL_PAYMENT_LINK_COMMAND_TYPE;
  kind_schema := CANCEL_PAYMENT_LINK_COMMAND_SCHEMA;
  external_type_message := "external cancellation command_type is unsupported";
  external_version_message := "external cancellation command_schema_version is unsupported";
  schema_message := "cancellation command schema is unsupported";
  version_message := "cancellation command schema version is unsupported";
  embedded_type_message := "embedded and external cancellation command types differ";
  algorithm_message := "cancellation integrity algorithm is unsupported";
  integrity_message := "cancellation command integrity digest mismatch";
  binding_prefix := "cancellation command ";
  unique_message := "cancellation command is not its unique canonical envelope"
|}.

Definition _COMMAND_FIELDS : list string := ["prior_plan"; "proposal"; "target"]%string.
Definition _TARGET_FIELDS : list string :=
  ["action_id"; "action_key"; "amount_minor"; "case_id"; "currency"; "instrument_id"; "merchant_id";
   "payment_link_id"; "provider_account_id"; "reference_id"]%string.
Definition _BINDING_FIELDS : list string :=
  ["action_key"; "executor_payload_sha256"; "prior_plan_sha256"; "proposal_sha256"; "target_sha256"]%string.

Section codec.
Context (nfkd : pystr → pystr) (nesting_limit : nat).

(** The fields of a target, in the order the call evaluates them. *)
Definition read_target (item : list (pystr * json)) : result CancellationTarget :=
  let at_ := λ key, item_of item key in
  let path := λ key, "$.command.target." +:+ key in
  merchant ← at_ "merchant_id"; merchant ← _text merchant (path "merchant_id");
  case ← at_ "case_id"; case ← _text case (path "case_id");
  action ← at_ "action_id"; action ← _text action (path "action_id");
  key ← at_ "action_key"; key ← _text key (path "action_key");
  instrument ← at_ "instrument_id"; instrument ← _text instrument (path "instrument_id");
  account ← at_ "provider_account_id"; account ← _text account (path "provider_account_id");
  link ← at_ "payment_link_id"; link ← _text link (path "payment_link_id");
  reference ← at_ "reference_id"; reference ← _text reference (path "reference_id");
  amount ← at_ "amount_minor"; amount ← _integer amount (path "amount_minor") (Some 1);
  cur ← at_ "currency"; cur ← _text cur (path "currency");
  CancellationTarget_post_init nfkd
    (mkCancellationTarget merchant case action key instrument account link reference amount cur).

Definition _target (value : json) : result CancellationTarget :=
  item ← _exact_object value _TARGET_FIELDS "$.command.target";
  target ← rewrap_foreign (read_target item)
             (EffectCommandSchemaError "cancellation target violates its immutable contract");
  different ← differs (Ok (CancellationTarget_to_primitive target)) item;
  _ ← raise_if different
        (EffectCommandBindingError "cancellation target derived fields differ from their source");
  Ok target.

Definition _bindings (c : CancelPaymentLinkCommand) : result (list (string * pystr)) :=
  key ← action_key (proposal c);
  payload ← command_payload_digest c;
  plan ← decision_digest (prior_plan c);
  digest ← proposal_digest (proposal c);
  tdigest ← target_digest (target c);
  Ok [("action_key", key); ("executor_payload_sha256", payload); ("prior_plan_sha256", plan);
      ("proposal_sha256", digest); ("target_sha256", tdigest)]%string.

Definition _unsigned_envelope (c : CancelPaymentLinkCommand) : result (list (pystr * json)) :=
  bindings ← _bindings c;
  plan ← (prim ← GateDecision_to_primitive (prior_plan c); to_canonical_primitive prim);
  p ← (prim ← ActionProposal_to_primitive (proposal c); to_canonical_primitive prim);
  t ← to_canonical_primitive (CancellationTarget_to_primitive (target c));
  Ok [($"bindings", JDict (bindings_json bindings));
      ($"command", JDict [($"prior_plan", plan); ($"proposal", p); ($"target", t)]);
      ($"command_type", JStr CANCEL_PAYMENT_LINK_COMMAND_TYPE);
      ($"schema", JStr CANCEL_PAYMENT_LINK_COMMAND_SCHEMA);
      ($"version", JInt COMMAND_SCHEMA_VERSION)].

Definition encode_cancel_payment_link_command (c : CancelPaymentLinkCommand) : result (list (pystr * json)) :=
  unsigned ← _unsigned_envelope c; signed unsigned.

Definition encode_cancel_payment_link_command_json (c : CancelPaymentLinkCommand) : result bytes :=
  envelope ← encode_cancel_payment_link_command c; bounded_bytes (JDict envelope).

Definition read_cancel (envelope : list (pystr * json)) : result CancelPaymentLinkCommand :=
  command_value ← item_of envelope "command";
  command_value ← _exact_object command_value _COMMAND_FIELDS "$.command";
  proposal_value ← item_of command_value "proposal";
  p ← _proposal proposal_value;
  plan_value ← item_of command_value "prior_plan";
  plan ← _prior_plan plan_value;
  target_value ← item_of command_value "target";
  t ← _target target_value;
  rewrap (CancelPaymentLinkCommand_post_init (mkCancelCommand p plan t))
    (EffectCommandBindingError "cancellation command violates proposal/plan/target binding").

Definition decode_cancel_payment_link_command (payload : command_payload_arg) (command_type : pystr)
    (command_schema_version : Z) : result CancelPaymentLinkCommand :=
  envelope ← open_envelope nesting_limit cancel_kind payload command_type command_schema_version;
  c ← read_cancel envelope;
  _ ← close_envelope cancel_kind _BINDING_FIELDS envelope (_bindings c) (encode_cancel_payment_link_command c);
  Ok c.
End codec.

(** * Targets are read back *)

Definition target_json (t : CancellationTarget) : list (pystr * json) :=
  [($"action_id", JStr (target_action_id t));
   ($"action_key", JStr (target_action_key t));
   ($"amount_minor", JInt (target_amount_minor t));
   ($"case_id", JStr (target_case_id t));
   ($"currency", JStr (target_currency t));
   ($"instrument_id", JStr (instrument_id t));
   ($"merchant_id", JStr (target_merchant_id t));
   ($"payment_link_id", JStr (target_link_id t));
   ($"provider_account_id", JStr (target_account_id t));
   ($"reference_id", JStr (target_reference_id t))].

Lemma target_canonical t :
  to_canonical_primitive (CancellationTarget_to_primitive t) = Ok (JDict (target_json t)).
Proof. apply literal_canonical; [vm_compute; reflexivity|]. repeat constructor. Qed.

Lemma ascii_str_ok s : ascii_str s = true → str_ok s.
Proof. intros H%ascii_str_Forall. eapply Forall_impl; [exact H|]. cbn. unfold is_ascii, between. lia. Qed.

Section theory.
Context (nfkd : pystr → pystr).

Lemma target_json_ok t t' :
  CancellationTarget_post_init nfkd t = Ok t' → json_ok (JDict (target_json t)).
Proof.
  intros H%target_ascii. repeat match goal with E : Forall _ (_ :: _) |- _ => inversion_clear E end.
  apply json_ok_dict. split; [decide_closed|].
  repeat (apply Forall_cons_2; [split; [apply lit_ok|cbn [snd]]|]); try apply Forall_nil_2;
    try constructor; by apply ascii_str_ok.
Qed.

Lemma target_post_init_id t t' : CancellationTarget_post_init nfkd t = Ok t' → t' = t ∧ 0 < target_amount_minor t.
Proof. unfold CancellationTarget_post_init. intros H. inv_ok. bools. done. Qed.

Lemma target_read_back t :
  CancellationTarget_post_init nfkd t = Ok t → in_64 (target_amount_minor t) →
  _target nfkd (sort_keys (JDict (target_json t))) = Ok t.
Proof.
  intros Ht Hr. pose proof (items_sorted (target_json t) ltac:(vm_compute; reflexivity)) as Hi.
  pose proof (target_post_init_id _ _ Ht) as [_ Hpos].
  change (sort_keys (JDict ?d)) with (JDict (sorted_dict d)). unfold _target.
  rewrite exact_object_keys, bind_Ok_l by (by rewrite sorted_dict_keys).
  assert (read_target nfkd (sorted_dict (target_json t)) = Ok t) as ->.
  { unfold read_target. cbv zeta.
    repeat (read_item Hi; first [rewrite integer_read by (done || lia) | cbn [_text]]; rewrite bind_Ok_l).
    by destruct t. }
  cbn [rewrap_foreign]. rewrite bind_Ok_l.
  erewrite differs_Ok; [done|reflexivity|apply target_canonical|].
  symmetry. apply (py_norm_sort (JDict (target_json t))). by eapply json_ok_nodup, target_json_ok.
Qed.

Lemma target_Ok v t : _target nfkd v = Ok t → CancellationTarget_post_init nfkd t = Ok t.
Proof.
  unfold _target. intros H. apply bind_Ok in H as (item & _ & H). apply bind_Ok in H as (q & Hq & H). inv_ok.
  subst q. apply rewrap_foreign_Ok in Hq. unfold read_target in Hq. inv_ok.
  pose proof (target_post_init_id _ _ Hq) as [-> _]. exact Hq.
Qed.

(** * What the command's constructor binds *)
Record cancel_bound (c : CancelPaymentLinkCommand) : Prop := {
  cancel_type : action_type (proposal c) = CANCEL_PAYMENT_LINK;
  cancel_instrument : instrument_reference (proposal c) = Some (target_link_id (target c));
  cancel_merchant : proposal_merchant_id (proposal c) = target_merchant_id (target c);
  cancel_case : proposal_case_id (proposal c) = target_case_id (target c);
  cancel_key : action_key (proposal c) = Ok (target_action_key (target c));
  cancel_stage : stage (prior_plan c) = POLICY;
  cancel_allowed : reasons (prior_plan c) = [];
  cancel_plan_id : decision_proposal_id (prior_plan c) = proposal_id (proposal c);
  cancel_plan_key : decision_action_key (prior_plan c) = target_action_key (target c);
  cancel_plan_digest : proposal_digest (proposal c) = Ok (decision_proposal_digest (prior_plan c));
  cancel_plan_case : decision_case_id (prior_plan c) = proposal_case_id (proposal c);
  cancel_plan_version : decision_version (prior_plan c) = proposal_decision_version (proposal c)
}.

Lemma cancel_init_Ok c c' : CancelPaymentLinkCommand_post_init c = Ok c' → c' = c ∧ cancel_bound c.
Proof.
  unfold CancelPaymentLinkCommand_post_init, allowed. intros H. inv_ok. bools.
  repeat match goal with E : ¬ (_ ≠ _) |- _ => apply dec_stable in E end. subst.
  split; [done|]. split; try done; congruence.
Qed.

(** What holds of a cancellation the service builds. *)
Record cancel_encodable (c : CancelPaymentLinkCommand) : Prop := {
  cancel_init : CancelPaymentLinkCommand_post_init c = Ok c;
  cancel_target : CancellationTarget_post_init nfkd (target c) = Ok (target c);
  cancel_proposal : ActionProposal_valid (proposal c);
  cancel_confidence : ∀ p, model_confidence (proposal c) = Some p → canonical_probability p;
  cancel_policy : is_identifier (decision_policy_version (prior_plan c)) = true;
  cancel_aggregate : 0 <= decision_aggregate_version (prior_plan c);
  cancel_evaluated : stored (decision_evaluated_at (prior_plan c)) = true
}.

Definition cancel_json (c : CancelPaymentLinkCommand) : list (pystr * json) :=
  [($"prior_plan", JDict (plan_json (prior_plan c)));
   ($"proposal", JDict (proposal_json (proposal c) (target_action_key (target c))));
   ($"target", JDict (target_json (target c)))].

Definition unsigned_cancel (c : CancelPaymentLinkCommand) (bindings : list (string * pystr)) :
    list (pystr * json) :=
  [($"bindings", JDict (bindings_json bindings));
   ($"command", JDict (cancel_json c));
   ($"command_type", JStr CANCEL_PAYMENT_LINK_COMMAND_TYPE);
   ($"schema", JStr CANCEL_PAYMENT_LINK_COMMAND_SCHEMA);
   ($"version", JInt COMMAND_SCHEMA_VERSION)].

Lemma cancel_bindings_ok c b : _bindings c = Ok b → b.*1 = _BINDING_FIELDS ∧ bindings_ok b = true.
Proof.
  unfold _bindings, command_payload_digest, decision_digest, proposal_digest, target_digest.
  intros H. inv_ok. subst. split; [done|]. cbn.
  apply action_key_Ok in Hr as (h & -> & Hh).
  repeat match goal with E : sha256_hexdigest _ = Ok _ |- _ => apply sha256_hexdigest_digest in E end.
  rewrite ascii_act_key by done.
  repeat match goal with E : is_digest ?d = true |- _ => rewrite ?E, ?(is_digest_ascii d E); clear E end.
  done.
Qed.

Section encoded.
Context (c : CancelPaymentLinkCommand) (Hc : cancel_encodable c).

Lemma cancel_is_bound : cancel_bound c.
Proof using Hc. by destruct (cancel_init_Ok _ _ (cancel_init c Hc)). Qed.

Lemma unsigned_cancel_Ok u :
  _unsigned_envelope c = Ok u → ∃ b, _bindings c = Ok b ∧ u = unsigned_cancel c b.
Proof using Hc.
  unfold _unsigned_envelope. intros H. inv_ok. exists r. split; [done|].
  destruct (plan_canonical (prior_plan c)) as (prim & Hprim & Hcan); [apply Hc|].
  destruct (proposal_canonical (proposal c) (target_action_key (target c))) as (prim' & Hprim' & Hcan');
    [apply cancel_is_bound|apply Hc..|].
  rewrite target_canonical in Hr2. injection Hr2 as <-.
  rewrite Hprim in Hr4. injection Hr4 as <-. rewrite Hcan in Hr0. injection Hr0 as <-.
  rewrite Hprim' in Hr3. injection Hr3 as <-. rewrite Hcan' in Hr1. injection Hr1 as <-. by subst u.
Qed.

Context (b : list (string * pystr)) (Hbind : _bindings c = Ok b).
Context (Hwalk : walkable 0 (JDict (unsigned_cancel c b)) = true).

Lemma cancel_walkable : walkable 1 (JDict (cancel_json c)) = true.
Proof using Hwalk. eapply (walkable_item 0 _ "command"); [exact Hwalk|]. solve_item. Qed.

Lemma cancel_proposal_range : proposal_in_range (proposal c).
Proof using Hwalk.
  apply (proposal_walkable 2 _ (target_action_key (target c))).
  eapply (walkable_item 1 _ "proposal"); [apply cancel_walkable|]. solve_item.
Qed.

Lemma cancel_target_range : in_64 (target_amount_minor (target c)).
Proof using Hwalk.
  eapply (walkable_int 3), (walkable_item 2 _ "amount_minor").
  - eapply (walkable_item 1 _ "target"); [apply cancel_walkable|]. solve_item.
  - solve_item.
Qed.

Lemma cancel_plan_ready : plan_readable (prior_plan c).
Proof using Hc Hwalk.
  assert (Hplan : walkable 2 (JDict (plan_json (prior_plan c))) = true)
    by (eapply (walkable_item 1 _ "prior_plan"); [apply cancel_walkable|]; solve_item).
  assert (Hv : in_64 (decision_version (prior_plan c))).
  { eapply (walkable_int 3), (walkable_item 2 _ "decision_version"); [exact Hplan|]. solve_item. }
  assert (Ha : in_64 (decision_aggregate_version (prior_plan c))).
  { eapply (walkable_int 3), (walkable_item 2 _ "aggregate_version"); [exact Hplan|]. solve_item. }
  destruct cancel_is_bound. destruct (valid_facts _ (cancel_proposal _ Hc)).
  split; try apply Hc; rewrite ?cancel_plan_id0, ?cancel_plan_case0, ?cancel_allowed0, ?cancel_plan_key0; try done.
  - destruct (action_key_Ok _ _ cancel_key0) as (h & -> & Hh%digest_str_ok).
    apply Forall_app. split; [apply lit_ok|done].
  - unfold proposal_digest in *. inv_ok. by eapply sha256_hexdigest_digest.
  - by rewrite cancel_plan_version0 in *.
  - split; [apply Hc|done].
  - constructor.
Qed.

Lemma cancel_json_ok : json_ok (JDict (cancel_json c)).
Proof using Hc Hwalk.
  apply json_ok_dict. split; [decide_closed|].
  repeat (apply Forall_cons_2; [split; [apply lit_ok|cbn [snd]]|]); try apply Forall_nil_2.
  - apply plan_json_ok, cancel_plan_ready.
  - apply proposal_json_ok; [apply Hc|apply cancel_is_bound].
  - eapply target_json_ok. apply Hc.
Qed.

Lemma cancel_is_envelope : unsigned_envelope cancel_kind (unsigned_cancel c b).
Proof using Hc Hwalk Hbind.
  split; [|done|solve_item|solve_item|solve_item].
  destruct (cancel_bindings_ok c b Hbind) as [Hkeys Hok].
  apply json_ok_dict. split; [decide_closed|].
  repeat (apply Forall_cons_2; [split; [apply lit_ok|cbn [snd]]|]); try apply Forall_nil_2.
  - apply bindings_json_ok; [|done]. rewrite Hkeys. decide_closed.
  - apply cancel_json_ok.
  - apply json_ok_str, lit_ok.
  - apply json_ok_str, lit_ok.
  - constructor.
Qed.

Lemma read_cancel_back env :
  signed (unsigned_cancel c b) = Ok env → read_cancel nfkd (sorted_dict env) = Ok c.
Proof using Hc Hwalk Hbind.
  intros Hs. pose proof (items_sorted (cancel_json c) ltac:(vm_compute; reflexivity)) as Hi.
  unfold read_cancel.
  rewrite (signed_item _ _ _ cancel_is_envelope Hs "command" (JDict (cancel_json c))), bind_Ok_l by solve_item.
  change (sort_keys (JDict ?d)) with (JDict (sorted_dict d)).
  rewrite exact_object_keys, bind_Ok_l by (by rewrite sorted_dict_keys).
  rewrite (Hi "proposal"%string _ ltac:(solve_item)), bind_Ok_l.
  rewrite proposal_read_back, bind_Ok_l; [|apply Hc|apply cancel_proposal_range|apply Hc|apply cancel_is_bound].
  rewrite (Hi "prior_plan"%string _ ltac:(solve_item)), bind_Ok_l.
  rewrite plan_read_back, bind_Ok_l by apply cancel_plan_ready.
  rewrite (Hi "target"%string _ ltac:(solve_item)), bind_Ok_l.
  rewrite target_read_back, bind_Ok_l; [|apply Hc|apply cancel_target_range].
  assert (mkCancelCommand (proposal c) (prior_plan c) (target c) = c) as -> by (by destruct c).
  by rewrite (cancel_init c Hc).
Qed.

Lemma decode_encoded_cancel nesting_limit env :
  signed (unsigned_cancel c b) = Ok env →
  decode_cancel_payment_link_command nfkd nesting_limit (jsonb env)
    CANCEL_PAYMENT_LINK_COMMAND_TYPE COMMAND_SCHEMA_VERSION = Ok c.
Proof using Hc Hwalk Hbind.
  intros Hs. destruct (cancel_bindings_ok c b Hbind) as [Hkeys Hok].
  unfold decode_cancel_payment_link_command.
  change CANCEL_PAYMENT_LINK_COMMAND_TYPE with (kind_type cancel_kind).
  rewrite (open_signed cancel_kind _ env cancel_is_envelope Hs), bind_Ok_l, (read_cancel_back env Hs), bind_Ok_l, Hbind.
  assert (encode_cancel_payment_link_command c = Ok env) as ->.
  { unfold encode_cancel_payment_link_command, _unsigned_envelope. rewrite Hbind, bind_Ok_l.
    destruct (plan_canonical (prior_plan c)) as (prim & -> & Hcan); [apply Hc|].
    destruct (proposal_canonical (proposal c) (target_action_key (target c))) as (prim' & -> & Hcan');
      [apply cancel_is_bound|apply Hc..|].
    by rewrite target_canonical, !bind_Ok_l, Hcan, Hcan', !bind_Ok_l. }
  rewrite (close_signed cancel_kind _ env cancel_is_envelope Hs _BINDING_FIELDS b); [done| | |done|solve_item].
  - by rewrite Hkeys.
  - rewrite Hkeys. decide_closed.
Qed.
End encoded.

(** * Failures *)
Lemma handled_identifier_or m v : handled (identifier_or m v).
Proof. unfold identifier_or. handle. Qed.
#[local] Hint Resolve handled_identifier_or : handled.

Lemma handled_cancel_reference case account : handled (make_recovery_reference_id nfkd case account).
Proof. intros e H%reference_errors. by destruct e. Qed.

Lemma handled_target v : handled (_target nfkd v).
Proof.
  unfold _target. handle.
  - unfold read_target, CancellationTarget_post_init, _require_text. cbv zeta. handle. apply handled_cancel_reference.
  - apply handled_differs; [handle|]. by intros j [= <-].
Qed.
End theory.

Lemma read_cancel_Ok nfkd envelope c :
  read_cancel nfkd envelope = Ok c →
  CancelPaymentLinkCommand_post_init c = Ok c
  ∧ (∃ v, _proposal v = Ok (proposal c)) ∧ (∃ v, _prior_plan v = Ok (prior_plan c))
  ∧ CancellationTarget_post_init nfkd (target c) = Ok (target c).
Proof.
  unfold read_cancel. intros H.
  do 3 (apply bind_Ok in H as (? & _ & H)). apply bind_Ok in H as (p & Hp & H).
  apply bind_Ok in H as (? & _ & H). apply bind_Ok in H as (plan & Hplan & H).
  apply bind_Ok in H as (? & _ & H). apply bind_Ok in H as (t & Ht & H). apply rewrap_Ok in H.
  pose proof (cancel_init_Ok _ _ H) as [-> _]. cbn. split_and!; eauto using target_Ok.
Qed.

Section failures.
Context (nfkd : pystr → pystr) (c : CancelPaymentLinkCommand).
Context (Hp : ActionProposal_valid (proposal c)) (Hplan : stored (decision_evaluated_at (prior_plan c)) = true).

Lemma handled_cancel_proposal_digest : handled (proposal_digest (proposal c)).
Proof using Hp.
  unfold proposal_digest. handle; [|by eapply handled_hexdigest, proposal_no_datetime].
  apply handled_proposal_primitive; apply stored_utc, Hp.
Qed.

Lemma handled_cancel_decision_digest : handled (decision_digest (prior_plan c)).
Proof using Hplan.
  unfold decision_digest. handle; [|by eapply handled_hexdigest, plan_no_datetime].
  by apply handled_plan_primitive, stored_utc.
Qed.

Lemma handled_cancel_bindings : handled (_bindings c).
Proof using Hp Hplan.
  unfold _bindings, command_payload_digest, target_digest.
  handle; first [apply handled_cancel_proposal_digest|apply handled_cancel_decision_digest].
Qed.

Lemma handled_cancel_encode : handled (encode_cancel_payment_link_command c).
Proof using Hp Hplan.
  unfold encode_cancel_payment_link_command, _unsigned_envelope. handle;
    first [apply handled_cancel_bindings|apply handled_signed|idtac].
  - by apply handled_plan_primitive, stored_utc.
  - by eapply handled_canonical, plan_no_datetime.
  - apply handled_proposal_primitive; apply stored_utc, Hp.
  - by eapply handled_canonical, proposal_no_datetime.
Qed.
End failures.

Lemma handled_cancel_init p plan t :
  ActionProposal_valid p → handled (CancelPaymentLinkCommand_post_init (mkCancelCommand p plan t)).
Proof.
  intros Hp. unfold CancelPaymentLinkCommand_post_init. cbv zeta. cbn [proposal prior_plan target]. handle.
  by apply (handled_cancel_proposal_digest (mkCancelCommand p plan t)).
Qed.

(** * Properties *)

(** a cancellation that its constructor accepts and the encoder writes is
    read back as that cancellation. *)
Theorem cancel_command_round_trip nfkd nesting_limit c env :
  cancel_encodable nfkd c → encode_cancel_payment_link_command c = Ok env →
  decode_cancel_payment_link_command nfkd nesting_limit (jsonb env)
    CANCEL_PAYMENT_LINK_COMMAND_TYPE COMMAND_SCHEMA_VERSION = Ok c.
Proof.
  intros Hc Henc. unfold encode_cancel_payment_link_command in Henc. apply bind_Ok in Henc as (u & Hu & Hs).
  destruct (unsigned_cancel_Ok nfkd c Hc u Hu) as (b & Hbind & ->).
  apply (decode_encoded_cancel nfkd c Hc b Hbind); [|done].
  destruct (signed_shape _ _ Hs) as (bs & Hbs & _ & _).
  unfold bounded_bytes in Hbs. apply bounded_canonical_Ok in Hbs as (_ & _ & [n Hn]%is_ok_true).
  by apply walk_Ok in Hn.
Qed.

(** whatever the payload, the decoder raises what the worker's except
    clause handles, or returns a cancellation of the payload's only canonical
    form, bound to its proposal, its allowed plan and its target. *)
Theorem cancel_decoder_contract nfkd nesting_limit payload type version :
  match decode_cancel_payment_link_command nfkd nesting_limit payload type version with
  | Ok c =>
      cancel_bound c ∧ ActionProposal_valid (proposal c)
      ∧ CancellationTarget_post_init nfkd (target c) = Ok (target c)
      ∧ type = CANCEL_PAYMENT_LINK_COMMAND_TYPE ∧ version = COMMAND_SCHEMA_VERSION
      ∧ ∃ bs, encode_cancel_payment_link_command_json c = Ok bs ∧ payload_bytes payload = Ok bs
              ∧ Z.of_nat (length bs) <= MAX_EFFECT_COMMAND_BYTES
  | Raise e => type_or_value_error e = true
  end.
Proof.
  destruct (decode_cancel_payment_link_command _ _ _ _ _) as [c|e] eqn:H.
  - unfold decode_cancel_payment_link_command in H. inv_ok. subst. destruct r1.
    destruct (read_cancel_Ok _ _ _ Hr0) as (Hi & (v & Hp) & _ & Ht). apply cancel_init_Ok in Hi as [_ Hb].
    split; [done|]. split; [by eapply decoded_proposal|]. split; [done|].
    pose proof (open_Ok _ _ _ _ _ _ Hr) as (-> & -> & _). split; [done|]. split; [done|].
    destruct (accepted_bytes _ _ _ _ _ _ _ _ _ Hr Hr1) as (env & bs & Henc & Hpb & Hbs).
    exists bs. unfold encode_cancel_payment_link_command_json. rewrite Henc, bind_Ok_l.
    split; [done|]. split; [done|]. by apply bounded_canonical_Ok in Hbs as (_ & ? & _).
  - revert e H. change (handled (decode_cancel_payment_link_command nfkd nesting_limit payload type version)).
    unfold decode_cancel_payment_link_command.
    apply handled_bind; [apply handled_open|intros envelope Ho]. apply handled_bind.
    { assert (handled (item_of envelope "command")) as Hitem.
      { unfold open_envelope in Ho. inv_ok. subst. by eapply handled_field. }
      unfold read_cancel. handle; first [apply handled_target|idtac].
      match goal with E : _proposal _ = Ok _ |- _ => apply decoded_proposal in E as [? _] end.
      by apply handled_cancel_init. }
    intros c Hread. destruct (read_cancel_Ok _ _ _ Hread) as (_ & (v & [Hp _]%decoded_proposal) & (w & (Hs & _ & _)%decoded_plan) & _).
    apply handled_bind; [|intros _ _; handle].
    eapply handled_close; [exact Ho|by apply handled_cancel_bindings| |by apply handled_cancel_encode].
    intros b Hb. by apply cancel_bindings_ok in Hb as [-> _].
Qed.

(** * Witnesses *)
Lemma sample_cancel_proposal_valid : ActionProposal_valid sample_cancel_proposal.
Proof. split; [reflexivity..| |]; intros ? [=]. Qed.

Lemma sample_cancel_encodable : cancel_encodable id sample_cancel.
Proof.
  split.
  - vm_compute. reflexivity.
  - vm_compute. reflexivity.
  - apply sample_cancel_proposal_valid.
  - intros p [=].
  - vm_compute. reflexivity.
  - vm_compute. discriminate.
  - vm_compute. reflexivity.
Qed.

Definition sample_cancel_envelope : list (pystr * json) :=
  or_else_default [] (encode_cancel_payment_link_command sample_cancel).

Lemma or_else_default_Ok {A} (d : A) r : is_ok r = true → r = Ok (or_else_default d r).
Proof. by destruct r. Qed.

Lemma sample_cancel_encodes : encode_cancel_payment_link_command sample_cancel = Ok sample_cancel_envelope.
Proof. apply or_else_default_Ok. vm_compute. reflexivity. Qed.

Lemma cancel_command_round_trip_witness :
  decode_cancel_payment_link_command id 100 (jsonb sample_cancel_envelope)
    CANCEL_PAYMENT_LINK_COMMAND_TYPE COMMAND_SCHEMA_VERSION = Ok sample_cancel.
Proof.
  apply (cancel_command_round_trip id 100 sample_cancel sample_cancel_envelope).
  - apply sample_cancel_encodable.
  - apply sample_cancel_encodes.
Defined.
