(* ===== verification/PgOutbox.v ===== *)
(** [services/control_plane/postgres_outbox.py]: the durable outbox.  The table
    [retrywise.outbox_jobs] with its CHECK constraints and its triggers
    ([infrastructure/postgres/migrations/001_initial.sql] and
    [002_fenced_outbox_delivery.sql]), the four statements of the repository
    over it, and the repository's methods.  A statement reads one clock value
    ([clock_timestamp()] in a materialised CTE) and is atomic: it locks the rows
    it changes, and commits or leaves the table as it was. *)
From stdpp Require Import sorting relations.
From S2P Require Import Prelude PyStr PyTime Json Text Outbox.

(** * The table *)
(** [retrywise.outbox_status]. *)
Inductive RowStatus :=
  | ST_PENDING | ST_IN_PROGRESS | ST_RETRY_SCHEDULED | ST_SUCCEEDED | ST_DEAD_LETTER | ST_CANCELLED.

#[export] Instance RowStatus_eq_dec : EqDecision RowStatus.
Proof. solve_decision. Defined.

(** A [timestamptz] is its number of microseconds, a nullable column an option. *)
Record OutboxRow := mkOutboxRow {
  row_id : pystr;
  row_merchant_id : pystr;
  row_aggregate_type : pystr;
  row_aggregate_id : pystr;
  row_command_type : pystr;
  row_command_schema_version : Z;
  row_command_payload : json;
  row_idempotency_key : pystr;
  row_status : RowStatus;
  row_attempt_count : Z;
  row_max_attempts : Z;
  row_next_attempt_at : Z;
  row_lease_owner : option pystr;
  row_lease_token : option pystr;
  row_lease_expires_at : option Z;
  row_retry_mode : RetryMode;
  row_delivery_version : Z;
  row_last_error_code : option pystr;
  row_last_error_at : option Z;
  row_dead_lettered_at : option Z;
  row_dead_letter_reason : option pystr;
  row_completed_at : option Z;
  row_completion_reference : option pystr;
  row_created_at : Z;
  row_updated_at : Z
}.

Abbreviation table := (gmap pystr OutboxRow) (only parsing).

Definition in_progress (r : OutboxRow) : bool := bool_decide (row_status r = ST_IN_PROGRESS).
Definition waiting_row (r : OutboxRow) : bool :=
  bool_decide (row_status r = ST_PENDING) || bool_decide (row_status r = ST_RETRY_SCHEDULED).
Definition terminal_row (r : OutboxRow) : bool :=
  match row_status r with ST_SUCCEEDED | ST_DEAD_LETTER | ST_CANCELLED => true | _ => false end.

(** [length(btrim(x)) BETWEEN low AND high]. *)
Definition btrim_between (low high : Z) (x : pystr) : bool := between low high (str_len (btrim x)).
Definition when_not_null {A} (p : A → bool) (o : option A) : bool :=
  match o with Some a => p a | None => false end.

(** The domain [retrywise.ulid]. *)
Definition is_ulid (s : pystr) : bool :=
  (str_len s =? 26)
  && forallb (λ c, is_digit c || between 65 72 c || between 74 75 c || between 77 78 c
                   || between 80 84 c || between 86 90 c) s.

Definition max_int4 : Z := 2147483647.
Definition max_int8 : Z := 9223372036854775807.

(** Column types and the CHECK constraints that involve one column. *)
Definition column_constraints (r : OutboxRow) : bool :=
  is_ulid (row_id r) && is_ulid (row_merchant_id r)
  && btrim_between 1 100 (row_aggregate_type r) && btrim_between 1 200 (row_aggregate_id r)
  && btrim_between 1 100 (row_command_type r)
  && between 1 max_int4 (row_command_schema_version r)
  && match row_command_payload r with JDict _ => true | _ => false end
  && btrim_between 1 300 (row_idempotency_key r)
  && between 0 max_int4 (row_attempt_count r) && between 1 max_int4 (row_max_attempts r)
  && between 0 max_int8 (row_delivery_version r).

(** [outbox_jobs_lease_ck]. *)
Definition lease_constraint (r : OutboxRow) : bool :=
  if in_progress r then
    when_not_null (btrim_between 1 128) (row_lease_owner r)
    && when_not_null (btrim_between 1 200) (row_lease_token r)
    && bool_decide (row_lease_expires_at r ≠ None)
  else
    bool_decide (row_lease_owner r = None) && bool_decide (row_lease_token r = None)
    && bool_decide (row_lease_expires_at r = None).

(** [outbox_jobs_dead_letter_ck]. *)
Definition dead_letter_constraint (r : OutboxRow) : bool :=
  if decide (row_status r = ST_DEAD_LETTER) then
    bool_decide (row_dead_lettered_at r ≠ None)
    && when_not_null (λ s, 0 <? str_len (btrim s)) (row_dead_letter_reason r)
  else bool_decide (row_dead_lettered_at r = None) && bool_decide (row_dead_letter_reason r = None).

(** [outbox_jobs_completion_ck]. *)
Definition completion_constraint (r : OutboxRow) : bool :=
  if decide (row_status r = ST_SUCCEEDED ∨ row_status r = ST_CANCELLED)
  then bool_decide (row_completed_at r ≠ None) else bool_decide (row_completed_at r = None).

(** [outbox_jobs_completion_reference_ck]. *)
Definition completion_reference_constraint (r : OutboxRow) : bool :=
  if decide (row_status r = ST_SUCCEEDED) then
    if row_delivery_version r =? 0 then bool_decide (row_completion_reference r = None)
    else when_not_null (btrim_between 1 500) (row_completion_reference r)
  else bool_decide (row_completion_reference r = None).

Definition row_constraints (r : OutboxRow) : bool :=
  column_constraints r && (row_attempt_count r <=? row_max_attempts r) && lease_constraint r
  && dead_letter_constraint r && completion_constraint r && completion_reference_constraint r
  && (row_created_at r <=? row_updated_at r).

(** * The lifecycle trigger *)
(** The columns of the command identity. *)
Definition row_identity (r : OutboxRow) :=
  (row_id r, row_merchant_id r, row_aggregate_type r, row_aggregate_id r, row_command_type r,
   row_command_schema_version r, row_command_payload r, row_idempotency_key r, row_max_attempts r,
   row_created_at r).

(** The disjunction [allowed] of [enforce_outbox_lifecycle]. *)
Definition transition_allowed (old new : OutboxRow) : bool :=
  (waiting_row old && in_progress new && (row_attempt_count new =? row_attempt_count old + 1))
  || (in_progress old && in_progress new
      && when_not_null (λ e, e <=? row_updated_at new) (row_lease_expires_at old)
      && (row_attempt_count new =? row_attempt_count old + 1)
      && bool_decide (row_retry_mode new = RECONCILE_ONLY)
      && bool_decide (row_lease_token new ≠ row_lease_token old))
  || (in_progress old
      && match row_status new with
         | ST_SUCCEEDED | ST_RETRY_SCHEDULED | ST_DEAD_LETTER | ST_CANCELLED => true | _ => false end
      && (row_attempt_count new =? row_attempt_count old))
  || (waiting_row old
      && match row_status new with ST_CANCELLED | ST_DEAD_LETTER => true | _ => false end
      && (row_attempt_count new =? row_attempt_count old)).

(** [enforce_outbox_lifecycle] on INSERT and on UPDATE. *)
Definition insert_lifecycle (new : OutboxRow) : result unit :=
  raise_if (bool_decide (row_status new ≠ ST_PENDING) || negb (row_attempt_count new =? 0)
            || negb (row_delivery_version new =? 0) || bool_decide (row_retry_mode new ≠ NORMAL_RETRY))
    (DatabaseError "outbox jobs must start PENDING at attempt/version zero in NORMAL mode").

Definition update_lifecycle (old new : OutboxRow) : result unit :=
  _ ← raise_if (bool_decide (row_identity new ≠ row_identity old))
        (DatabaseError "outbox command identity and payload are immutable");
  _ ← raise_if (terminal_row old) (DatabaseError "terminal outbox delivery evidence is immutable");
  _ ← raise_if (negb (row_delivery_version new =? row_delivery_version old + 1))
        (DatabaseError "outbox delivery_version must increase by exactly one");
  _ ← raise_if (row_updated_at new <? row_updated_at old)
        (DatabaseError "outbox updated_at cannot move backwards");
  _ ← raise_if ((row_attempt_count new <? row_attempt_count old)
                || (row_attempt_count old + 1 <? row_attempt_count new))
        (DatabaseError "outbox attempt_count must stay fixed or increase by one");
  raise_if (negb (transition_allowed old new)) (DatabaseError "invalid fenced outbox transition").

(** Replace the columns a statement or a trigger sets. *)
Definition set_delivery (r : OutboxRow) (st : RowStatus) (attempts version : Z)
    (owner token : option pystr) (expires : option Z) (mode : RetryMode) : OutboxRow :=
  mkOutboxRow (row_id r) (row_merchant_id r) (row_aggregate_type r) (row_aggregate_id r)
    (row_command_type r) (row_command_schema_version r) (row_command_payload r)
    (row_idempotency_key r) st attempts (row_max_attempts r) (row_next_attempt_at r) owner token
    expires mode version (row_last_error_code r) (row_last_error_at r) (row_dead_lettered_at r)
    (row_dead_letter_reason r) (row_completed_at r) (row_completion_reference r) (row_created_at r)
    (row_updated_at r).
Definition set_evidence (r : OutboxRow) (next : Z) (error : option pystr) (error_at dead : option Z)
    (reason : option pystr) (completed : option Z) (reference : option pystr) (updated : Z) : OutboxRow :=
  mkOutboxRow (row_id r) (row_merchant_id r) (row_aggregate_type r) (row_aggregate_id r)
    (row_command_type r) (row_command_schema_version r) (row_command_payload r)
    (row_idempotency_key r) (row_status r) (row_attempt_count r) (row_max_attempts r) next
    (row_lease_owner r) (row_lease_token r) (row_lease_expires_at r) (row_retry_mode r)
    (row_delivery_version r) error error_at dead reason completed reference (row_created_at r) updated.

(** [set_updated_at]: the second trigger stamps the row with its own reading of
    the clock. *)
Definition set_updated_at (r : OutboxRow) (stamp : Z) : OutboxRow :=
  set_evidence r (row_next_attempt_at r) (row_last_error_code r) (row_last_error_at r)
    (row_dead_lettered_at r) (row_dead_letter_reason r) (row_completed_at r)
    (row_completion_reference r) stamp.

(** One row of an UPDATE: the lifecycle trigger, the stamp, the constraints. *)
Definition write_row (stamp : Z) (old new : OutboxRow) : result OutboxRow :=
  _ ← update_lifecycle old new;
  let new := set_updated_at new stamp in
  _ ← raise_if (negb (row_constraints new)) (DatabaseError "check constraint violated");
  Ok new.

(** * Statements *)
(** What a statement finds: its reading of the clock, the stamp the trigger gives
    each row, the rows other transactions hold locked, and how the connection
    fares: it may fail before anything happened, or after the commit. *)
Inductive fault := NoFault | FailsBefore (e : py_error) | ReplyLost (e : py_error).

Record Session := mkSession {
  now : Z;
  stamps : pystr → Z;
  locked : list pystr;
  connection : fault
}.

Definition transaction {A} (s : Session) (statement : table → result (table * A)) (t : table) :
    table * result A :=
  match connection s with
  | FailsBefore e => (t, Raise e)
  | fate =>
      match statement t with
      | Raise e => (t, Raise e)
      | Ok (t', a) => (t', match fate with ReplyLost e => Raise e | _ => Ok a end)
      end
  end.

(** ** [_CLAIM_BATCH] *)
Definition due (at_ : Z) (r : OutboxRow) : bool :=
  (waiting_row r && (row_next_attempt_at r <=? at_))
  || (in_progress r && when_not_null (λ e, e <=? at_) (row_lease_expires_at r)).

(** [ORDER BY CASE ... END, j.id]. *)
Definition due_at (r : OutboxRow) : Z :=
  if in_progress r then default 0 (row_lease_expires_at r) else row_next_attempt_at r.
Definition id_before (r r' : OutboxRow) : Prop := str_ltb (row_id r') (row_id r) = false.
Definition claim_before (r r' : OutboxRow) : Prop :=
  due_at r < due_at r' ∨ due_at r = due_at r' ∧ id_before r r'.

#[export] Instance id_before_dec : RelDecision id_before.
Proof. intros r r'. unfold id_before. apply _. Defined.
#[export] Instance claim_before_dec : RelDecision claim_before.
Proof. intros r r'. unfold claim_before. apply _. Defined.

Definition claimable (s : Session) (r : OutboxRow) : Prop :=
  due (now s) r = true ∧ row_id r ∉ locked s.
#[export] Instance claimable_dec s r : Decision (claimable s r).
Proof. unfold claimable. apply _. Defined.

Definition candidates (s : Session) (batch_size : Z) (t : table) : list OutboxRow :=
  take (Z.to_nat batch_size)
    (merge_sort claim_before (filter (claimable s) (map snd (map_to_list t)))).

(** The SET clause of [mutated]. *)
Definition claim_row (at_ : Z) (worker nonce : pystr) (lease_duration : timedelta) (r : OutboxRow) :
    OutboxRow :=
  let exhausted := row_max_attempts r <=? row_attempt_count r in
  let version := row_delivery_version r + 1 in
  let unless_exhausted {A} (a : A) := if exhausted then None else Some a in
  let leased :=
    set_delivery r (if exhausted then ST_DEAD_LETTER else ST_IN_PROGRESS)
      (if exhausted then row_attempt_count r else row_attempt_count r + 1) version
      (unless_exhausted worker)
      (unless_exhausted (nonce ++ $":" ++ row_id r ++ $":" ++ str_of_Z version))
      (unless_exhausted (at_ + lease_duration))
      (if exhausted || in_progress r then RECONCILE_ONLY else row_retry_mode r) in
  set_evidence leased (row_next_attempt_at r)
    (if exhausted then Some ($"max_attempts_exhausted_before_claim") else row_last_error_code r)
    (if exhausted then Some at_ else row_last_error_at r)
    (if exhausted then Some at_ else None)
    (if exhausted then Some ($"max_attempts_exhausted_before_claim") else None)
    (row_completed_at r) (row_completion_reference r) at_.

(** Update the rows one after the other; a refused row aborts the statement. *)
Fixpoint update_rows (stamp : pystr → Z) (f : OutboxRow → OutboxRow) (rows : list OutboxRow)
    (t : table) : result (table * list OutboxRow) :=
  match rows with
  | [] => Ok (t, [])
  | r :: rows =>
      new ← write_row (stamp (row_id r)) r (f r);
      res ← update_rows stamp f rows (<[row_id r := new]> t);
      Ok (fst res, new :: snd res)
  end.

Definition claim_statement (s : Session) (worker nonce : pystr) (batch_size : Z)
    (lease_duration : timedelta) (t : table) : result (table * list OutboxRow) :=
  res ← update_rows (stamps s) (claim_row (now s) worker nonce lease_duration)
          (candidates s batch_size t) t;
  Ok (fst res, merge_sort id_before (snd res)).

(** ** Claimed commands *)
Record ClaimedOutboxCommand := mkClaimedOutboxCommand {
  cmd_job_id : pystr;
  cmd_merchant_id : pystr;
  cmd_aggregate_type : pystr;
  cmd_aggregate_id : pystr;
  cmd_command_type : pystr;
  cmd_command_schema_version : Z;
  cmd_command_payload : list (pystr * json);
  cmd_idempotency_key : pystr;
  cmd_attempt_count : Z;
  cmd_max_attempts : Z;
  cmd_worker_id : pystr;
  cmd_lease_token : pystr;
  cmd_lease_expires_at : datetime;
  cmd_delivery_version : Z;
  cmd_retry_mode : RetryMode;
  cmd_created_at : datetime;
  cmd_claimed_at : datetime
}.

Definition _clean_text (value : pystr) (field : string) (maximum : Z) : result pystr :=
  _ ← raise_if (negb (clean_text maximum value))
        (ValueError (field +:+ " must be clean, non-empty text"));
  Ok value.

Definition _internal_ulid (value : pystr) (field : string) : result pystr :=
  _ ← raise_if (negb (is_ulid value))
        (ValueError (field +:+ " must match the RetryWise ULID database domain"));
  Ok value.

Definition _utc (value : datetime) (field : string) : result datetime :=
  _ ← raise_if (negb (is_aware value)) (ValueError (field +:+ " must be a timezone-aware datetime"));
  astimezone_utc value.

Definition _positive_int (value : Z) (field : string) : result Z :=
  _ ← raise_if (value <? 1) (ValueError (field +:+ " must be a positive integer"));
  Ok value.

(** What a driver may hand over for a [jsonb] column. *)
Inductive payload_value := PayloadBytes (b : bytes) | PayloadText (s : pystr) | PayloadJson (j : json).

Definition _payload (value : payload_value) : result (list (pystr * json)) :=
  value ← match value with
          | PayloadBytes b =>
              match utf8_decode b with
              | Some s => Ok (PayloadText s) | None => Raise UnicodeDecodeError end
          | other => Ok other
          end;
  value ← match value with
          | PayloadText s =>
              match loads s with
              | Some j => Ok j
              | None => Raise (RuntimeError "outbox command_payload is not valid JSON")
              end
          | PayloadJson j => Ok j
          | PayloadBytes _ => Raise (RuntimeError "outbox command_payload must be a JSON object")
          end;
  match value with
  | JDict d => Ok d
  | _ => Raise (RuntimeError "outbox command_payload must be a JSON object")
  end.

Definition ClaimedOutboxCommand_post_init (c : ClaimedOutboxCommand) : result ClaimedOutboxCommand :=
  _ ← _internal_ulid (cmd_job_id c) "job_id";
  _ ← _internal_ulid (cmd_merchant_id c) "merchant_id";
  _ ← _clean_text (cmd_aggregate_type c) "aggregate_type" 100;
  _ ← _clean_text (cmd_aggregate_id c) "aggregate_id" 200;
  _ ← _clean_text (cmd_command_type c) "command_type" 100;
  _ ← _clean_text (cmd_idempotency_key c) "idempotency_key" 300;
  _ ← _clean_text (cmd_worker_id c) "worker_id" 128;
  _ ← _clean_text (cmd_lease_token c) "lease_token" 200;
  _ ← _positive_int (cmd_command_schema_version c) "command_schema_version";
  _ ← _positive_int (cmd_attempt_count c) "attempt_count";
  _ ← _positive_int (cmd_max_attempts c) "max_attempts";
  _ ← _positive_int (cmd_delivery_version c) "delivery_version";
  _ ← raise_if (cmd_max_attempts c <? cmd_attempt_count c)
        (ValueError "attempt_count cannot exceed max_attempts");
  payload ← _payload (PayloadJson (JDict (cmd_command_payload c)));
  created_at ← _utc (cmd_created_at c) "created_at";
  claimed_at ← _utc (cmd_claimed_at c) "claimed_at";
  lease_expires_at ← _utc (cmd_lease_expires_at c) "lease_expires_at";
  _ ← raise_if (dt_ltb claimed_at created_at) (ValueError "claimed_at cannot precede created_at");
  _ ← raise_if (dt_leb lease_expires_at claimed_at)
        (ValueError "lease_expires_at must be after claimed_at");
  Ok (mkClaimedOutboxCommand (cmd_job_id c) (cmd_merchant_id c) (cmd_aggregate_type c)
        (cmd_aggregate_id c) (cmd_command_type c) (cmd_command_schema_version c) payload
        (cmd_idempotency_key c) (cmd_attempt_count c) (cmd_max_attempts c) (cmd_worker_id c)
        (cmd_lease_token c) lease_expires_at (cmd_delivery_version c) (cmd_retry_mode c)
        created_at claimed_at).

(** A [timestamptz] read by the driver, in UTC. *)
Definition timestamp (us : Z) : datetime := utc us.

Definition _claimed_from_row (r : OutboxRow) : result ClaimedOutboxCommand :=
  _ ← raise_if (negb (in_progress r))
        (RuntimeError "only IN_PROGRESS rows can be converted to claimed commands");
  match row_lease_owner r, row_lease_token r, row_lease_expires_at r with
  | Some owner, Some token, Some expires =>
      payload ← _payload (PayloadJson (row_command_payload r));
      ClaimedOutboxCommand_post_init
        (mkClaimedOutboxCommand (row_id r) (row_merchant_id r) (row_aggregate_type r)
           (row_aggregate_id r) (row_command_type r) (row_command_schema_version r) payload
           (row_idempotency_key r) (row_attempt_count r) (row_max_attempts r) owner token
           (timestamp expires) (row_delivery_version r) (row_retry_mode r)
           (timestamp (row_created_at r)) (timestamp (row_updated_at r)))
  | Some _, Some _, None =>
      Raise (RuntimeError "outbox claim returned a non-datetime lease or audit field")
  | _, _, _ => Raise (RuntimeError "outbox claim returned a non-text command or lease field")
  end.

Record OutboxClaimBatch := mkOutboxClaimBatch {
  selected_count : Z;
  commands : list ClaimedOutboxCommand;
  expired_dead_lettered : Z
}.

Definition OutboxClaimBatch_post_init (b : OutboxClaimBatch) : result OutboxClaimBatch :=
  _ ← raise_if (selected_count b <? 0)
        (ValueError "selected_count must be a non-negative integer");
  _ ← raise_if (expired_dead_lettered b <? 0)
        (ValueError "expired_dead_lettered must be a non-negative integer");
  _ ← raise_if (negb (selected_count b =? Z.of_nat (length (commands b)) + expired_dead_lettered b))
        (ValueError "selected_count must account for every claimed or expired row");
  Ok b.

(** ** [claim_batch] *)
Definition check_claim (token_factory : result pystr) (worker_id : pystr) (batch_size : Z)
    (lease_duration : timedelta) : result pystr :=
  _ ← _clean_text worker_id "worker_id" 128;
  _ ← raise_if (negb (between 1 100 batch_size)) (ValueError "batch_size must be between 1 and 100");
  _ ← raise_if (lease_duration <=? 0) (ValueError "lease_duration must be a positive timedelta");
  _ ← raise_if (minutes 15 <? lease_duration)
        (ValueError "lease_duration must not exceed 15 minutes");
  nonce ← token_factory;
  _clean_text nonce "token_factory result" 96.

(** The loop over the returned rows: the claimed commands, and the number of
    rows closed without dispatch. *)
Fixpoint collect (rows : list OutboxRow) : result (list ClaimedOutboxCommand * Z) :=
  match rows with
  | [] => Ok ([], 0)
  | r :: rows =>
      match row_status r with
      | ST_DEAD_LETTER => res ← collect rows; Ok (fst res, snd res + 1)
      | ST_IN_PROGRESS =>
          c ← _claimed_from_row r;
          res ← collect rows;
          Ok (c :: fst res, snd res)
      | _ => Raise (RuntimeError "outbox claim returned unexpected status")
      end
  end.

Definition batch_of_rows (batch_size : Z) (rows : list OutboxRow) : result OutboxClaimBatch :=
  _ ← raise_if (batch_size <? Z.of_nat (length rows))
        (RuntimeError "outbox claim exceeded its requested batch bound");
  res ← collect rows;
  OutboxClaimBatch_post_init (mkOutboxClaimBatch (Z.of_nat (length rows)) (fst res) (snd res)).

Definition claim_batch (s : Session) (token_factory : result pystr) (worker_id : pystr)
    (batch_size : Z) (lease_duration : timedelta) (t : table) : table * result OutboxClaimBatch :=
  match check_claim token_factory worker_id batch_size lease_duration with
  | Raise e => (t, Raise e)
  | Ok nonce =>
      let res := transaction s (claim_statement s worker_id nonce batch_size lease_duration) t in
      (fst res, rows ← snd res; batch_of_rows batch_size rows)
  end.

(** * Settlement *)
(** The WHERE clause the three settlements share. *)
Definition fenced (at_ : Z) (c : ClaimedOutboxCommand) (r : OutboxRow) : bool :=
  bool_decide (row_merchant_id r = cmd_merchant_id c) && in_progress r
  && (row_delivery_version r =? cmd_delivery_version c)
  && bool_decide (row_lease_owner r = Some (cmd_worker_id c))
  && bool_decide (row_lease_token r = Some (cmd_lease_token c))
  && when_not_null (λ e, at_ <? e) (row_lease_expires_at r).

(** [UPDATE ... WHERE ... RETURNING delivery_version], [None] when no row
    matches. *)
Definition settle_statement (s : Session) (c : ClaimedOutboxCommand) (f : OutboxRow → OutboxRow)
    (t : table) : result (table * option Z) :=
  match t !! cmd_job_id c with
  | Some r =>
      if fenced (now s) c r then
        new ← write_row (stamps s (row_id r)) r (f r);
        Ok (<[cmd_job_id c := new]> t, Some (row_delivery_version new))
      else Ok (t, None)
  | None => Ok (t, None)
  end.

(** A settled row has no lease and the next version. *)
Definition settled_row (r : OutboxRow) (st : RowStatus) (mode : RetryMode) : OutboxRow :=
  set_delivery r st (row_attempt_count r) (row_delivery_version r + 1) None None None mode.

(** The SET clauses of [_COMPLETE], [_RETRY] and [_DEAD_LETTER]. *)
Definition complete_row (at_ : Z) (reference : pystr) (r : OutboxRow) : OutboxRow :=
  set_evidence (settled_row r ST_SUCCEEDED (row_retry_mode r)) (row_next_attempt_at r)
    (row_last_error_code r) (row_last_error_at r) (row_dead_lettered_at r)
    (row_dead_letter_reason r) (Some at_) (Some reference) at_.
Definition retry_row (at_ : Z) (delay : timedelta) (reason : pystr) (mode : RetryMode)
    (r : OutboxRow) : OutboxRow :=
  set_evidence (settled_row r ST_RETRY_SCHEDULED mode) (at_ + delay) (Some reason) (Some at_)
    (row_dead_lettered_at r) (row_dead_letter_reason r) (row_completed_at r)
    (row_completion_reference r) at_.
Definition dead_letter_row (at_ : Z) (reason : pystr) (r : OutboxRow) : OutboxRow :=
  set_evidence (settled_row r ST_DEAD_LETTER RECONCILE_ONLY) (row_next_attempt_at r) (Some reason)
    (Some at_) (Some at_) (Some reason) (row_completed_at r) (row_completion_reference r) at_.

Definition _one_column (operation : string) (row : option Z) : result Z :=
  match row with
  | None => Raise (OutboxFenceLost (operation +:+ " lost its fenced lease"))
  | Some v => Ok v
  end.

(** [_settle]: a lost fence raises inside the transaction, a wrong version after
    it. *)
Definition _settle (s : Session) (operation : string) (c : ClaimedOutboxCommand)
    (f : OutboxRow → OutboxRow) (t : table) : table * result Z :=
  let res :=
    transaction s
      (λ t, res ← settle_statement s c f t;
            version ← _one_column operation (snd res);
            Ok (fst res, version)) t in
  (fst res,
   version ← snd res;
   _ ← raise_if (negb (version =? cmd_delivery_version c + 1))
         (RuntimeError (operation +:+ " returned an invalid delivery version"));
   Ok version).

(** A method that first checks its arguments. *)
Definition checked {A B} (check : result A) (k : A → table → table * result B) (t : table) :
    table * result B :=
  match check with Raise e => (t, Raise e) | Ok a => k a t end.

Definition _prefixed_reason (prefix reason : pystr) : result pystr :=
  let available := 500 - str_len prefix - 1 in
  _ ← raise_if (available <? 1)
        (AssertionError "internal reason prefix exceeds its storage boundary");
  Ok (prefix ++ $":" ++ take (Z.to_nat available) reason).

Definition complete (s : Session) (c : ClaimedOutboxCommand) (reference : pystr) :
    table → table * result Z :=
  checked (_clean_text reference "completion_reference" 500)
    (λ _, _settle s "complete" c (complete_row (now s) reference)).

Definition dead_letter (s : Session) (c : ClaimedOutboxCommand) (reason : pystr) :
    table → table * result Z :=
  checked (_clean_text reason "reason" 500)
    (λ _, _settle s "dead_letter" c (dead_letter_row (now s) reason)).

Definition retry (backoff : BackoffPolicy) (s : Session) (c : ClaimedOutboxCommand)
    (reason : pystr) (mode : RetryMode) : table → table * result Z :=
  checked (_clean_text reason "reason" 500) (λ _,
    if cmd_max_attempts c <=? cmd_attempt_count c then
      checked (_prefixed_reason ($"max_attempts_exhausted") reason) (dead_letter s c)
    else
      checked (delay_after backoff (cmd_attempt_count c)) (λ delay,
        _settle s "retry" c (retry_row (now s) delay reason mode))).

(** ** Insertion *)
(** [INSERT ... VALUES (..., 'PENDING', ...)] of the producers, with the
    columns they leave to their defaults. *)
Definition new_row (id merchant aggregate_type aggregate_id command_type : pystr)
    (schema_version : Z) (payload : json) (key : pystr) (maximum next created updated : Z) : OutboxRow :=
  mkOutboxRow id merchant aggregate_type aggregate_id command_type schema_version payload key
    ST_PENDING 0 maximum next None None None NORMAL_RETRY 0 None None None None None None created
    updated.

Definition insert_statement (r : OutboxRow) (t : table) : result table :=
  _ ← insert_lifecycle r;
  _ ← raise_if (negb (row_constraints r)) (DatabaseError "check constraint violated");
  _ ← raise_if (bool_decide (is_Some (t !! row_id r))) (DatabaseError "duplicate key");
  _ ← raise_if (existsb (λ r', bool_decide (row_merchant_id r' = row_merchant_id r)
                             && bool_decide (row_idempotency_key r' = row_idempotency_key r))
                 (map snd (map_to_list t)))
        (DatabaseError "duplicate key");
  Ok (<[row_id r := r]> t).

(** * Invariants of a row *)
Definition version_bound (r : OutboxRow) : Prop :=
  match row_status r with
  | ST_PENDING => row_attempt_count r = 0 ∧ row_delivery_version r = 0
  | ST_IN_PROGRESS => 1 <= row_delivery_version r <= 2 * row_attempt_count r - 1
  | ST_RETRY_SCHEDULED => 1 <= row_delivery_version r <= 2 * row_attempt_count r
  | ST_SUCCEEDED | ST_DEAD_LETTER | ST_CANCELLED =>
      1 <= row_delivery_version r <= 2 * row_attempt_count r + 1
  end.

(** The token of a lease names the job and the version it was granted at. *)
Definition row_token_of (r : OutboxRow) (token : pystr) : Prop :=
  ∃ nonce, token = nonce ++ $":" ++ row_id r ++ $":" ++ str_of_Z (row_delivery_version r).

(** A row of a table last written at or before [clock]. *)
Record row_ok (clock : Z) (k : pystr) (r : OutboxRow) : Prop := mkRowOk {
  ok_id : row_id r = k;
  ok_constraints : row_constraints r = true;
  ok_updated : row_updated_at r <= clock ∨ waiting_row r = true ∧ row_updated_at r <= row_next_attempt_at r;
  ok_version : version_bound r;
  ok_token : ∀ token, row_lease_token r = Some token → row_token_of r token
}.

Definition table_ok (clock : Z) (t : table) : Prop := ∀ k r, t !! k = Some r → row_ok clock k r.

(** The clock does not run backwards. *)
Definition session_ok (before : Z) (s : Session) (after : Z) : Prop :=
  before <= now s ∧ ∀ id, now s <= stamps s id <= after.

Lemma row_ok_later clock clock' k r : clock <= clock' → row_ok clock k r → row_ok clock' k r.
Proof. intros H [? ? [?|?] ? ?]; constructor; try done; [left; lia|by right]. Qed.

Lemma table_ok_later clock clock' t : clock <= clock' → table_ok clock t → table_ok clock' t.
Proof. intros H Ht k r Hr. eapply row_ok_later; [exact H|by apply Ht]. Qed.

Lemma ulid_length s : is_ulid s = true → str_len s = 26.
Proof. unfold is_ulid. intros [?%Z.eqb_eq _]%andb_true_iff. done. Qed.

Lemma lease_token_inj r r' nonce nonce' :
  nonce ++ $":" ++ row_id r ++ $":" ++ str_of_Z (row_delivery_version r)
  = nonce' ++ $":" ++ row_id r' ++ $":" ++ str_of_Z (row_delivery_version r') →
  row_delivery_version r = row_delivery_version r'.
Proof.
  intros E%(f_equal reverse). change ($":") with [58] in E. cbn [app] in E.
  rewrite !reverse_app, !reverse_cons, !reverse_app, !reverse_cons, <- !app_assoc in E.
  cbn [app] in E.
  apply (app_separated 58) in E as [E _].
  - apply (f_equal reverse) in E. rewrite !reverse_involutive in E. by apply str_of_Z_inj.
  - rewrite elem_of_reverse. by apply not_in_int.
  - rewrite elem_of_reverse. by apply not_in_int.
Qed.

Lemma not_None_Some_b {A} (o : option A) : bool_decide (o ≠ None) = true ↔ is_Some o.
Proof. rewrite bool_decide_eq_true. apply not_eq_None_Some. Qed.

(** The facts of the constraints, taken apart. *)
Lemma row_constraints_iff r :
  row_constraints r = true ↔
  column_constraints r = true ∧ row_attempt_count r <= row_max_attempts r ∧ lease_constraint r = true
  ∧ dead_letter_constraint r = true ∧ completion_constraint r = true
  ∧ completion_reference_constraint r = true ∧ row_created_at r <= row_updated_at r.
Proof. unfold row_constraints. rewrite !andb_true_iff, !Z.leb_le. tauto. Qed.

Lemma column_facts r :
  column_constraints r = true →
  is_ulid (row_id r) = true ∧ 0 <= row_attempt_count r ∧ 1 <= row_max_attempts r <= max_int4
  ∧ 0 <= row_delivery_version r.
Proof. unfold column_constraints, between. rewrite !andb_true_iff, !Z.leb_le. tauto. Qed.

(** Changing the delivery columns keeps the other column constraints. *)
Lemma column_constraints_set r r' :
  column_constraints r = true → row_identity r' = row_identity r →
  0 <= row_attempt_count r' <= max_int4 → 0 <= row_delivery_version r' <= max_int8 →
  column_constraints r' = true.
Proof.
  unfold column_constraints, row_identity, between. intros H [=] Ha Hv.
  repeat match goal with E : _ r' = _ r |- _ => rewrite E; clear E end.
  rewrite !andb_true_iff, !Z.leb_le in *. tauto.
Qed.

Lemma clean_btrim_between m s low :
  clean_text m s = true → low <= 1 → btrim_between low m s = true.
Proof.
  intros H Hlow. unfold btrim_between, between. rewrite (clean_text_btrim _ _ H).
  unfold clean_text in H. bools. apply andb_true_iff; rewrite !Z.leb_le. split; [|done].
  destruct s; [done|]. unfold str_len. cbn [length]. lia.
Qed.

Lemma update_lifecycle_intro old new :
  row_identity new = row_identity old → terminal_row old = false →
  row_delivery_version new = row_delivery_version old + 1 →
  row_updated_at old <= row_updated_at new →
  row_attempt_count old <= row_attempt_count new <= row_attempt_count old + 1 →
  transition_allowed old new = true → update_lifecycle old new = Ok tt.
Proof.
  intros Hi Ht Hv Hu Ha Hok. unfold update_lifecycle.
  rewrite bool_decide_false by tauto. rewrite Ht, Hv, Z.eqb_refl, Hok.
  rewrite (proj2 (Z.ltb_ge _ _) Hu), !(proj2 (Z.ltb_ge _ _)) by lia. done.
Qed.

(** The four ways the trigger allows. *)
Section allowed.
Context (old new : OutboxRow).

Lemma allowed_claim :
  waiting_row old = true → in_progress new = true → row_attempt_count new = row_attempt_count old + 1 →
  transition_allowed old new = true.
Proof. unfold transition_allowed. intros -> -> ->. by rewrite Z.eqb_refl. Qed.

Lemma allowed_reclaim e :
  in_progress old = true → in_progress new = true → row_lease_expires_at old = Some e →
  e <= row_updated_at new → row_attempt_count new = row_attempt_count old + 1 →
  row_retry_mode new = RECONCILE_ONLY → row_lease_token new ≠ row_lease_token old →
  transition_allowed old new = true.
Proof.
  unfold transition_allowed. intros -> -> -> He%Z.leb_le -> -> Ht. cbn [when_not_null].
  rewrite He, Z.eqb_refl, !bool_decide_true by done. by rewrite !orb_true_r.
Qed.

Lemma allowed_settle :
  in_progress old = true → row_attempt_count new = row_attempt_count old →
  row_status new ∈ [ST_SUCCEEDED; ST_RETRY_SCHEDULED; ST_DEAD_LETTER; ST_CANCELLED] →
  transition_allowed old new = true.
Proof.
  unfold transition_allowed. intros -> -> Hst. rewrite Z.eqb_refl.
  destruct (row_status new); cbn [andb]; rewrite ?orb_true_r; cbn; try done; by apply bool_decide_unpack in Hst || set_solver.
Qed.

Lemma allowed_close :
  waiting_row old = true → row_attempt_count new = row_attempt_count old →
  row_status new ∈ [ST_CANCELLED; ST_DEAD_LETTER] → transition_allowed old new = true.
Proof.
  unfold transition_allowed. intros -> -> Hst. rewrite Z.eqb_refl.
  destruct (row_status new); cbn [andb]; rewrite ?orb_true_r; cbn; try done; set_solver.
Qed.
End allowed.

Lemma write_row_intro stamp old new :
  update_lifecycle old new = Ok tt → row_constraints (set_updated_at new stamp) = true →
  write_row stamp old new = Ok (set_updated_at new stamp).
Proof. unfold write_row. by intros -> ->. Qed.

Lemma due_cases at_ r :
  due at_ r = true →
  (waiting_row r = true ∧ in_progress r = false ∧ row_next_attempt_at r <= at_)
  ∨ (waiting_row r = false ∧ in_progress r = true
     ∧ ∃ e, row_lease_expires_at r = Some e ∧ e <= at_).
Proof.
  unfold due, waiting_row, in_progress, when_not_null.
  intros [[Hw Hn]%andb_true_iff|[Hp He]%andb_true_iff]%orb_true_iff.
  - left. apply Z.leb_le in Hn. destruct (row_status r); try discriminate Hw; done.
  - right. destruct (row_lease_expires_at r) as [e|]; [|done]. apply Z.leb_le in He.
    destruct (row_status r); try discriminate Hp. eauto.
Qed.

Lemma due_updated clock k r at_ :
  row_ok clock k r → clock <= at_ → due at_ r = true → row_updated_at r <= at_.
Proof.
  intros Hr Hc Hd. destruct (ok_updated _ _ _ Hr) as [|[Hw Hn]]; [lia|].
  destruct (due_cases _ _ Hd) as [(_ & _ & ?)|(? & _)]; [lia|congruence].
Qed.

Lemma due_not_terminal at_ r : due at_ r = true → terminal_row r = false.
Proof.
  intros [(H & _)|(_ & H & _)]%due_cases; unfold waiting_row, in_progress, terminal_row in *;
    by destruct (row_status r).
Qed.

(** What the status of a row says of the nullable columns. *)
Lemma lease_cleared r :
  lease_constraint r = true → in_progress r = false →
  row_lease_owner r = None ∧ row_lease_token r = None ∧ row_lease_expires_at r = None.
Proof. unfold lease_constraint. intros H Hp. rewrite Hp in H. by bools. Qed.

Lemma live_evidence r :
  row_constraints r = true → terminal_row r = false →
  row_completed_at r = None ∧ row_completion_reference r = None
  ∧ row_dead_lettered_at r = None ∧ row_dead_letter_reason r = None.
Proof.
  rewrite row_constraints_iff. intros (_ & _ & _ & Hd & Hc & Hr & _) Ht.
  unfold dead_letter_constraint, completion_constraint, completion_reference_constraint, terminal_row in *.
  destruct (row_status r); try discriminate Ht;
    repeat (case_decide; [intuition discriminate|]); by bools.
Qed.

Lemma version_below_int8 r :
  version_bound r → 0 <= row_attempt_count r <= max_int4 → row_delivery_version r + 1 <= max_int8 - 1.
Proof. unfold version_bound, max_int4, max_int8. destruct (row_status r); lia. Qed.

Section claim_write.
Context (clock clock' : Z) (s : Session) (worker nonce : pystr) (duration : timedelta).
Context (Hs : session_ok clock s clock')
        (Hworker : clean_text 128 worker = true) (Hnonce : clean_text 96 nonce = true).
Implicit Types (r : OutboxRow).

(** The row a claim writes. *)
Definition claimed_as r : OutboxRow :=
  set_updated_at (claim_row (now s) worker nonce duration r) (stamps s (row_id r)).

Lemma claimed_as_fields r :
  row_identity (claimed_as r) = row_identity r
  ∧ row_delivery_version (claimed_as r) = row_delivery_version r + 1
  ∧ row_updated_at (claimed_as r) = stamps s (row_id r)
  ∧ row_next_attempt_at (claimed_as r) = row_next_attempt_at r
  ∧ row_completed_at (claimed_as r) = row_completed_at r
  ∧ row_completion_reference (claimed_as r) = row_completion_reference r.
Proof. done. Qed.

Lemma claim_lease_token_length r :
  is_ulid (row_id r) = true → 0 <= row_delivery_version r + 1 < max_int8 →
  btrim_between 1 200 (nonce ++ $":" ++ row_id r ++ $":" ++ str_of_Z (row_delivery_version r + 1)) = true.
Proof using Hnonce.
  intros Hid%ulid_length Hv. unfold btrim_between, between.
  assert (str_len (str_of_Z (row_delivery_version r + 1)) <= 19) as Hd.
  { apply (str_of_Z_length 18). revert Hv. unfold max_int8. change (10 ^ Z.of_nat 19) with 10000000000000000000. lia. }
  assert (str_len nonce <= 96 ∧ strip nonce = nonce ∧ nonce ≠ []) as (Hn & Hst & Hne).
  { pose proof Hnonce as H. unfold clean_text in H. bools. done. }
  destruct nonce as [|c rest] eqn:E; [done|].
  assert (c ≠ 32) as Hc.
  { apply strip_fixed_l in Hst. cbn [drop_while] in Hst. intros ->. cbn in Hst.
    pose proof (drop_while_length is_space rest) as Hl. rewrite Hst in Hl. cbn in Hl. lia. }
  apply andb_true_iff. rewrite !Z.leb_le. unfold str_len in *. split.
  - pose proof (btrim_nonblank c (rest ++ $":" ++ row_id r ++ $":" ++ str_of_Z (row_delivery_version r + 1)) Hc) as H.
    cbn [app]. destruct (btrim _); [done|]. cbn [length]. lia.
  - etrans; [apply inj_le, btrim_length|]. rewrite !length_app.
    change (length ($":")) with 1%nat. cbn [length] in *. lia.
Qed.

Lemma claim_lifecycle k r :
  row_ok clock k r → due (now s) r = true →
  update_lifecycle r (claim_row (now s) worker nonce duration r) = Ok tt.
Proof using Hs.
  intros Hr Hd. pose proof (due_updated _ _ _ _ Hr (proj1 Hs) Hd) as Hu.
  apply update_lifecycle_intro; [done|by eapply due_not_terminal|done|done| |].
  - cbn. case_match; lia.
  - destruct (Z.leb_spec (row_max_attempts r) (row_attempt_count r)) as [He|He];
      apply Z.leb_le in He || apply Z.leb_gt in He;
      destruct (due_cases _ _ Hd) as [(Hw & Hp & _)|(Hw & Hp & e & Hexp & Hle)].
    + apply allowed_close; [done|cbn; by rewrite He|cbn; rewrite He; by repeat constructor].
    + apply allowed_settle; [done|cbn; by rewrite He|cbn; rewrite He; by repeat constructor].
    + apply allowed_claim; [done| |cbn; by rewrite He]. unfold in_progress. cbn. by rewrite He.
    + apply (allowed_reclaim _ _ e); [done| |done|done|cbn; by rewrite He|cbn; by rewrite Hp, orb_true_r|].
      { unfold in_progress. cbn. by rewrite He. }
      cbn. rewrite He. intros Htok. symmetry in Htok. destruct (ok_token _ _ _ Hr _ Htok) as [n En].
      pose proof (lease_token_inj (claimed_as r) r nonce n En). cbn in *. lia.
Qed.
Lemma claim_constraints k r :
  row_ok clock k r → due (now s) r = true → row_constraints (claimed_as r) = true.
Proof using Hs Hworker Hnonce.
  intros Hr Hd. pose proof (due_updated _ _ _ _ Hr (proj1 Hs) Hd) as Hu.
  pose proof (due_not_terminal _ _ Hd) as Hnt. pose proof (ok_constraints _ _ _ Hr) as Hc.
  destruct (live_evidence _ Hc Hnt) as (Hcomp & Href & _).
  apply row_constraints_iff in Hc as (Hcol & Ha & _ & _ & _ & _ & Hcr).
  pose proof (column_facts _ Hcol) as (Hid & Ha0 & Hmax & Hv0).
  pose proof (version_below_int8 _ (ok_version _ _ _ Hr) ltac:(lia)) as Hv.
  pose proof (claim_lease_token_length r Hid ltac:(lia)) as Htok.
  pose proof (proj2 Hs (row_id r)) as Hstamp.
  apply row_constraints_iff. split_and!; cbn [claimed_as set_updated_at set_evidence row_created_at row_updated_at].
  - apply (column_constraints_set r); [done|done|cbn|cbn; lia].
    destruct (Z.leb_spec (row_max_attempts r) (row_attempt_count r)); lia.
  - cbn. destruct (Z.leb_spec (row_max_attempts r) (row_attempt_count r)); lia.
  - unfold lease_constraint, in_progress. cbn. destruct (row_max_attempts r <=? row_attempt_count r); cbn; [done|].
    by rewrite Htok, (clean_btrim_between _ _ 1 Hworker).
  - unfold dead_letter_constraint. cbn. by destruct (row_max_attempts r <=? row_attempt_count r).
  - unfold completion_constraint. cbn. rewrite Hcomp. by destruct (row_max_attempts r <=? row_attempt_count r).
  - unfold completion_reference_constraint. cbn. rewrite Href. by destruct (row_max_attempts r <=? row_attempt_count r).
  - cbn. lia.
Qed.

Lemma claim_write k r :
  row_ok clock k r → due (now s) r = true →
  write_row (stamps s (row_id r)) r (claim_row (now s) worker nonce duration r) = Ok (claimed_as r)
  ∧ row_ok clock' k (claimed_as r).
Proof using Hs Hworker Hnonce.
  intros Hr Hd. pose proof (claim_constraints k r Hr Hd) as Hc. split.
  { apply write_row_intro; [by eapply claim_lifecycle|done]. }
  pose proof (proj2 Hs (row_id r)) as Hstamp. pose proof (ok_version _ _ _ Hr) as Hv.
  constructor; [by rewrite <- (ok_id _ _ _ Hr)|done|left; cbn; lia| |].
  - apply row_constraints_iff in Hc as (Hcol & _). apply column_facts in Hcol as (_ & Ha & _).
    unfold version_bound in *. cbn in *.
    destruct (due_cases _ _ Hd) as [(Hw & _)|(_ & Hp & _)]; unfold waiting_row, in_progress in *;
      destruct (row_status r); try discriminate;
      destruct (row_max_attempts r <=? row_attempt_count r); lia.
  - intros token. cbn. destruct (row_max_attempts r <=? row_attempt_count r); [done|]. intros [= <-].
    by exists nonce.
Qed.
End claim_write.

(** The settlements of a row, with the checked texts. *)
Inductive settlement (at_ : Z) : (OutboxRow → OutboxRow) → Prop :=
  | settle_complete reference :
      clean_text 500 reference = true → settlement at_ (complete_row at_ reference)
  | settle_retry delay reason mode :
      clean_text 500 reason = true → settlement at_ (retry_row at_ delay reason mode)
  | settle_dead_letter reason :
      clean_text 500 reason = true → settlement at_ (dead_letter_row at_ reason).

Section settle_write.
Context (clock clock' : Z) (s : Session) (f : OutboxRow → OutboxRow).
Context (Hs : session_ok clock s clock') (Hf : settlement (now s) f).
Implicit Types (r : OutboxRow).

Definition settled_as r : OutboxRow := set_updated_at (f r) (stamps s (row_id r)).

Lemma settlement_fields r :
  row_identity (f r) = row_identity r ∧ row_attempt_count (f r) = row_attempt_count r
  ∧ row_delivery_version (f r) = row_delivery_version r + 1 ∧ row_updated_at (f r) = now s
  ∧ row_lease_owner (f r) = None ∧ row_lease_token (f r) = None ∧ row_lease_expires_at (f r) = None
  ∧ row_status (f r) ∈ [ST_SUCCEEDED; ST_RETRY_SCHEDULED; ST_DEAD_LETTER].
Proof using Hf. destruct Hf; split_and!; try done; cbn; repeat constructor. Qed.

Lemma in_progress_status r : in_progress r = true → row_status r = ST_IN_PROGRESS.
Proof. apply bool_decide_true_1. Qed.

Lemma settle_lifecycle k r :
  row_ok clock k r → in_progress r = true → update_lifecycle r (f r) = Ok tt.
Proof using Hs Hf.
  intros Hr Hp. destruct (settlement_fields r) as (Hi & Ha & Hv & Hu & _ & _ & _ & Hst).
  pose proof (in_progress_status _ Hp) as Hp'.
  apply update_lifecycle_intro; [done| |done| |lia|].
  - unfold terminal_row. by rewrite Hp'.
  - rewrite Hu. destruct (ok_updated _ _ _ Hr) as [?|[Hw _]]; [pose proof (proj1 Hs); lia|].
    unfold waiting_row in Hw. by rewrite Hp' in Hw.
  - apply allowed_settle; [done|done|set_solver].
Qed.

Lemma settle_constraints k r :
  row_ok clock k r → in_progress r = true → row_constraints (settled_as r) = true.
Proof using Hs Hf.
  intros Hr Hp. pose proof (in_progress_status _ Hp) as Hp'.
  pose proof (ok_constraints _ _ _ Hr) as Hc.
  destruct (live_evidence _ Hc) as (Hcomp & Href & Hdat & Hdr); [unfold terminal_row; by rewrite Hp'|].
  apply row_constraints_iff in Hc as (Hcol & Ha & _ & _ & _ & _ & Hcr).
  pose proof (column_facts _ Hcol) as (_ & Ha0 & Hmax & Hv0).
  pose proof (version_below_int8 _ (ok_version _ _ _ Hr) ltac:(lia)) as Hv.
  pose proof (proj2 Hs (row_id r)) as Hstamp.
  assert (row_updated_at r <= now s) as Hu.
  { destruct (ok_updated _ _ _ Hr) as [?|[Hw _]]; [pose proof (proj1 Hs); lia|].
    unfold waiting_row in Hw. by rewrite Hp' in Hw. }
  pose proof (ok_version _ _ _ Hr) as Hvb. unfold version_bound in Hvb. rewrite Hp' in Hvb.
  enough (H : ∀ g, settlement (now s) g →
    row_constraints (set_updated_at (g r) (stamps s (row_id r))) = true) by exact (H f Hf).
  intros g Hg. apply row_constraints_iff. destruct Hg as [reference Ht|delay reason mode Ht|reason Ht];
    (split_and!; [apply (column_constraints_set r); [done|done|cbn; lia|cbn; lia]|done|done| | | |cbn; lia]);
    unfold dead_letter_constraint, completion_constraint, completion_reference_constraint; cbn;
    rewrite ?Hcomp, ?Href, ?Hdat, ?Hdr; try done.
  - rewrite decide_True by done. destruct (Z.eqb_spec (row_delivery_version r + 1) 0); [lia|].
    exact (clean_btrim_between _ _ 1 Ht ltac:(lia)).
  - rewrite decide_True by done. rewrite (clean_text_btrim _ _ Ht). pose proof (clean_btrim_between _ _ 1 Ht ltac:(lia)) as H.
    unfold btrim_between, between in H. rewrite (clean_text_btrim _ _ Ht) in H. bools. apply Z.ltb_lt. lia.
Qed.

Lemma settle_write k r :
  row_ok clock k r → in_progress r = true →
  write_row (stamps s (row_id r)) r (f r) = Ok (settled_as r) ∧ row_ok clock' k (settled_as r).
Proof using Hs Hf.
  intros Hr Hp. pose proof (settle_constraints k r Hr Hp) as Hc. split.
  { apply write_row_intro; [by eapply settle_lifecycle|done]. }
  destruct (settlement_fields r) as (Hi & Ha & Hv & _ & _ & Ht & _ & Hst).
  pose proof (proj2 Hs (row_id r)) as Hstamp. pose proof (ok_version _ _ _ Hr) as Hvb.
  unfold version_bound in Hvb. rewrite (in_progress_status _ Hp) in Hvb.
  constructor; [|done|left; cbn; lia| |].
  - rewrite <- (ok_id _ _ _ Hr). unfold row_identity in Hi. cbn. congruence.
  - unfold version_bound, settled_as. cbn. rewrite Hv, Ha.
    apply elem_of_cons in Hst as [->|[->|[->|[]%elem_of_nil]%elem_of_cons]%elem_of_cons]; lia.
  - intros token. cbn. by rewrite Ht.
Qed.
End settle_write.

(** * Selection *)
#[export] Instance id_before_total : Total id_before.
Proof.
  intros r r'. unfold id_before. destruct (str_ltb (row_id r') (row_id r)) eqn:E; [|by left].
  right. by apply str_ltb_asym.
Qed.

#[export] Instance id_before_trans : Transitive id_before.
Proof.
  unfold id_before. intros a b c Hab Hbc. destruct (str_ltb (row_id c) (row_id a)) eqn:E; [|done].
  destruct (str_ltb (row_id a) (row_id b)) eqn:E'.
  - by rewrite (str_ltb_trans _ _ _ E E') in Hbc.
  - by rewrite (str_ltb_total _ _ E' Hab), Hbc in E.
Qed.

#[export] Instance claim_before_total : Total claim_before.
Proof.
  intros r r'. unfold claim_before. pose proof (total id_before r r') as [?|?];
    destruct (Z.lt_trichotomy (due_at r) (due_at r')) as [?|[?|?]]; tauto || (right; right; done).
Qed.

#[export] Instance claim_before_trans : Transitive claim_before.
Proof.
  intros a b c [?|[? ?]] [?|[? ?]]; [left; lia|left; lia|left; lia|right; split; [lia|]].
  by etrans.
Qed.

(** The table with some of its rows replaced. *)
Definition replace_rows (g : OutboxRow → OutboxRow) (rows : list OutboxRow) (t : table) : table :=
  foldl (λ t r, <[row_id r := g r]> t) t rows.

Lemma update_rows_spec stamp f g rows t :
  (∀ r, r ∈ rows → write_row (stamp (row_id r)) r (f r) = Ok (g r)) →
  update_rows stamp f rows t = Ok (replace_rows g rows t, map g rows).
Proof.
  revert t. induction rows as [|r rows IH]; intros t H; [done|]. cbn [update_rows].
  rewrite H by by left. cbn [mbind result_bind].
  rewrite IH; [done|]. intros r' Hr'. apply H. by right.
Qed.

Lemma replace_rows_other g rows t k : k ∉ map row_id rows → replace_rows g rows t !! k = t !! k.
Proof.
  revert t. induction rows as [|r rows IH]; intros t Hk; [done|]. cbn in *.
  apply not_elem_of_cons in Hk as [Hne Hk]. unfold replace_rows in *. cbn [foldl].
  rewrite IH by done. by apply lookup_insert_ne.
Qed.

Lemma replace_rows_in g rows t r :
  NoDup (map row_id rows) → r ∈ rows → replace_rows g rows t !! row_id r = Some (g r).
Proof.
  revert t. induction rows as [|r' rows IH]; intros t Hnd Hr; [by apply not_elem_of_nil in Hr|].
  cbn in Hnd. apply NoDup_cons in Hnd as [Hni Hnd]. unfold replace_rows in *. cbn [foldl].
  apply elem_of_cons in Hr as [->|Hr]; [|by apply IH].
  pose proof (replace_rows_other g rows (<[row_id r':=g r']> t) _ Hni) as E.
  unfold replace_rows in E. rewrite E. apply lookup_insert_eq.
Qed.

(** Every lookup in the new table is a kept row or a replaced one. *)
Lemma replace_rows_lookup g rows t k r' :
  NoDup (map row_id rows) → replace_rows g rows t !! k = Some r' →
  ((k ∉ map row_id rows) ∧ t !! k = Some r') ∨ (∃ r, (r ∈ rows) ∧ row_id r = k ∧ r' = g r).
Proof.
  intros Hnd H. destruct (decide (k ∈ map row_id rows)) as [Hk|Hk].
  - right. apply list_elem_of_fmap in Hk as (r & -> & Hr). exists r.
    rewrite (replace_rows_in _ _ _ _ Hnd Hr) in H. by injection H.
  - left. by rewrite replace_rows_other in H.
Qed.

Section candidates.
Context (clock clock' : Z) (s : Session) (batch_size : Z) (t : table).
Context (Ht : table_ok clock t).
Implicit Types (r : OutboxRow).

Lemma table_rows r : r ∈ map snd (map_to_list t) ↔ t !! row_id r = Some r.
Proof using Ht.
  split.
  - intros ([k r'] & -> & H%elem_of_map_to_list)%list_elem_of_fmap. cbn in *.
    by rewrite (ok_id _ _ _ (Ht _ _ H)).
  - intros H. apply list_elem_of_fmap. exists (row_id r, r). by rewrite elem_of_map_to_list.
Qed.

Definition sorted_candidates : list OutboxRow :=
  merge_sort claim_before (filter (claimable s) (map snd (map_to_list t))).

Lemma elem_of_sorted_candidates r :
  r ∈ sorted_candidates ↔ t !! row_id r = Some r ∧ claimable s r.
Proof using Ht.
  unfold sorted_candidates. rewrite merge_sort_Permutation, list_elem_of_filter, table_rows. tauto.
Qed.

Lemma candidates_elem r :
  r ∈ candidates s batch_size t → t !! row_id r = Some r ∧ claimable s r.
Proof using Ht.
  intros (i & H%list_elem_of_lookup_2 & _)%elem_of_take. by apply elem_of_sorted_candidates.
Qed.

Lemma table_rows_nodup : NoDup (map snd (map_to_list t)).
Proof using Ht.
  apply (NoDup_fmap_1 row_id). change (NoDup (map row_id (map snd (map_to_list t)))).
  replace (map row_id (map snd (map_to_list t))) with (map_to_list t).*1; [apply NoDup_fst_map_to_list|].
  rewrite map_map. apply list_fmap_ext. intros i [k r] Hi. symmetry. cbn.
  apply list_elem_of_lookup_2, elem_of_map_to_list in Hi. exact (ok_id _ _ _ (Ht _ _ Hi)).
Qed.

Lemma candidates_nodup : NoDup (map row_id (candidates s batch_size t)).
Proof using Ht.
  apply NoDup_fmap_2_strong.
  - intros x y [Hx _]%candidates_elem [Hy _]%candidates_elem E. rewrite E in Hx. congruence.
  - eapply sublist_NoDup; [|apply sublist_take]. rewrite merge_sort_Permutation.
    apply NoDup_filter, table_rows_nodup.
Qed.

Lemma candidates_length : Z.of_nat (length (candidates s batch_size t)) <= Z.max 0 batch_size.
Proof. unfold candidates. rewrite length_take. lia. Qed.
End candidates.

(** ** The statements on a well-formed table *)
Section statements.
Context (clock clock' : Z) (s : Session) (t : table).
Context (Hs : session_ok clock s clock') (Ht : table_ok clock t).

Lemma session_clocks : clock <= clock'.
Proof using Hs. destruct Hs as [H1 H2]. specialize (H2 []). lia. Qed.

Lemma claim_statement_spec worker nonce batch_size duration :
  clean_text 128 worker = true → clean_text 96 nonce = true →
  let rows := candidates s batch_size t in
  let g := claimed_as s worker nonce duration in
  claim_statement s worker nonce batch_size duration t
  = Ok (replace_rows g rows t, merge_sort id_before (map g rows))
  ∧ table_ok clock' (replace_rows g rows t).
Proof using Hs Ht.
  intros Hw Hn rows g.
  assert (Hwrite : ∀ r, r ∈ rows → write_row (stamps s (row_id r)) r
      (claim_row (now s) worker nonce duration r) = Ok (g r) ∧ row_ok clock' (row_id r) (g r)).
  { intros r [Hr [Hd _]]%(candidates_elem clock s batch_size t Ht).
    exact (claim_write clock clock' s worker nonce duration Hs Hw Hn _ r (Ht _ _ Hr) Hd). }
  split.
  - unfold claim_statement. rewrite (update_rows_spec _ _ g); [done|]. intros r Hr. by apply Hwrite.
  - intros k r' H. apply replace_rows_lookup in H as [[_ H]|(r & Hr & <- & ->)];
      [|by apply Hwrite|by eapply candidates_nodup].
    eapply row_ok_later; [apply session_clocks|by apply Ht].
Qed.

(** The row a settlement of [c] would change. *)
Definition current (c : ClaimedOutboxCommand) : option OutboxRow :=
  match t !! cmd_job_id c with
  | Some r => if fenced (now s) c r then Some r else None
  | None => None
  end.

Lemma settle_statement_spec c f :
  settlement (now s) f →
  settle_statement s c f t =
  match current c with
  | Some r => Ok (<[cmd_job_id c := settled_as s f r]> t, Some (cmd_delivery_version c + 1))
  | None => Ok (t, None)
  end
  ∧ ∀ r, current c = Some r → row_ok clock' (cmd_job_id c) (settled_as s f r).
Proof using Hs Ht.
  intros Hf. unfold settle_statement, current. destruct (t !! cmd_job_id c) as [r|] eqn:Hr; [|done].
  destruct (fenced (now s) c r) eqn:Hfence; [|done].
  assert (in_progress r = true ∧ row_delivery_version r = cmd_delivery_version c) as [Hp Hv].
  { unfold fenced in Hfence. bools. done. }
  destruct (settle_write clock clock' s f Hs Hf _ r (Ht _ _ Hr) Hp) as [-> Hok].
  cbn [mbind result_bind]. split; [|by intros ? [= <-]].
  destruct (settlement_fields s f Hf r) as (_ & _ & Hv' & _). cbn. by rewrite Hv', Hv.
Qed.

Lemma table_ok_insert k r : row_ok clock' k r → table_ok clock' (<[k := r]> t).
Proof using Hs Ht.
  intros Hr k' r' [[<- <-]|[_ H]]%lookup_insert_Some; [done|].
  eapply row_ok_later; [apply session_clocks|by apply Ht].
Qed.
End statements.

(** * Runs of the table *)
(** An operation some process performs: a producer inserts a row, a worker
    calls a method of its repository. *)
Inductive operation :=
  | Insert (r : OutboxRow)
  | ClaimBatch (token : result pystr) (worker : pystr) (batch_size : Z) (duration : timedelta)
  | Complete (c : ClaimedOutboxCommand) (reference : pystr)
  | Retry (backoff : BackoffPolicy) (c : ClaimedOutboxCommand) (reason : pystr) (mode : RetryMode)
  | DeadLetter (c : ClaimedOutboxCommand) (reason : pystr).

Inductive answer := Inserted | Batch (b : OutboxClaimBatch) | Version (v : Z).

Definition perform (s : Session) (op : operation) (t : table) : table * result answer :=
  match op with
  | Insert r =>
      transaction s (λ t, t' ← insert_statement r t; Ok (t', Inserted)) t
  | ClaimBatch token worker n d =>
      let res := claim_batch s token worker n d t in (fst res, Batch <$> snd res)
  | Complete c reference => let res := complete s c reference t in (fst res, Version <$> snd res)
  | Retry backoff c reason mode =>
      let res := retry backoff s c reason mode t in (fst res, Version <$> snd res)
  | DeadLetter c reason => let res := dead_letter s c reason t in (fst res, Version <$> snd res)
  end.

(** A producer stamps a row with its own clock in every column, or leaves the
    columns to the database clock. *)
Definition inserted_ok (clock : Z) (op : operation) : Prop :=
  match op with
  | Insert r => row_updated_at r <= clock ∨ row_updated_at r <= row_next_attempt_at r
  | _ => True
  end.

Inductive step : Z * table → operation * result answer → Z * table → Prop :=
  | step_perform clock clock' s op t t' a :
      session_ok clock s clock' → inserted_ok clock' op → perform s op t = (t', a) →
      step (clock, t) (op, a) (clock', t').

Inductive run (x : Z * table) : list (operation * result answer) → Z * table → Prop :=
  | run_nil : run x [] x
  | run_snoc l y e z : run x l y → step y e z → run x (l ++ [e]) z.

Definition reachable (x : Z * table) : Prop := ∃ clock l, run (clock, ∅) l x.

Definition settles_command (op : operation) : option ClaimedOutboxCommand :=
  match op with
  | Complete c _ | Retry _ c _ _ | DeadLetter c _ => Some c
  | Insert _ | ClaimBatch _ _ _ _ => None
  end.

(** What an operation may have done to the table. *)
Inductive effect (s : Session) (t : table) : operation → table → Prop :=
  | no_effect op : effect s t op t
  | effect_insert r :
      t !! row_id r = None → row_constraints r = true → insert_lifecycle r = Ok tt →
      effect s t (Insert r) (<[row_id r := r]> t)
  | effect_claim token worker nonce batch_size duration :
      check_claim token worker batch_size duration = Ok nonce →
      effect s t (ClaimBatch token worker batch_size duration)
        (replace_rows (claimed_as s worker nonce duration) (candidates s batch_size t) t)
  | effect_settle op c f r :
      settles_command op = Some c → settlement (now s) f → current s t c = Some r →
      effect s t op (<[cmd_job_id c := settled_as s f r]> t).

Lemma transaction_table {A} (s : Session) (statement : table → result (table * A)) (t : table) :
  fst (transaction s statement t) = t ∨ ∃ a, statement t = Ok (fst (transaction s statement t), a).
Proof.
  unfold transaction. destruct (connection s) as [|e|e]; [|by left|];
    (destruct (statement t) as [[t1 a]|e'] eqn:E; [right; by exists a|by left]).
Qed.

(** The errors of an answer that do not come from outside. *)
Definition no_refusal {A} (r : result A) : Prop := ∀ m, r ≠ Raise (DatabaseError m).
Definition trusted_session (s : Session) : Prop :=
  match connection s with FailsBefore e | ReplyLost e => ∀ m, e ≠ DatabaseError m | NoFault => True end.

Lemma check_claim_Ok token worker n d nonce :
  check_claim token worker n d = Ok nonce →
  clean_text 128 worker = true ∧ clean_text 96 nonce = true ∧ 1 <= n <= 100
  ∧ 0 < d <= minutes 15 ∧ token = Ok nonce.
Proof.
  unfold check_claim, _clean_text, between. intros H. inv_ok. bools. subst. split_and!; try done; lia.
Qed.

Lemma clean_text_no_refusal v field m : no_refusal (_clean_text v field m).
Proof. unfold _clean_text. intros msg. by destruct (clean_text m v). Qed.

Lemma bind_no_refusal {A B} (m : result A) (k : A → result B) :
  no_refusal m → (∀ a, m = Ok a → no_refusal (k a)) → no_refusal (m ≫= k).
Proof. intros Hm Hk. destruct m as [a|e]; [by apply Hk|]. intros msg [=]. by eapply Hm; f_equal. Qed.

Lemma raise_if_no_refusal b e : (∀ m, e ≠ DatabaseError m) → no_refusal (raise_if b e).
Proof. intros He msg. destruct b; [intros [=]; by eapply He|done]. Qed.

Lemma transaction_no_refusal {A} (s : Session) (statement : table → result (table * A)) (t : table) :
  trusted_session s → no_refusal (statement t) → no_refusal (snd (transaction s statement t)).
Proof.
  unfold transaction, trusted_session, no_refusal.
  destruct (connection s) as [|e|e]; intros Htr H m; [|intros [= ->]; by eapply Htr|];
    (destruct (statement t) as [[t1 a]|e']; cbn [snd]; [|by intros [= ->]; eapply H]); [done|].
  intros [= ->]. by eapply Htr.
Qed.

Section perform.
Context (clock clock' : Z) (s : Session) (t : table).
Context (Hs : session_ok clock s clock') (Ht : table_ok clock t).

Lemma settle_table name c f :
  settlement (now s) f →
  fst (_settle s name c f t) = t
  ∨ ∃ r, current s t c = Some r ∧ fst (_settle s name c f t) = <[cmd_job_id c := settled_as s f r]> t.
Proof using Hs Ht.
  intros Hf. unfold _settle. cbn [fst].
  match goal with |- fst (transaction _ ?st _) = _ ∨ _ =>
    destruct (transaction_table s st t) as [->|[a Ha]]; [by left|revert Ha] end.
  match goal with |- _ = Ok (?x, _) → _ => generalize x end. intros t1 Ha.
  destruct (settle_statement_spec clock clock' s t Hs Ht c f Hf) as [Hst _]. rewrite Hst in Ha.
  destruct (current s t c) as [r|] eqn:Hc; [|done]. injection Ha as <- _. right. by exists r.
Qed.

Lemma settle_effect op name c f :
  settles_command op = Some c → settlement (now s) f →
  effect s t op (fst (_settle s name c f t)).
Proof using Hs Ht.
  intros Hop Hf. destruct (settle_table name c f Hf) as [->|(r & Hc & ->)]; [constructor|by eapply effect_settle].
Qed.

Lemma settle_no_refusal name c f :
  settlement (now s) f → trusted_session s → no_refusal (snd (_settle s name c f t)).
Proof using Hs Ht.
  intros Hf Htr. unfold _settle. cbn [snd]. apply bind_no_refusal.
  - apply transaction_no_refusal; [done|].
    destruct (settle_statement_spec clock clock' s t Hs Ht c f Hf) as [Hst _]. rewrite Hst.
    by destruct (current s t c).
  - intros v _. apply bind_no_refusal; [by apply raise_if_no_refusal|done].
Qed.

Lemma clean_text_checked v field m u : _clean_text v field m = Ok u → clean_text m v = true ∧ u = v.
Proof. unfold _clean_text. intros H. inv_ok. by bools. Qed.

Lemma complete_effect c reference op :
  settles_command op = Some c → effect s t op (fst (complete s c reference t)).
Proof using Hs Ht.
  intros Hop. unfold complete, checked. destruct (_clean_text _ _ _) eqn:E; [|constructor].
  apply clean_text_checked in E as [E _]. by apply settle_effect, settle_complete.
Qed.

Lemma dead_letter_effect c reason op :
  settles_command op = Some c → effect s t op (fst (dead_letter s c reason t)).
Proof using Hs Ht.
  intros Hop. unfold dead_letter, checked. destruct (_clean_text _ _ _) eqn:E; [|constructor].
  apply clean_text_checked in E as [E _]. by apply settle_effect, settle_dead_letter.
Qed.

Lemma retry_effect backoff c reason mode op :
  settles_command op = Some c → effect s t op (fst (retry backoff s c reason mode t)).
Proof using Hs Ht.
  intros Hop. unfold retry, checked. destruct (_clean_text _ _ _) eqn:E; [|constructor].
  apply clean_text_checked in E as [E _]. case_match.
  - destruct (_prefixed_reason _ _); [|constructor]. by apply dead_letter_effect.
  - destruct (delay_after _ _); [|constructor]. by apply settle_effect, settle_retry.
Qed.

Lemma perform_effect op : effect s t op (fst (perform s op t)).
Proof using Hs Ht.
  destruct op as [r|token worker n d|c reference|backoff c reason mode|c reason]; cbn [perform fst].
  - match goal with |- effect _ _ _ (fst (transaction _ ?st _)) =>
      destruct (transaction_table s st t) as [->|[a Ha]]; [constructor|revert Ha] end.
    match goal with |- _ = Ok (?x, _) → _ => generalize x end. intros t1 Ha. inv_ok.
    unfold insert_statement in *. inv_ok. simplify_eq. bools.
    match goal with H : insert_lifecycle _ = Ok ?u |- _ => destruct u end.
    apply effect_insert; [by apply eq_None_not_Some|done|done].
  - unfold claim_batch. destruct (check_claim _ _ _ _) as [nonce|] eqn:E; [|constructor]. cbn [fst].
    match goal with |- effect _ _ _ (fst (transaction _ ?st _)) =>
      destruct (transaction_table s st t) as [->|[a Ha]]; [constructor|revert Ha] end.
    match goal with |- _ = Ok (?x, _) → _ => generalize x end. intros t1.
    pose proof (check_claim_Ok _ _ _ _ _ E) as (Hw & Hn & _).
    destruct (claim_statement_spec clock clock' s t Hs Ht worker nonce n d Hw Hn) as [-> _].
    intros [= <- _]. by apply effect_claim.
  - by apply complete_effect.
  - by apply retry_effect.
  - by apply dead_letter_effect.
Qed.
End perform.

(** ** Only the outside refuses *)
Lemma Ok_no_refusal {A} (a : A) : no_refusal (Ok a).
Proof. by intros m. Qed.

Lemma astimezone_no_refusal d : no_refusal (astimezone_utc d).
Proof. intros m. unfold astimezone_utc. by repeat case_match. Qed.

Create HintDb no_refusal.
#[local] Hint Resolve Ok_no_refusal clean_text_no_refusal astimezone_no_refusal : no_refusal.
Ltac no_refusal :=
  repeat lazymatch goal with
         | |- no_refusal (_ ≫= _) => apply bind_no_refusal; [|intros ? _]
         | |- no_refusal (raise_if _ _) => apply raise_if_no_refusal; intros ? [=]
         | |- no_refusal (Raise _) => intros ? [=]
         | |- no_refusal (match ?x with _ => _ end) => destruct x
         end; auto with no_refusal.

Lemma payload_no_refusal p : no_refusal (_payload p).
Proof. unfold _payload. no_refusal. Qed.
#[local] Hint Resolve payload_no_refusal : no_refusal.

Lemma post_init_no_refusal c : no_refusal (ClaimedOutboxCommand_post_init c).
Proof. unfold ClaimedOutboxCommand_post_init, _internal_ulid, _positive_int, _utc. no_refusal. Qed.
#[local] Hint Resolve post_init_no_refusal : no_refusal.

Lemma claimed_from_row_no_refusal r : no_refusal (_claimed_from_row r).
Proof. unfold _claimed_from_row. no_refusal. Qed.
#[local] Hint Resolve claimed_from_row_no_refusal : no_refusal.

Lemma collect_no_refusal rows : no_refusal (collect rows).
Proof. induction rows as [|r rows IH]; cbn [collect]; no_refusal. Qed.
#[local] Hint Resolve collect_no_refusal : no_refusal.

Lemma batch_of_rows_no_refusal n rows : no_refusal (batch_of_rows n rows).
Proof. unfold batch_of_rows, OutboxClaimBatch_post_init. no_refusal. Qed.

Lemma fmap_no_refusal {A B} (f : A → B) (r : result A) : no_refusal r → no_refusal (f <$> r).
Proof. intros H m. destruct r as [a|e]; [done|]. intros [= ->]. by eapply H. Qed.

Lemma delay_after_no_refusal b n : no_refusal (delay_after b n).
Proof. unfold delay_after. no_refusal. Qed.

Lemma check_claim_no_refusal token w n d : no_refusal token → no_refusal (check_claim token w n d).
Proof. intros H. unfold check_claim. no_refusal. Qed.

(** Operations other than an insertion, which the database may refuse. *)
Definition token_trusted (op : operation) : Prop :=
  match op with
  | ClaimBatch token _ _ _ => no_refusal token
  | Insert _ => False
  | _ => True
  end.

Section refusals.
Context (clock clock' : Z) (s : Session) (t : table).
Context (Hs : session_ok clock s clock') (Ht : table_ok clock t) (Htr : trusted_session s).

Lemma checked_no_refusal {A B} (check : result A) (k : A → table → table * result B) :
  no_refusal check → (∀ a, check = Ok a → no_refusal (snd (k a t))) →
  no_refusal (snd (checked check k t)).
Proof.
  intros Hc Hk. unfold checked. destruct check as [a|e]; [by apply Hk|]. intros m [= ->]. by eapply Hc.
Qed.

Lemma dead_letter_no_refusal c reason : no_refusal (snd (dead_letter s c reason t)).
Proof using Hs Ht Htr.
  apply checked_no_refusal; [apply clean_text_no_refusal|]. intros a [E _]%clean_text_checked.
  eapply settle_no_refusal; [done..| |done]. by apply settle_dead_letter.
Qed.

Lemma perform_no_refusal op : token_trusted op → no_refusal (snd (perform s op t)).
Proof using Hs Ht Htr.
  destruct op as [r|token worker n d|c reference|backoff c reason mode|c reason]; cbn [perform snd];
    intros Hop; [done| | | |]; apply fmap_no_refusal.
  - unfold claim_batch. destruct (check_claim token worker n d) as [nonce|e] eqn:E.
    + cbn [snd]. apply bind_no_refusal; [|intros rows _; apply batch_of_rows_no_refusal].
      pose proof (check_claim_Ok _ _ _ _ _ E) as (Hw & Hn & _).
      apply transaction_no_refusal; [done|].
      destruct (claim_statement_spec clock clock' s t Hs Ht worker nonce n d Hw Hn) as [-> _]. done.
    + intros m [= ->]. by eapply (check_claim_no_refusal token worker n d Hop).
  - apply checked_no_refusal; [apply clean_text_no_refusal|]. intros a [E _]%clean_text_checked.
    eapply settle_no_refusal; [done..| |done]. by apply settle_complete.
  - apply checked_no_refusal; [apply clean_text_no_refusal|]. intros a [E _]%clean_text_checked.
    case_match.
    + apply checked_no_refusal; [unfold _prefixed_reason; no_refusal|]. intros b _. apply dead_letter_no_refusal.
    + apply checked_no_refusal; [apply delay_after_no_refusal|]. intros b _.
      eapply settle_no_refusal; [done..| |done]. by apply settle_retry.
  - apply dead_letter_no_refusal.
Qed.
End refusals.

(** ** Invariants of a run *)
Lemma effect_table_ok clock clock' s t op t' :
  session_ok clock s clock' → table_ok clock t → inserted_ok clock' op → effect s t op t' →
  table_ok clock' t'.
Proof.
  intros Hs Ht Hi He. destruct He as [op|r Hf Hc Hl|token worker nonce n d Hck|op c f r Hop Hf Hcur].
  - eapply table_ok_later; [by eapply session_clocks|done].
  - eapply table_ok_insert; [done..|]. unfold insert_lifecycle in Hl.
    assert (row_status r = ST_PENDING ∧ row_attempt_count r = 0 ∧ row_delivery_version r = 0) as (Hst & Ha & Hv).
    { apply raise_if_Ok in Hl. bools. split_and!; try done. by apply dec_stable. }
    constructor; [done|done| | |].
    + destruct Hi as [?|?]; [by left|right]. split; [|done]. unfold waiting_row. by rewrite Hst.
    + unfold version_bound. by rewrite Hst.
    + apply row_constraints_iff in Hc as (_ & _ & Hlease & _).
      apply lease_cleared in Hlease as (_ & -> & _); [done|]. unfold in_progress. by rewrite Hst.
  - apply check_claim_Ok in Hck as (Hw & Hn & _).
    eapply claim_statement_spec; done.
  - eapply table_ok_insert; [done..|].
    by apply (settle_statement_spec clock clock' s t Hs Ht c f Hf).
Qed.

Lemma step_effect clock t op a clock' t' :
  step (clock, t) (op, a) (clock', t') → table_ok clock t →
  ∃ s, session_ok clock s clock' ∧ perform s op t = (t', a) ∧ effect s t op t' ∧ table_ok clock' t'.
Proof.
  intros H Ht. inversion H as [? ? s ? ? ? ? Hs Hi Hp]; subst. exists s.
  assert (effect s t op t') as He.
  { pose proof (perform_effect clock clock' s t Hs Ht op) as He. by rewrite Hp in He. }
  split_and!; try done. by eapply effect_table_ok.
Qed.

Lemma run_table_ok clock t l clock' t' :
  run (clock, t) l (clock', t') → table_ok clock t → table_ok clock' t'.
Proof.
  intros H Ht. remember (clock, t) as x eqn:Ex. remember (clock', t') as y eqn:Ey.
  revert clock' t' Ey. induction H as [|l [clk u] [op a] z Hr IH Hst]; intros clock' t' Ey; subst.
  - by injection Ey as <- <-.
  - specialize (IH _ _ eq_refl). eapply step_effect in Hst as (s & _ & _ & _ & ?); done.
Qed.

Lemma reachable_ok clock t : reachable (clock, t) → table_ok clock t.
Proof. intros (c & l & H). eapply run_table_ok; [exact H|]. by intros k r Hk. Qed.

(** ** One row along a run *)
(** An operation leaves a row alone or moves it to the next version. *)
Lemma effect_row clock clock' s t op t' k r :
  session_ok clock s clock' → table_ok clock t → effect s t op t' → t !! k = Some r →
  ∃ r', t' !! k = Some r' ∧ row_attempt_count r <= row_attempt_count r'
    ∧ (r' = r ∨ row_delivery_version r' = row_delivery_version r + 1).
Proof.
  intros Hs Ht He Hr. destruct He as [op|r0 Hf Hc Hl|token worker nonce n d Hck|op c f r0 Hop Hf Hcur].
  - exists r. by split_and!; [|lia|left].
  - exists r. split_and!; [|lia|by left]. rewrite lookup_insert_ne; [done|]. congruence.
  - destruct (decide (k ∈ map row_id (candidates s n t))) as [Hk|Hk].
    + apply list_elem_of_fmap in Hk as (r1 & -> & Hr1).
      exists (claimed_as s worker nonce d r1).
      rewrite replace_rows_in; [|by eapply candidates_nodup|done].
      destruct (candidates_elem clock s n t Ht r1 Hr1) as [Hr1' _]. simplify_eq.
      split_and!; [done|cbn; case_match; lia|by right].
    + exists r. rewrite replace_rows_other by done. by split_and!; [|lia|left].
  - unfold current in Hcur. destruct (t !! cmd_job_id c) as [r1|] eqn:Hr1; [|done].
    destruct (fenced (now s) c r1); [|done]. injection Hcur as ->.
    destruct (decide (k = cmd_job_id c)) as [->|Hne].
    + exists (settled_as s f r0). rewrite lookup_insert_eq.
      rewrite Hr1 in Hr. injection Hr as <-. destruct (settlement_fields s f Hf r0) as (_ & ? & ? & _).
      split_and!; [done|cbn; lia|by right].
    + exists r. rewrite lookup_insert_ne by done. by split_and!; [|lia|left].
Qed.

Lemma run_row x l y k r :
  run x l y → table_ok (fst x) (snd x) → snd x !! k = Some r →
  ∃ r', snd y !! k = Some r'
    ∧ (r' = r ∨ row_delivery_version r < row_delivery_version r').
Proof.
  intros H Hx Hr. induction H as [|l [clk u] [op a] [clk' t'] H IH Hst]; [by exists r; auto|].
  destruct IH as (r1 & Hr1 & Hv1). destruct x as [c0 t0].
  assert (table_ok clk u) as Hu by (eapply run_table_ok; done).
  eapply step_effect in Hst as (s & Hs & _ & He & _); [|done].
  destruct (effect_row _ _ _ _ _ _ _ _ Hs Hu He Hr1) as (r2 & Hr2 & _ & Hv2).
  exists r2. split; [done|]. destruct Hv1 as [->|?], Hv2 as [->|?]; auto; right; lia.
Qed.

(** ** What a claim hands out *)
Lemma claimed_from_row_fields r c :
  _claimed_from_row r = Ok c →
  in_progress r = true ∧ cmd_job_id c = row_id r ∧ cmd_merchant_id c = row_merchant_id r
  ∧ row_lease_owner r = Some (cmd_worker_id c) ∧ row_lease_token r = Some (cmd_lease_token c)
  ∧ row_lease_expires_at r = Some (instant (cmd_lease_expires_at c))
  ∧ cmd_delivery_version c = row_delivery_version r ∧ cmd_retry_mode c = row_retry_mode r
  ∧ cmd_attempt_count c = row_attempt_count r ∧ cmd_max_attempts c = row_max_attempts r
  ∧ cmd_command_type c = row_command_type r ∧ row_command_payload r = JDict (cmd_command_payload c).
Proof.
  unfold _claimed_from_row. intros H. inv_ok.
  match goal with H : negb _ = false |- _ => apply negb_false_iff in H end.
  destruct (row_lease_owner r) as [o|]; [|done]. destruct (row_lease_token r) as [k|]; [|done].
  destruct (row_lease_expires_at r) as [e|]; [|done]. inv_ok.
  unfold ClaimedOutboxCommand_post_init, timestamp in H. inv_ok. subst c. cbn in *.
  unfold _payload in *. inv_ok. simplify_eq/=. inv_ok. simplify_eq/=.
  repeat match goal with H : _utc _ _ = Ok _ |- _ =>
    unfold _utc in H; cbn in H end.
  destruct (row_command_payload r); try done. simplify_eq. split_and!; try done.
  match goal with H : astimezone_utc (utc e) = Ok _ |- _ => rewrite astimezone_utc_id in H by done;
    apply Ok_inj in H as <- end. by rewrite instant_utc.
Qed.

Lemma collect_elem rows cs n c :
  collect rows = Ok (cs, n) → c ∈ cs → ∃ r, r ∈ rows ∧ _claimed_from_row r = Ok c.
Proof.
  revert cs n. induction rows as [|r rows IH]; intros cs n H Hc; cbn [collect] in H.
  - inv_ok. simplify_eq. by apply not_elem_of_nil in Hc.
  - assert (Hmore : ∀ res, collect rows = Ok res → c ∈ fst res →
      ∃ r', (r' ∈ r :: rows) ∧ _claimed_from_row r' = Ok c).
    { intros [cs' n'] Hres Hin. destruct (IH _ _ Hres Hin) as (r' & ? & ?). exists r'. split; [by right|done]. }
    destruct (row_status r); try discriminate H; inv_ok; simplify_eq/=; [|by eapply Hmore].
    apply elem_of_cons in Hc as [->|Hc]; [|by eapply Hmore]. exists r. split; [by left|done].
Qed.

(** The command holds the row's current lease. *)
Definition holds_row (c : ClaimedOutboxCommand) (r : OutboxRow) : Prop :=
  in_progress r = true ∧ row_merchant_id r = cmd_merchant_id c
  ∧ row_delivery_version r = cmd_delivery_version c ∧ row_attempt_count r = cmd_attempt_count c
  ∧ row_lease_owner r = Some (cmd_worker_id c) ∧ row_lease_token r = Some (cmd_lease_token c)
  ∧ row_lease_expires_at r = Some (instant (cmd_lease_expires_at c)).

(** The command is the delivery of a due row of [t], leased in [t']. *)
Definition delivered (s : Session) (worker : pystr) (duration : timedelta) (t t' : table)
    (c : ClaimedOutboxCommand) : Prop :=
  ∃ r r', t !! cmd_job_id c = Some r ∧ t' !! cmd_job_id c = Some r'
    ∧ due (now s) r = true ∧ (cmd_job_id c ∉ locked s)
    ∧ row_attempt_count r < row_max_attempts r
    ∧ cmd_attempt_count c = row_attempt_count r + 1 ∧ cmd_max_attempts c = row_max_attempts r
    ∧ cmd_delivery_version c = row_delivery_version r + 1
    ∧ cmd_retry_mode c = (if in_progress r then RECONCILE_ONLY else row_retry_mode r)
    ∧ cmd_command_type c = row_command_type r ∧ JDict (cmd_command_payload c) = row_command_payload r
    ∧ holds_row c r' ∧ cmd_worker_id c = worker
    ∧ instant (cmd_lease_expires_at c) = now s + duration.

Section delivery.
Context (clock clock' : Z) (s : Session) (t : table).
Context (Hs : session_ok clock s clock') (Ht : table_ok clock t).

Lemma claim_batch_Ok token worker n d t' b :
  claim_batch s token worker n d t = (t', Ok b) →
  ∃ nonce, check_claim token worker n d = Ok nonce
    ∧ t' = replace_rows (claimed_as s worker nonce d) (candidates s n t) t
    ∧ batch_of_rows n (merge_sort id_before (map (claimed_as s worker nonce d) (candidates s n t))) = Ok b.
Proof using Hs Ht.
  unfold claim_batch. destruct (check_claim token worker n d) as [nonce|] eqn:E; [|done].
  pose proof (check_claim_Ok _ _ _ _ _ E) as (Hw & Hn & _). intros [= Ht' Hb]. exists nonce. split; [done|].
  revert Ht' Hb. unfold transaction. destruct (connection s); cbn [fst snd]; [|done|];
    destruct (claim_statement_spec clock clock' s t Hs Ht worker nonce n d Hw Hn) as [-> _]; cbn [fst snd];
    [|done]. by intros <- <-.
Qed.

Lemma batch_of_rows_Ok n rows b :
  batch_of_rows n rows = Ok b →
  collect rows = Ok (commands b, expired_dead_lettered b) ∧ selected_count b = Z.of_nat (length rows)
  ∧ selected_count b = Z.of_nat (length (commands b)) + expired_dead_lettered b.
Proof.
  unfold batch_of_rows, OutboxClaimBatch_post_init. intros H. inv_ok. bools. subst b. cbn in *.
  by destruct r0.
Qed.

Lemma candidate_delivered worker nonce n d r c :
  clean_text 128 worker = true → clean_text 96 nonce = true →
  r ∈ candidates s n t → _claimed_from_row (claimed_as s worker nonce d r) = Ok c →
  delivered s worker d t (replace_rows (claimed_as s worker nonce d) (candidates s n t) t) c.
Proof using Hs Ht.
  intros Hw Hn Hr Hc. pose proof (candidates_nodup clock s n t Ht) as Hnd.
  destruct (candidates_elem clock s n t Ht r Hr) as (Hlook & Hd & Hlock).
  apply claimed_from_row_fields in Hc as (Hp & Hid & Hm & Ho & Htok & He & Hv & Hmode & Ha & Hmax & Hct & Hpay).
  change (row_id (claimed_as s worker nonce d r)) with (row_id r) in Hid.
  unfold in_progress in Hp. apply bool_decide_true_1 in Hp. cbn in Hp.
  destruct (Z.leb_spec (row_max_attempts r) (row_attempt_count r)) as [Hx|Hx]; [done|].
  apply Z.leb_gt in Hx as Hx'. unfold delivered. rewrite Hid. exists r, (claimed_as s worker nonce d r).
  rewrite replace_rows_in by done. unfold holds_row. cbn in *. rewrite Hx' in *. injection Ho as <-.
  injection He as <-. split_and!; try done. unfold in_progress. cbn. by rewrite Hx'.
Qed.

Lemma claim_delivers token worker n d t' b c :
  claim_batch s token worker n d t = (t', Ok b) → c ∈ commands b → delivered s worker d t t' c.
Proof using Hs Ht.
  intros (nonce & Hck & -> & Hb)%claim_batch_Ok Hc.
  apply batch_of_rows_Ok in Hb as (Hcol & _). destruct (collect_elem _ _ _ _ Hcol Hc) as (r' & Hr' & Hrow).
  rewrite merge_sort_Permutation in Hr'. apply list_elem_of_fmap in Hr' as (r & -> & Hr).
  apply check_claim_Ok in Hck as (Hw & Hn & _). by eapply candidate_delivered.
Qed.
End delivery.

(** ** A claim succeeds *)
(** The texts Python checks more strictly than the schema does. *)
Definition dispatchable (r : OutboxRow) : Prop :=
  clean_text 100 (row_aggregate_type r) = true ∧ clean_text 200 (row_aggregate_id r) = true
  ∧ clean_text 100 (row_command_type r) = true ∧ clean_text 300 (row_idempotency_key r) = true.

Lemma _clean_text_intro v field m : clean_text m v = true → _clean_text v field m = Ok v.
Proof. unfold _clean_text. by intros ->. Qed.

Lemma ulid_visible s : is_ulid s = true → s ≠ [] ∧ forallb visible s = true.
Proof.
  intros H. pose proof (ulid_length s H) as Hl. unfold is_ulid in H. apply andb_true_iff in H as [_ H].
  split; [by intros ->|]. apply forallb_Forall. apply forallb_Forall in H.
  eapply Forall_impl; [exact H|]. cbn. unfold visible, is_digit, between. intros c Hc. lia.
Qed.

Lemma str_of_Z_visible n : 0 <= n → forallb visible (str_of_Z n) = true.
Proof.
  intros Hn. unfold str_of_Z. destruct (Z.ltb_spec n 0); [lia|].
  apply forallb_Forall, Forall_fmap. eapply Forall_impl; [by apply digits_range|].
  unfold visible, between, digit_char. cbn. lia.
Qed.

Section claim_total.
Context (clock clock' : Z) (s : Session) (t : table).
Context (Hs : session_ok clock s clock') (Ht : table_ok clock t).
Context (worker nonce : pystr) (duration : timedelta).
Context (Hw : clean_text 128 worker = true) (Hn : clean_text 96 nonce = true).
Implicit Types (r : OutboxRow).

Lemma lease_token_clean r :
  is_ulid (row_id r) = true → 0 <= row_delivery_version r + 1 < max_int8 →
  clean_text 200 (nonce ++ $":" ++ row_id r ++ $":" ++ str_of_Z (row_delivery_version r + 1)) = true.
Proof using Hn.
  intros Hid Hv. pose proof (ulid_visible _ Hid) as [_ Hvis]. pose proof (ulid_length _ Hid) as Hlen.
  assert (str_len (str_of_Z (row_delivery_version r + 1)) <= 19) as Hd.
  { apply (str_of_Z_length 18). unfold max_int8 in Hv. change (10 ^ Z.of_nat 19) with 10000000000000000000. lia. }
  rewrite (clean_text_suffix 96); [|done|done|].
  - apply Z.leb_le. pose proof Hn as H. unfold clean_text in H. bools. unfold str_len in *.
    rewrite !length_app. change (length ($":")) with 1%nat. lia.
  - rewrite !forallb_app, Hvis, str_of_Z_visible by lia. done.
Qed.

Lemma claimed_command r :
  row_ok clock (row_id r) r → due (now s) r = true → dispatchable r →
  row_attempt_count r < row_max_attempts r → stamps s (row_id r) < now s + duration →
  is_ok (_claimed_from_row (claimed_as s worker nonce duration r)) = true.
Proof using Hs Hw Hn.
  intros Hr Hd (Hat & Hai & Hct & Hik) Ha Hlease.
  destruct (claim_write clock clock' s worker nonce duration Hs Hw Hn _ r Hr Hd) as [_ Hok].
  pose proof (ok_constraints _ _ _ Hok) as Hc. apply row_constraints_iff in Hc as (Hcol & _ & _ & _ & _ & _ & Hcr).
  pose proof (ok_constraints _ _ _ Hr) as Hc. apply row_constraints_iff in Hc as (Hcol0 & _).
  pose proof (column_facts _ Hcol0) as (Hid & Ha0 & Hmax & Hv0).
  pose proof (version_below_int8 _ (ok_version _ _ _ Hr) ltac:(lia)) as Hv.
  pose proof (lease_token_clean r Hid ltac:(lia)) as Htok.
  assert (is_ulid (row_merchant_id r) = true ∧ 1 <= row_command_schema_version r
    ∧ ∃ d, row_command_payload r = JDict d) as (Hm & Hsv & d & Hpay).
  { unfold column_constraints, between in Hcol0. rewrite !andb_true_iff in Hcol0.
    destruct (row_command_payload r); try (exfalso; intuition discriminate).
    split_and!; [tauto|lia|eauto]. }
  apply Z.leb_gt in Ha as Ha'. unfold _claimed_from_row, in_progress. cbn. rewrite Ha'. cbn. rewrite Hpay. cbn.
  unfold ClaimedOutboxCommand_post_init, _internal_ulid, _positive_int, _utc, timestamp. cbn.
  rewrite Hid, Hm, (_clean_text_intro _ _ _ Hat), (_clean_text_intro _ _ _ Hai),
    (_clean_text_intro _ _ _ Hct), (_clean_text_intro _ _ _ Hik), (_clean_text_intro _ _ _ Hw),
    (_clean_text_intro _ _ _ Htok). cbn.
  rewrite !(proj2 (Z.ltb_ge _ _)) by lia. cbn. rewrite !astimezone_utc_id by done. cbn.
  unfold dt_ltb, dt_leb. rewrite !instant_utc. cbn in Hcr.
  rewrite (proj2 (Z.ltb_ge _ _)) by lia. rewrite (proj2 (Z.leb_gt _ _)) by lia. done.
Qed.

Lemma collect_ids rows cs n :
  collect rows = Ok (cs, n) → map cmd_job_id cs `sublist_of` map row_id rows.
Proof.
  revert cs n. induction rows as [|r rows IH]; intros cs n H; cbn [collect] in H.
  - inv_ok. by simplify_eq.
  - destruct (row_status r); try discriminate H; inv_ok; simplify_eq/=;
      match goal with H : collect rows = Ok ?p |- _ => destruct p as [cs' n'] end.
    + match goal with H : _claimed_from_row _ = Ok _ |- _ => apply claimed_from_row_fields in H as (_ & -> & _) end.
      apply sublist_skip. by eapply IH.
    + apply sublist_cons. by eapply IH.
Qed.
End claim_total.

Lemma collect_total rows :
  (∀ r, r ∈ rows → row_status r = ST_DEAD_LETTER
                   ∨ row_status r = ST_IN_PROGRESS ∧ is_ok (_claimed_from_row r) = true) →
  ∃ cs n, collect rows = Ok (cs, n) ∧ 0 <= n ∧ Z.of_nat (length cs) + n = Z.of_nat (length rows).
Proof.
  induction rows as [|r rows IH]; intros H; cbn [collect]; [by exists [], 0|].
  destruct IH as (cs & n & IH & Hn & Hlen); [intros r' Hr'; apply H; by right|].
  destruct (H r ltac:(by left)) as [->|[-> [c Hc]%is_ok_true]]; rewrite IH; cbn [mbind result_bind fst snd].
  - exists cs, (n + 1). cbn [length]. split_and!; [done|lia|lia].
  - rewrite Hc. exists (c :: cs), n. cbn [length mbind result_bind fst snd]. split_and!; [done|lia|lia].
Qed.

Lemma collect_complete rows cs n r :
  collect rows = Ok (cs, n) → r ∈ rows → row_status r = ST_IN_PROGRESS →
  row_id r ∈ map cmd_job_id cs.
Proof.
  revert cs n. induction rows as [|r0 rows IH]; intros cs n H Hr Hst; [by apply not_elem_of_nil in Hr|].
  cbn [collect] in H. apply elem_of_cons in Hr as [<-|Hr].
  - rewrite Hst in H. inv_ok. simplify_eq/=.
    match goal with H : _claimed_from_row _ = Ok _ |- _ => apply claimed_from_row_fields in H as (_ & -> & _) end.
    by left.
  - destruct (row_status r0); try discriminate H; inv_ok; simplify_eq/=;
      match goal with H : collect rows = Ok ?p |- _ => destruct p as [cs' n'] end; [right|];
      by eapply IH.
Qed.

Lemma batch_total n rows :
  (∀ r, r ∈ rows → row_status r = ST_DEAD_LETTER
                   ∨ row_status r = ST_IN_PROGRESS ∧ is_ok (_claimed_from_row r) = true) →
  Z.of_nat (length rows) <= n →
  ∃ b, batch_of_rows n rows = Ok b
    ∧ ∀ r, r ∈ rows → row_status r = ST_IN_PROGRESS → row_id r ∈ map cmd_job_id (commands b).
Proof.
  intros H Hn. destruct (collect_total rows H) as (cs & m & Hc & Hm & Hlen).
  exists (mkOutboxClaimBatch (Z.of_nat (length rows)) cs m). split; [|by intros r; eapply collect_complete].
  unfold batch_of_rows, OutboxClaimBatch_post_init. rewrite Hc. cbn.
  rewrite !(proj2 (Z.ltb_ge _ _)) by lia. by rewrite Hlen, Z.eqb_refl.
Qed.

(** ** Who comes first *)
(** The claimable rows that a claim takes no later than [r], itself included. *)
Definition queue_up_to (s : Session) (t : table) (r : OutboxRow) : list OutboxRow :=
  filter (λ r', claimable s r' ∧ claim_before r' r) (map snd (map_to_list t)).

Lemma sorted_prefix (l : list OutboxRow) (P : OutboxRow → Prop) `{!∀ x, Decision (P x)} n :
  (∀ i x, l !! i = Some x → (i < n)%nat → P x) → (n <= length l)%nat → (n <= length (filter P l))%nat.
Proof.
  revert l. induction n as [|n IH]; intros l Hl Hn; [lia|]. destruct l as [|x l]; cbn in Hn; [lia|].
  rewrite filter_cons_True by (eapply (Hl 0%nat); [done|lia]). cbn [length].
  assert (n <= length (filter P l))%nat; [|lia]. apply IH; [|lia].
  intros i y Hi Hlt. eapply (Hl (S i)); [done|lia].
Qed.

Lemma candidate_in_time clock s n t r :
  table_ok clock t → t !! row_id r = Some r → claimable s r →
  Z.of_nat (length (queue_up_to s t r)) <= n → r ∈ candidates s n t.
Proof.
  intros Ht Hr Hc Hq.
  assert (r ∈ sorted_candidates s t) as Hin by (by eapply elem_of_sorted_candidates).
  apply list_elem_of_lookup in Hin as [i Hi]. apply elem_of_take. exists i. split; [done|].
  assert (S i <= length (filter (λ r', claim_before r' r) (sorted_candidates s t)))%nat as Hlen.
  { apply sorted_prefix; [|by apply lookup_lt_Some in Hi].
    intros j x Hj Hlt. destruct (decide (j = i)) as [->|Hne].
    { assert (x = r) as -> by congruence. right. split; [done|]. apply str_ltb_irrefl. }
    pose proof (StronglySorted_merge_sort claim_before (filter (claimable s) (map snd (map_to_list t)))) as Hsort.
    fold (sorted_candidates s t) in Hsort.
    rewrite <- (take_drop i (sorted_candidates s t)) in Hsort.
    eapply StronglySorted_app_1_elem_of; [exact Hsort| |].
    - apply elem_of_take. exists j. split; [done|lia].
    - eapply list_elem_of_lookup_2 with (i := 0%nat). by rewrite lookup_drop, Nat.add_0_r. }
  assert (length (filter (λ r', claim_before r' r) (sorted_candidates s t)) = length (queue_up_to s t r)) as E.
  { unfold sorted_candidates. rewrite merge_sort_Permutation, list_filter_filter. f_equal.
    apply list_filter_iff. intros x. tauto. }
  rewrite E in Hlen. lia.
Qed.

Lemma due_intro at_ r :
  row_constraints r = true → terminal_row r = false → due_at r <= at_ → due at_ r = true.
Proof.
  rewrite row_constraints_iff. intros (_ & _ & Hl & _) Ht Hd. unfold due, due_at, lease_constraint in *.
  destruct (in_progress r) eqn:Hp.
  - bools. destruct (row_lease_expires_at r) as [e|]; [|done]. cbn in *.
    rewrite (proj2 (Z.leb_le _ _) Hd). by rewrite orb_true_r.
  - assert (waiting_row r = true) as ->.
    { unfold terminal_row, in_progress, waiting_row in *. by destruct (row_status r). }
    by rewrite (proj2 (Z.leb_le _ _) Hd).
Qed.

(** ** Lost fences *)
Section lost.
Context (clock clock' : Z) (s : Session) (t : table).
Context (Hs : session_ok clock s clock') (Ht : table_ok clock t).

Lemma settle_lost name c f :
  settlement (now s) f → current s t c = None →
  fst (_settle s name c f t) = t ∧ ∃ e, snd (_settle s name c f t) = Raise e
    ∧ (connection s = NoFault → e = OutboxFenceLost (name +:+ " lost its fenced lease")).
Proof using Hs Ht.
  intros Hf Hc. destruct (settle_statement_spec clock clock' s t Hs Ht c f Hf) as [Hst _].
  rewrite Hc in Hst. unfold _settle, transaction. destruct (connection s); cbn; rewrite ?Hst; cbn;
    (split; [done|]); eexists; split; done.
Qed.

Lemma perform_lost op c :
  settles_command op = Some c → current s t c = None →
  fst (perform s op t) = t ∧ ∀ a, snd (perform s op t) ≠ Ok a.
Proof using Hs Ht.
  assert (Hdl : ∀ c reason, current s t c = None → fst (dead_letter s c reason t) = t
    ∧ ∃ e, snd (dead_letter s c reason t) = Raise e).
  { intros c0 reason Hc. unfold dead_letter, checked. destruct (_clean_text _ _ _) eqn:E; [|eauto].
    apply clean_text_checked in E as [E _].
    edestruct (settle_lost "dead_letter" c0 _ (settle_dead_letter _ _ E) Hc) as (? & e & ? & _). eauto. }
  intros Hop Hc. destruct op as [| |c' reference|backoff c' reason mode|c' reason]; try discriminate Hop;
    injection Hop as ->; cbn [perform fst snd].
  - unfold complete, checked. destruct (_clean_text _ _ _) eqn:E; [|split; [done|by intros ?]].
    apply clean_text_checked in E as [E _].
    edestruct (settle_lost "complete" c _ (settle_complete _ _ E) Hc) as (-> & e & -> & _). split; [done|by intros ?].
  - unfold retry, checked. destruct (_clean_text _ _ _) eqn:E; [|split; [done|by intros ?]].
    apply clean_text_checked in E as [E _]. case_match.
    + destruct (_prefixed_reason _ _) as [reason'|]; [|split; [done|by intros ?]].
      destruct (Hdl c reason' Hc) as (-> & e & ->). split; [done|by intros ?].
    + destruct (delay_after _ _) as [delay|]; [|split; [done|by intros ?]].
      edestruct (settle_lost "retry" c _ (settle_retry _ delay _ mode E) Hc) as (-> & e & -> & _).
      split; [done|by intros ?].
  - destruct (Hdl c reason Hc) as (-> & e & ->). split; [done|by intros ?].
Qed.
End lost.

(** A settlement on a working connection. *)
Lemma settle_swap clock clock' s t name c f :
  session_ok clock s clock' → table_ok clock t → connection s = NoFault → settlement (now s) f →
  _settle s name c f t
  = match current s t c with
    | Some r => (<[cmd_job_id c := settled_as s f r]> t, Ok (cmd_delivery_version c + 1))
    | None => (t, Raise (OutboxFenceLost (name +:+ " lost its fenced lease")))
    end.
Proof.
  intros Hs Ht Hconn Hf. unfold _settle, transaction. rewrite Hconn.
  destruct (settle_statement_spec clock clock' s t Hs Ht c f Hf) as [-> _].
  destruct (current s t c); cbn; [by rewrite Z.eqb_refl|done].
Qed.

(** * Properties *)
(** C22: the schema never refuses the repository.  In every reachable table each
    row satisfies the constraints of the schema, and no claim or settlement, by
    any caller with any arguments, is refused by a constraint or by the
    lifecycle trigger: an error of the database can only come from the
    connection. *)
Theorem schema_never_refuses clock t s clock' op :
  reachable (clock, t) → session_ok clock s clock' → token_trusted op → trusted_session s →
  (∀ k r, t !! k = Some r → row_id r = k ∧ row_constraints r = true)
  ∧ ∀ m, snd (perform s op t) ≠ Raise (DatabaseError m).
Proof.
  intros Hr Hs Hop Htr. pose proof (reachable_ok _ _ Hr) as Ht. split.
  - intros k r Hk. split; [exact (ok_id _ _ _ (Ht _ _ Hk))|exact (ok_constraints _ _ _ (Ht _ _ Hk))].
  - intros m. by eapply perform_no_refusal.
Qed.

(** C26: a settlement is a compare-and-swap.  On a working connection [complete],
    [dead_letter] and a [retry] with attempts left write the settled row and
    return the next version exactly when the row still carries the command's
    merchant, version, owner and token and its lease has not expired; otherwise
    they raise [OutboxFenceLost] and change nothing. *)
Theorem settlement_is_compare_and_swap clock t s clock' c :
  reachable (clock, t) → session_ok clock s clock' → connection s = NoFault →
  let swap (name : string) f :=
    match current s t c with
    | Some r => (<[cmd_job_id c := settled_as s f r]> t, Ok (cmd_delivery_version c + 1))
    | None => (t, Raise (OutboxFenceLost (name +:+ " lost its fenced lease")))
    end in
  (∀ r, current s t c = Some r ↔
     t !! cmd_job_id c = Some r ∧ row_merchant_id r = cmd_merchant_id c ∧ in_progress r = true
     ∧ row_delivery_version r = cmd_delivery_version c ∧ row_lease_owner r = Some (cmd_worker_id c)
     ∧ row_lease_token r = Some (cmd_lease_token c)
     ∧ ∃ e, row_lease_expires_at r = Some e ∧ now s < e)
  ∧ (∀ reference, clean_text 500 reference = true →
       complete s c reference t = swap "complete" (complete_row (now s) reference))
  ∧ (∀ reason, clean_text 500 reason = true →
       dead_letter s c reason t = swap "dead_letter" (dead_letter_row (now s) reason))
  ∧ (∀ backoff reason mode delay, clean_text 500 reason = true →
       cmd_attempt_count c < cmd_max_attempts c → delay_after backoff (cmd_attempt_count c) = Ok delay →
       retry backoff s c reason mode t = swap "retry" (retry_row (now s) delay reason mode)).
Proof.
  intros Hr Hs Hconn swap. pose proof (reachable_ok _ _ Hr) as Ht.
  assert (Hswap : ∀ name f, settlement (now s) f → _settle s name c f t = swap name f).
  { intros name f Hf. by eapply settle_swap. }
  split_and!.
  - intros r. unfold current. destruct (t !! cmd_job_id c) as [r'|]; [|split; [done|by intros [? _]]].
    unfold fenced, when_not_null. split.
    + case_match eqn:E; [|done]. intros [= ->]. bools. destruct (row_lease_expires_at r) as [e|]; [|done].
      apply Z.ltb_lt in E0. split_and!; try done. by exists e.
    + intros ([= ->] & Hm & Hp & Hv & Ho & Htok & e & He & Hlt). rewrite Hm, Hp, Hv, Ho, Htok, He.
      rewrite !bool_decide_true by done. rewrite Z.eqb_refl, (proj2 (Z.ltb_lt _ _) Hlt). done.
  - intros reference Hc. unfold complete, checked. rewrite (_clean_text_intro _ _ _ Hc).
    by apply Hswap, settle_complete.
  - intros reason Hc. unfold dead_letter, checked. rewrite (_clean_text_intro _ _ _ Hc).
    by apply Hswap, settle_dead_letter.
  - intros backoff reason mode delay Hc Ha Hd. unfold retry, checked.
    rewrite (_clean_text_intro _ _ _ Hc), (proj2 (Z.leb_gt _ _) Ha), Hd. by apply Hswap, settle_retry.
Qed.

(** a delivery settles at most once, and not after a takeover.  Once the row
    of a delivered command has changed, every settlement with that command
    fails and leaves the table alone. *)
Theorem stale_delivery_fenced x token worker n d b y c l z s clock' op :
  reachable x → step x (ClaimBatch token worker n d, Ok (Batch b)) y → c ∈ commands b →
  run y l z → snd z !! cmd_job_id c ≠ snd y !! cmd_job_id c →
  session_ok (fst z) s clock' → settles_command op = Some c →
  fst (perform s op (snd z)) = snd z ∧ ∀ a, snd (perform s op (snd z)) ≠ Ok a.
Proof.
  destruct x as [ck0 t0], y as [ck1 t1], z as [ck2 t2]. cbn [fst snd].
  intros Hr Hst Hc Hrun Hne Hs Hop. pose proof (reachable_ok _ _ Hr) as Ht0.
  destruct (step_effect _ _ _ _ _ _ Hst Ht0) as (s0 & Hs0 & Hp & _ & Ht1).
  cbn [perform] in Hp. destruct (claim_batch s0 token worker n d t0) as [t1' [b'|e]] eqn:Hcl; [|done].
  cbn in Hp. injection Hp as -> ->.
  destruct (claim_delivers ck0 ck1 s0 t0 Hs0 Ht0 _ _ _ _ _ _ _ Hcl Hc)
    as (r & r' & _ & Hr' & _ & _ & _ & _ & _ & _ & _ & _ & _ & Hhold & _).
  destruct (run_row _ _ _ _ _ Hrun Ht1 Hr') as (r2 & Hr2 & Hv2). cbn [snd] in *.
  assert (table_ok ck2 t2) as Ht2 by (eapply run_table_ok; done).
  eapply perform_lost; [exact Hs|exact Ht2|exact Hop|].
  unfold current. rewrite Hr2. unfold fenced. destruct Hhold as (_ & _ & Hv & _).
  destruct Hv2 as [->|Hv2]; [congruence|].
  destruct (Z.eqb_spec (row_delivery_version r2) (cmd_delivery_version c)); [lia|].
  by rewrite andb_false_r.
Qed.

(** C23: a live lease is exclusive.  While a lease has not expired the only
    operation that can change its row is a settlement by its holder: by a
    command with the row's version, owner and token. *)
Theorem live_lease_exclusive clock t k r e s clock' op :
  reachable (clock, t) → t !! k = Some r → in_progress r = true →
  row_lease_expires_at r = Some e → session_ok clock s clock' → now s < e →
  fst (perform s op t) !! k ≠ Some r →
  ∃ c, settles_command op = Some c ∧ cmd_job_id c = k
    ∧ row_delivery_version r = cmd_delivery_version c
    ∧ row_lease_owner r = Some (cmd_worker_id c) ∧ row_lease_token r = Some (cmd_lease_token c).
Proof.
  intros Hr Hk Hp He Hs Hlt Hne. pose proof (reachable_ok _ _ Hr) as Ht.
  pose proof (perform_effect clock clock' s t Hs Ht op) as Heff.
  destruct Heff as [op|r0 Hf _ _|token worker nonce n d Hck|op c f r0 Hop Hf Hcur]; [done| | |].
  - exfalso. apply Hne. rewrite lookup_insert_ne; congruence.
  - exfalso. apply Hne. rewrite replace_rows_other; [done|].
    intros (r1 & -> & Hr1)%list_elem_of_fmap.
    destruct (candidates_elem clock s n t Ht r1 Hr1) as (Hr1' & Hd & _). simplify_eq.
    destruct (due_cases _ _ Hd) as [(_ & ? & _)|(_ & _ & e' & ? & ?)]; [congruence|]. simplify_eq. lia.
  - unfold current in Hcur. destruct (t !! cmd_job_id c) as [r1|] eqn:Hr1; [|done].
    destruct (fenced (now s) c r1) eqn:Hfence; [|done]. injection Hcur as ->.
    destruct (decide (cmd_job_id c = k)) as [<-|Hneq]; [|by rewrite lookup_insert_ne in Hne].
    assert (r0 = r) as -> by congruence. exists c. unfold fenced in Hfence. by bools.
Qed.

(** a claim hands out due jobs only.  Every command of a returned batch is
    the next delivery of a due, unlocked row with attempts left, now leased to
    the worker for the duration; a row taken over from an expired lease is
    handed out for reconciliation only.  No job occurs twice, the batch accounts
    for every selected row within its bound, and rows not due are unchanged. *)
Theorem claim_hands_out_due_jobs clock t s clock' token worker n d t' b :
  reachable (clock, t) → session_ok clock s clock' →
  claim_batch s token worker n d t = (t', Ok b) →
  (∀ c, c ∈ commands b → delivered s worker d t t' c)
  ∧ NoDup (map cmd_job_id (commands b))
  ∧ selected_count b = Z.of_nat (length (commands b)) + expired_dead_lettered b
  ∧ selected_count b <= n <= 100
  ∧ ∀ k r, t !! k = Some r → ¬ claimable s r → t' !! k = Some r.
Proof.
  intros Hr Hs Hcl. pose proof (reachable_ok _ _ Hr) as Ht.
  split; [by intros c; eapply claim_delivers|].
  destruct (claim_batch_Ok clock clock' s t Hs Ht _ _ _ _ _ _ Hcl) as (nonce & Hck & -> & Hb).
  apply check_claim_Ok in Hck as (_ & _ & Hn & _).
  apply batch_of_rows_Ok in Hb as (Hcol & Hsel & Hcount).
  pose proof (candidates_nodup clock s n t Ht) as Hnd.
  split_and!; [|done| |lia|].
  - eapply sublist_NoDup; [|by eapply collect_ids]. rewrite merge_sort_Permutation, map_map. exact Hnd.
  - rewrite Hsel, merge_sort_Permutation, length_map. pose proof (candidates_length s n t). lia.
  - intros k r Hk Hnc. rewrite replace_rows_other; [done|]. intros (r1 & -> & Hr1)%list_elem_of_fmap.
    destruct (candidates_elem clock s n t Ht r1 Hr1) as [Hr1' Hc]. by simplify_eq.
Qed.

(** C25: a due job is delivered.  On a working connection a claim takes every
    unlocked, unfinished row that is due and has fewer than [n] claimable rows
    before it (earliest first, then by id): a row without attempts left becomes
    a dead letter, any other is leased.  When the texts of the claimable rows
    are clean and the statement is faster than the lease, the batch is returned
    and holds the command. *)
Theorem due_job_delivered clock t s clock' token worker n d nonce k r :
  reachable (clock, t) → session_ok clock s clock' → connection s = NoFault →
  check_claim token worker n d = Ok nonce →
  t !! k = Some r → terminal_row r = false → due_at r <= now s → k ∉ locked s →
  Z.of_nat (length (queue_up_to s t r)) <= n →
  (∃ r', fst (claim_batch s token worker n d t) !! k = Some r'
    ∧ row_delivery_version r' = row_delivery_version r + 1
    ∧ (if row_max_attempts r <=? row_attempt_count r then row_status r' = ST_DEAD_LETTER
       else row_status r' = ST_IN_PROGRESS ∧ row_lease_owner r' = Some worker
            ∧ row_lease_expires_at r' = Some (now s + d)))
  ∧ ((∀ r', r' ∈ map snd (map_to_list t) → claimable s r' → dispatchable r') →
     (∀ id, stamps s id < now s + d) →
     ∃ b, snd (claim_batch s token worker n d t) = Ok b
       ∧ (row_attempt_count r < row_max_attempts r → k ∈ map cmd_job_id (commands b))).
Proof.
  intros Hr Hs Hconn Hck Hk Hnt Hdue Hlock Hq. pose proof (reachable_ok _ _ Hr) as Ht.
  pose proof (ok_id _ _ _ (Ht _ _ Hk)) as Hid. subst k.
  assert (Hc : claimable s r).
  { split; [|done]. apply due_intro; [exact (ok_constraints _ _ _ (Ht _ _ Hk))|done|done]. }
  pose proof (candidate_in_time clock s n t r Ht Hk Hc Hq) as Hin.
  pose proof (candidates_nodup clock s n t Ht) as Hnd.
  pose proof (check_claim_Ok _ _ _ _ _ Hck) as (Hw & Hn & Hbound & _).
  set (g := claimed_as s worker nonce d) in *. set (rows := candidates s n t) in *.
  assert (Hcl : claim_batch s token worker n d t
    = (replace_rows g rows t, batch_of_rows n (merge_sort id_before (map g rows)))).
  { unfold claim_batch, transaction. rewrite Hck, Hconn.
    by destruct (claim_statement_spec clock clock' s t Hs Ht worker nonce n d Hw Hn) as [-> _]. }
  rewrite Hcl. cbn [fst snd]. split.
  - exists (g r). rewrite replace_rows_in by done. split_and!; [done|done|]. cbn. by case_match.
  - intros Hdisp Hfast.
    destruct (batch_total n (merge_sort id_before (map g rows))) as (b & Hb & Hall).
    + intros r1 Hr1. rewrite merge_sort_Permutation in Hr1. apply list_elem_of_fmap in Hr1 as (r' & -> & Hr').
      destruct (candidates_elem clock s n t Ht r' Hr') as [Hl Hc'].
      cbn [g claimed_as set_updated_at set_evidence row_status claim_row set_delivery].
      destruct (Z.leb_spec (row_max_attempts r') (row_attempt_count r')); [by left|right; split; [done|]].
      apply (claimed_command clock clock'); [done|done|done|by apply Ht|apply Hc'| |done|done].
      apply Hdisp; [|done]. by eapply table_rows.
    + rewrite merge_sort_Permutation, length_map. pose proof (candidates_length s n t). unfold rows. lia.
    + exists b. split; [done|]. intros Ha%Z.leb_gt. change (row_id r) with (row_id (g r)). apply Hall.
      * rewrite merge_sort_Permutation. apply list_elem_of_fmap. by exists r.
      * cbn. by rewrite Ha.
Qed.

(** The deliveries of a job along a run. *)
Definition handed (a : operation * result answer) : list ClaimedOutboxCommand :=
  match a with (ClaimBatch _ _ _ _, Ok (Batch b)) => commands b | _ => [] end.
Definition deliveries (k : pystr) (l : list (operation * result answer)) : Z :=
  Z.of_nat (length (filter (λ c, cmd_job_id c = k) (concat (map handed l)))).

Lemma count_unique (k : pystr) cs :
  NoDup (map cmd_job_id cs) → (length (filter (λ c, cmd_job_id c = k) cs) <= 1)%nat
    ∧ (k ∉ map cmd_job_id cs → filter (λ c, cmd_job_id c = k) cs = []).
Proof.
  induction cs as [|c cs IH]; intros Hnd; [split; [cbn; lia|done]|]. cbn [map] in *.
  apply NoDup_cons in Hnd as [Hni Hnd]. destruct (IH Hnd) as [IH1 IH2].
  rewrite filter_cons. case_decide as Hk.
  - subst k. rewrite (IH2 Hni). split; [cbn; lia|]. intros Hx. exfalso. apply Hx. by left.
  - split; [done|]. intros Hx. apply IH2. by intros ?; apply Hx; right.
Qed.

(** A step hands a job out at most once, and counts it in the row. *)
Lemma step_deliveries clock t op a clock' t' k :
  step (clock, t) (op, a) (clock', t') → table_ok clock t →
  let n := Z.of_nat (length (filter (λ c, cmd_job_id c = k) (handed (op, a)))) in
  match t !! k with
  | Some r => ∃ r', t' !! k = Some r' ∧ row_attempt_count r + n <= row_attempt_count r'
  | None => n = 0
  end.
Proof.
  intros Hst Ht. destruct (step_effect _ _ _ _ _ _ Hst Ht) as (s & Hs & Hp & He & Ht').
  assert (handed (op, a) = [] ∨ ∃ token w n d b, op = ClaimBatch token w n d ∧ a = Ok (Batch b)) as [->|Hb].
  { destruct op, a as [[| |]|]; cbn; auto. right. do 5 eexists. done. }
  { destruct (t !! k) as [r|] eqn:Hk; [|done].
    destruct (effect_row _ _ _ _ _ _ _ _ Hs Ht He Hk) as (r' & ? & ? & _). exists r'. cbn. split; [done|lia]. }
  destruct Hb as (token & w & n & d & b & -> & ->). cbn [handed perform] in *.
  destruct (claim_batch s token w n d t) as [t1 [b'|]] eqn:Hcl; [|done]. injection Hp as -> ->.
  destruct (claim_batch_Ok clock clock' s t Hs Ht _ _ _ _ _ _ Hcl) as (nonce & _ & _ & Hbr).
  apply batch_of_rows_Ok in Hbr as (Hcol & _).
  assert (NoDup (map cmd_job_id (commands b))) as Hnd.
  { eapply sublist_NoDup; [|by eapply collect_ids]. rewrite merge_sort_Permutation, map_map.
    exact (candidates_nodup clock s n t Ht). }
  destruct (count_unique k (commands b) Hnd) as [Hle Hnone].
  assert (Hdel : ∀ c, c ∈ commands b → cmd_job_id c = k →
    ∃ r r', t !! k = Some r ∧ t' !! k = Some r' ∧ row_attempt_count r' = row_attempt_count r + 1).
  { intros c Hc <-. destruct (claim_delivers clock clock' s t Hs Ht _ _ _ _ _ _ _ Hcl Hc)
      as (r & r' & Hr & Hr' & _ & _ & _ & Ha & _ & _ & _ & _ & _ & (_ & _ & _ & Ha' & _) & _).
    exists r, r'. split_and!; [done|done|congruence]. }
  destruct (decide (k ∈ map cmd_job_id (commands b))) as [Hin|Hni].
  - apply list_elem_of_fmap in Hin as (c & Hk & Hc). destruct (Hdel c Hc (eq_sym Hk)) as (r & r' & -> & Hr' & Ha).
    exists r'. split; [done|lia].
  - rewrite (Hnone Hni). cbn. destruct (t !! k) as [r|] eqn:Hk; [|done].
    destruct (effect_row _ _ _ _ _ _ _ _ Hs Ht He Hk) as (r' & ? & ? & _). exists r'. split; [done|lia].
Qed.

Lemma deliveries_snoc k l e :
  deliveries k (l ++ [e])
  = deliveries k l + Z.of_nat (length (filter (λ c, cmd_job_id c = k) (handed e))).
Proof.
  unfold deliveries. rewrite map_app, concat_app. cbn [map concat].
  rewrite app_nil_r, filter_app, length_app. lia.
Qed.

(** C24: the attempt budget is a bound on deliveries.  However the operations of
    any number of processes interleave, a job is handed to handlers at most
    [max_attempts] times. *)
Theorem deliveries_bounded clock l clock' t k :
  run (clock, ∅) l (clock', t) →
  match t !! k with
  | Some r => deliveries k l <= row_attempt_count r <= row_max_attempts r
  | None => deliveries k l = 0
  end.
Proof.
  intros H. enough (match t !! k with Some r => deliveries k l <= row_attempt_count r
                    | None => deliveries k l = 0 end) as Hd.
  { pose proof (reachable_ok clock' t (ex_intro _ clock (ex_intro _ l H))) as Ht.
    destruct (t !! k) as [r|] eqn:Hk; [|done]. pose proof (ok_constraints _ _ _ (Ht _ _ Hk)) as Hc.
    apply row_constraints_iff in Hc as (_ & ? & _). done. }
  remember (clock', t) as y eqn:Ey. revert clock' t Ey.
  induction H as [|l [c1 t1] [op a] z Hr IH Hst]; intros clock' t Ey; subst.
  - injection Ey as <- <-. by rewrite lookup_empty.
  - specialize (IH _ _ eq_refl). pose proof (reachable_ok c1 t1 (ex_intro _ clock (ex_intro _ l Hr))) as Ht1.
    destruct (step_effect _ _ _ _ _ _ Hst Ht1) as (_ & _ & _ & _ & Ht).
    pose proof (step_deliveries _ _ _ _ _ _ k Hst Ht1) as Hn. rewrite deliveries_snoc.
    destruct (t1 !! k) as [r|] eqn:Hk.
    + destruct Hn as (r' & -> & Hn). lia.
    + rewrite IH, Hn. destruct (t !! k) as [r'|] eqn:Hk'; [|done].
      pose proof (ok_constraints _ _ _ (Ht _ _ Hk')) as Hc. apply row_constraints_iff in Hc as (Hcol & _).
      apply column_facts in Hcol as (_ & ? & _). lia.
Qed.

(** * Examples *)
Definition sample_id : pystr := $"01ARZ3NDEKTSV4RRFFQ69G5FAV".
Definition sample_row : OutboxRow :=
  new_row sample_id ($"01ARZ3NDEKTSV4RRFFQ69G5FAW") ($"ACTION") ($"act_1") ($"CREATE_PAYMENT_LINK") 1
    (JDict []) ($"key") 3 5 5 5.
Definition sample_session (at_ : Z) : Session := mkSession at_ (λ _, at_) [] NoFault.
Definition sample_claim : operation := ClaimBatch (Ok ($"nonce")) ($"w1") 10 (seconds 30).
Definition sample_tables (n : nat) : table :=
  match n with
  | O => ∅
  | S O => fst (perform (sample_session 5) (Insert sample_row) ∅)
  | _ => fst (perform (sample_session 10) sample_claim
                (fst (perform (sample_session 5) (Insert sample_row) ∅)))
  end.
Definition sample_batch : OutboxClaimBatch :=
  match snd (perform (sample_session 10) sample_claim (sample_tables 1)) with
  | Ok (Batch b) => b
  | _ => mkOutboxClaimBatch 0 [] 0
  end.
Definition sample_command : ClaimedOutboxCommand :=
  default (mkClaimedOutboxCommand [] [] [] [] [] 0 [] [] 0 0 [] [] (utc 0) 0 NORMAL_RETRY (utc 0) (utc 0))
    (head (commands sample_batch)).
Definition sample_reference : pystr := $"plink_1".

Lemma sample_session_ok a b : a <= b → session_ok a (sample_session b) b.
Proof. intros H. split; cbn; [done|]. lia. Qed.

Lemma run_perform x l clock t clock' s op :
  run x l (clock, t) → session_ok clock s clock' → inserted_ok clock' op →
  run x (l ++ [(op, snd (perform s op t))]) (clock', fst (perform s op t)).
Proof.
  intros Hr Hs Hi. eapply run_snoc; [exact Hr|]. eapply step_perform; [exact Hs|exact Hi|].
  apply surjective_pairing.
Qed.

Lemma sample_job_run : run (0, ∅)
  ([] ++ [(Insert sample_row, snd (perform (sample_session 5) (Insert sample_row) (sample_tables 0)))]
   ++ [(sample_claim, snd (perform (sample_session 10) sample_claim (sample_tables 1)))])
  (10, sample_tables 2).
Proof.
  rewrite app_assoc. apply (run_perform (0, ∅) _ 5 (sample_tables 1) 10 (sample_session 10) sample_claim);
    [|by apply sample_session_ok|done].
  apply (run_perform (0, ∅) [] 0 ∅ 5 (sample_session 5) (Insert sample_row));
    [constructor|by apply sample_session_ok|by left].
Qed.

Lemma sample_reachable : reachable (5, sample_tables 1) ∧ reachable (10, sample_tables 2).
Proof.
  split; [|exists 0; eexists; exact sample_job_run]. exists 0. eexists.
  apply (run_perform (0, ∅) [] 0 ∅ 5 (sample_session 5) (Insert sample_row));
    [constructor|by apply sample_session_ok|by left].
Qed.

Lemma sample_claimed :
  perform (sample_session 10) sample_claim (sample_tables 1) = (sample_tables 2, Ok (Batch sample_batch)).
Proof. vm_compute. reflexivity. Qed.

Lemma sample_holds : is_Some (current (sample_session 11) (sample_tables 2) sample_command).
Proof. vm_compute. eauto. Qed.

Lemma schema_never_refuses_witness :
  snd (perform (sample_session 11) (Complete sample_command sample_reference) (sample_tables 2))
  ≠ Raise (DatabaseError "violates check constraint").
Proof.
  refine (proj2 (schema_never_refuses 10 _ _ 11 _ (proj2 sample_reachable) (sample_session_ok 10 11 _) _ _) _);
    [lia|exact I|exact I].
Defined.

Lemma settlement_is_compare_and_swap_witness :
  ∃ t', complete (sample_session 11) sample_command sample_reference (sample_tables 2)
        = (t', Ok (cmd_delivery_version sample_command + 1)).
Proof.
  destruct (settlement_is_compare_and_swap 10 _ _ 11 sample_command (proj2 sample_reachable)
    (sample_session_ok 10 11 ltac:(lia)) eq_refl) as (_ & H & _).
  specialize (H sample_reference eq_refl). destruct sample_holds as [r Hr]. rewrite Hr in H.
  eexists. exact H.
Defined.

Lemma stale_delivery_fenced_witness :
  let t := fst (perform (sample_session 11) (Complete sample_command sample_reference) (sample_tables 2)) in
  is_ok (snd (perform (sample_session 12) (DeadLetter sample_command ($"late")) t)) = false.
Proof.
  assert (∀ A (r : result A), (∀ a, r ≠ Ok a) → is_ok r = false) as Hfail.
  { intros A [a|e] H; [by destruct (H a)|done]. }
  refine (Hfail _ _ (proj2 (stale_delivery_fenced (5, sample_tables 1) _ _ _ _ sample_batch (10, sample_tables 2)
    sample_command _ (11, _) (sample_session 12) 12 (DeadLetter sample_command ($"late"))
    (proj1 sample_reachable) _ _
    (run_perform _ [] 10 (sample_tables 2) 11 (sample_session 11)
       (Complete sample_command sample_reference) _ _ I) _ _ eq_refl))).
  - apply step_perform with (s := sample_session 10); [by apply sample_session_ok|exact I|exact sample_claimed].
  - vm_compute. constructor.
  - constructor.
  - by apply sample_session_ok.
  - intros E. apply (f_equal (fmap row_status)) in E. vm_compute in E. discriminate E.
  - by apply sample_session_ok.
Defined.

Lemma live_lease_exclusive_witness :
  ∃ c, settles_command (Complete sample_command sample_reference) = Some c ∧ cmd_job_id c = sample_id.
Proof.
  destruct (sample_tables 2 !! sample_id) as [r|] eqn:Hr; [|exfalso; vm_compute in Hr; discriminate Hr].
  assert (Hrow : fmap row_status (sample_tables 2 !! sample_id) = Some ST_IN_PROGRESS
    ∧ (sample_tables 2 !! sample_id) ≫= row_lease_expires_at = Some (10 + seconds 30)) by (split; vm_compute; reflexivity).
  rewrite Hr in Hrow. destruct Hrow as [Hp He]. injection Hp as Hp.
  destruct (live_lease_exclusive 10 _ sample_id r (10 + seconds 30) (sample_session 11) 11
    (Complete sample_command sample_reference) (proj2 sample_reachable) Hr) as (c & ? & ? & _).
  - unfold in_progress. by rewrite Hp.
  - exact He.
  - by apply sample_session_ok.
  - vm_compute. reflexivity.
  - intros E. apply (f_equal (fmap row_status)) in E. cbn [fmap option_fmap option_map] in E.
    rewrite Hp in E. vm_compute in E. discriminate E.
  - exists c. split; assumption.
Defined.

Lemma claim_hands_out_due_jobs_witness :
  ∃ c, c ∈ commands sample_batch
    ∧ delivered (sample_session 10) ($"w1") (seconds 30) (sample_tables 1) (sample_tables 2) c.
Proof.
  exists sample_command. assert (Hin : sample_command ∈ commands sample_batch) by (vm_compute; constructor).
  split; [exact Hin|].
  refine (proj1 (claim_hands_out_due_jobs 5 _ _ 10 (Ok ($"nonce")) _ 10 _ _ sample_batch
    (proj1 sample_reachable) (sample_session_ok 5 10 _) _) sample_command Hin); [lia|].
  vm_compute. reflexivity.
Defined.

Lemma due_job_delivered_witness :
  ∃ b, snd (claim_batch (sample_session 10) (Ok ($"nonce")) ($"w1") 10 (seconds 30) (sample_tables 1)) = Ok b.
Proof.
  destruct (due_job_delivered 5 (sample_tables 1) (sample_session 10) 10 (Ok ($"nonce")) ($"w1") 10 (seconds 30)
    ($"nonce") sample_id sample_row (proj1 sample_reachable)) as (_ & H).
  - by apply sample_session_ok.
  - reflexivity.
  - vm_compute. reflexivity.
  - vm_compute. reflexivity.
  - reflexivity.
  - vm_compute. discriminate.
  - by apply not_elem_of_nil.
  - vm_compute. discriminate.
  - destruct H as (b & Hb & _); [| |exists b; exact Hb].
    + intros r' Hr' _. assert (map snd (map_to_list (sample_tables 1)) = [sample_row]) as E by (vm_compute; reflexivity).
      rewrite E in Hr'. apply list_elem_of_singleton in Hr' as ->. split_and!; vm_compute; reflexivity.
    + intros id. vm_compute. reflexivity.
Defined.

Lemma deliveries_bounded_witness :
  deliveries sample_id
    [(Insert sample_row, snd (perform (sample_session 5) (Insert sample_row) (sample_tables 0)));
     (sample_claim, snd (perform (sample_session 10) sample_claim (sample_tables 1)))] <= 3.
Proof.
  pose proof (deliveries_bounded 0 _ 10 (sample_tables 2) sample_id sample_job_run) as H.
  destruct (sample_tables 2 !! sample_id) as [r|] eqn:Hr; [|exfalso; vm_compute in Hr; discriminate Hr].
  assert (Hm : fmap row_max_attempts (sample_tables 2 !! sample_id) = Some 3) by (vm_compute; reflexivity).
  rewrite Hr in Hm. injection Hm as Hm. cbn [app] in H. lia.
Defined.

(** ** A reason cut at a blank *)
(** On the last attempt a reason is cut to fit its prefix; when the cut falls
    behind a blank, the shortened reason is no longer clean and [retry] raises
    instead of dead-lettering the job: the lease stays until it expires. *)
Definition long_reason : pystr := repeat 97 476 ++ $" " ++ $"details".
Definition last_attempt : ClaimedOutboxCommand :=
  mkClaimedOutboxCommand [] [] [] [] [] 0 [] [] 3 3 [] [] (utc 0) 0 NORMAL_RETRY (utc 0) (utc 0).

Lemma exhausted_retry_raises s backoff t :
  clean_text 500 long_reason = true
  ∧ retry backoff s last_attempt long_reason RECONCILE_ONLY t
    = (t, Raise (ValueError "reason must be clean, non-empty text")).
Proof. split; vm_compute; reflexivity. Qed.
