(* ===== verification/OutboxWorker.v ===== *)
(** [services/control_plane/outbox_worker.py]: the polling worker.  It claims a
    batch from the repository it was given, runs the registered handler of each
    command and persists the handler's instruction.  The worker is proved
    against the interface [OutboxRepository]; [pg_repository] is the durable
    repository of [PgOutbox]. *)
From S2P Require Import Prelude PyStr PyTime Json Text Outbox PgOutbox Effects.

(** * Handler results *)
Inductive HandlerDisposition := SUCCEEDED | RETRY | DEAD_LETTERED.
#[export] Instance HandlerDisposition_eq_dec : EqDecision HandlerDisposition.
Proof. solve_decision. Defined.

Record HandlerResult := mkHandlerResult {
  disposition : HandlerDisposition;
  result_reference : option pystr;
  result_reason : option pystr;
  result_retry_mode : option RetryMode
}.

Definition HandlerResult_post_init (h : HandlerResult) : result HandlerResult :=
  match disposition h with
  | SUCCEEDED =>
      match result_reference h with
      | None => Raise (ValueError "successful handler results require completion_reference")
      | Some reference =>
          _ ← _clean_text reference "completion_reference" 500;
          _ ← raise_if (bool_decide (result_reason h ≠ None) || bool_decide (result_retry_mode h ≠ None))
                (ValueError "successful handler results cannot include retry metadata");
          Ok h
      end
  | other =>
      match result_reason h with
      | None => Raise (ValueError "non-success handler results require reason")
      | Some reason =>
          _ ← _clean_text reason "reason" 500;
          if decide (other = RETRY) then
            _ ← raise_if (negb (bool_decide (result_retry_mode h = Some RECONCILE_ONLY)
                                || bool_decide (result_retry_mode h = Some RETRY_SAME_EFFECT)))
                  (ValueError "retry results require an explicit safe retry mode");
            _ ← raise_if (bool_decide (result_reference h ≠ None))
                  (ValueError "retry results cannot include completion_reference");
            Ok h
          else
            _ ← raise_if (bool_decide (result_retry_mode h ≠ None) || bool_decide (result_reference h ≠ None))
                  (ValueError "dead-letter results can only include a reason");
            Ok h
      end
  end.

Definition succeeded (reference : pystr) : result HandlerResult :=
  HandlerResult_post_init (mkHandlerResult SUCCEEDED (Some reference) None None).
Definition retry_safely (reason : pystr) (mode : RetryMode) : result HandlerResult :=
  HandlerResult_post_init (mkHandlerResult RETRY None (Some reason) (Some mode)).
Definition dead_lettered_by (reason : pystr) : result HandlerResult :=
  HandlerResult_post_init (mkHandlerResult DEAD_LETTERED None (Some reason) None).

(** * Poll results *)
Record PollResult := mkPollResult {
  poll_selected : Z; poll_claimed : Z; poll_succeeded : Z; poll_retried : Z;
  poll_dead_lettered : Z; poll_fence_lost : Z
}.

Definition PollResult_post_init (p : PollResult) : result PollResult :=
  _ ← raise_if (existsb (λ v, v <? 0)
        [poll_selected p; poll_claimed p; poll_succeeded p; poll_retried p; poll_dead_lettered p;
         poll_fence_lost p])
        (ValueError "field must be a non-negative integer");
  _ ← raise_if (poll_selected p <? poll_claimed p) (ValueError "claimed cannot exceed selected");
  _ ← raise_if (negb (poll_succeeded p + poll_retried p + poll_dead_lettered p + poll_fence_lost p
                      =? poll_selected p))
        (ValueError "every selected row must have exactly one poll outcome");
  Ok p.

Record RunSummary := mkRunSummary {
  sum_polls : Z; sum_selected : Z; sum_claimed : Z; sum_succeeded : Z; sum_retried : Z;
  sum_dead_lettered : Z; sum_fence_lost : Z
}.
Definition empty_summary : RunSummary := mkRunSummary 0 0 0 0 0 0 0.

Definition add (self : RunSummary) (p : PollResult) : RunSummary :=
  mkRunSummary (sum_polls self + 1) (sum_selected self + poll_selected p)
    (sum_claimed self + poll_claimed p) (sum_succeeded self + poll_succeeded p)
    (sum_retried self + poll_retried p) (sum_dead_lettered self + poll_dead_lettered p)
    (sum_fence_lost self + poll_fence_lost p).

(** * Ports *)
(** What a handler returns: a result, or an object of another type. *)
Inductive handler_value := HandlerAnswer (h : HandlerResult) | OtherObject.

(** The calls of the worker, each with its answer. *)
Inductive event :=
  | ClaimedBatch (b : result OutboxClaimBatch)
  | Handled (c : ClaimedOutboxCommand) (v : result handler_value)
  | Completed (c : ClaimedOutboxCommand) (reference : pystr) (v : result Z)
  | Retried (c : ClaimedOutboxCommand) (reason : pystr) (mode : RetryMode) (v : result Z)
  | DeadLettered (c : ClaimedOutboxCommand) (reason : pystr) (v : result Z)
  | StopAsked (v : result bool)
  | Slept (v : result unit).

Abbreviation io := (prog event) (only parsing).

(** The protocol [OutboxRepository]; a method may depend on every earlier call. *)
Class OutboxRepository := {
  repo_claim_batch : pystr → Z → timedelta → list event → result OutboxClaimBatch;
  repo_complete : ClaimedOutboxCommand → pystr → list event → result Z;
  repo_retry : ClaimedOutboxCommand → pystr → RetryMode → list event → result Z;
  repo_dead_letter : ClaimedOutboxCommand → pystr → list event → result Z
}.

(** What the worker relies on: a batch was checked by its constructor, and so
    were the commands in it. *)
Class RepositoryLaws (R : OutboxRepository) : Prop := {
  law_batch worker n d t b :
    repo_claim_batch worker n d t = Ok b → OutboxClaimBatch_post_init b = Ok b;
  law_command worker n d t b c :
    repo_claim_batch worker n d t = Ok b → c ∈ commands b → clean_text 100 (cmd_command_type c) = true
}.

Definition handler : Type := ClaimedOutboxCommand → list event → result handler_value.

(** * The worker *)
Record OutboxWorker := mkOutboxWorker {
  worker_id : pystr;
  handlers : list (pystr * handler);
  batch_size : Z;
  lease_duration : timedelta;
  sleeper : list event → result unit
}.

(** The loop over [handlers.items()]: the copied handlers. *)
Fixpoint copy_handlers (items copied : list (pystr * handler)) : result (list (pystr * handler)) :=
  match items with
  | [] => Ok copied
  | (command_type, h) :: items =>
      command_type ← _clean_text command_type "command_type" 100;
      copy_handlers items (dict_set command_type h copied)
  end.

Definition OutboxWorker_init (w : OutboxWorker) : result OutboxWorker :=
  _ ← _clean_text (worker_id w) "worker_id" 128;
  _ ← raise_if (negb (between 1 100 (batch_size w))) (ValueError "batch_size must be between 1 and 100");
  _ ← raise_if (lease_duration w <=? 0) (ValueError "lease_duration must be a positive timedelta");
  _ ← raise_if (minutes 15 <? lease_duration w)
        (ValueError "lease_duration must not exceed 15 minutes");
  copied ← copy_handlers (handlers w) [];
  Ok (mkOutboxWorker (worker_id w) copied (batch_size w) (lease_duration w) (sleeper w)).

Record counters := mkCounters {
  n_succeeded : Z; n_retried : Z; n_dead_lettered : Z; n_fence_lost : Z
}.

Section worker.
Context `{R : OutboxRepository} (self : OutboxWorker).

(** The handler's instruction for one command. *)
Definition instruction (c : ClaimedOutboxCommand) : io HandlerResult :=
  match dict_get (cmd_command_type c) (handlers self) with
  | None => pure (dead_lettered_by ($"unregistered_command_type:" ++ cmd_command_type c))
  | Some h =>
      attempt (call (h c) (Handled c)) (λ v,
        match v with
        | Raise e => pure (retry_safely ($"handler_exception:" ++ lit (error_name e)) RECONCILE_ONLY)
        | Ok (HandlerAnswer r) => pure (Ok r)
        | Ok OtherObject => pure (dead_lettered_by ($"invalid_handler_result"))
        end)
  end.

(** The settlement call, and the counter it raises. *)
Definition settle (c : ClaimedOutboxCommand) (h : HandlerResult) (n : counters) : io counters :=
  match disposition h with
  | SUCCEEDED =>
      match result_reference h with
      | None => pure (Raise (AssertionError "successful handler result has no reference"))
      | Some reference =>
          _ ← call (repo_complete c reference) (Completed c reference);
          mret (mkCounters (n_succeeded n + 1) (n_retried n) (n_dead_lettered n) (n_fence_lost n))
      end
  | RETRY =>
      match result_reason h, result_retry_mode h with
      | Some reason, Some mode =>
          _ ← call (repo_retry c reason mode) (Retried c reason mode);
          mret (mkCounters (n_succeeded n) (n_retried n + 1) (n_dead_lettered n) (n_fence_lost n))
      | _, _ => pure (Raise (AssertionError "retry handler result lacks retry metadata"))
      end
  | DEAD_LETTERED =>
      match result_reason h with
      | None => pure (Raise (AssertionError "dead-letter handler result has no reason"))
      | Some reason =>
          _ ← call (repo_dead_letter c reason) (DeadLettered c reason);
          mret (mkCounters (n_succeeded n) (n_retried n) (n_dead_lettered n + 1) (n_fence_lost n))
      end
  end.

(** One pass of the loop: a lost fence is counted, other errors escape. *)
Definition dispatch (c : ClaimedOutboxCommand) (n : counters) : io counters :=
  h ← instruction c;
  attempt (settle c h n) (λ r,
    match r with
    | Ok n' => mret n'
    | Raise (OutboxFenceLost _) =>
        mret (mkCounters (n_succeeded n) (n_retried n) (n_dead_lettered n) (n_fence_lost n + 1))
    | Raise e => pure (Raise e)
    end).

Fixpoint dispatch_all (cs : list ClaimedOutboxCommand) (n : counters) : io counters :=
  match cs with
  | [] => mret n
  | c :: cs => n ← dispatch c n; dispatch_all cs n
  end.

Definition poll_once : io PollResult :=
  batch ← call (repo_claim_batch (worker_id self) (batch_size self) (lease_duration self)) ClaimedBatch;
  n ← dispatch_all (commands batch) (mkCounters 0 0 (expired_dead_lettered batch) 0);
  pure (PollResult_post_init
    (mkPollResult (selected_count batch) (Z.of_nat (length (commands batch))) (n_succeeded n)
       (n_retried n) (n_dead_lettered n) (n_fence_lost n))).

(** [run_until_stopped], with fuel for the passes of the loop; [None] when the
    fuel does not reach the stop. *)
Fixpoint run_loop (fuel : nat) (stop_requested : list event → result bool) (summary : RunSummary) :
    io (option RunSummary) :=
  match fuel with
  | O => mret None
  | S fuel =>
      stop ← call stop_requested StopAsked;
      if (stop : bool) then mret (Some summary)
      else
        p ← poll_once;
        let summary := add summary p in
        if poll_selected p =? 0 then
          stop ← call stop_requested StopAsked;
          if (stop : bool) then run_loop fuel stop_requested summary
          else _ ← call (sleeper self) Slept; run_loop fuel stop_requested summary
        else run_loop fuel stop_requested summary
  end.

(** The delay is given in microseconds. *)
Definition run_until_stopped (fuel : nat) (stop_requested : list event → result bool)
    (idle_delay : timedelta) : io (option RunSummary) :=
  _ ← pure (raise_if (negb ((0 <? idle_delay) && (idle_delay <=? seconds 60)))
              (ValueError "idle_delay_seconds must be in (0, 60]"));
  run_loop fuel stop_requested empty_summary.
End worker.

(** * What a trace of calls adds up to *)
Definition total (weight : event → Z) (l : list event) : Z := sum_Z (map weight l).

Definition one_if (b : bool) : Z := if b then 1 else 0.
Definition w_polls (e : event) : Z := match e with ClaimedBatch (Ok _) => 1 | _ => 0 end.
Definition w_selected (e : event) : Z := match e with ClaimedBatch (Ok b) => selected_count b | _ => 0 end.
Definition w_claimed (e : event) : Z :=
  match e with ClaimedBatch (Ok b) => Z.of_nat (length (commands b)) | _ => 0 end.
Definition w_succeeded (e : event) : Z := match e with Completed _ _ (Ok _) => 1 | _ => 0 end.
Definition w_retried (e : event) : Z := match e with Retried _ _ _ (Ok _) => 1 | _ => 0 end.
Definition w_dead_lettered (e : event) : Z :=
  match e with
  | DeadLettered _ _ (Ok _) => 1
  | ClaimedBatch (Ok b) => expired_dead_lettered b
  | _ => 0
  end.
Definition fence_error {A} (v : result A) : bool :=
  match v with Raise (OutboxFenceLost _) => true | _ => false end.
Definition w_fence_lost (e : event) : Z :=
  match e with
  | Completed _ _ v | Retried _ _ _ v | DeadLettered _ _ v => one_if (fence_error v)
  | _ => 0
  end.

(** The poll result and the summary a trace stands for. *)
Definition poll_of (l : list event) : PollResult :=
  mkPollResult (total w_selected l) (total w_claimed l) (total w_succeeded l) (total w_retried l)
    (total w_dead_lettered l) (total w_fence_lost l).
Definition summary_of (l : list event) : RunSummary :=
  mkRunSummary (total w_polls l) (total w_selected l) (total w_claimed l) (total w_succeeded l)
    (total w_retried l) (total w_dead_lettered l) (total w_fence_lost l).

Lemma total_app w l l' : total w (l ++ l') = total w l + total w l'.
Proof. unfold total. rewrite map_app. induction (map w l) as [|x xs IH]; cbn; unfold sum_Z in *; lia. Qed.

Lemma total_cons w e l : total w (e :: l) = w e + total w l.
Proof. done. Qed.

(** ** One command *)
(** What the worker makes of a handler's behaviour. *)
Definition instruction_for (v : result handler_value) : result HandlerResult :=
  match v with
  | Raise e => retry_safely ($"handler_exception:" ++ lit (error_name e)) RECONCILE_ONLY
  | Ok (HandlerAnswer h) => Ok h
  | Ok OtherObject => dead_lettered_by ($"invalid_handler_result")
  end.

(** The settlement call an instruction asks for, with its answer. *)
Inductive settles (c : ClaimedOutboxCommand) (h : HandlerResult) : event → result Z → Prop :=
  | settles_complete reference v :
      disposition h = SUCCEEDED → result_reference h = Some reference →
      settles c h (Completed c reference v) v
  | settles_retry reason mode v :
      disposition h = RETRY → result_reason h = Some reason → result_retry_mode h = Some mode →
      mode = RECONCILE_ONLY ∨ mode = RETRY_SAME_EFFECT →
      settles c h (Retried c reason mode v) v
  | settles_dead_letter reason v :
      disposition h = DEAD_LETTERED → result_reason h = Some reason →
      settles c h (DeadLettered c reason v) v.

(** The calls of one pass: the registered handler, if any, then exactly one
    settlement. *)
Inductive pass (self : OutboxWorker) (c : ClaimedOutboxCommand) : list event → result Z → Prop :=
  | pass_unregistered h e v :
      dict_get (cmd_command_type c) (handlers self) = None →
      dead_lettered_by ($"unregistered_command_type:" ++ cmd_command_type c) = Ok h →
      settles c h e v → pass self c [e] v
  | pass_handled f v0 h e v :
      dict_get (cmd_command_type c) (handlers self) = Some f →
      instruction_for v0 = Ok h → settles c h e v → pass self c [Handled c v0; e] v.

(** A settlement the poll goes on after. *)
Definition absorbed (v : result Z) : bool := is_ok v || fence_error v.

(** A handler result was checked by its constructor. *)
Definition checked_handlers (self : OutboxWorker) : Prop :=
  ∀ ty f c t h, dict_get ty (handlers self) = Some f → f c t = Ok (HandlerAnswer h) →
    HandlerResult_post_init h = Ok h.

Lemma handler_result_cases h :
  HandlerResult_post_init h = Ok h →
  match disposition h with
  | SUCCEEDED => is_Some (result_reference h)
  | RETRY => is_Some (result_reason h)
      ∧ (result_retry_mode h = Some RECONCILE_ONLY ∨ result_retry_mode h = Some RETRY_SAME_EFFECT)
  | DEAD_LETTERED => is_Some (result_reason h)
  end.
Proof.
  unfold HandlerResult_post_init. intros H. destruct (disposition h).
  - destruct (result_reference h); [eauto|done].
  - destruct (result_reason h); [|done]. rewrite decide_True in H by done. inv_ok. bools.
    split; [eauto|].
    match goal with H : _ || _ = true |- _ => apply orb_true_iff in H as [H|H]; apply bool_decide_true_1 in H end; auto.
  - destruct (result_reason h); [eauto|done].
Qed.

Lemma dead_lettered_by_Ok reason :
  clean_text 500 reason = true →
  dead_lettered_by reason = Ok (mkHandlerResult DEAD_LETTERED None (Some reason) None).
Proof.
  intros H. unfold dead_lettered_by, HandlerResult_post_init. cbn [disposition result_reason].
  rewrite (_clean_text_intro _ _ _ H). done.
Qed.

Lemma handler_result_same h h' : HandlerResult_post_init h = Ok h' → h' = h.
Proof.
  unfold HandlerResult_post_init. intros H.
  destruct (disposition h); [destruct (result_reference h)|destruct (result_reason h)..]; try done;
    inv_ok; try case_decide; by inv_ok.
Qed.

Lemma post_init_idem h h' : HandlerResult_post_init h = Ok h' → HandlerResult_post_init h' = Ok h'.
Proof. intros H. by rewrite (handler_result_same _ _ H) in H |- *. Qed.

Lemma instruction_for_Ok v :
  (∀ h, v = Ok (HandlerAnswer h) → HandlerResult_post_init h = Ok h) →
  ∃ h, instruction_for v = Ok h ∧ HandlerResult_post_init h = Ok h.
Proof.
  intros H. destruct v as [[h|]|e]; cbn [instruction_for].
  - eauto.
  - eexists. split; reflexivity.
  - unfold retry_safely. assert (is_ok (HandlerResult_post_init (mkHandlerResult RETRY None
      (Some ($"handler_exception:" ++ lit (error_name e))) (Some RECONCILE_ONLY))) = true) as [h Hh]%is_ok_true
      by (destruct e; try (match goal with c : transport_error |- _ => destruct c end); vm_compute; reflexivity).
    exists h. split; [done|by eapply post_init_idem].
Qed.

Definition plus (n : counters) (l : list event) : counters :=
  mkCounters (n_succeeded n + total w_succeeded l) (n_retried n + total w_retried l)
    (n_dead_lettered n + total w_dead_lettered l) (n_fence_lost n + total w_fence_lost l).

Lemma plus_app n l l' : plus (plus n l) l' = plus n (l ++ l').
Proof. unfold plus. cbn. rewrite !total_app, !Z.add_assoc. done. Qed.

Lemma plus_nil n : plus n [] = n.
Proof. destruct n. unfold plus, total. cbn. by rewrite !Z.add_0_r. Qed.

(** A pass that the poll goes on after. *)
Definition settled_pass (self : OutboxWorker) (c : ClaimedOutboxCommand) (l : list event) : Prop :=
  ∃ v, pass self c l v ∧ absorbed v = true.

Section worker_proofs.
Context `{R : OutboxRepository} (self : OutboxWorker) (Hhandlers : checked_handlers self).
Implicit Types (c : ClaimedOutboxCommand) (n : counters) (t : list event).

Lemma instruction_emits c t :
  clean_text 100 (cmd_command_type c) = true →
  emits (instruction self c) t (λ l r, ∃ h, r = Ok h ∧ HandlerResult_post_init h = Ok h
    ∧ ((l = [] ∧ dict_get (cmd_command_type c) (handlers self) = None
        ∧ dead_lettered_by ($"unregistered_command_type:" ++ cmd_command_type c) = Ok h)
       ∨ ∃ f v, dict_get (cmd_command_type c) (handlers self) = Some f ∧ l = [Handled c v]
           ∧ instruction_for v = Ok h)).
Proof using Hhandlers.
  intros Hct. unfold instruction. destruct (dict_get _ _) as [f|] eqn:Hf.
  - apply emits_attempt, emits_call.
    destruct (instruction_for_Ok (f c t)) as (h & Hi & Hp); [by intros h; eapply Hhandlers|].
    assert (Hdone : emits (pure (Ok h)) (t ++ [Handled c (f c t)]) (λ l' r',
      ∃ h0, r' = Ok h0 ∧ HandlerResult_post_init h0 = Ok h0
        ∧ ((([Handled c (f c t)] ++ l' = []) ∧ Some f = None
            ∧ dead_lettered_by ($"unregistered_command_type:" ++ cmd_command_type c) = Ok h0)
           ∨ ∃ f0 v, Some f = Some f0 ∧ [Handled c (f c t)] ++ l' = [Handled c v]
               ∧ instruction_for v = Ok h0))).
    { apply emits_pure. exists h. split_and!; [done|done|right]. exists f, (f c t). done. }
    rewrite <- Hi in Hdone at 1. destruct (f c t) as [[h0|]|e]; exact Hdone.
  - assert (clean_text 500 ($"unregistered_command_type:" ++ cmd_command_type c) = true) as Hc.
    { change ($"unregistered_command_type:") with (117 :: $"nregistered_command_type:").
      rewrite <- app_comm_cons, (clean_text_prefix 100) by done. apply Z.leb_le.
      unfold clean_text in Hct. bools. unfold str_len in *. cbn [length]. rewrite length_app.
      change (length ($"nregistered_command_type:")) with 25%nat. lia. }
    apply emits_pure. rewrite (dead_lettered_by_Ok _ Hc). eexists. split; [done|].
    split; [by eapply post_init_idem, dead_lettered_by_Ok|]. left. done.
Qed.

Lemma settle_emits c h n t :
  HandlerResult_post_init h = Ok h →
  emits (settle c h n) t (λ l r, ∃ e v, l = [e] ∧ settles c h e v
    ∧ match v with Ok _ => r = Ok (plus n [e]) | Raise x => r = Raise x ∧ (fence_error v = true →
        plus n [e] = mkCounters (n_succeeded n) (n_retried n) (n_dead_lettered n) (n_fence_lost n + 1)) end).
Proof.
  intros Hh. pose proof (handler_result_cases h Hh) as Hcase. unfold settle.
  destruct (disposition h) eqn:Hd.
  - destruct Hcase as [reference Hr]. rewrite Hr. apply emits_call_bind.
    + intros a Ha. apply emits_ret. exists (Completed c reference (Ok a)), (Ok a).
      split_and!; [done|by constructor|]. unfold plus, total. cbn. by rewrite !Z.add_0_r.
    + intros e He. exists (Completed c reference (Raise e)), (Raise e). split_and!; [done|by constructor|done|].
      intros Hf. unfold plus, total. cbn in *. rewrite Hf. by rewrite !Z.add_0_r.
  - destruct Hcase as [[reason Hr] Hm]. rewrite Hr.
    assert (∃ mode, result_retry_mode h = Some mode ∧ (mode = RECONCILE_ONLY ∨ mode = RETRY_SAME_EFFECT))
      as (mode & Hmode & Hsafe) by (destruct Hm; eauto). rewrite Hmode. apply emits_call_bind.
    + intros a Ha. apply emits_ret. exists (Retried c reason mode (Ok a)), (Ok a).
      split_and!; [done|by constructor|]. unfold plus, total. cbn. by rewrite !Z.add_0_r.
    + intros e He. exists (Retried c reason mode (Raise e)), (Raise e). split_and!; [done|by constructor|done|].
      intros Hf. unfold plus, total. cbn in *. rewrite Hf. by rewrite !Z.add_0_r.
  - destruct Hcase as [reason Hr]. rewrite Hr. apply emits_call_bind.
    + intros a Ha. apply emits_ret. exists (DeadLettered c reason (Ok a)), (Ok a).
      split_and!; [done|by constructor|]. unfold plus, total. cbn. by rewrite !Z.add_0_r.
    + intros e He. exists (DeadLettered c reason (Raise e)), (Raise e). split_and!; [done|by constructor|done|].
      intros Hf. unfold plus, total. cbn in *. rewrite Hf. by rewrite !Z.add_0_r.
Qed.

Lemma dispatch_emits c n t :
  clean_text 100 (cmd_command_type c) = true →
  emits (dispatch self c n) t (λ l r, ∃ v, pass self c l v
    ∧ match r with
      | Ok n' => absorbed v = true ∧ n' = plus n l
      | Raise e => v = Raise e ∧ absorbed v = false
      end).
Proof using Hhandlers.
  intros Hct. unfold dispatch. apply emits_bind. eapply emits_mono; [by apply instruction_emits|].
  cbn beta. intros l r (h & -> & Hh & Hl). apply emits_attempt.
  eapply emits_mono; [by apply settle_emits|]. cbn beta. intros l1 r1 (e & v & -> & Hst & Hv).
  assert (Hpass : pass self c (l ++ [e]) v).
  { destruct Hl as [(-> & Hd & Hi)|(f & v0 & Hd & -> & Hi)]; [by eapply pass_unregistered|by eapply pass_handled]. }
  assert (Hplus : plus n (l ++ [e]) = plus n [e]).
  { destruct Hl as [(-> & _)|(f & v0 & _ & -> & _)]; [done|]. cbn [app].
    unfold plus. by rewrite !(total_cons _ (Handled c v0)). }
  destruct v as [a|x].
  - subst r1. apply emits_ret. exists (Ok a). rewrite !app_nil_r. split_and!; [done|done|congruence].
  - destruct Hv as [-> Hf]. destruct (fence_error (Raise x : result Z)) eqn:Hx.
    + destruct x; try discriminate Hx. apply emits_ret. eexists. rewrite !app_nil_r.
      split_and!; [exact Hpass|done|]. rewrite Hplus. symmetry. by apply Hf.
    + destruct x; try discriminate Hx; apply emits_pure; eexists; rewrite !app_nil_r;
        (split; [exact Hpass|done]).
Qed.

Lemma dispatch_all_emits cs n t :
  (∀ c, c ∈ cs → clean_text 100 (cmd_command_type c) = true) →
  emits (dispatch_all self cs n) t (λ l r,
    match r with
    | Ok n' => ∃ ls, Forall2 (settled_pass self) cs ls ∧ l = concat ls ∧ n' = plus n l
    | Raise e => ∃ cs1 c cs2 ls lc, cs = cs1 ++ c :: cs2 ∧ Forall2 (settled_pass self) cs1 ls
        ∧ pass self c lc (Raise e) ∧ fence_error (Raise e : result Z) = false ∧ l = concat ls ++ lc
    end).
Proof using Hhandlers.
  revert n t. induction cs as [|c cs IH]; intros n t Hcs; cbn [dispatch_all].
  - apply emits_ret. exists []. split_and!; [constructor|done|by rewrite plus_nil].
  - apply emits_bind. eapply emits_mono; [apply dispatch_emits, Hcs; by left|]. cbn beta.
    intros l [n1|e] (v & Hp & Hr).
    + destruct Hr as [Ha ->]. eapply emits_mono; [apply IH; intros c' Hc'; apply Hcs; by right|].
      cbn beta. intros l' [n'|e].
      * intros (ls & HF & -> & ->). exists (l :: ls). split_and!; [constructor; [by exists v|done]|done|].
        by rewrite plus_app.
      * intros (cs1 & c1 & cs2 & ls & lc & -> & HF & Hp1 & He & ->).
        exists (c :: cs1), c1, cs2, (l :: ls), lc.
        split_and!; [done|constructor; [by exists v|done]|done|done|]. cbn. by rewrite app_assoc.
    + destruct Hr as [-> Ha]. exists [], c, cs, [], l. split_and!; [done|constructor|done| |done].
      by apply orb_false_iff in Ha as [_ ?].
Qed.
End worker_proofs.

(** ** A poll *)
(** The calls of a poll that returns: one claim, then one pass per command. *)
Definition polled (self : OutboxWorker) (l : list event) : Prop :=
  ∃ b ls, l = ClaimedBatch (Ok b) :: concat ls ∧ Forall2 (settled_pass self) (commands b) ls.

(** One pass is one outcome. *)
Lemma pass_totals self c l :
  settled_pass self c l →
  total w_succeeded l + total w_retried l + total w_dead_lettered l + total w_fence_lost l = 1
  ∧ 0 <= total w_succeeded l ∧ 0 <= total w_retried l ∧ 0 <= total w_dead_lettered l
  ∧ 0 <= total w_fence_lost l ∧ total w_polls l = 0 ∧ total w_selected l = 0 ∧ total w_claimed l = 0.
Proof.
  intros (v & Hp & Ha).
  assert (He : ∀ h e, settles c h e v →
    w_succeeded e + w_retried e + w_dead_lettered e + w_fence_lost e = 1
    ∧ 0 <= w_succeeded e ∧ 0 <= w_retried e ∧ 0 <= w_dead_lettered e ∧ 0 <= w_fence_lost e
    ∧ w_polls e = 0 ∧ w_selected e = 0 ∧ w_claimed e = 0).
  { intros h e Hs. destruct v as [a|x]; [inversion Hs; subst; cbn; lia|].
    cbn in Ha. destruct x; try discriminate Ha; inversion Hs; subst; cbn; lia. }
  assert (Hone : ∀ w e, total w [e] = w e) by (intros; unfold total; cbn; lia).
  destruct Hp as [h e v Hd Hi Hs|f v0 h e v Hd Hi Hs]; specialize (He h e Hs); [by rewrite !Hone|].
  rewrite !(total_cons _ (Handled c v0)), !Hone. exact He.
Qed.

Lemma passes_totals self cs ls :
  Forall2 (settled_pass self) cs ls →
  total w_succeeded (concat ls) + total w_retried (concat ls) + total w_dead_lettered (concat ls)
  + total w_fence_lost (concat ls) = Z.of_nat (length cs)
  ∧ 0 <= total w_succeeded (concat ls) ∧ 0 <= total w_retried (concat ls)
  ∧ 0 <= total w_dead_lettered (concat ls) ∧ 0 <= total w_fence_lost (concat ls)
  ∧ total w_polls (concat ls) = 0 ∧ total w_selected (concat ls) = 0 ∧ total w_claimed (concat ls) = 0.
Proof.
  induction 1 as [|c l cs ls Hp HF IH]; [by cbn|]. pose proof (pass_totals _ _ _ Hp).
  cbn [concat length]. rewrite !total_app. lia.
Qed.

Lemma polled_totals self l :
  polled self l → summary_of l = add empty_summary (poll_of l).
Proof.
  intros (b & ls & -> & HF). apply passes_totals in HF. unfold summary_of, add, poll_of.
  rewrite !(total_cons _ (ClaimedBatch (Ok b))). cbn -[total]. f_equal; lia.
Qed.

Section poll.
Context `{R : OutboxRepository} (RL : RepositoryLaws R) (self : OutboxWorker)
        (Hhandlers : checked_handlers self).

Lemma batch_facts b :
  OutboxClaimBatch_post_init b = Ok b →
  0 <= selected_count b ∧ 0 <= expired_dead_lettered b
  ∧ selected_count b = Z.of_nat (length (commands b)) + expired_dead_lettered b.
Proof. unfold OutboxClaimBatch_post_init. intros H. inv_ok. bools. done. Qed.

Lemma poll_result_Ok p :
  0 <= poll_claimed p <= poll_selected p → 0 <= poll_succeeded p → 0 <= poll_retried p →
  0 <= poll_dead_lettered p → 0 <= poll_fence_lost p →
  poll_succeeded p + poll_retried p + poll_dead_lettered p + poll_fence_lost p = poll_selected p →
  PollResult_post_init p = Ok p.
Proof.
  intros. unfold PollResult_post_init. cbn. rewrite !(proj2 (Z.ltb_ge _ _)) by lia.
  cbn. by rewrite (proj2 (Z.eqb_eq _ _)).
Qed.

Lemma poll_emits t :
  emits (poll_once self) t (λ l r,
    match r with
    | Ok p => polled self l ∧ p = poll_of l
    | Raise e =>
        l = [ClaimedBatch (Raise e)]
        ∨ ∃ b cs1 c cs2 ls lc, l = ClaimedBatch (Ok b) :: concat ls ++ lc
          ∧ commands b = cs1 ++ c :: cs2 ∧ Forall2 (settled_pass self) cs1 ls
          ∧ pass self c lc (Raise e) ∧ fence_error (Raise e : result Z) = false
    end).
Proof using RL Hhandlers.
  unfold poll_once. apply emits_call_bind; [|intros e _; by left]. intros b Hb.
  pose proof (law_batch _ _ _ _ _ Hb) as (H1 & H2 & H3)%batch_facts.
  apply emits_bind. eapply emits_mono.
  { apply dispatch_all_emits; [exact Hhandlers|]. intros c Hc. by eapply law_command. }
  cbn beta. intros l [n|e].
  - intros (ls & HF & -> & ->). apply emits_pure. rewrite app_nil_r.
    assert (Hpoll : polled self (ClaimedBatch (Ok b) :: concat ls)) by (exists b, ls; done).
    pose proof (passes_totals _ _ _ HF) as (Hsum & Hs & Hr & Hd & Hf & _ & Hsel & Hcl).
    assert (mkPollResult (selected_count b) (Z.of_nat (length (commands b)))
      (0 + total w_succeeded (concat ls)) (0 + total w_retried (concat ls))
      (expired_dead_lettered b + total w_dead_lettered (concat ls)) (0 + total w_fence_lost (concat ls))
      = poll_of (ClaimedBatch (Ok b) :: concat ls)) as E.
    { unfold poll_of. rewrite !(total_cons _ (ClaimedBatch (Ok b))). cbn -[total]. f_equal; lia. }
    unfold plus. cbn [n_succeeded n_retried n_dead_lettered n_fence_lost]. rewrite E.
    rewrite poll_result_Ok; [done|rewrite <- E; cbn -[total]; lia..].
  - intros (cs1 & c & cs2 & ls & lc & ? & ? & ? & ? & ->). right. exists b, cs1, c, cs2, ls, lc. done.
Qed.
End poll.

(** ** The polling loop *)
Definition w_stops (e : event) : Z := match e with StopAsked _ => 1 | _ => 0 end.

(** The calls of a run that returns: polls between questions whether to stop,
    a pause exactly after an empty poll while no stop was asked, and the answer
    to stop at the end. *)
Inductive rounds (self : OutboxWorker) : list event → Prop :=
  | rounds_stop : rounds self [StopAsked (Ok true)]
  | rounds_busy l l' :
      polled self l → total w_selected l ≠ 0 → rounds self l' →
      rounds self (StopAsked (Ok false) :: l ++ l')
  | rounds_idle_stop l l' :
      polled self l → total w_selected l = 0 → rounds self l' →
      rounds self (StopAsked (Ok false) :: l ++ StopAsked (Ok true) :: l')
  | rounds_idle l l' :
      polled self l → total w_selected l = 0 → rounds self l' →
      rounds self (StopAsked (Ok false) :: l ++ StopAsked (Ok false) :: Slept (Ok tt) :: l').

Lemma total_nil w : total w [] = 0.
Proof. done. Qed.

Lemma polled_stops self l : polled self l → total w_stops l = 0.
Proof.
  intros (b & ls & -> & HF). rewrite total_cons. cbn [w_stops].
  induction HF as [|c l cs ls (v & Hp & _) HF IH]; [done|]. cbn [concat]. rewrite total_app.
  assert (∀ h e, settles c h e v → w_stops e = 0) as He by (by destruct 1).
  destruct Hp as [h e v Hd Hi Hs|f v0 h e v Hd Hi Hs]; rewrite !total_cons, (He _ _ Hs), total_nil; cbn [w_stops]; lia.
Qed.

Definition summary_plus (a b : RunSummary) : RunSummary :=
  mkRunSummary (sum_polls a + sum_polls b) (sum_selected a + sum_selected b)
    (sum_claimed a + sum_claimed b) (sum_succeeded a + sum_succeeded b)
    (sum_retried a + sum_retried b) (sum_dead_lettered a + sum_dead_lettered b)
    (sum_fence_lost a + sum_fence_lost b).

Lemma summary_of_app s l l' :
  summary_plus (summary_plus s (summary_of l)) (summary_of l') = summary_plus s (summary_of (l ++ l')).
Proof. unfold summary_plus, summary_of. cbn -[total]. rewrite !total_app. f_equal; lia. Qed.

Lemma summary_plus_quiet s l :
  Forall (λ e, match e with StopAsked _ | Slept _ => True | _ => False end) l →
  summary_plus s (summary_of l) = s.
Proof.
  intros H. assert (∀ w, (∀ v, w (StopAsked v) = 0) → (∀ v, w (Slept v) = 0) → total w l = 0) as Hw.
  { intros w H1 H2. induction H as [|e l He Hl IH]; [done|]. rewrite total_cons.
    destruct e; try done; rewrite ?H1, ?H2; lia. }
  unfold summary_plus, summary_of. rewrite !Hw by done. destruct s. cbn. f_equal; lia.
Qed.

Lemma add_polled self s l : polled self l → add s (poll_of l) = summary_plus s (summary_of l).
Proof. intros H. rewrite (polled_totals _ _ H). unfold add, summary_plus. cbn -[total]. f_equal; lia. Qed.

Section loop.
Context `{R : OutboxRepository} (RL : RepositoryLaws R) (self : OutboxWorker)
        (Hhandlers : checked_handlers self).
Context (stop_requested : list event → result bool) (limit : Z)
        (Hstop : ∀ t, limit <= total w_stops t → stop_requested t = Ok true).

Definition loop_post (summary : RunSummary) (l : list event) (r : result (option RunSummary)) : Prop :=
  match r with
  | Ok (Some s) => rounds self l ∧ s = summary_plus summary (summary_of l)
  | Ok None => False
  | Raise _ => True
  end.

(** Put a poll and the calls after it in front of the rest of the loop. *)
Lemma loop_post_before summary l q l' r :
  polled self l → Forall (λ e, match e with StopAsked _ | Slept _ => True | _ => False end) q →
  (∀ l', rounds self l' → rounds self (StopAsked (Ok false) :: l ++ q ++ l')) →
  loop_post (add summary (poll_of l)) l' r →
  loop_post summary (StopAsked (Ok false) :: l ++ q ++ l') r.
Proof.
  intros Hp Hq Hrounds. destruct r as [[s|]|e]; cbn; [|done|done]. intros [Hl ->]. split; [by apply Hrounds|].
  change (StopAsked (Ok false) :: l ++ q ++ l') with ([StopAsked (Ok false)] ++ (l ++ (q ++ l'))).
  rewrite <- !summary_of_app, (add_polled _ _ _ Hp), (summary_plus_quiet _ q Hq).
  by rewrite (summary_plus_quiet summary [StopAsked (Ok false)]) by (repeat constructor).
Qed.

Lemma loop_emits fuel summary t :
  limit < total w_stops t + Z.of_nat fuel → (0 < fuel)%nat →
  emits (run_loop self fuel stop_requested summary) t (loop_post summary).
Proof using RL Hhandlers Hstop.
  revert summary t. induction fuel as [|fuel IH]; intros summary t Hfuel Hpos; [lia|]. cbn [run_loop].
  apply emits_call_bind; [|done]. intros [|] Ha.
  { apply emits_ret. split; [constructor|].
    by rewrite (summary_plus_quiet summary [StopAsked (Ok true)]) by (repeat constructor). }
  assert (total w_stops t < limit) as Hlim.
  { apply Z.nle_gt. intros H. rewrite (Hstop _ H) in Ha. done. }
  apply emits_bind. eapply emits_mono; [by apply poll_emits|]. cbn beta. intros l [p|e]; [|done].
  intros [Hp ->]. pose proof (polled_stops _ _ Hp) as Hst.
  assert (Hafter : ∀ q, 0 <= total w_stops q →
    limit < total w_stops (((t ++ [StopAsked (Ok false)]) ++ l) ++ q) + Z.of_nat fuel).
  { intros q Hq. rewrite !total_app, Hst. unfold total at 2. cbn. lia. }
  destruct (Z.eqb_spec (poll_selected (poll_of l)) 0) as [Hz|Hz].
  - apply emits_call_bind; [|done]. intros [|] Ha'.
    + eapply emits_mono; [apply IH; [by apply Hafter|lia]|]. cbn beta. intros l' r Hr.
      apply (loop_post_before _ l [StopAsked (Ok true)]); [done|by repeat constructor| |done].
      intros l1 Hl1. by apply rounds_idle_stop.
    + apply emits_call_bind; [|done]. intros [] _. rewrite <- app_assoc.
      eapply emits_mono; [apply IH; [by apply Hafter|lia]|]. cbn beta. intros l' r Hr.
      apply (loop_post_before _ l [StopAsked (Ok false); Slept (Ok tt)]); [done|by repeat constructor| |done].
      intros l1 Hl1. by apply rounds_idle.
  - specialize (Hafter []). rewrite app_nil_r in Hafter.
    eapply emits_mono; [apply IH; [by apply Hafter|lia]|]. cbn beta. intros l' r Hr.
    apply (loop_post_before _ l []); [done|constructor| |done]. intros l1 Hl1. by apply rounds_busy.
Qed.
End loop.

(** * The durable repository *)
Section pg.
Context (session : nat → Session) (token : nat → result pystr) (backoff : BackoffPolicy)
        (others : nat → table → table) (initial : table) (self : OutboxWorker).

(** The table after the worker's [i]-th call, made in [session i]; between two
    calls the other processes do [others i]. *)
Definition pg_call (i : nat) (e : event) (tbl : table) : table :=
  match e with
  | ClaimedBatch _ =>
      fst (claim_batch (session i) (token i) (worker_id self) (batch_size self) (lease_duration self)
             (others i tbl))
  | Completed c reference _ => fst (complete (session i) c reference (others i tbl))
  | Retried c reason mode _ => fst (retry backoff (session i) c reason mode (others i tbl))
  | DeadLettered c reason _ => fst (dead_letter (session i) c reason (others i tbl))
  | Handled _ _ | StopAsked _ | Slept _ => others i tbl
  end.

Fixpoint pg_tables (i : nat) (tbl : table) (l : list event) : table :=
  match l with
  | [] => tbl
  | e :: l => pg_tables (S i) (pg_call i e tbl) l
  end.

(** The table the call after the trace [t] finds. *)
Definition table_found (t : list event) : table := others (length t) (pg_tables 0 initial t).

#[export] Instance pg_repository : OutboxRepository := {|
  repo_claim_batch worker n d t :=
    snd (claim_batch (session (length t)) (token (length t)) worker n d (table_found t));
  repo_complete c reference t := snd (complete (session (length t)) c reference (table_found t));
  repo_retry c reason mode t :=
    snd (retry backoff (session (length t)) c reason mode (table_found t));
  repo_dead_letter c reason t := snd (dead_letter (session (length t)) c reason (table_found t))
|}.

Lemma claim_batch_rows s tk w n d tbl b :
  snd (claim_batch s tk w n d tbl) = Ok b → ∃ rows, batch_of_rows n rows = Ok b.
Proof.
  unfold claim_batch. destruct (check_claim _ _ _ _); [|done]. cbn [snd].
  destruct (snd (transaction _ _ _)) as [rows|e]; [|done]. by exists rows.
Qed.

#[export] Instance pg_laws : RepositoryLaws pg_repository.
Proof.
  split.
  - intros w n d t b (rows & Hb)%claim_batch_rows. unfold batch_of_rows in Hb. inv_ok.
    unfold OutboxClaimBatch_post_init in *. inv_ok. subst b. bools. cbn in *.
    rewrite !(proj2 (Z.ltb_ge _ _)) by lia. by rewrite (proj2 (Z.eqb_eq _ _)).
  - intros w n d t b c (rows & Hb)%claim_batch_rows Hc. apply batch_of_rows_Ok in Hb as (Hcol & _).
    destruct (collect_elem _ _ _ _ Hcol Hc) as (r & _ & Hrow). unfold _claimed_from_row in Hrow. inv_ok.
    repeat case_match; try done. inv_ok. unfold ClaimedOutboxCommand_post_init in *. inv_ok. subst c. cbn.
    match goal with H : _clean_text _ "command_type" _ = Ok _ |- _ => by apply clean_text_checked in H as [? _] end.
Qed.
End pg.

(** ** Recorded answers are the ports' answers *)
Section genuine.
Context `{R : OutboxRepository} (self : OutboxWorker).

Definition answered (t : list event) (e : event) : Prop :=
  match e with
  | ClaimedBatch b => b = repo_claim_batch (worker_id self) (batch_size self) (lease_duration self) t
  | Completed c reference v => v = repo_complete c reference t
  | Retried c reason mode v => v = repo_retry c reason mode t
  | DeadLettered c reason v => v = repo_dead_letter c reason t
  | Handled _ _ | StopAsked _ | Slept _ => True
  end.

Fixpoint genuine (t l : list event) : Prop :=
  match l with
  | [] => True
  | e :: l => answered t e ∧ genuine (t ++ [e]) l
  end.

Lemma genuine_app t l l' : genuine t (l ++ l') ↔ genuine t l ∧ genuine (t ++ l) l'.
Proof.
  revert t. induction l as [|e l IH]; intros t; cbn [app genuine].
  - rewrite app_nil_r. tauto.
  - rewrite IH, <- app_assoc. cbn [app]. tauto.
Qed.

Definition honest {A} (m : io A) : Prop := ∀ t, emits m t (λ l _, genuine t l).

Lemma honest_pure {A} (r : result A) : honest (pure r).
Proof. intros t. by apply emits_pure. Qed.

Lemma honest_ret {A} (a : A) : honest (mret a : io A).
Proof. intros t. by apply emits_ret. Qed.

Lemma honest_call {A} (port : list event → result A) record :
  (∀ t, answered t (record (port t))) → honest (call port record).
Proof. intros H t. apply emits_call. cbn. split; [apply H|done]. Qed.

Lemma honest_bind {A B} (m : io A) (k : A → io B) :
  honest m → (∀ a, honest (k a)) → honest (m ≫= k).
Proof.
  intros Hm Hk t. apply emits_bind. eapply emits_mono; [apply Hm|]. cbn beta. intros l [a|e] Hl; [|done].
  eapply emits_mono; [apply Hk|]. cbn beta. intros l' r Hl'. by apply genuine_app.
Qed.

Lemma honest_attempt {A B} (m : io A) (k : result A → io B) :
  honest m → (∀ r, honest (k r)) → honest (attempt m k).
Proof.
  intros Hm Hk t. apply emits_attempt. eapply emits_mono; [apply Hm|]. cbn beta. intros l r Hl.
  eapply emits_mono; [apply Hk|]. cbn beta. intros l' r' Hl'. by apply genuine_app.
Qed.

Lemma honest_dispatch c n : honest (dispatch self c n).
Proof.
  unfold dispatch. apply honest_bind; [|intros h; apply honest_attempt].
  - unfold instruction. destruct (dict_get _ _) as [f|]; [|apply honest_pure].
    apply honest_attempt; [by apply honest_call|]. intros [[h|]|e]; apply honest_pure.
  - unfold settle. repeat case_match; try apply honest_pure;
      (apply honest_bind; [by apply honest_call|intros _; apply honest_ret]).
  - intros [n'|e]; [apply honest_ret|]. destruct e; apply honest_pure || apply honest_ret.
Qed.

Lemma honest_poll : honest (poll_once self).
Proof.
  unfold poll_once. apply honest_bind; [by apply honest_call|]. intros b.
  apply honest_bind; [|intros n; apply honest_pure].
  generalize (mkCounters 0 0 (expired_dead_lettered b) 0). generalize (commands b).
  intros cs. induction cs as [|c cs IH]; intros n; cbn [dispatch_all]; [apply honest_ret|].
  apply honest_bind; [apply honest_dispatch|exact IH].
Qed.
End genuine.

(** ** The worker over the durable table *)
(** Rows persist and only move to later versions. *)
Definition evolves (x y : Z * table) : Prop :=
  fst x <= fst y ∧ table_ok (fst y) (snd y)
  ∧ ∀ k r, snd x !! k = Some r →
      ∃ r', snd y !! k = Some r' ∧ (r' = r ∨ row_delivery_version r < row_delivery_version r').

Lemma evolves_trans x y z : evolves x y → evolves y z → evolves x z.
Proof.
  intros (H1 & _ & H2) (H3 & H4 & H5). split; [lia|]. split; [done|]. intros k r Hr.
  destruct (H2 k r Hr) as (r1 & Hr1 & Hv1). destruct (H5 k r1 Hr1) as (r2 & Hr2 & Hv2).
  exists r2. split; [done|]. destruct Hv1 as [->|?], Hv2 as [->|?]; auto; right; lia.
Qed.

Lemma evolves_perform clock clock' s t op :
  table_ok clock t → session_ok clock s clock' → inserted_ok clock' op →
  evolves (clock, t) (clock', fst (perform s op t)).
Proof.
  intros Ht Hs Hi. pose proof (perform_effect clock clock' s t Hs Ht op) as He.
  split; [by eapply session_clocks|]. split; [by eapply effect_table_ok|]. cbn [fst snd]. intros k r Hr.
  destruct (effect_row _ _ _ _ _ _ _ _ Hs Ht He Hr) as (r' & Hr' & _ & Hv). exists r'. split; [done|].
  destruct Hv; [by left|right; lia].
Qed.

Section pg_worker.
Context (session : nat → Session) (token : nat → result pystr) (backoff : BackoffPolicy)
        (others : nat → table → table) (initial : table) (self : OutboxWorker) (clock : nat → Z).
(** The clock of the database does not run backwards, the connection works, and
    the other processes only do operations of the repository and of producers:
    a run of the table. *)
Context (Hothers : ∀ i tbl, table_ok (clock i) tbl →
           ∃ mid l, run (clock i, tbl) l (mid, others i tbl) ∧ session_ok mid (session i) (clock (S i)))
        (Hconn : ∀ i, connection (session i) = NoFault)
        (Hinitial : table_ok (clock 0) initial).

Local Abbreviation tables := (pg_tables session token backoff others self) (only parsing).
Local Abbreviation found := (table_found session token backoff others initial self) (only parsing).

Lemma run_evolves c0 t0 l c1 t1 :
  table_ok c0 t0 → run (c0, t0) l (c1, t1) → evolves (c0, t0) (c1, t1).
Proof.
  intros Ht H. split; [|split; [by eapply run_table_ok|]].
  - remember (c0, t0) as x eqn:Ex. remember (c1, t1) as y eqn:Ey. revert c1 t1 Ey.
    induction H as [|l [c2 t2] e z H IH Hst]; intros c1 t1 Ey; subst; [by injection Ey as <- <-|].
    specialize (IH _ _ eq_refl). inversion Hst; subst. cbn in *.
    match goal with Hs : session_ok _ _ _ |- _ => apply session_clocks in Hs end. lia.
  - intros k r Hr. by apply (run_row (c0, t0) l (c1, t1)).
Qed.

Lemma call_evolves i e tbl :
  table_ok (clock i) tbl →
  evolves (clock i, tbl) (clock (S i), pg_call session token backoff others self i e tbl).
Proof using Hothers.
  intros Ht. destruct (Hothers i tbl Ht) as (mid & l & Hrun & Hs).
  pose proof (run_evolves _ _ _ _ _ Ht Hrun) as Hev. pose proof Hev as (_ & Hmid & _). cbn in Hmid.
  eapply evolves_trans; [exact Hev|].
  pose proof (λ op, evolves_perform mid (clock (S i)) (session i) (others i tbl) op Hmid Hs) as Hp.
  assert (Hquiet : evolves (mid, others i tbl) (clock (S i), others i tbl)).
  { split; [by eapply session_clocks|]. split; [eapply table_ok_later; [by eapply session_clocks|done]|].
    intros k r Hr. exists r. auto. }
  destruct e as [b|c v|c reference v|c reason mode v|c reason v|v|v]; cbn [pg_call]; try exact Hquiet.
  - exact (Hp (ClaimBatch _ _ _ _) I).
  - exact (Hp (Complete _ _) I).
  - exact (Hp (Retry _ _ _ _) I).
  - exact (Hp (DeadLetter _ _) I).
Qed.

Lemma tables_evolve i tbl l :
  table_ok (clock i) tbl →
  evolves (clock i, tbl) (clock (i + length l)%nat, pg_tables session token backoff others self i tbl l).
Proof using Hothers.
  revert i tbl. induction l as [|e l IH]; intros i tbl Ht; cbn [pg_tables length].
  - rewrite Nat.add_0_r. split; [done|]. split; [done|]. intros k r Hr. exists r. auto.
  - pose proof (call_evolves i e tbl Ht) as Hev. pose proof Hev as (_ & Hok & _).
    eapply evolves_trans; [exact Hev|]. rewrite Nat.add_succ_r. exact (IH (S i) _ Hok).
Qed.

Lemma tables_app i tbl l l' :
  pg_tables session token backoff others self i tbl (l ++ l')
  = pg_tables session token backoff others self (i + length l)
      (pg_tables session token backoff others self i tbl l) l'.
Proof.
  revert i tbl. induction l as [|e l IH]; intros i tbl; cbn [app pg_tables length].
  - by rewrite Nat.add_0_r.
  - by rewrite IH, Nat.add_succ_r.
Qed.
End pg_worker.

(** *** A command before and after its settlement *)
Definition open_command (c : ClaimedOutboxCommand) (tbl : table) : Prop :=
  ∃ r, tbl !! cmd_job_id c = Some r ∧ (holds_row c r ∨ cmd_delivery_version c < row_delivery_version r).
(** The lease of the command is settled, taken over or expired. *)
Definition closed_command (at_ : Z) (c : ClaimedOutboxCommand) (tbl : table) : Prop :=
  ∃ r, tbl !! cmd_job_id c = Some r
    ∧ (cmd_delivery_version c < row_delivery_version r ∨ instant (cmd_lease_expires_at c) <= at_).

Lemma open_evolves c x y : evolves x y → open_command c (snd x) → open_command c (snd y).
Proof.
  intros (_ & _ & H) (r & Hr & Hv). destruct (H _ _ Hr) as (r' & Hr' & [E|Hlt]); exists r'; [by rewrite E in *|].
  split; [done|right]. destruct Hv as [(_ & _ & Hv & _)|Hv]; lia.
Qed.

Lemma closed_evolves c x y :
  evolves x y → closed_command (fst x) c (snd x) → closed_command (fst y) c (snd y).
Proof.
  intros (Hc & _ & H) (r & Hr & Hv). destruct (H _ _ Hr) as (r' & Hr' & [E|Hlt]); exists r'; (split; [done|]);
    [rewrite E|]; destruct Hv; auto; [right; lia|left; lia|right; lia].
Qed.

Section closing.
Context (clock clock' : Z) (s : Session) (tbl : table) (c : ClaimedOutboxCommand).
Context (Hs : session_ok clock s clock') (Ht : table_ok clock tbl) (Hconn : connection s = NoFault)
        (Hopen : open_command c tbl).

Lemma settle_closes name f :
  settlement (now s) f → closed_command clock' c (fst (_settle s name c f tbl)).
Proof using Hs Ht Hconn Hopen.
  intros Hf. rewrite (settle_swap clock clock' s tbl name c f Hs Ht Hconn Hf).
  destruct (current s tbl c) as [r|] eqn:Hcur; cbn [fst].
  - exists (settled_as s f r). rewrite lookup_insert_eq. split; [done|left].
    destruct (settlement_fields s f Hf r) as (_ & _ & Hv & _). cbn. rewrite Hv.
    unfold current in Hcur. destruct (tbl !! cmd_job_id c); [|done].
    destruct (fenced _ _ _) eqn:Hfe; [|done]. injection Hcur as ->. unfold fenced in Hfe. bools. lia.
  - destruct Hopen as (r & Hr & Hv). exists r. split; [done|]. destruct Hv as [Hhold|Hv]; [right|by left].
    unfold current in Hcur. rewrite Hr in Hcur. destruct (fenced (now s) c r) eqn:Hfe; [done|].
    destruct Hhold as (Hp & Hm & Hver & _ & Ho & Htok & He). unfold fenced in Hfe.
    rewrite Hp, Hm, Hver, Ho, Htok, He, !bool_decide_true, Z.eqb_refl in Hfe by done. cbn in Hfe.
    apply Z.ltb_ge in Hfe. pose proof (proj2 Hs []). lia.
Qed.

Lemma complete_closes reference :
  absorbed (snd (complete s c reference tbl)) = true →
  closed_command clock' c (fst (complete s c reference tbl)).
Proof using Hs Ht Hconn Hopen.
  unfold complete, checked, _clean_text. destruct (clean_text _ _) eqn:E; [|done]. intros _.
  by apply settle_closes, settle_complete.
Qed.

Lemma dead_letter_closes reason :
  absorbed (snd (dead_letter s c reason tbl)) = true →
  closed_command clock' c (fst (dead_letter s c reason tbl)).
Proof using Hs Ht Hconn Hopen.
  unfold dead_letter, checked, _clean_text. destruct (clean_text _ _) eqn:E; [|done]. intros _.
  by apply settle_closes, settle_dead_letter.
Qed.

Lemma retry_closes backoff reason mode :
  absorbed (snd (retry backoff s c reason mode tbl)) = true →
  closed_command clock' c (fst (retry backoff s c reason mode tbl)).
Proof using Hs Ht Hconn Hopen.
  unfold retry. assert (_clean_text reason "reason" 500 = Ok reason ∨ ∃ e, _clean_text reason "reason" 500 = Raise e
    ∧ absorbed (Raise e) = false) as [Hc|(e & Hc & He)].
  { unfold _clean_text. destruct (clean_text _ _); eauto. }
  2: { unfold checked at 1. rewrite Hc. cbn [snd]. by rewrite He. }
  pose proof (clean_text_checked _ _ _ _ Hc) as [E _].
  unfold checked at 1 3. rewrite Hc. case_match.
  - unfold checked. destruct (_prefixed_reason _ _) as [r|e] eqn:Ep; [apply dead_letter_closes|].
    unfold _prefixed_reason in Ep. cbn in Ep. done.
  - unfold checked, delay_after. destruct (_ <? 1); [done|]. intros _. by apply settle_closes, settle_retry.
Qed.
End closing.

Section no_live_lease.
Context (session : nat → Session) (token : nat → result pystr) (backoff : BackoffPolicy)
        (others : nat → table → table) (initial : table) (self : OutboxWorker) (clock : nat → Z).
Context (Hothers : ∀ i tbl, table_ok (clock i) tbl →
           ∃ mid l, run (clock i, tbl) l (mid, others i tbl) ∧ session_ok mid (session i) (clock (S i)))
        (Hconn : ∀ i, connection (session i) = NoFault)
        (Hinitial : table_ok (clock 0) initial).

#[local] Instance worker_repository : OutboxRepository :=
  pg_repository session token backoff others initial self.

(** The durable table after the worker's calls [t]. *)
Definition table_after (t : list event) : table :=
  pg_tables session token backoff others self 0 initial t.

Lemma table_after_ok t : table_ok (clock (length t)) (table_after t).
Proof using Hothers Hinitial. exact (proj1 (proj2 (tables_evolve _ _ _ _ _ _ Hothers 0 initial t Hinitial))). Qed.

Lemma table_after_snoc t e :
  table_after (t ++ [e]) = pg_call session token backoff others self (length t) e (table_after t).
Proof. unfold table_after. by rewrite tables_app. Qed.

Lemma table_after_evolves t l :
  evolves (clock (length t), table_after t) (clock (length (t ++ l)), table_after (t ++ l)).
Proof using Hothers Hinitial.
  unfold table_after. rewrite tables_app, length_app.
  exact (tables_evolve _ _ _ _ _ _ Hothers (length t) (table_after t) l (table_after_ok t)).
Qed.

Lemma settlement_closes t c h e v :
  settles c h e v → absorbed v = true → answered self t e → open_command c (table_after t) →
  closed_command (clock (length (t ++ [e]))) c (table_after (t ++ [e])).
Proof using Hothers Hinitial Hconn.
  intros Hst Ha Hans Hopen. rewrite table_after_snoc, length_app, Nat.add_1_r.
  destruct (Hothers (length t) (table_after t) (table_after_ok t)) as (mid & l & Hrun & Hs).
  pose proof (run_evolves _ _ _ _ _ (table_after_ok t) Hrun) as Hev.
  pose proof (open_evolves c _ _ Hev Hopen) as Hopen'. pose proof Hev as (_ & Hok & _). cbn [snd fst] in *.
  destruct Hst as [reference v _ _|reason mode v _ _ _ _|reason v _ _]; cbn [answered pg_call] in *; subst v.
  - by eapply complete_closes.
  - by eapply retry_closes.
  - by eapply dead_letter_closes.
Qed.

Lemma pass_closes t c lc :
  settled_pass self c lc → genuine self t lc → open_command c (table_after t) →
  closed_command (clock (length (t ++ lc))) c (table_after (t ++ lc)).
Proof using Hothers Hinitial Hconn.
  intros (v & Hp & Ha) Hg Hopen. destruct Hp as [h e v _ _ Hst|f v0 h e v _ _ Hst].
  - destruct Hg as [Hans _]. by eapply settlement_closes.
  - destruct Hg as (_ & Hans & _). change [Handled c v0; e] with ([Handled c v0] ++ [e]). rewrite app_assoc.
    eapply settlement_closes; [done..|]. exact (open_evolves c _ _ (table_after_evolves t [Handled c v0]) Hopen).
Qed.

Lemma passes_close t cs ls :
  Forall2 (settled_pass self) cs ls → genuine self t (concat ls) →
  (∀ c, c ∈ cs → open_command c (table_after t)) →
  ∀ c, c ∈ cs → closed_command (clock (length (t ++ concat ls))) c (table_after (t ++ concat ls)).
Proof using Hothers Hinitial Hconn.
  intros HF. revert t. induction HF as [|c lc cs ls Hp HF IH]; intros t Hg Hopen c' Hc'.
  - by apply not_elem_of_nil in Hc'.
  - cbn [concat] in *. apply genuine_app in Hg as [Hg1 Hg2]. rewrite app_assoc.
    apply elem_of_cons in Hc' as [->|Hc'].
    + eapply (closed_evolves c (_, _) (_, _)); [apply table_after_evolves|].
      apply pass_closes; [done|done|]. apply Hopen. by left.
    + apply IH; [done| |done]. intros c1 Hc1.
      eapply (open_evolves c1 _ _ (table_after_evolves t lc)), Hopen. by right.
Qed.

Lemma claim_opens t b c :
  answered self t (ClaimedBatch (Ok b)) → c ∈ commands b →
  open_command c (table_after (t ++ [ClaimedBatch (Ok b)])).
Proof using Hothers Hinitial Hconn.
  intros Hans Hc. rewrite table_after_snoc.
  destruct (Hothers (length t) (table_after t) (table_after_ok t)) as (mid & l & Hrun & Hs).
  pose proof (run_evolves _ _ _ _ _ (table_after_ok t) Hrun) as (_ & Hok & _). cbn [snd fst] in Hok.
  cbn [answered pg_call] in *.
  change (Ok b = snd (claim_batch (session (length t)) (token (length t)) (worker_id self) (batch_size self)
    (lease_duration self) (others (length t) (table_after t)))) in Hans.
  destruct (claim_batch _ _ _ _ _ _) as [t1 r1] eqn:Hcl. cbn [snd] in Hans. subst r1.
  destruct (claim_delivers _ _ _ _ Hs Hok _ _ _ _ _ _ _ Hcl Hc)
    as (r & r' & _ & Hr' & _ & _ & _ & _ & _ & _ & _ & _ & _ & Hhold & _).
  exists r'. split; [exact Hr'|by left].
Qed.

(** a poll that returns leaves no live lease behind.  On the durable
    repository, with any other processes at work between its calls, after
    [poll_once] returned every command of the claimed batch is settled, taken
    over, or its lease has run out: no job waits for a worker that has moved
    on. *)
Theorem poll_leaves_no_live_lease t t' p :
  checked_handlers self → poll_once self t = (t', Ok p) →
  ∃ b l, t' = t ++ ClaimedBatch (Ok b) :: l
    ∧ Z.of_nat (length (commands b)) = poll_claimed p
    ∧ ∀ c, c ∈ commands b → closed_command (clock (length t')) c (table_after t').
Proof using Hothers Hinitial Hconn.
  intros Hh Hpoll.
  pose proof (emits_and _ _ _ _ (poll_emits (pg_laws session token backoff others initial self) self Hh t) (honest_poll self t)) as Hem.
  destruct (emits_run _ _ _ _ _ Hpoll Hem) as (l & -> & ((b & ls & -> & HF) & ->) & Hg).
  exists b, (concat ls). split; [done|]. cbn [genuine] in Hg. destruct Hg as [Hans Hg]. split.
  - pose proof (passes_totals _ _ _ HF). unfold poll_of. cbn [poll_claimed]. rewrite total_cons. cbn [w_claimed]. lia.
  - intros c Hc. change (ClaimedBatch (Ok b) :: concat ls) with ([ClaimedBatch (Ok b)] ++ concat ls).
    rewrite app_assoc. eapply passes_close; [done|done| |done]. intros c' Hc'. by apply claim_opens.
Qed.
End no_live_lease.

(** C27: every selected row has exactly one outcome.  Over any repository that
    keeps its contract, [poll_once] runs the registered handler of each command
    and then settles it by exactly one call, the one the handler's result, its
    exception (a reconcile-only retry) or its absence (a dead letter) asks for;
    the poll result counts these calls, and its own checks never fail.  A poll
    that raises passes on the error of the claim or of a settlement other than
    a lost fence. *)
Theorem poll_settles_every_row `{R : OutboxRepository} self t t' r :
  RepositoryLaws R → checked_handlers self → poll_once self t = (t', r) →
  ∃ l, t' = t ++ l
  ∧ match r with
    | Ok p =>
        polled self l ∧ p = poll_of l
        ∧ poll_succeeded p + poll_retried p + poll_dead_lettered p + poll_fence_lost p = poll_selected p
    | Raise e =>
        l = [ClaimedBatch (Raise e)]
        ∨ ∃ b cs1 c cs2 ls lc, l = ClaimedBatch (Ok b) :: concat ls ++ lc
          ∧ commands b = cs1 ++ c :: cs2 ∧ Forall2 (settled_pass self) cs1 ls
          ∧ pass self c lc (Raise e) ∧ fence_error (Raise e : result Z) = false
    end.
Proof.
  intros RL Hh Hpoll.
  pose proof (emits_and _ _ _ _ (poll_emits RL self Hh t) (honest_poll self t)) as Hem.
  destruct (emits_run _ _ _ _ _ Hpoll Hem) as (l & Ht & Hr & Hg).
  exists l. split; [done|]. destruct r as [p|e]; [|done].
  destruct Hr as [(b & ls & -> & HF) ->]. split; [by exists b, ls|split; [done|]].
  destruct Hg as [Hans _]. cbn [answered] in Hans. symmetry in Hans. apply law_batch in Hans as (_ & _ & Hb)%batch_facts.
  pose proof (passes_totals _ _ _ HF). unfold poll_of.
  cbn [poll_succeeded poll_retried poll_dead_lettered poll_fence_lost poll_selected].
  rewrite !(total_cons _ (ClaimedBatch (Ok b))). cbn [w_succeeded w_retried w_dead_lettered w_fence_lost w_selected].
  lia.
Qed.

(** C28: the polling loop stops and accounts for its work.  Once the stop answer
    is given at the latest after [limit] questions, the loop ends within
    [limit + 1] passes; if no port raises it returns the totals of exactly the
    polls it made, having paused exactly after each empty poll that was not
    followed by a stop, and every claimed batch is settled before it ends. *)
Theorem run_until_stopped_terminates `{R : OutboxRepository} self stop_requested limit idle t t' r fuel :
  RepositoryLaws R → checked_handlers self →
  (∀ t, limit <= total w_stops t → stop_requested t = Ok true) →
  limit < total w_stops t + Z.of_nat fuel → (0 < fuel)%nat → 0 < idle <= seconds 60 →
  run_until_stopped self fuel stop_requested idle t = (t', r) →
  ∃ l, t' = t ++ l
  ∧ match r with
    | Ok (Some s) => rounds self l ∧ s = summary_of l
    | Ok None => False
    | Raise _ => True
    end.
Proof.
  intros RL Hh Hstop Hfuel Hpos Hidle Hrun. unfold run_until_stopped in Hrun.
  assert (emits (_ ← pure (raise_if (negb ((0 <? idle) && (idle <=? seconds 60)))
                 (ValueError "idle_delay_seconds must be in (0, 60]"));
                 run_loop self fuel stop_requested empty_summary) t
            (loop_post self empty_summary)) as Hem.
  { apply emits_pure_bind.
    - intros u _. by eapply loop_emits.
    - intros e He. exact I. }
  destruct (emits_run _ _ _ _ _ Hrun Hem) as (l & -> & Hl). exists l. split; [done|].
  destruct r as [[s|]|e]; [|done|done]. destruct Hl as [? ->]. split; [done|].
  unfold summary_plus, empty_summary, summary_of. cbn -[total]. by rewrite !Z.add_0_l.
Qed.

(** * Examples *)
(** One worker with one handler over a table that holds one due job. *)
Definition sample_handler : handler :=
  λ _ _, Ok (HandlerAnswer (mkHandlerResult SUCCEEDED (Some ($"plink_1")) None None)).
Definition sample_worker : OutboxWorker :=
  mkOutboxWorker ($"w1") [($"CREATE_PAYMENT_LINK", sample_handler)] 10 (seconds 30) (λ _, Ok tt).
Definition sample_sessions (i : nat) : Session := sample_session (10 + Z.of_nat i).
Definition sample_clock (i : nat) : Z := 9 + Z.of_nat i.
Definition sample_backoff : BackoffPolicy := mkBackoffPolicy (seconds 1) (seconds 60).

#[local] Instance sample_repository : OutboxRepository :=
  pg_repository sample_sessions (λ _, Ok ($"nonce")) sample_backoff (λ _ tbl, tbl) (sample_tables 1) sample_worker.

Lemma sample_laws : RepositoryLaws sample_repository.
Proof. apply pg_laws. Qed.

Lemma sample_handlers_checked : checked_handlers sample_worker.
Proof.
  intros ty f c t h. cbn [sample_worker handlers dict_get]. case_match; [|done].
  intros [= <-] [= <-]. reflexivity.
Qed.

Lemma sample_others i tbl :
  table_ok (sample_clock i) tbl →
  ∃ mid l, run (sample_clock i, tbl) l (mid, tbl)
    ∧ session_ok mid (sample_sessions i) (sample_clock (S i)).
Proof.
  intros _. exists (sample_clock i), []. split; [constructor|].
  unfold sample_clock, sample_sessions, sample_session. split; [|intros id]; cbn [now stamps]; lia.
Qed.

(** After the stop flag is set, at the second question. *)
Definition sample_stop (t : list event) : result bool := Ok (2 <=? total w_stops t).

Lemma sample_polled : ∃ p, snd (poll_once sample_worker []) = Ok p ∧ poll_claimed p = 1.
Proof. eexists. split; vm_compute; reflexivity. Qed.

Lemma poll_leaves_no_live_lease_witness :
  ∃ b l, fst (poll_once sample_worker []) = ClaimedBatch (Ok b) :: l
    ∧ Z.of_nat (length (commands b)) = 1
    ∧ ∀ c, c ∈ commands b → closed_command (sample_clock (length (fst (poll_once sample_worker [])))) c
        (table_after sample_sessions (λ _, Ok ($"nonce")) sample_backoff (λ _ tbl, tbl) (sample_tables 1)
           sample_worker (fst (poll_once sample_worker []))).
Proof.
  destruct sample_polled as (p & Hp & Hc). destruct (poll_once sample_worker []) as [t' r] eqn:E. cbn [fst snd] in *.
  subst r. rewrite <- Hc.
  apply (poll_leaves_no_live_lease sample_sessions (λ _, Ok ($"nonce")) sample_backoff (λ _ tbl, tbl)
    (sample_tables 1) sample_worker sample_clock sample_others (λ i, eq_refl)
    (table_ok_later 5 9 _ ltac:(lia) (reachable_ok _ _ (proj1 sample_reachable)))
    [] t' p sample_handlers_checked E).
Defined.

Lemma poll_settles_every_row_witness :
  ∃ p, snd (poll_once sample_worker []) = Ok p
    ∧ poll_succeeded p + poll_retried p + poll_dead_lettered p + poll_fence_lost p = poll_selected p.
Proof.
  destruct sample_polled as (p & Hp & _). exists p. split; [exact Hp|].
  destruct (poll_once sample_worker []) as [t' r] eqn:E. cbn [snd] in Hp. subst r.
  destruct (poll_settles_every_row sample_worker [] t' (Ok p) sample_laws sample_handlers_checked E)
    as (l & _ & _ & _ & H). exact H.
Defined.

Lemma run_until_stopped_terminates_witness :
  match snd (run_until_stopped sample_worker 3 sample_stop (seconds 1) []) with
  | Ok None => False | _ => True end.
Proof.
  destruct (run_until_stopped sample_worker 3 sample_stop (seconds 1) []) as [t' r] eqn:E.
  destruct (run_until_stopped_terminates sample_worker sample_stop 2 (seconds 1) [] t' r 3
    sample_laws sample_handlers_checked) as (l & _ & H).
  - intros t Ht. unfold sample_stop. by rewrite (proj2 (Z.leb_le _ _) Ht).
  - vm_compute. reflexivity.
  - lia.
  - vm_compute. split; [reflexivity|discriminate].
  - exact E.
  - cbn [snd]. destruct r as [[s|]|e]; [exact I|exact H|exact I].
Defined.
