(* ===== verification/EffectRows.v ===== *)
(** The rows a Payment Link effect works on
    [infrastructure/postgres/migrations/001_initial.sql], [003], [004] and
    [008]: one action of type CREATE_STANDARD_PAYMENT_LINK, its recovery case and
    its reserved recovery instrument, with the check constraints and the
    lifecycle triggers of the three tables, and the rows around them that the
    triggers read. *)
From S2P Require Import Prelude PyStr PyTime Json Text States Actions PgOutbox.

(** * Enumerations *)
Module ActionStatus.
Inductive action_status :=
  | PLANNED | QUEUED | EXECUTING | SUCCEEDED | FAILED_RETRYABLE | FAILED_SAFE | UNCERTAIN
  | RECONCILING | RECONCILED | DEAD_LETTER | CANCELLED.
#[global] Instance eq_dec : EqDecision action_status.
Proof. solve_decision. Defined.
End ActionStatus.

Module InstrumentStatus.
Inductive instrument_status :=
  | CREATING | UNCERTAIN | ISSUED | ACTIVE | CANCEL_PENDING | PAID | PARTIALLY_PAID | CANCELLED
  | EXPIRED | FAILED.
#[global] Instance eq_dec : EqDecision instrument_status.
Proof. solve_decision. Defined.
End InstrumentStatus.

Module GateVerdict.
Inductive gate_verdict := ALLOWED | BLOCKED | APPROVAL_REQUIRED.
#[global] Instance eq_dec : EqDecision gate_verdict.
Proof. solve_decision. Defined.
End GateVerdict.

Inductive SourceLabel := RAZORPAY_TEST_MODE | REPLAY | SIMULATION.
Inductive ReconciliationStatus :=
  | RECON_NOT_REQUIRED | RECON_PENDING | RECON_CONFIRMED | RECON_CONFLICT | RECON_UNKNOWN.
Inductive MerchantStatus := MERCHANT_ACTIVE | MERCHANT_SUSPENDED | MERCHANT_OFFBOARDED.
Inductive ApprovalVerdict := VERDICT_PENDING | VERDICT_APPROVED | VERDICT_REJECTED | VERDICT_EXPIRED | VERDICT_CANCELLED.
#[export] Instance SourceLabel_eq_dec : EqDecision SourceLabel.
Proof. solve_decision. Defined.
#[export] Instance ReconciliationStatus_eq_dec : EqDecision ReconciliationStatus.
Proof. solve_decision. Defined.
#[export] Instance MerchantStatus_eq_dec : EqDecision MerchantStatus.
Proof. solve_decision. Defined.
#[export] Instance ApprovalVerdict_eq_dec : EqDecision ApprovalVerdict.
Proof. solve_decision. Defined.

(** * Rows *)

(** The columns of an action that its trigger makes immutable. *)
Record ActionIntent := mkActionIntent {
  a_id : pystr;
  a_merchant_id : pystr;
  a_case_id : pystr;
  a_action_key : pystr;
  a_action_type : ActionType;
  a_source_label : SourceLabel;
  a_max_attempts : Z;
  a_reference : option pystr;
  a_created_at : Z
}.

(** The effect gate's evidence: snapshot, verdict and reason codes. *)
Record GateEvidence := mkGateEvidence {
  snapshot : option json;
  verdict : option GateVerdict.gate_verdict;
  reason_codes : list pystr
}.
#[export] Instance GateEvidence_eq_dec : EqDecision GateEvidence.
Proof. solve_decision. Defined.

Record ActionRow := mkActionRow {
  a_intent : ActionIntent;
  a_status : ActionStatus.action_status;
  a_attempt_number : Z;
  a_lease : option pystr * option Z;
  a_evidence : GateEvidence;
  a_response : option json;
  a_provider_status : option pystr;
  a_reconciliation : ReconciliationStatus;
  a_provider_resource : option pystr;
  a_attempted : option Z * option Z;
  a_completed_at : option Z;
  a_last_error : option pystr;
  a_dead_letter : option Z * option pystr;
  a_updated_at : Z
}.

Record CaseRow := mkCaseRow {
  c_id : pystr;
  c_merchant_id : pystr;
  c_account_id : pystr;
  c_state : RecoveryState;
  c_version : Z;
  c_observation_contract : Z;
  c_observation_deadline : option Z;
  c_last_action_id : option pystr;
  c_terminal : option pystr * option Z;
  c_created_at : Z;
  c_updated_at : Z
}.

Record InstrumentRow := mkInstrumentRow {
  i_id : pystr;
  i_reference : pystr;
  i_status : InstrumentStatus.instrument_status;
  i_link : option pystr;
  i_provider_status : option pystr;
  i_reconciliation : ReconciliationStatus;
  i_reconciled_at : option Z;
  i_amount_minor : Z;
  i_collected_minor : Z;
  i_created_at : Z;
  i_updated_at : Z
}.

Record ApprovalFacts := mkApprovalFacts {
  approval_verdict : ApprovalVerdict;
  approval_acted_at : option Z;
  approval_expires_at : Z
}.

(** What the triggers and the joins read in other tables. *)
Record Surroundings := mkSurroundings {
  order_truth : CanonicalPaymentState;
  merchant_status : MerchantStatus;
  merchant_kill_switch : bool;
  account_is_test : bool;
  account_enabled : bool;
  planning_verdict : GateVerdict.gate_verdict;
  attached_approval : option ApprovalFacts;
  links_of_others : list pystr    (* link ids on the account's other instruments *)
}.

Record EffectRows := mkEffectRows {
  action : ActionRow;
  case_ : CaseRow;
  instrument : InstrumentRow;
  around : Surroundings
}.

(** * Column assignments *)
Definition set_status (st : ActionStatus.action_status) (r : ActionRow) : ActionRow :=
  mkActionRow (a_intent r) st (a_attempt_number r) (a_lease r) (a_evidence r) (a_response r)
    (a_provider_status r) (a_reconciliation r) (a_provider_resource r) (a_attempted r)
    (a_completed_at r) (a_last_error r) (a_dead_letter r) (a_updated_at r).
Definition set_lease (owner : option pystr) (expires : option Z) (r : ActionRow) : ActionRow :=
  mkActionRow (a_intent r) (a_status r) (a_attempt_number r) (owner, expires) (a_evidence r) (a_response r)
    (a_provider_status r) (a_reconciliation r) (a_provider_resource r) (a_attempted r)
    (a_completed_at r) (a_last_error r) (a_dead_letter r) (a_updated_at r).
Definition set_attempt (number : Z) (first last_ : option Z) (r : ActionRow) : ActionRow :=
  mkActionRow (a_intent r) (a_status r) number (a_lease r) (a_evidence r) (a_response r)
    (a_provider_status r) (a_reconciliation r) (a_provider_resource r) (first, last_)
    (a_completed_at r) (a_last_error r) (a_dead_letter r) (a_updated_at r).
Definition set_gate (e : GateEvidence) (r : ActionRow) : ActionRow :=
  mkActionRow (a_intent r) (a_status r) (a_attempt_number r) (a_lease r) e (a_response r)
    (a_provider_status r) (a_reconciliation r) (a_provider_resource r) (a_attempted r)
    (a_completed_at r) (a_last_error r) (a_dead_letter r) (a_updated_at r).
Definition set_provider (response : option json) (status : option pystr) (recon : ReconciliationStatus)
    (resource : option pystr) (r : ActionRow) : ActionRow :=
  mkActionRow (a_intent r) (a_status r) (a_attempt_number r) (a_lease r) (a_evidence r) response
    status recon resource (a_attempted r)
    (a_completed_at r) (a_last_error r) (a_dead_letter r) (a_updated_at r).
Definition set_end (completed : option Z) (error : option pystr) (dead : option Z * option pystr)
    (r : ActionRow) : ActionRow :=
  mkActionRow (a_intent r) (a_status r) (a_attempt_number r) (a_lease r) (a_evidence r) (a_response r)
    (a_provider_status r) (a_reconciliation r) (a_provider_resource r) (a_attempted r)
    completed error dead (a_updated_at r).
Definition stamp_action (at_ : Z) (r : ActionRow) : ActionRow :=
  mkActionRow (a_intent r) (a_status r) (a_attempt_number r) (a_lease r) (a_evidence r) (a_response r)
    (a_provider_status r) (a_reconciliation r) (a_provider_resource r) (a_attempted r)
    (a_completed_at r) (a_last_error r) (a_dead_letter r) at_.

Definition set_case (st : RecoveryState) (version : Z) (terminal : option pystr * option Z)
    (r : CaseRow) : CaseRow :=
  mkCaseRow (c_id r) (c_merchant_id r) (c_account_id r) st version (c_observation_contract r)
    (c_observation_deadline r) (c_last_action_id r) terminal (c_created_at r) (c_updated_at r).
Definition stamp_case (at_ : Z) (r : CaseRow) : CaseRow :=
  mkCaseRow (c_id r) (c_merchant_id r) (c_account_id r) (c_state r) (c_version r) (c_observation_contract r)
    (c_observation_deadline r) (c_last_action_id r) (c_terminal r) (c_created_at r) at_.

Definition set_instrument (st : InstrumentStatus.instrument_status) (link provider : option pystr)
    (recon : ReconciliationStatus) (at_ : option Z) (r : InstrumentRow) : InstrumentRow :=
  mkInstrumentRow (i_id r) (i_reference r) st link provider recon at_ (i_amount_minor r)
    (i_collected_minor r) (i_created_at r) (i_updated_at r).
Definition stamp_instrument (at_ : Z) (r : InstrumentRow) : InstrumentRow :=
  mkInstrumentRow (i_id r) (i_reference r) (i_status r) (i_link r) (i_provider_status r)
    (i_reconciliation r) (i_reconciled_at r) (i_amount_minor r) (i_collected_minor r) (i_created_at r) at_.

Definition with_action (rows : EffectRows) (r : ActionRow) : EffectRows :=
  mkEffectRows r (case_ rows) (instrument rows) (around rows).
Definition with_case (rows : EffectRows) (r : CaseRow) : EffectRows :=
  mkEffectRows (action rows) r (instrument rows) (around rows).
Definition with_instrument (rows : EffectRows) (r : InstrumentRow) : EffectRows :=
  mkEffectRows (action rows) (case_ rows) r (around rows).

(** * Check constraints *)
Section action_constraints.
Context (r : ActionRow).
Abbreviation among l := (bool_decide (a_status r ∈ l)).

(** [actions_lease_ck]. *)
Definition action_lease_ck : bool :=
  let '(owner, expires) := a_lease r in
  if among [ActionStatus.EXECUTING; ActionStatus.RECONCILING] then
    when_not_null (λ o, 0 <? str_len (btrim o)) owner && bool_decide (expires ≠ None)
  else bool_decide (owner = None) && bool_decide (expires = None).

(** [actions_attempt_timeline_ck]. *)
Definition action_timeline_ck : bool :=
  match a_attempted r with
  | (None, None) => true
  | (Some first, Some last_) => first <=? last_
  | _ => false
  end.

(** [actions_effect_gate_pair_ck]. *)
Definition action_gate_pair_ck : bool :=
  match a_evidence r with
  | mkGateEvidence None None codes => bool_decide (codes = [])
  | mkGateEvidence (Some _) (Some v) codes => bool_decide (v = GateVerdict.ALLOWED) || bool_decide (codes ≠ [])
  | _ => false
  end.

(** [actions_execution_evidence_ck]. *)
Definition action_execution_evidence_ck : bool :=
  negb (among [ActionStatus.EXECUTING; ActionStatus.SUCCEEDED; ActionStatus.FAILED_RETRYABLE;
               ActionStatus.FAILED_SAFE; ActionStatus.UNCERTAIN; ActionStatus.RECONCILING;
               ActionStatus.RECONCILED])
  || (bool_decide (snapshot (a_evidence r) ≠ None)
      && bool_decide (verdict (a_evidence r) = Some GateVerdict.ALLOWED)
      && bool_decide (fst (a_attempted r) ≠ None)).

Definition action_ended : bool :=
  among [ActionStatus.SUCCEEDED; ActionStatus.FAILED_SAFE; ActionStatus.RECONCILED;
         ActionStatus.DEAD_LETTER; ActionStatus.CANCELLED].

(** [actions_completion_ck], [actions_dead_letter_ck]. *)
Definition action_completion_ck : bool := eqb action_ended (bool_decide (a_completed_at r ≠ None)).
Definition action_dead_letter_ck : bool :=
  let '(at_, reason) := a_dead_letter r in
  if among [ActionStatus.DEAD_LETTER] then
    bool_decide (at_ ≠ None) && when_not_null (λ s, 0 <? str_len (btrim s)) reason
  else bool_decide (at_ = None) && bool_decide (reason = None).

Definition action_constraints : bool :=
  (0 <=? a_attempt_number r) && (a_attempt_number r <=? a_max_attempts (a_intent r))
  && match snapshot (a_evidence r) with Some (JDict _) | None => true | _ => false end
  && match a_response r with Some (JDict _) | None => true | _ => false end
  && action_lease_ck && action_timeline_ck && action_gate_pair_ck && action_execution_evidence_ck
  && action_completion_ck && action_dead_letter_ck && (a_created_at (a_intent r) <=? a_updated_at r).
End action_constraints.

Definition CASE_TERMINAL_STATES : list RecoveryState :=
  [RECOVERED; SUPPRESSED_PAID; SUPPRESSED_POLICY; EXHAUSTED; FAILED_SAFE; ESCALATED; DUPLICATE_REVIEW].

(** [recovery_cases_terminal_ck] and the rest. *)
Definition case_constraints (r : CaseRow) : bool :=
  (0 <=? c_version r)
  && (let '(reason, at_) := c_terminal r in
      if bool_decide (c_state r ∈ CASE_TERMINAL_STATES) then
        when_not_null (λ s, 0 <? str_len (btrim s)) reason && bool_decide (at_ ≠ None)
      else bool_decide (reason = None) && bool_decide (at_ = None))
  && (c_created_at r <=? c_updated_at r).

(** [recovery_instruments_provider_id_ck], [recovery_instruments_collection_ck]
    and the rest. *)
Definition instrument_constraints (r : InstrumentRow) : bool :=
  (bool_decide (i_link r ≠ None)
   || bool_decide (i_status r ∈ [InstrumentStatus.CREATING; InstrumentStatus.UNCERTAIN; InstrumentStatus.FAILED]))
  && (if bool_decide (i_status r = InstrumentStatus.PAID) then i_collected_minor r =? i_amount_minor r
      else if bool_decide (i_status r = InstrumentStatus.PARTIALLY_PAID) then
        (0 <? i_collected_minor r) && (i_collected_minor r <? i_amount_minor r)
      else i_collected_minor r =? 0)
  && (i_created_at r <=? i_updated_at r).

(** * Triggers *)

Definition refused (message : string) : py_error := DatabaseError message.

(** [enforce_recovery_case_lifecycle]: the disjunction [allowed]. *)
Definition case_transition_allowed (old new : RecoveryState) : bool :=
  let to l := bool_decide (new ∈ l) in
  bool_decide (new = DUPLICATE_REVIEW)
  || match old with
     | OBSERVING => to [ASSESSING; SUPPRESSED_PAID]
     | ASSESSING => to [WAITING; APPROVAL_REQUIRED; ACTION_QUEUED; EXHAUSTED; SUPPRESSED_POLICY;
                        SUPPRESSED_PAID; ESCALATED]
     | WAITING => to [ASSESSING; SUPPRESSED_PAID; SUPPRESSED_POLICY; EXHAUSTED]
     | APPROVAL_REQUIRED => to [ACTION_QUEUED; SUPPRESSED_POLICY; SUPPRESSED_PAID]
     | ACTION_QUEUED => to [EXECUTING; SUPPRESSED_PAID; SUPPRESSED_POLICY]
     | EXECUTING => to [ACTIVE; ACTION_UNCERTAIN; FAILED_SAFE; SUPPRESSED_PAID]
     | ACTION_UNCERTAIN => to [ACTIVE; ACTION_QUEUED; ESCALATED; SUPPRESSED_PAID]
     | ACTIVE => to [RECOVERED; SUPPRESSED_PAID; ASSESSING; EXHAUSTED]
     | _ => false
     end.

(** [enforce_observation_deadline] and [enforce_recovery_case_lifecycle] on an
    UPDATE of state, version and terminal columns. *)
Definition case_triggers (at_ : Z) (around : Surroundings) (old new : CaseRow) : result unit :=
  _ ← raise_if ((c_observation_contract old =? 0) && bool_decide (c_state new ≠ c_state old)
                && bool_decide (c_state new ∈ [ASSESSING; WAITING; APPROVAL_REQUIRED; ACTION_QUEUED;
                     EXECUTING; ACTION_UNCERTAIN; ACTIVE; RECOVERED]))
        (refused "legacy recovery case lacks trusted observation evidence and cannot advance");
  _ ← raise_if (bool_decide (c_state old = OBSERVING) && bool_decide (c_state new = ASSESSING)
                && (negb (c_observation_contract old =? 1)
                    || negb (when_not_null (λ d, d <=? at_) (c_observation_deadline old))))
        (refused "recovery assessment cannot start before observation deadline");
  _ ← raise_if (negb (c_version new =? c_version old + 1))
        (refused "recovery case version must advance exactly by one");
  _ ← raise_if (bool_decide (c_state new ∈ [ASSESSING; WAITING; APPROVAL_REQUIRED; ACTION_QUEUED;
                     EXECUTING; ACTION_UNCERTAIN; ACTIVE])
                && bool_decide (order_truth around ≠ UNPAID))
        (refused "active recovery workflow requires canonical UNPAID truth");
  raise_if (bool_decide (c_state new ≠ c_state old)
            && negb (case_transition_allowed (c_state old) (c_state new)))
    (refused "invalid recovery case transition").

(** [enforce_recovery_instrument_lifecycle] as of migration 008. *)
Definition instrument_transition_allowed (old new : InstrumentStatus.instrument_status) : bool :=
  let to l := bool_decide (new ∈ l) in
  match old with
  | InstrumentStatus.CREATING =>
      to [InstrumentStatus.UNCERTAIN; InstrumentStatus.ISSUED; InstrumentStatus.ACTIVE; InstrumentStatus.FAILED]
  | InstrumentStatus.UNCERTAIN =>
      to [InstrumentStatus.CREATING; InstrumentStatus.ISSUED; InstrumentStatus.ACTIVE;
          InstrumentStatus.CANCEL_PENDING; InstrumentStatus.FAILED]
  | InstrumentStatus.ISSUED =>
      to [InstrumentStatus.ACTIVE; InstrumentStatus.CANCEL_PENDING; InstrumentStatus.PAID;
          InstrumentStatus.PARTIALLY_PAID; InstrumentStatus.CANCELLED; InstrumentStatus.EXPIRED;
          InstrumentStatus.FAILED]
  | InstrumentStatus.ACTIVE =>
      to [InstrumentStatus.CANCEL_PENDING; InstrumentStatus.PAID; InstrumentStatus.PARTIALLY_PAID;
          InstrumentStatus.CANCELLED; InstrumentStatus.EXPIRED; InstrumentStatus.FAILED]
  | InstrumentStatus.CANCEL_PENDING =>
      to [InstrumentStatus.ACTIVE; InstrumentStatus.PAID; InstrumentStatus.PARTIALLY_PAID;
          InstrumentStatus.CANCELLED; InstrumentStatus.EXPIRED; InstrumentStatus.FAILED]
  | InstrumentStatus.PARTIALLY_PAID => to [InstrumentStatus.PAID]
  | InstrumentStatus.CANCELLED | InstrumentStatus.EXPIRED =>
      to [InstrumentStatus.PAID; InstrumentStatus.PARTIALLY_PAID]
  | _ => false
  end.

Definition instrument_triggers (old new : InstrumentRow) : result unit :=
  _ ← raise_if (bool_decide (i_link old ≠ None) && bool_decide (i_link new ≠ i_link old))
        (refused "provider ids on a recovery instrument are write-once");
  _ ← raise_if (i_collected_minor new <? i_collected_minor old)
        (refused "recovery instrument money cannot decrease");
  _ ← raise_if (match i_reconciled_at old with
                | Some t => negb (when_not_null (λ t', t <=? t') (i_reconciled_at new))
                | None => false
                end)
        (refused "instrument reconciliation time cannot regress");
  raise_if (bool_decide (i_status new ≠ i_status old)
            && negb (instrument_transition_allowed (i_status old) (i_status new)))
    (refused "invalid recovery instrument transition").

(** [enforce_effect_source_boundary]. *)
Definition effect_actions : list ActionType :=
  [CREATE_STANDARD_PAYMENT_LINK; NOTIFY_EXISTING_LINK; CANCEL_PAYMENT_LINK].
Definition source_boundary (old new : ActionRow) : result unit :=
  raise_if (bool_decide (a_status new = ActionStatus.EXECUTING) && bool_decide (a_status new ≠ a_status old)
            && bool_decide (a_action_type (a_intent new) ∈ effect_actions)
            && bool_decide (a_source_label (a_intent new) ≠ RAZORPAY_TEST_MODE))
    (refused "provider effects are forbidden outside RAZORPAY_TEST_MODE").

(** [enforce_action_lifecycle]: the disjunction [allowed]. *)
Definition action_transition_allowed (old new : ActionStatus.action_status) : bool :=
  let to l := bool_decide (new ∈ l) in
  match old with
  | ActionStatus.PLANNED => to [ActionStatus.QUEUED; ActionStatus.CANCELLED]
  | ActionStatus.QUEUED => to [ActionStatus.EXECUTING; ActionStatus.CANCELLED; ActionStatus.DEAD_LETTER]
  | ActionStatus.EXECUTING =>
      to [ActionStatus.SUCCEEDED; ActionStatus.FAILED_RETRYABLE; ActionStatus.FAILED_SAFE;
          ActionStatus.UNCERTAIN; ActionStatus.CANCELLED]
  | ActionStatus.FAILED_RETRYABLE =>
      to [ActionStatus.QUEUED; ActionStatus.DEAD_LETTER; ActionStatus.CANCELLED]
  | ActionStatus.UNCERTAIN => to [ActionStatus.RECONCILING; ActionStatus.DEAD_LETTER]
  | ActionStatus.RECONCILING =>
      to [ActionStatus.RECONCILED; ActionStatus.QUEUED; ActionStatus.FAILED_SAFE; ActionStatus.DEAD_LETTER]
  | _ => false
  end.

(** An approval the trigger accepts at [at_], for [RAZORPAY_TEST_MODE]. *)
Definition approval_current (at_ : Z) (around : Surroundings) : bool :=
  match attached_approval around with
  | Some p =>
      bool_decide (approval_verdict p = VERDICT_APPROVED)
      && when_not_null (λ t, t <=? approval_expires_at p) (approval_acted_at p)
      && (at_ <=? approval_expires_at p)
  | None => false
  end.

(** The guards of a transition into EXECUTING, for a create-link action of
    source RAZORPAY_TEST_MODE. *)
Definition execution_guards (at_ : Z) (rows : EffectRows) (new : ActionRow) : result unit :=
  let env := around rows in
  _ ← raise_if (negb (account_is_test env && account_enabled env))
        (refused "test-mode effects require an enabled TEST provider account");
  _ ← raise_if (negb (bool_decide (c_state (case_ rows) = EXECUTING)
                      && bool_decide (c_last_action_id (case_ rows) = Some (a_id (a_intent new)))
                      && bool_decide (order_truth env = UNPAID)
                      && bool_decide (merchant_status env = MERCHANT_ACTIVE)
                      && negb (merchant_kill_switch env)))
        (refused "collection execution failed case, truth, or kill-switch guard");
  _ ← raise_if (negb (bool_decide (Some (i_reference (instrument rows)) = a_reference (a_intent new))
                      && bool_decide (i_status (instrument rows) = InstrumentStatus.CREATING)))
        (refused "create-link execution requires a reserved instrument");
  raise_if (bool_decide (planning_verdict env = GateVerdict.APPROVAL_REQUIRED)
            && negb (approval_current at_ env))
    (refused "approval expired before action execution").

(** [enforce_action_lifecycle] on an UPDATE that keeps the intent. *)
Definition action_lifecycle (at_ : Z) (rows : EffectRows) (new : ActionRow) : result unit :=
  let old := action rows in
  _ ← raise_if (a_attempt_number new <? a_attempt_number old)
        (refused "action attempt_number cannot decrease");
  _ ← raise_if (bool_decide (snapshot (a_evidence old) ≠ None) && bool_decide (a_evidence new ≠ a_evidence old))
        (refused "effect-gate evidence is write-once");
  _ ← raise_if (bool_decide (snapshot (a_evidence old) = None) && bool_decide (snapshot (a_evidence new) ≠ None)
                && (bool_decide (a_status new = a_status old)
                    || bool_decide (a_status new ∉ [ActionStatus.EXECUTING; ActionStatus.CANCELLED])))
        (refused "effect-gate evidence must be recorded with its transition");
  _ ← raise_if (bool_decide (fst (a_attempted old) ≠ None)
                && bool_decide (fst (a_attempted new) ≠ fst (a_attempted old)))
        (refused "first_attempted_at is write-once");
  _ ← raise_if (bool_decide (fst (a_attempted old) = None) && bool_decide (fst (a_attempted new) ≠ None)
                && bool_decide (a_status new ≠ ActionStatus.EXECUTING))
        (refused "first_attempted_at must be set when execution starts");
  _ ← (if bool_decide (a_status new = ActionStatus.EXECUTING) && bool_decide (a_status new ≠ a_status old)
       then execution_guards at_ rows new else Ok tt);
  _ ← raise_if (action_ended old) (refused "completed action results are immutable");
  raise_if (bool_decide (a_status new ≠ a_status old)
            && negb (action_transition_allowed (a_status old) (a_status new)))
    (refused "invalid action status transition").

(** * Updates *)

(** What a transaction meets: the clock when the fence is read and when the
    triggers run, the stamp of [set_updated_at], the answer of the audit
    appender, and the fate of the connection. *)
Record EffectSession := mkEffectSession {
  fence_now : Z;
  trigger_now : Z;
  row_stamp : Z;
  audit_answer : result unit;
  link_fate : fault
}.

Definition violated : py_error := DatabaseError "check constraint violated".

(** One row of an UPDATE: triggers in the order of their names, the stamp, the
    constraints. *)
Definition write_action (s : EffectSession) (rows : EffectRows) (new : ActionRow) : result EffectRows :=
  _ ← source_boundary (action rows) new;
  _ ← action_lifecycle (trigger_now s) rows new;
  let new := stamp_action (row_stamp s) new in
  _ ← raise_if (negb (action_constraints new)) violated;
  Ok (with_action rows new).

Definition write_case (s : EffectSession) (rows : EffectRows) (new : CaseRow) : result EffectRows :=
  _ ← case_triggers (trigger_now s) (around rows) (case_ rows) new;
  let new := stamp_case (row_stamp s) new in
  _ ← raise_if (negb (case_constraints new)) violated;
  Ok (with_case rows new).

Definition write_instrument (s : EffectSession) (rows : EffectRows) (new : InstrumentRow) : result EffectRows :=
  _ ← instrument_triggers (instrument rows) new;
  let new := stamp_instrument (row_stamp s) new in
  _ ← raise_if (negb (instrument_constraints new)) violated;
  _ ← raise_if (when_not_null (λ link, mem link (links_of_others (around rows))) (i_link new))
        (DatabaseError "duplicate key");
  Ok (with_instrument rows new).

(** A computation inside a transaction: it reads and updates the rows. *)
Definition txn (A : Type) : Type := EffectRows → result (EffectRows * A).
#[export] Instance txn_ret : MRet txn := λ A a rows, Ok (rows, a).
#[export] Instance txn_bind : MBind txn := λ A B f m rows,
  match m rows with Ok (rows', a) => f a rows' | Raise e => Raise e end.
Definition check {A} (r : result A) : txn A := λ rows, a ← r; Ok (rows, a).

(** [UPDATE ... WHERE ... RETURNING ...]: [None] when no row matches. *)
Definition update_action (s : EffectSession) (where_ : ActionStatus.action_status → bool) (f : ActionRow → ActionRow) :
    txn (option ActionStatus.action_status) := λ rows,
  if where_ (a_status (action rows)) then
    rows' ← write_action s rows (f (action rows)); Ok (rows', Some (a_status (action rows')))
  else Ok (rows, None).

Definition update_case (s : EffectSession) (where_ : RecoveryState → Z → bool) (f : CaseRow → CaseRow) :
    txn (option Z) := λ rows,
  if where_ (c_state (case_ rows)) (c_version (case_ rows)) then
    rows' ← write_case s rows (f (case_ rows)); Ok (rows', Some (c_version (case_ rows')))
  else Ok (rows, None).

Definition update_instrument (s : EffectSession) (where_ : InstrumentRow → bool)
    (f : InstrumentRow → InstrumentRow) : txn (option InstrumentStatus.instrument_status) := λ rows,
  if where_ (instrument rows) then
    rows' ← write_instrument s rows (f (instrument rows)); Ok (rows', Some (i_status (instrument rows')))
  else Ok (rows, None).

(** [with connection.transaction()]: all of it or, when anything raises, none. *)
Definition commit {A} (s : EffectSession) (m : txn A) (rows : EffectRows) : EffectRows * result A :=
  match link_fate s with
  | FailsBefore e => (rows, Raise e)
  | fate =>
      match m rows with
      | Raise e => (rows, Raise e)
      | Ok (rows', a) => (rows', match fate with ReplyLost e => Raise e | _ => Ok a end)
      end
  end.

(** * Lemmas *)

Lemma txn_bind_Ok {A B} (m : txn A) (f : A → txn B) rows rows' b :
  (m ≫= f) rows = Ok (rows', b) ↔ ∃ rows1 a, m rows = Ok (rows1, a) ∧ f a rows1 = Ok (rows', b).
Proof. unfold mbind, txn_bind. destruct (m rows) as [[rows1 a]|e]; naive_solver. Qed.

Lemma check_Ok {A} (r : result A) rows rows' a :
  check r rows = Ok (rows', a) ↔ r = Ok a ∧ rows' = rows.
Proof. unfold check. destruct r; cbn; naive_solver. Qed.

Lemma txn_ret_Ok {A} (a : A) rows rows' b : (mret a : txn A) rows = Ok (rows', b) ↔ b = a ∧ rows' = rows.
Proof. unfold mret, txn_ret. naive_solver. Qed.

(** What the lifecycle of an action lets through. *)
Record action_written (rows : EffectRows) (new : ActionRow) : Prop := {
  written_status : a_status new = a_status (action rows)
                   ∨ action_transition_allowed (a_status (action rows)) (a_status new) = true;
  written_open : action_ended (action rows) = false;
  written_evidence : snapshot (a_evidence (action rows)) ≠ None → a_evidence new = a_evidence (action rows);
  written_first : snapshot (a_evidence (action rows)) = None → snapshot (a_evidence new) ≠ None →
                  a_status new ≠ a_status (action rows)
                  ∧ (a_status new = ActionStatus.EXECUTING ∨ a_status new = ActionStatus.CANCELLED);
  written_guards : a_status new = ActionStatus.EXECUTING → a_status (action rows) ≠ ActionStatus.EXECUTING →
                   ∃ at_, execution_guards at_ rows new = Ok tt;
  written_ok : ∃ at_, action_constraints (stamp_action at_ new) = true
}.

Lemma and_false (b c : bool) : b && c = false → b = true → c = false.
Proof. by destruct b, c. Qed.

Lemma write_action_Ok s rows new rows' :
  write_action s rows new = Ok rows' →
  rows' = with_action rows (stamp_action (row_stamp s) new) ∧ action_written rows new.
Proof.
  unfold write_action, action_lifecycle. intros H. inv_ok. split; [done|].
  split.
  - destruct (decide (a_status new = a_status (action rows))) as [|Hn]; [by left|right].
    apply and_false in Hr0; [|by apply bool_decide_eq_true]. by apply negb_false_iff in Hr0.
  - done.
  - intros Hs. apply and_false in Hr3; [|by apply bool_decide_eq_true]. bools. by apply dec_stable.
  - intros Hn Hs. apply and_false in Hr4; [|by rewrite !bool_decide_eq_true_2]. bools. split; [done|].
    match goal with E : ¬ (_ ∉ _) |- _ => apply dec_stable in E end. set_solver.
  - intros He Hn. rewrite !bool_decide_true in Hr7 by congruence. cbn in Hr7. destruct r7. by eexists.
  - apply negb_false_iff in Hr1. by exists (row_stamp s).
Qed.

Record case_written (rows : EffectRows) (new : CaseRow) : Prop := {
  written_version : c_version new = c_version (case_ rows) + 1;
  written_state : c_state new = c_state (case_ rows)
                  ∨ case_transition_allowed (c_state (case_ rows)) (c_state new) = true;
  written_truth : c_state new ∈ [ASSESSING; WAITING; APPROVAL_REQUIRED; ACTION_QUEUED; EXECUTING;
                                 ACTION_UNCERTAIN; ACTIVE] → order_truth (around rows) = UNPAID
}.

Lemma write_case_Ok s rows new rows' :
  write_case s rows new = Ok rows' →
  rows' = with_case rows (stamp_case (row_stamp s) new) ∧ case_written rows new.
Proof.
  unfold write_case, case_triggers. intros H. inv_ok. split; [done|]. bools.
  split; [done| |].
  - destruct (decide (c_state new = c_state (case_ rows))) as [|Hn]; [by left|right].
    match goal with E : _ && negb _ = false |- _ =>
      apply and_false in E; [by apply negb_false_iff in E|by apply bool_decide_eq_true] end.
  - intros Hin. match goal with E : _ && bool_decide (order_truth _ ≠ _) = false |- _ =>
      apply and_false in E; [|by apply bool_decide_eq_true] end. bools. by apply dec_stable.
Qed.

Lemma write_instrument_Ok s rows new rows' :
  write_instrument s rows new = Ok rows' →
  rows' = with_instrument rows (stamp_instrument (row_stamp s) new)
  ∧ (i_link (instrument rows) ≠ None → i_link new = i_link (instrument rows))
  ∧ (i_status new = i_status (instrument rows)
     ∨ instrument_transition_allowed (i_status (instrument rows)) (i_status new) = true).
Proof.
  unfold write_instrument, instrument_triggers. intros H. inv_ok. split; [done|]. split.
  - intros Hl. match goal with E : _ && bool_decide (i_link _ ≠ _) = false |- _ =>
      apply and_false in E; [|by apply bool_decide_eq_true] end. bools. by apply dec_stable.
  - destruct (decide (i_status new = i_status (instrument rows))) as [|Hn]; [by left|right].
    match goal with E : bool_decide (i_status _ ≠ _) && negb _ = false |- _ =>
      apply and_false in E; [by apply negb_false_iff in E|by apply bool_decide_eq_true] end.
Qed.

Lemma update_action_Ok s where_ f rows rows' st :
  update_action s where_ f rows = Ok (rows', Some st) ↔
  where_ (a_status (action rows)) = true ∧ write_action s rows (f (action rows)) = Ok rows'
  ∧ a_status (action rows') = st.
Proof.
  unfold update_action. destruct (where_ _); [|naive_solver].
  destruct (write_action s rows _) as [rows1|e]; cbn; naive_solver.
Qed.

Lemma update_case_Ok s where_ f rows rows' v :
  update_case s where_ f rows = Ok (rows', Some v) ↔
  where_ (c_state (case_ rows)) (c_version (case_ rows)) = true
  ∧ write_case s rows (f (case_ rows)) = Ok rows' ∧ c_version (case_ rows') = v.
Proof.
  unfold update_case. destruct (where_ _ _); [|naive_solver].
  destruct (write_case s rows _) as [rows1|e]; cbn; naive_solver.
Qed.

Lemma update_instrument_Ok s where_ f rows rows' st :
  update_instrument s where_ f rows = Ok (rows', Some st) ↔
  where_ (instrument rows) = true ∧ write_instrument s rows (f (instrument rows)) = Ok rows'
  ∧ i_status (instrument rows') = st.
Proof.
  unfold update_instrument. destruct (where_ _); [|naive_solver].
  destruct (write_instrument s rows _) as [rows1|e]; cbn; naive_solver.
Qed.

(** What a finished transaction did. *)
Lemma commit_cases {A} s (m : txn A) rows rows' r :
  commit s m rows = (rows', r) →
  (rows' = rows ∧ ∃ e, r = Raise e)
  ∨ (∃ a, m rows = Ok (rows', a) ∧ (r = Ok a ∨ ∃ e, r = Raise e)).
Proof.
  unfold commit. destruct (link_fate s); [|intros [= <- <-]; by eauto|];
    (destruct (m rows) as [[rows1 a]|e'] eqn:E; intros [= <- <-]; [right; exists a; by eauto|by eauto]).
Qed.

(** The database and the domain have one transition table. *)
Lemma case_transition_iff (s t : RecoveryState) :
  s ≠ DORMANT → t ≠ s →
  case_transition_allowed s t = true ↔ validate_recovery_transition s t = Ok true.
Proof. intros Hs Ht. destruct s, t; try done; by vm_compute. Qed.

(** the lifecycle trigger of recovery cases admits exactly the state changes
    of the domain's transition table. *)
Theorem case_transitions_agree (s t : RecoveryState) :
  s ≠ DORMANT → t ≠ s →
  case_transition_allowed s t = true ↔ validate_recovery_transition s t = Ok true.
Proof. apply case_transition_iff. Qed.

Lemma case_transitions_agree_witness :
  EXECUTING ≠ DORMANT ∧ FAILED_SAFE ≠ EXECUTING ∧ validate_recovery_transition EXECUTING FAILED_SAFE = Ok true.
Proof.
  assert (H1 : EXECUTING ≠ DORMANT) by discriminate. assert (H2 : FAILED_SAFE ≠ EXECUTING) by discriminate.
  split; [exact H1|]. split; [exact H2|]. apply (case_transitions_agree EXECUTING FAILED_SAFE H1 H2). vm_compute. reflexivity.
Defined.
