(* ===== verification/CreateStore.v ===== *)
(** [services/control_plane/create_effect_worker.py]: the transactions of
    [PostgresCreateEffectRepository] that change rows, over the schema of
    [EffectRows]: [record_effect_authorization] and [persist_result]. *)
From S2P Require Import Prelude PyStr PyTime Json Canonical Text States Actions Gate Outbox PaymentLinks.
From S2P Require Import PgOutbox CommandCodec Executor EffectRows.

Abbreviation jobs := (gmap pystr OutboxRow) (only parsing).

(** * Statements *)

(** The parameters every statement is given. *)
Record EffectParams := mkEffectParams {
  p_job_id : pystr;
  p_merchant_id : pystr;
  p_account_id : pystr;
  p_case_id : pystr;
  p_action_key : pystr;
  p_delivery_version : Z;
  p_worker_id : pystr;
  p_lease_token : pystr
}.

Definition CREATE_COMMAND : pystr := $"CREATE_STANDARD_PAYMENT_LINK".

(** [_LOCK_FENCE]. *)
Definition fence_held (s : EffectSession) (p : EffectParams) (t : jobs) (rows : EffectRows) : bool :=
  match t !! p_job_id p with
  | Some job =>
      bool_decide (row_merchant_id job = p_merchant_id p) && bool_decide (row_aggregate_type job = $"ACTION")
      && bool_decide (row_command_type job = CREATE_COMMAND) && in_progress job
      && (row_delivery_version job =? p_delivery_version p)
      && bool_decide (row_lease_owner job = Some (p_worker_id p))
      && bool_decide (row_lease_token job = Some (p_lease_token p))
      && when_not_null (λ e, fence_now s <? e) (row_lease_expires_at job)
      && bool_decide (a_merchant_id (a_intent (action rows)) = row_merchant_id job)
      && bool_decide (a_id (a_intent (action rows)) = row_aggregate_id job)
      && bool_decide (a_case_id (a_intent (action rows)) = p_case_id p)
      && bool_decide (a_action_key (a_intent (action rows)) = p_action_key p)
  | None => false
  end.

(** [_LOCK_PATH]: whether the join finds the rows. *)
Definition path_found (p : EffectParams) (rows : EffectRows) : bool :=
  let intent := a_intent (action rows) in
  bool_decide (a_merchant_id intent = p_merchant_id p) && bool_decide (a_case_id intent = p_case_id p)
  && bool_decide (a_action_key intent = p_action_key p)
  && bool_decide (c_account_id (case_ rows) = p_account_id p).

Definition _one {A} `{!EqDecision A} (row : option A) (expected : A) (operation : string) : result unit :=
  raise_if (bool_decide (row ≠ Some expected)) (CreateEffectPersistenceError operation).
Definition returned {A} (row : option A) (operation : string) : result unit :=
  match row with Some _ => Ok tt | None => Raise (CreateEffectPersistenceError operation) end.

(** [json.dumps(decision.to_primitive())], as jsonb. *)
Definition gate_snapshot (d : GateDecision) : result json :=
  prim ← GateDecision_to_primitive d; to_canonical_primitive prim.

Section statements.
Context (s : EffectSession).

Definition status_in (l : list ActionStatus.action_status) (st : ActionStatus.action_status) : bool := bool_decide (st ∈ l).
Definition instrument_in (l : list InstrumentStatus.instrument_status) (r : InstrumentRow) : bool :=
  bool_decide (i_status r ∈ l).
Definition state_at (l : list RecoveryState) (version : Z) (st : RecoveryState) (v : Z) : bool :=
  bool_decide (st ∈ l) && (v =? version).

(** A case update that keeps the terminal columns. *)
Definition move_case (from to : RecoveryState) (version : Z) : txn (option Z) :=
  update_case s (state_at [from] version) (λ r, set_case to (c_version r + 1) (c_terminal r) r).

(** [_START_CASE_EXECUTION]. *)
Definition start_case_execution (version : Z) : txn (option Z) := move_case ACTION_QUEUED EXECUTING version.

(** [_START_ACTION_EXECUTION]. *)
Definition start_action_execution (worker : pystr) (expires : option Z) (snap : json) (at_ : Z) :
    txn (option ActionStatus.action_status) :=
  update_action s (status_in [ActionStatus.QUEUED]) (λ r,
    set_attempt (a_attempt_number r + 1) (Some (default at_ (fst (a_attempted r)))) (Some at_)
      (set_gate (mkGateEvidence (Some snap) (Some GateVerdict.ALLOWED) [])
         (set_lease (Some worker) expires (set_status ActionStatus.EXECUTING r)))).

(** [_START_RECONCILIATION]. *)
Definition start_reconciliation (worker : pystr) (expires : option Z) (at_ : Z) : txn (option ActionStatus.action_status) :=
  update_action s (status_in [ActionStatus.UNCERTAIN; ActionStatus.RECONCILING]) (λ r,
    set_attempt (a_attempt_number r) (fst (a_attempted r)) (Some at_)
      (set_lease (Some worker) expires (set_status ActionStatus.RECONCILING r))).

(** [_ISSUE_INSTRUMENT], [_ACTIVATE_INSTRUMENT]. *)
Definition unresolved : list InstrumentStatus.instrument_status := [InstrumentStatus.CREATING; InstrumentStatus.UNCERTAIN].
Definition issue_instrument (link : pystr) (at_ : Z) : txn (option InstrumentStatus.instrument_status) :=
  update_instrument s
    (λ r, instrument_in unresolved r && (bool_decide (i_link r = None) || bool_decide (i_link r = Some link)))
    (λ r, set_instrument InstrumentStatus.ISSUED (Some (default link (i_link r))) (Some ($"created"))
            RECON_CONFIRMED (Some at_) r).
Definition activate_instrument : txn (option InstrumentStatus.instrument_status) :=
  update_instrument s (instrument_in [InstrumentStatus.ISSUED])
    (λ r, set_instrument InstrumentStatus.ACTIVE (i_link r) (i_provider_status r) (i_reconciliation r)
            (i_reconciled_at r) r).

(** [_COMPLETE_ACTION]. *)
Definition complete_action (from to : ActionStatus.action_status) (link : pystr) (response : json) (at_ : Z) :
    txn (option ActionStatus.action_status) :=
  update_action s (status_in [from]) (λ r,
    set_end (Some at_) None (a_dead_letter r)
      (set_provider (Some response) (Some ($"created")) RECON_CONFIRMED (Some link)
         (set_lease None None (set_status to r)))).

(** [_ACTIVATE_CASE]. *)
Definition activate_case (from : RecoveryState) (version : Z) : txn (option Z) := move_case from ACTIVE version.

(** [_MARK_UNCERTAIN_ACTION], [_MARK_UNCERTAIN_INSTRUMENT], [_MARK_UNCERTAIN_CASE]. *)
Definition mark_uncertain_action (reason : pystr) : txn (option ActionStatus.action_status) :=
  update_action s (status_in [ActionStatus.EXECUTING]) (λ r,
    set_end (a_completed_at r) (Some reason) (a_dead_letter r)
      (set_provider (a_response r) (a_provider_status r) RECON_PENDING (a_provider_resource r)
         (set_lease None None (set_status ActionStatus.UNCERTAIN r)))).
Definition mark_uncertain_instrument : txn (option InstrumentStatus.instrument_status) :=
  update_instrument s (instrument_in [InstrumentStatus.CREATING]) (λ r,
    set_instrument InstrumentStatus.UNCERTAIN (i_link r) (Some ($"unknown")) RECON_PENDING (i_reconciled_at r) r).
Definition mark_uncertain_case (version : Z) : txn (option Z) := move_case EXECUTING ACTION_UNCERTAIN version.

(** [_MARK_ACTION_RETRYABLE], [_QUEUE_RETRYABLE_ACTION],
    [_REQUEUE_ACTION_FROM_RECONCILING]. *)
Definition release_action (from to : ActionStatus.action_status) (reason : pystr) : txn (option ActionStatus.action_status) :=
  update_action s (status_in [from]) (λ r,
    set_end (a_completed_at r) (Some reason) (a_dead_letter r) (set_lease None None (set_status to r))).
Definition mark_action_retryable (reason : pystr) : txn (option ActionStatus.action_status) :=
  release_action ActionStatus.EXECUTING ActionStatus.FAILED_RETRYABLE reason.
Definition queue_retryable_action : txn (option ActionStatus.action_status) :=
  update_action s (status_in [ActionStatus.FAILED_RETRYABLE]) (set_status ActionStatus.QUEUED).
Definition requeue_action_from_reconciling (reason : pystr) : txn (option ActionStatus.action_status) :=
  release_action ActionStatus.RECONCILING ActionStatus.QUEUED reason.

(** [_QUEUE_UNCERTAIN_CASE] and [_REQUEUE_CASE_FROM_UNCERTAIN], and
    [_RESET_UNCERTAIN_INSTRUMENT]. *)
Definition queue_uncertain_case (version : Z) : txn (option Z) := move_case ACTION_UNCERTAIN ACTION_QUEUED version.
Definition reset_uncertain_instrument : txn (option InstrumentStatus.instrument_status) :=
  update_instrument s (instrument_in [InstrumentStatus.UNCERTAIN]) (λ r,
    set_instrument InstrumentStatus.CREATING (i_link r) (i_provider_status r) RECON_PENDING (i_reconciled_at r) r).

(** [_FAIL_ACTION], [_FAIL_INSTRUMENT], [_FAIL_CASE]. *)
Definition fail_action (reason : pystr) (at_ : Z) : txn (option ActionStatus.action_status) :=
  update_action s (status_in [ActionStatus.QUEUED; ActionStatus.EXECUTING; ActionStatus.RECONCILING]) (λ r,
    let queued := bool_decide (a_status r = ActionStatus.QUEUED) in
    set_end (Some at_) (Some reason) (if queued then (Some at_, Some reason) else (None, None))
      (set_lease None None
         (set_status (if queued then ActionStatus.DEAD_LETTER else ActionStatus.FAILED_SAFE) r))).
Definition fail_instrument (at_ : Z) : txn (option InstrumentStatus.instrument_status) :=
  update_instrument s (instrument_in unresolved) (λ r,
    set_instrument InstrumentStatus.FAILED (i_link r) (i_provider_status r) RECON_CONFLICT (Some at_) r).
Definition fail_case (version : Z) (reason : pystr) (at_ : Z) : txn (option Z) :=
  update_case s (state_at [ACTION_QUEUED; EXECUTING; ACTION_UNCERTAIN] version) (λ r,
    set_case FAILED_SAFE (c_version r + 1) (Some reason, Some at_) r).

(** [_CANCEL_QUEUED_ACTION], [_DEAD_LETTER_UNCERTAIN_ACTION],
    [_SUPPRESS_INSTRUMENT], [_SUPPRESS_CASE]. *)
Definition cancel_queued_action (snap : json) (codes : list pystr) (reason : pystr) (at_ : Z) :
    txn (option ActionStatus.action_status) :=
  update_action s (status_in [ActionStatus.QUEUED]) (λ r,
    set_end (Some at_) (Some reason) (a_dead_letter r)
      (set_gate (mkGateEvidence (Some snap) (Some GateVerdict.BLOCKED) codes) (set_status ActionStatus.CANCELLED r))).
Definition dead_letter_uncertain_action (reason : pystr) (at_ : Z) : txn (option ActionStatus.action_status) :=
  update_action s (status_in [ActionStatus.UNCERTAIN; ActionStatus.RECONCILING]) (λ r,
    set_end (Some at_) (Some reason) (Some at_, Some reason)
      (set_lease None None (set_status ActionStatus.DEAD_LETTER r))).
Definition suppress_instrument (recon : ReconciliationStatus) (provider : pystr) (at_ : Z) :
    txn (option InstrumentStatus.instrument_status) :=
  update_instrument s (instrument_in unresolved) (λ r,
    set_instrument InstrumentStatus.FAILED (i_link r) (Some provider) recon (Some at_) r).
Definition suppress_case (from to : RecoveryState) (version : Z) (reason : pystr) (at_ : Z) : txn (option Z) :=
  update_case s (state_at [from] version) (λ r,
    set_case to (c_version r + 1) (Some reason, Some at_) r).
End statements.

(** * [record_effect_authorization] *)
Definition params_of (job : OutboxJob) (c : CreatePaymentLinkCommand) (worker : pystr) : result EffectParams :=
  key ← action_key (proposal c);
  Ok (mkEffectParams (job_id job) (proposal_merchant_id (proposal c)) (provider_account_id c)
        (proposal_case_id (proposal c)) key (job_version job) worker (default [] (lease_token job))).

(** The guard that the rows are still those of the command and untouched. *)
Definition binding_changed (p : EffectParams) (a : EffectAuthorization) (rows : EffectRows) : bool :=
  let reference := reference_id (request (authorized_command a)) in
  let env := around rows in
  bool_decide (a_action_key (a_intent (action rows)) ≠ p_action_key p)
  || bool_decide (a_reference (a_intent (action rows)) ≠ Some reference)
  || bool_decide (i_reference (instrument rows) ≠ reference)
  || bool_decide (i_link (instrument rows) ≠ None)
  || bool_decide (order_truth env ≠ UNPAID)
  || bool_decide (merchant_status env ≠ MERCHANT_ACTIVE)
  || merchant_kill_switch env
  || negb (account_is_test env)
  || negb (account_enabled env)
  || negb (c_version (case_ rows) =? aggregate_version (authorized_context a))
  || negb (instrument_in unresolved (instrument rows)).

Definition lock_rows (s : EffectSession) (p : EffectParams) (t : jobs) (fence_error path_error : string) :
    txn EffectRows := λ rows,
  _ ← raise_if (negb (fence_held s p t rows)) (CreateEffectPersistenceError fence_error);
  _ ← raise_if (negb (path_found p rows)) (CreateEffectPersistenceError path_error);
  Ok (rows, rows).

Section repository.
Context (s : EffectSession) (t : jobs).

(** [if reconciliation_only: ... else: ...]. *)
Definition start_effect (worker : pystr) (a : EffectAuthorization) (snap : json) (rows : EffectRows) : txn unit :=
  let at_ := instant (decision_evaluated_at (authorized_decision a)) in
  let expires := instant <$> lease_expires_at (authorized_job a) in
  let version := c_version (case_ rows) in
  let case_state := c_state (case_ rows) in
  let status := a_status (action rows) in
  if reconciliation_only a then
    _ ← check (raise_if (bool_decide (case_state ≠ ACTION_UNCERTAIN)
                         || bool_decide (status ∉ [ActionStatus.UNCERTAIN; ActionStatus.RECONCILING]))
                 (CreateEffectPersistenceError "reconciliation_path_invalid"));
    row ← start_reconciliation s worker expires at_;
    check (_one row ActionStatus.RECONCILING "reconciliation_start_failed")
  else if bool_decide (case_state = ACTION_QUEUED) && bool_decide (status = ActionStatus.QUEUED) then
    row ← start_case_execution s version;
    _ ← check (_one row (version + 1) "case_execution_start_failed");
    row ← start_action_execution s worker expires snap at_;
    check (_one row ActionStatus.EXECUTING "action_execution_start_failed")
  else
    check (raise_if (bool_decide (case_state ≠ EXECUTING) || bool_decide (status ≠ ActionStatus.EXECUTING))
             (CreateEffectPersistenceError "effect_execution_path_invalid")).

(** The transaction. *)
Definition authorize (p : EffectParams) (a : EffectAuthorization) (snap : json) : txn unit :=
  rows ← lock_rows s p t "effect_fence_lost" "effect_path_missing";
  _ ← check (raise_if (binding_changed p a rows) (CreateEffectPersistenceError "effect_path_binding_changed"));
  _ ← start_effect (p_worker_id p) a snap rows;
  check (audit_answer s).

Definition record_effect_authorization (a : EffectAuthorization) (rows : EffectRows) : EffectRows * result unit :=
  match
    _ ← raise_if (negb (allowed (authorized_decision a)))
          (CreateEffectPersistenceError "effect_authorization_not_allowed");
    p ← params_of (authorized_job a) (authorized_command a) (authorized_worker a);
    snap ← gate_snapshot (authorized_decision a);
    Ok (p, snap)
  with
  | Raise e => (rows, Raise e)
  | Ok (p, snap) => commit s (authorize p a snap) rows
  end.

(** * [persist_result] *)

(** [{"reason_code": ..., "reference_id": ...}]. *)
Definition response_metadata (res : ExecutionResult) : json :=
  JDict [($"reason_code", JStr (result_reason res)); ($"reference_id", JStr (result_reference_id res))].

(** [if instrument_status in {"CREATING", "UNCERTAIN"}: ...]. *)
Definition if_unresolved (rows : EffectRows) (m : txn (option InstrumentStatus.instrument_status))
    (expected : InstrumentStatus.instrument_status) (operation : string) : txn unit :=
  if instrument_in unresolved (instrument rows) then
    row ← m; check (_one row expected operation)
  else mret tt.

Definition created (res : ExecutionResult) (at_ : Z) (rows : EffectRows) : txn unit :=
  let status := a_status (action rows) in
  let version := c_version (case_ rows) in
  match result_link res with
  | None => check (Raise (CreateEffectPersistenceError "provider_link_id_missing"))
  | Some link =>
      _ ← check (raise_if (bool_decide (i_link (instrument rows) ≠ None)
                           && bool_decide (i_link (instrument rows) ≠ Some link))
                   (CreateEffectPersistenceError "provider_link_id_conflict"));
      let final := if bool_decide (status = ActionStatus.EXECUTING)
                   then ActionStatus.SUCCEEDED else ActionStatus.RECONCILED in
      _ ← if_unresolved rows
            (row ← issue_instrument s link at_;
             _ ← check (_one row InstrumentStatus.ISSUED "instrument_issue_failed");
             activate_instrument s)
            InstrumentStatus.ACTIVE "instrument_activation_failed";
      row ← complete_action s status final link (response_metadata res) at_;
      _ ← check (_one row final "action_completion_failed");
      row ← activate_case s (c_state (case_ rows)) version;
      check (_one row (version + 1) "case_activation_failed")
  end.

Definition requery (reason : pystr) (version : Z) : txn unit :=
  row ← mark_uncertain_action s reason;
  _ ← check (_one row ActionStatus.UNCERTAIN "action_uncertain_failed");
  row ← mark_uncertain_instrument s;
  _ ← check (_one row InstrumentStatus.UNCERTAIN "instrument_uncertain_failed");
  row ← mark_uncertain_case s version;
  check (_one row (version + 1) "case_uncertain_failed").

Definition requeued (reason : pystr) (status : ActionStatus.action_status) (version : Z) : txn unit :=
  match status with
  | ActionStatus.EXECUTING =>
      row ← mark_action_retryable s reason;
      _ ← check (_one row ActionStatus.FAILED_RETRYABLE "action_retryable_failed");
      row ← queue_retryable_action s;
      _ ← check (_one row ActionStatus.QUEUED "action_requeue_failed");
      row ← mark_uncertain_case s version;
      _ ← check (_one row (version + 1) "case_uncertain_failed");
      row ← queue_uncertain_case s (version + 1);
      check (_one row (version + 2) "case_requeue_failed")
  | ActionStatus.RECONCILING =>
      row ← requeue_action_from_reconciling s reason;
      _ ← check (_one row ActionStatus.QUEUED "action_requeue_failed");
      row ← queue_uncertain_case s version;
      _ ← check (_one row (version + 1) "case_requeue_failed");
      row ← reset_uncertain_instrument s;
      check (_one row InstrumentStatus.CREATING "instrument_requeue_failed")
  | _ => check (Raise (CreateEffectPersistenceError "requeue_path_invalid"))
  end.

Definition failed (reason : pystr) (at_ : Z) (rows : EffectRows) : txn unit :=
  row ← fail_action s reason at_;
  _ ← check (returned row "action_failure_persistence_failed");
  _ ← if_unresolved rows (fail_instrument s at_)
        InstrumentStatus.FAILED "instrument_failure_persistence_failed";
  row ← fail_case s (c_version (case_ rows)) reason at_;
  check (returned row "case_failure_persistence_failed").

(** The action of a suppressed effect, and the state its case ends in. *)
Definition suppress_action (d : GateDecision) (snap : json) (reason : pystr) (at_ : Z) (status : ActionStatus.action_status) :
    txn RecoveryState :=
  let blocks := mem PAYMENT_TRUTH_NOT_UNPAID (reasons d) in
  match status with
  | ActionStatus.QUEUED =>
      row ← cancel_queued_action s snap (map reason_value (reasons d)) reason at_;
      _ ← check (_one row ActionStatus.CANCELLED "action_suppression_failed");
      mret (if blocks then SUPPRESSED_PAID else SUPPRESSED_POLICY)
  | ActionStatus.UNCERTAIN | ActionStatus.RECONCILING =>
      row ← dead_letter_uncertain_action s reason at_;
      _ ← check (_one row ActionStatus.DEAD_LETTER "action_suppression_failed");
      mret (if blocks then SUPPRESSED_PAID else States.ESCALATED)
  | _ => check (Raise (CreateEffectPersistenceError "suppression_path_invalid"))
  end.

Definition suppressed (d : GateDecision) (snap : json) (reason : pystr) (at_ : Z) (rows : EffectRows) : txn unit :=
  let version := c_version (case_ rows) in
  let blocks := mem PAYMENT_TRUTH_NOT_UNPAID (reasons d) in
  terminal ← suppress_action d snap reason at_ (a_status (action rows));
  _ ← if_unresolved rows
        (suppress_instrument s (if blocks then RECON_CONFIRMED else RECON_CONFLICT)
           (if blocks then $"payment_truth_not_unpaid" else $"effect_gate_blocked") at_)
        InstrumentStatus.FAILED "instrument_suppression_failed";
  row ← suppress_case s (c_state (case_ rows)) terminal version reason at_;
  check (_one row (version + 1) "case_suppression_failed").

Definition persist (p : EffectParams) (res : ExecutionResult) (reason : pystr) (at_ : Z) : txn unit :=
  rows ← lock_rows s p t "result_fence_lost" "result_path_missing";
  let version := c_version (case_ rows) in
  _ ← match disposition res with
      | CREATED | ADOPTED => created res at_ rows
      | REQUERY_REQUIRED => requery reason version
      | REQUEUED => requeued reason (a_status (action rows)) version
      | ESCALATED | DEAD_LETTERED => failed reason at_ rows
      | SUPPRESSED =>
          snap ← check (gate_snapshot (effect_decision res));
          suppressed (effect_decision res) snap reason at_ rows
      end;
  check (audit_answer s).

Definition persist_result (job : OutboxJob) (c : CreatePaymentLinkCommand) (res : ExecutionResult)
    (rows : EffectRows) : EffectRows * result unit :=
  match params_of job c (default [] (lease_owner job)) with
  | Raise e => (rows, Raise e)
  | Ok p =>
      commit s (persist p res (take 500 (result_reason res))
                  (instant (decision_evaluated_at (effect_decision res)))) rows
  end.
End repository.

(** * What a committed result does *)

(** The states of action, instrument and case. *)
Definition shape : Type := ActionStatus.action_status * InstrumentStatus.instrument_status * RecoveryState.
Definition shape_of (rows : EffectRows) : shape :=
  (a_status (action rows), i_status (instrument rows), c_state (case_ rows)).

(** The instrument, when it is still unresolved. *)
Definition resolve (to i : InstrumentStatus.instrument_status) : InstrumentStatus.instrument_status :=
  if bool_decide (i ∈ unresolved) then to else i.

Definition suppressed_to (blocks : bool) (a : ActionStatus.action_status) (i : InstrumentStatus.instrument_status) (c : RecoveryState) :
    option (shape * Z) :=
  let final to terminal :=
    if bool_decide (terminal = c) || case_transition_allowed c terminal
    then Some (to, resolve InstrumentStatus.FAILED i, terminal, 1) else None in
  match a with
  | ActionStatus.QUEUED =>
      final ActionStatus.CANCELLED (if blocks then SUPPRESSED_PAID else SUPPRESSED_POLICY)
  | ActionStatus.UNCERTAIN | ActionStatus.RECONCILING =>
      final ActionStatus.DEAD_LETTER (if blocks then SUPPRESSED_PAID else States.ESCALATED)
  | _ => None
  end.

(** The table: what a result of a disposition makes of the three states, and by
    how much the version of the case grows; [None] when it cannot be stored.
    [blocks]: the effect gate saw that the payment is not unpaid. *)
Definition persisted (d : ExecutionDisposition) (blocks : bool) (x : shape) : option (shape * Z) :=
  let '(a, i, c) := x in
  match d with
  | CREATED | ADOPTED =>
      if bool_decide (c ∈ [EXECUTING; ACTION_UNCERTAIN; ACTIVE]) then
        match a with
        | ActionStatus.EXECUTING => Some (ActionStatus.SUCCEEDED, resolve InstrumentStatus.ACTIVE i, ACTIVE, 1)
        | ActionStatus.RECONCILING => Some (ActionStatus.RECONCILED, resolve InstrumentStatus.ACTIVE i, ACTIVE, 1)
        | _ => None
        end
      else None
  | REQUERY_REQUIRED =>
      match x with
      | (ActionStatus.EXECUTING, InstrumentStatus.CREATING, EXECUTING) =>
          Some (ActionStatus.UNCERTAIN, InstrumentStatus.UNCERTAIN, ACTION_UNCERTAIN, 1)
      | _ => None
      end
  | REQUEUED =>
      match x with
      | (ActionStatus.EXECUTING, i, EXECUTING) => Some (ActionStatus.QUEUED, i, ACTION_QUEUED, 2)
      | (ActionStatus.RECONCILING, InstrumentStatus.UNCERTAIN, ACTION_UNCERTAIN) =>
          Some (ActionStatus.QUEUED, InstrumentStatus.CREATING, ACTION_QUEUED, 1)
      | _ => None
      end
  | ESCALATED | DEAD_LETTERED =>
      match a, c with
      | ActionStatus.QUEUED, EXECUTING =>
          Some (ActionStatus.DEAD_LETTER, resolve InstrumentStatus.FAILED i, FAILED_SAFE, 1)
      | ActionStatus.EXECUTING, EXECUTING | ActionStatus.RECONCILING, EXECUTING =>
          Some (ActionStatus.FAILED_SAFE, resolve InstrumentStatus.FAILED i, FAILED_SAFE, 1)
      | _, _ => None
      end
  | SUPPRESSED => suppressed_to blocks a i c
  end.

Lemma one_Ok {A} `{!EqDecision A} (row : option A) expected operation u :
  _one row expected operation = Ok u → row = Some expected.
Proof. unfold _one. intros H. inv_ok. bools. by apply dec_stable. Qed.

Lemma returned_Ok {A} (row : option A) operation u : returned row operation = Ok u → is_Some row.
Proof. destruct row; [by eexists|done]. Qed.

(** Decompose a transaction that went through. *)
Ltac txn_step :=
  match goal with
  | x : unit |- _ => destruct x
  | H : mbind _ _ _ = Ok (_, _) |- _ =>
      apply txn_bind_Ok in H;
      let rows := fresh "rows" in let x := fresh "x" in let H1 := fresh "Ht" in destruct H as (rows & x & H1 & H)
  | H : check _ _ = Ok (_, _) |- _ => apply check_Ok in H as [H ->]
  | H : @mret txn _ _ _ _ = Ok (_, _) |- _ => apply txn_ret_Ok in H as [H ->]
  | H : _one ?r _ _ = Ok _ |- _ => apply one_Ok in H; subst r
  | H : returned ?r _ = Ok _ |- _ => apply returned_Ok in H as [? ->]
  | H : update_action _ _ _ _ = Ok (_, Some _) |- _ => apply update_action_Ok in H as (? & H & ?)
  | H : update_case _ _ _ _ = Ok (_, Some _) |- _ => apply update_case_Ok in H as (? & H & ?)
  | H : update_instrument _ _ _ _ = Ok (_, Some _) |- _ => apply update_instrument_Ok in H as (? & H & ?)
  | H : write_action _ _ _ = Ok _ |- _ => apply write_action_Ok in H as [-> H]
  | H : write_case _ _ _ = Ok _ |- _ => apply write_case_Ok in H as [-> H]
  | H : write_instrument _ _ _ = Ok _ |- _ => apply write_instrument_Ok in H as (-> & ? & ?)
  end.
Ltac inv_txn := repeat txn_step.

Ltac open_txn :=
  unfold start_case_execution, start_action_execution, start_reconciliation, issue_instrument,
    activate_instrument, complete_action, activate_case, mark_uncertain_action, mark_uncertain_instrument,
    mark_uncertain_case, mark_action_retryable, queue_retryable_action, requeue_action_from_reconciling,
    queue_uncertain_case, reset_uncertain_instrument, fail_action, fail_instrument, fail_case,
    cancel_queued_action, dead_letter_uncertain_action, suppress_instrument, suppress_case, release_action,
    move_case, status_in, instrument_in, state_at in *; inv_txn.

(** What the transactions never touch. *)
Definition same_effect (rows rows' : EffectRows) : Prop :=
  a_intent (action rows') = a_intent (action rows) ∧ c_id (case_ rows') = c_id (case_ rows)
  ∧ i_id (instrument rows') = i_id (instrument rows) ∧ around rows' = around rows.

Lemma into_active c : ACTIVE = c ∨ case_transition_allowed c ACTIVE = true → c ∈ [EXECUTING; ACTION_UNCERTAIN; ACTIVE].
Proof. intros [<-|H]; [set_solver|]. destruct c; (discriminate H || set_solver). Qed.

Lemma completed_from r to :
  to = (if bool_decide (a_status r = ActionStatus.EXECUTING) then ActionStatus.SUCCEEDED else ActionStatus.RECONCILED) →
  to = a_status r ∨ action_transition_allowed (a_status r) to = true → action_ended r = false →
  a_status r = ActionStatus.EXECUTING ∧ to = ActionStatus.SUCCEEDED
  ∨ a_status r = ActionStatus.RECONCILING ∧ to = ActionStatus.RECONCILED.
Proof.
  unfold action_ended. destruct (a_status r); cbn; intros -> Hto Hend;
    first [by left|by right|destruct Hto as [Hto|Hto]; discriminate].
Qed.

(** What is written to the instrument, when it is unresolved. *)
Record instrument_moved (rows rows' : EffectRows) (to : InstrumentStatus.instrument_status) : Prop := {
  moved_action : action rows' = action rows;
  moved_case : case_ rows' = case_ rows;
  moved_around : around rows' = around rows;
  moved_id : i_id (instrument rows') = i_id (instrument rows);
  moved_status : i_status (instrument rows') = resolve to (i_status (instrument rows))
}.

Section persisted.
Context (s : EffectSession).

Lemma if_unresolved_Ok rows0 rows m to op rows' :
  if_unresolved rows0 m to op rows = Ok (rows', tt) →
  (i_status (instrument rows0) ∈ unresolved ∧ m rows = Ok (rows', Some to))
  ∨ ((i_status (instrument rows0) ∉ unresolved) ∧ rows' = rows).
Proof. unfold if_unresolved, instrument_in. case_bool_decide as Hu; intros H; inv_txn; [by left|by right]. Qed.

Lemma issue_Ok rows link at_ op op' rows' :
  (if_unresolved rows
    (row ← issue_instrument s link at_;
     _ ← check (_one row InstrumentStatus.ISSUED op); activate_instrument s)
    InstrumentStatus.ACTIVE op') rows = Ok (rows', tt) →
  instrument_moved rows rows' InstrumentStatus.ACTIVE
  ∧ (i_link (instrument rows) = None ∨ i_link (instrument rows) = Some link →
     i_status (instrument rows) ∈ unresolved → i_link (instrument rows') = Some link).
Proof.
  intros [[Hu H]|[Hu ->]]%if_unresolved_Ok.
  - inv_txn. open_txn. cbn in *. split.
    + split; cbn; try done. unfold resolve. by rewrite bool_decide_eq_true_2.
    + by intros [->| ->] _.
  - split; [|by intros]. split; try done. unfold resolve. by rewrite bool_decide_eq_false_2.
Qed.

Lemma failing_Ok rows0 rows f op rows' :
  instrument rows = instrument rows0 →
  (∀ r, i_status (f r) = InstrumentStatus.FAILED ∧ i_id (f r) = i_id r) →
  if_unresolved rows0 (update_instrument s (instrument_in unresolved) f) InstrumentStatus.FAILED op rows
  = Ok (rows', tt) → instrument_moved rows rows' InstrumentStatus.FAILED.
Proof.
  intros Hi0 Hf H. apply if_unresolved_Ok in H. rewrite <- Hi0 in H. destruct H as [[Hu H]|[Hu ->]].
  - inv_txn. destruct (Hf (instrument rows)) as [Hs Hi].
    split; cbn; try done. unfold resolve. by rewrite bool_decide_eq_true_2.
  - split; try done. unfold resolve. by rewrite bool_decide_eq_false_2.
Qed.

Lemma created_Ok res at_ rows rows' :
  created s res at_ rows rows = Ok (rows', tt) →
  ∃ link, result_link res = Some link
    ∧ (i_link (instrument rows) = None ∨ i_link (instrument rows) = Some link)
    ∧ (i_status (instrument rows) ∈ unresolved → i_link (instrument rows') = Some link)
    ∧ a_provider_resource (action rows') = Some link
    ∧ order_truth (around rows) = UNPAID
    ∧ persisted CREATED false (shape_of rows) = Some (shape_of rows', 1)
    ∧ c_version (case_ rows') = c_version (case_ rows) + 1 ∧ same_effect rows rows'.
Proof.
  unfold created. destruct (result_link res) as [link|]; intros H; [|by inv_txn].
  cbv zeta in H. inv_txn.
  match goal with E : if_unresolved _ _ _ _ _ = _ |- _ => apply issue_Ok in E as [[] Hlink] end.
  open_txn.
  assert (i_link (instrument rows) = None ∨ i_link (instrument rows) = Some link) as Hl.
  { inv_ok. rewrite andb_false_iff in *. match goal with E : _ ∨ _ |- _ => destruct E; bools end;
      [left|right]; by apply dec_stable. }
  exists link. cbn in *. split; [done|]. split; [done|]. split; [by auto|]. split; [done|].
  destruct Ht1 as [Hst Hopen _ _ _ _], Ht3 as [Hv Hcs Htruth]. cbn in *.
  rewrite moved_action0, moved_case0, moved_around0 in *.
  split; [apply Htruth; set_solver|].
  assert (ACTIVE = c_state (case_ rows) ∨ case_transition_allowed (c_state (case_ rows)) ACTIVE = true) as Ha by auto.
  apply into_active in Ha. split; [|done].
  unfold persisted, shape_of. rewrite bool_decide_eq_true_2 by done. cbn.
  destruct (completed_from (action rows) _ eq_refl Hst Hopen) as [[-> ->]|[-> ->]]; by rewrite moved_status0.
Qed.

Ltac facts := bools; rewrite ?list_elem_of_singleton in *.

Lemma requery_Ok reason rows rows' :
  requery s reason (c_version (case_ rows)) rows = Ok (rows', tt) →
  persisted REQUERY_REQUIRED false (shape_of rows) = Some (shape_of rows', 1)
  ∧ c_version (case_ rows') = c_version (case_ rows) + 1 ∧ same_effect rows rows'.
Proof.
  unfold requery. intros H. inv_txn. open_txn. facts. cbn in *.
  split; [|done]. unfold persisted, shape_of. cbn.
  repeat match goal with E : _ = _ |- _ => rewrite E end. done.
Qed.

Lemma requeued_Ok reason rows rows' :
  requeued s reason (a_status (action rows)) (c_version (case_ rows)) rows = Ok (rows', tt) →
  ∃ k, persisted REQUEUED false (shape_of rows) = Some (shape_of rows', k)
  ∧ c_version (case_ rows') = c_version (case_ rows) + k ∧ same_effect rows rows'
  ∧ a_status (action rows') = ActionStatus.QUEUED.
Proof.
  unfold requeued. intros H. destruct (a_status (action rows)) eqn:Ha; inv_txn; try discriminate; open_txn; facts.
  - exists 2. cbn in *. split; [|done]. unfold persisted, shape_of. cbn.
    repeat match goal with E : _ = _ |- _ => rewrite E end. done.
  - exists 1. cbn in *. split; [|done]. unfold persisted, shape_of. cbn.
    repeat match goal with E : _ = _ |- _ => rewrite E end. done.
Qed.

Lemma failed_from c :
  c ∈ [ACTION_QUEUED; EXECUTING; ACTION_UNCERTAIN] →
  FAILED_SAFE = c ∨ case_transition_allowed c FAILED_SAFE = true → c = EXECUTING.
Proof. intros Hc [<-|H]; [set_solver|]. destruct c; (discriminate H || done || set_solver). Qed.

Lemma failed_Ok reason at_ rows rows' :
  failed s reason at_ rows rows = Ok (rows', tt) →
  persisted DEAD_LETTERED false (shape_of rows) = Some (shape_of rows', 1)
  ∧ c_version (case_ rows') = c_version (case_ rows) + 1 ∧ same_effect rows rows'.
Proof.
  unfold failed. intros H. inv_txn.
  match goal with E : fail_action _ _ _ _ = _ |- _ => unfold fail_action in E end. inv_txn.
  match goal with E : if_unresolved _ _ _ _ _ = _ |- _ =>
    unfold fail_instrument in E; apply failing_Ok in E as []; [|done|done] end.
  open_txn. cbn in *. rewrite ?moved_case0 in *.
  destruct Ht2 as [_ Hcs _]. cbn in Hcs. rewrite moved_case0 in Hcs.
  split; [|unfold same_effect; cbn; by rewrite moved_action0, moved_around0, moved_id0].
  bool_step H1. bool_step H1. apply failed_from in Hcs; [|done]. unfold persisted, shape_of. cbn. rewrite Hcs, moved_action0, moved_status0. cbn.
  clear -H. by destruct (a_status (action rows)); try discriminate H.
Qed.

Lemma suppress_action_Ok d snap reason at_ rows rows' terminal :
  suppress_action s d snap reason at_ (a_status (action rows)) rows = Ok (rows', terminal) →
  case_ rows' = case_ rows ∧ instrument rows' = instrument rows ∧ around rows' = around rows
  ∧ a_intent (action rows') = a_intent (action rows)
  ∧ ∀ i c, suppressed_to (mem PAYMENT_TRUTH_NOT_UNPAID (reasons d)) (a_status (action rows)) i c =
           if bool_decide (terminal = c) || case_transition_allowed c terminal
           then Some (a_status (action rows'), resolve InstrumentStatus.FAILED i, terminal, 1) else None.
Proof.
  unfold suppress_action. intros H.
  destruct (a_status (action rows)) eqn:Ha; try by inv_txn.
  all: unfold cancel_queued_action, dead_letter_uncertain_action in H; inv_txn; subst terminal; by split_and!.
Qed.

Lemma suppressed_Ok d snap reason at_ rows rows' :
  suppressed s d snap reason at_ rows rows = Ok (rows', tt) →
  persisted SUPPRESSED (mem PAYMENT_TRUTH_NOT_UNPAID (reasons d)) (shape_of rows) = Some (shape_of rows', 1)
  ∧ c_version (case_ rows') = c_version (case_ rows) + 1 ∧ same_effect rows rows'.
Proof.
  unfold suppressed. intros H. inv_txn.
  match goal with E : suppress_action _ _ _ _ _ _ _ = _ |- _ =>
    apply suppress_action_Ok in E as (Ec & Ei & Er & Ea & Hto) end.
  match goal with E : if_unresolved _ _ _ _ _ = _ |- _ =>
    unfold suppress_instrument in E; apply failing_Ok in E as []; [|done|done] end.
  open_txn. destruct Ht1 as [_ Hcs _]. cbn in *. rewrite moved_case0, Ec in *.
  split; [|unfold same_effect; cbn; by rewrite moved_action0, moved_around0, moved_id0, Er, Ei, Ea].
  cbn. unfold shape_of. cbn. rewrite Hto, moved_action0, moved_status0, Ei.
  destruct Hcs as [->| ->]; [by rewrite bool_decide_eq_true_2|by rewrite orb_true_r].
Qed.
End persisted.

(** * What a committed authorization does *)

(** The three ways an authorization goes through: reconciliation of an effect
    that is already uncertain, the start of the execution, and the repetition
    of an authorization while the action is executing. *)
Inductive authorization_move (snap : json) (reconcile : bool) (rows rows' : EffectRows) : Prop :=
  | starts_reconciliation :
      reconcile = true → c_state (case_ rows) = ACTION_UNCERTAIN →
      a_status (action rows) ∈ [ActionStatus.UNCERTAIN; ActionStatus.RECONCILING] →
      a_status (action rows') = ActionStatus.RECONCILING → case_ rows' = case_ rows →
      a_evidence (action rows') = a_evidence (action rows) →
      authorization_move snap reconcile rows rows'
  | starts_execution :
      reconcile = false → c_state (case_ rows) = ACTION_QUEUED → c_state (case_ rows') = EXECUTING →
      a_status (action rows) = ActionStatus.QUEUED → a_status (action rows') = ActionStatus.EXECUTING →
      c_version (case_ rows') = c_version (case_ rows) + 1 →
      snapshot (a_evidence (action rows')) = Some snap →
      snapshot (a_evidence (action rows)) = None ∨ snapshot (a_evidence (action rows)) = Some snap →
      c_last_action_id (case_ rows) = Some (a_id (a_intent (action rows))) →
      i_status (instrument rows) = InstrumentStatus.CREATING →
      authorization_move snap reconcile rows rows'
  | repeats_execution :
      reconcile = false → c_state (case_ rows) = EXECUTING → a_status (action rows) = ActionStatus.EXECUTING →
      rows' = rows → authorization_move snap reconcile rows rows'.

(** What the authorization found under its locks. *)
Record authorization_found (s : EffectSession) (t : jobs) (p : EffectParams) (a : EffectAuthorization)
    (rows : EffectRows) : Prop := {
  found_fence : fence_held s p t rows = true;
  found_path : path_found p rows = true;
  found_reference : i_reference (instrument rows) = reference_id (request (authorized_command a));
  found_no_link : i_link (instrument rows) = None;
  found_unpaid : order_truth (around rows) = UNPAID;
  found_merchant : merchant_status (around rows) = MERCHANT_ACTIVE ∧ merchant_kill_switch (around rows) = false;
  found_account : account_is_test (around rows) = true ∧ account_enabled (around rows) = true;
  found_version : c_version (case_ rows) = aggregate_version (authorized_context a);
  found_instrument : i_status (instrument rows) ∈ unresolved
}.

Lemma lock_rows_Ok s p t e1 e2 rows rows' r :
  lock_rows s p t e1 e2 rows = Ok (rows', r) →
  rows' = rows ∧ r = rows ∧ fence_held s p t rows = true ∧ path_found p rows = true.
Proof. unfold lock_rows. intros H. inv_ok. simplify_eq. bools. done. Qed.

Lemma binding_unchanged p a rows :
  binding_changed p a rows = false →
  i_reference (instrument rows) = reference_id (request (authorized_command a))
  ∧ i_link (instrument rows) = None ∧ order_truth (around rows) = UNPAID
  ∧ (merchant_status (around rows) = MERCHANT_ACTIVE ∧ merchant_kill_switch (around rows) = false)
  ∧ (account_is_test (around rows) = true ∧ account_enabled (around rows) = true)
  ∧ c_version (case_ rows) = aggregate_version (authorized_context a)
  ∧ i_status (instrument rows) ∈ unresolved.
Proof.
  unfold binding_changed, instrument_in. intros H. bools.
  repeat match goal with E : ¬ (_ ≠ _) |- _ => apply dec_stable in E end. by split_and!.
Qed.

Lemma execution_guards_Ok at_ rows new :
  execution_guards at_ rows new = Ok tt →
  c_state (case_ rows) = EXECUTING ∧ c_last_action_id (case_ rows) = Some (a_id (a_intent new))
  ∧ i_status (instrument rows) = InstrumentStatus.CREATING.
Proof. unfold execution_guards. intros H. inv_ok. bools. done. Qed.

Lemma start_effect_Ok s worker a snap rows rows' :
  start_effect s worker a snap rows rows = Ok (rows', tt) →
  same_effect rows rows' ∧ instrument rows' = instrument rows
  ∧ authorization_move snap (reconciliation_only a) rows rows'.
Proof.
  unfold start_effect. cbv zeta. destruct (reconciliation_only a) eqn:Hr.
  { intros H. inv_txn. open_txn. inv_ok. bools. split; [done|]. split; [done|].
    repeat match goal with E : ¬ (_ ≠ _) |- _ => apply dec_stable in E | E : ¬ (_ ∉ _) |- _ => apply dec_stable in E end.
    by apply starts_reconciliation. }
  destruct (bool_decide (c_state (case_ rows) = ACTION_QUEUED) && _) eqn:Hq.
  - bools. intros H. inv_txn. open_txn. cbn in *. split; [done|]. split; [done|].
    match goal with E : action_written _ _ |- _ => destruct E as [_ _ Hev _ Hg _] end. cbn in *.
    destruct Hg as [clock Hg]; [done|congruence|]. apply execution_guards_Ok in Hg as (_ & Hlast & Hi). cbn in *.
    apply starts_execution; try done; cbn.
    destruct (snapshot (a_evidence (action rows))) as [old|] eqn:Eold; [right|by left].
    assert (Some old ≠ None) as Hn by done. specialize (Hev Hn). rewrite <- Hev in Eold. cbn in Eold. congruence.
  - intros H. inv_txn. inv_ok. bools. split; [done|]. split; [done|].
    repeat match goal with E : ¬ (_ ≠ _) |- _ => apply dec_stable in E end. by apply repeats_execution.
Qed.

Lemma authorize_Ok s t p a snap rows rows' :
  authorize s t p a snap rows = Ok (rows', tt) →
  authorization_found s t p a rows ∧ same_effect rows rows' ∧ instrument rows' = instrument rows
  ∧ authorization_move snap (reconciliation_only a) rows rows'.
Proof.
  unfold authorize. intros H. inv_txn.
  match goal with E : lock_rows _ _ _ _ _ _ = _ |- _ => apply lock_rows_Ok in E as (-> & -> & Hf & Hp) end.
  inv_ok. match goal with E : binding_changed _ _ _ = false |- _ =>
    apply binding_unchanged in E as (?&?&?&?&?&?&?) end.
  split; [by split|]. by apply start_effect_Ok in Ht1.
Qed.

(** ** The snapshot names the version of the case *)
Lemma gate_snapshot_version d d' j :
  gate_snapshot d = Ok j → gate_snapshot d' = Ok j →
  decision_aggregate_version d = decision_aggregate_version d'.
Proof.
  assert (∀ d, gate_snapshot d = Ok j → ∃ e rest, j = JDict (($"action_key", e) :: ($"aggregate_version", JInt (decision_aggregate_version d)) :: rest)) as Hj.
  { clear. intros d H. unfold gate_snapshot, GateDecision_to_primitive in H. inv_ok. subst.
    erewrite (literal_canonical _
      [($"action_key", JStr (decision_action_key d));
       ($"aggregate_version", JInt (decision_aggregate_version d));
       ($"allowed", JBool (allowed d));
       ($"case_id", JStr (decision_case_id d));
       ($"decision_version", JInt (decision_version d));
       ($"evaluated_at", JStr _);
       ($"policy_version", JStr (decision_policy_version d));
       ($"proposal_digest", JStr (decision_proposal_digest d));
       ($"proposal_id", JStr (decision_proposal_id d));
       ($"reasons", JList (map JStr (map reason_value (reasons d))));
       ($"stage", JStr (stage_value (stage d)))]) in H; [|vm_compute; reflexivity|].
    2: { repeat (apply Forall2_cons; split); try apply Forall2_nil; try (split; reflexivity).
         split; [reflexivity|]. apply strings_canonical. }
    injection H as <-. by do 2 eexists. }
  intros (? & ? & E)%Hj (? & ? & E')%Hj. rewrite E in E'. by injection E'.
Qed.

(** A lost connection may hide a commit; nothing else does. *)
Definition hidden_commit (s : EffectSession) : Prop := ∃ e, link_fate s = ReplyLost e.

Lemma commit_Ok {A} s (m : txn A) rows rows' a :
  commit s m rows = (rows', Ok a) → m rows = Ok (rows', a).
Proof. intros [[_ [e E]]|(b & Hm & [E|[e E]])]%commit_cases; congruence. Qed.

Lemma commit_Raise {A} s (m : txn A) rows rows' e :
  commit s m rows = (rows', Raise e) → rows' = rows ∨ hidden_commit s ∧ ∃ a, m rows = Ok (rows', a).
Proof.
  unfold commit, hidden_commit. destruct (link_fate s); [|intros [= <- _]; by left|];
    (destruct (m rows) as [[rows1 a]|e'] eqn:E; intros [= <- <-]; try by left).
  right. eauto.
Qed.

Definition payment_blocks (res : ExecutionResult) : bool :=
  mem PAYMENT_TRUTH_NOT_UNPAID (reasons (effect_decision res)).

(** What a stored result with a link says about the instrument. *)
Definition link_stored (res : ExecutionResult) (rows rows' : EffectRows) : Prop :=
  ∃ link, result_link res = Some link
    ∧ (i_link (instrument rows) = None ∨ i_link (instrument rows) = Some link)
    ∧ (i_status (instrument rows) ∈ unresolved → i_link (instrument rows') = Some link)
    ∧ a_provider_resource (action rows') = Some link
    ∧ order_truth (around rows) = UNPAID.

Record result_stored (s : EffectSession) (t : jobs) (p : EffectParams) (res : ExecutionResult)
    (rows rows' : EffectRows) : Prop := {
  stored_fence : fence_held s p t rows = true;
  stored_shape : ∃ k, persisted (disposition res) (payment_blocks res) (shape_of rows) = Some (shape_of rows', k)
                      ∧ c_version (case_ rows') = c_version (case_ rows) + k;
  stored_same : same_effect rows rows';
  stored_link : disposition res = CREATED ∨ disposition res = ADOPTED → link_stored res rows rows'
}.

Lemma persist_Ok s t p res reason at_ rows rows' :
  persist s t p res reason at_ rows = Ok (rows', tt) → result_stored s t p res rows rows'.
Proof.
  unfold persist. intros H. apply txn_bind_Ok in H as (rows1 & r & Hl & H).
  apply lock_rows_Ok in Hl as (-> & -> & Hf & Hp).
  apply txn_bind_Ok in H as (rows1 & [] & Hm & H). apply check_Ok in H as [_ <-].
  assert ((∃ k, persisted (disposition res) (payment_blocks res) (shape_of rows) = Some (shape_of rows', k)
                ∧ c_version (case_ rows') = c_version (case_ rows) + k) ∧ same_effect rows rows'
          ∧ (disposition res = CREATED ∨ disposition res = ADOPTED → link_stored res rows rows')) as (? & ? & ?).
  2: { by split. }
  destruct (disposition res) eqn:Hd.
  1,2: apply created_Ok in Hm as (link & Hl & ? & ? & ? & ? & ? & ? & ?);
    (split; [by exists 1|]; split; [done|]; intros _; by exists link).
  - inv_txn. apply suppressed_Ok in Hm as (? & ? & ?). split; [by exists 1|]. split; [done|]. by intros [|].
  - apply requeued_Ok in Hm as (k & ? & ? & ? & _). split; [by exists k|]. split; [done|]. by intros [|].
  - apply requery_Ok in Hm as (? & ? & ?). split; [by exists 1|]. split; [done|]. by intros [|].
  - apply failed_Ok in Hm as (? & ? & ?). split; [by exists 1|]. split; [done|]. by intros [|].
  - apply failed_Ok in Hm as (? & ? & ?). split; [by exists 1|]. split; [done|]. by intros [|].
Qed.

Lemma persist_result_Ok s t job c res rows rows' :
  persist_result s t job c res rows = (rows', Ok tt) →
  ∃ p, params_of job c (default [] (lease_owner job)) = Ok p ∧ result_stored s t p res rows rows'.
Proof.
  unfold persist_result. destruct (params_of _ _ _) as [p|]; [|done].
  intros H%commit_Ok%persist_Ok. by exists p.
Qed.

Lemma record_authorization_Ok s t a rows rows' :
  record_effect_authorization s t a rows = (rows', Ok tt) →
  ∃ p snap, params_of (authorized_job a) (authorized_command a) (authorized_worker a) = Ok p
    ∧ gate_snapshot (authorized_decision a) = Ok snap ∧ allowed (authorized_decision a) = true
    ∧ authorize s t p a snap rows = Ok (rows', tt).
Proof.
  unfold record_effect_authorization.
  destruct (raise_if _ _ ≫= _) as [[p snap]|] eqn:E; [|done]. intros H%commit_Ok. inv_ok. simplify_eq. bools.
  by exists p, snap.
Qed.

(** The case moves only along transitions of the domain. *)
Lemma allowed_moves c c' :
  bool_decide (c' = c) || case_transition_allowed c c' = true → c' ≠ DUPLICATE_REVIEW → rtc recovery_step c c'.
Proof.
  intros H Hd. destruct (decide (c' = c)) as [->|Hn]; [done|]. rewrite bool_decide_eq_false_2 in H by done.
  apply rtc_once. destruct (decide (c = DORMANT)) as [->|Hc].
  - unfold case_transition_allowed in H. rewrite orb_false_r in H. by apply bool_decide_true_1 in H.
  - by apply case_transition_iff.
Qed.

Lemma suppressed_moves blocks a i c a' i' c' k :
  suppressed_to blocks a i c = Some (a', i', c', k) → rtc recovery_step c c'.
Proof.
  unfold suppressed_to. intros H.
  assert (∃ to terminal, terminal ≠ DUPLICATE_REVIEW ∧
    (if bool_decide (terminal = c) || case_transition_allowed c terminal
     then Some (to, resolve InstrumentStatus.FAILED i, terminal, 1) else None) = Some (a', i', c', k))
    as (to & terminal & Hn & E) by (destruct a; try discriminate H; do 2 eexists; (split; [|exact H]); by destruct blocks).
  clear H. destruct (bool_decide (terminal = c) || _) eqn:Ht; [|discriminate E].
  injection E as _ _ <- _. by apply allowed_moves.
Qed.

Lemma persisted_case_moves d blocks a i c a' i' c' k :
  persisted d blocks (a, i, c) = Some (a', i', c', k) → rtc recovery_step c c'.
Proof.
  unfold persisted. intros H.
  assert (Hq : rtc recovery_step EXECUTING ACTION_QUEUED).
  { apply rtc_l with ACTION_UNCERTAIN; [by vm_compute|]. apply rtc_once. by vm_compute. }
  assert (Hdone : c ∈ [EXECUTING; ACTION_UNCERTAIN; ACTIVE] → rtc recovery_step c ACTIVE).
  { rewrite !elem_of_cons, elem_of_nil. intros H'. destruct_or!; subst; try done; apply rtc_once; by vm_compute. }
  destruct d.
  1,2: case_bool_decide; [|done]; destruct a; simplify_eq; by apply Hdone.
  - by eapply suppressed_moves.
  - destruct a; try done.
    + destruct c; try done. by simplify_eq.
    + destruct i; try done. destruct c; try done. simplify_eq. apply rtc_once. by vm_compute.
  - destruct a; try done. destruct i; try done. destruct c; try done. simplify_eq. apply rtc_once. by vm_compute.
  - destruct a; try done; destruct c; try done; simplify_eq; apply rtc_once; by vm_compute.
  - destruct a; try done; destruct c; try done; simplify_eq; apply rtc_once; by vm_compute.
Qed.

(** * Properties *)

(** C11: storing the result of an execution either moves action, instrument and
    case together by one move of the table, under the live fence, along
    transitions of the domain, with the link of a created or adopted one on the
    instrument; or it changes nothing, unless the connection was lost after
    the commit. *)
Theorem result_follows_table s t job c res rows :
  match persist_result s t job c res rows with
  | (rows', Ok _) =>
      (∃ p, params_of job c (default [] (lease_owner job)) = Ok p ∧ result_stored s t p res rows rows')
      ∧ rtc recovery_step (c_state (case_ rows)) (c_state (case_ rows'))
  | (rows', Raise _) =>
      rows' = rows
      ∨ hidden_commit s ∧ rtc recovery_step (c_state (case_ rows)) (c_state (case_ rows')) ∧ same_effect rows rows'
  end.
Proof.
  destruct (persist_result s t job c res rows) as [rows' [[]|e]] eqn:H.
  - apply persist_result_Ok in H as (p & Hp & Hs). split; [by exists p|].
    destruct (stored_shape _ _ _ _ _ _ Hs) as (k & Hk & _). by eapply persisted_case_moves.
  - unfold persist_result in H. destruct (params_of _ _ _) as [p|]; [|injection H as <- _; by left].
    apply commit_Raise in H as [->|[Hh [[] H]]]; [by left|right]. apply persist_Ok in H as [_ (k & Hk & _) Hsame _].
    split; [done|]. split; [by eapply persisted_case_moves|done].
Qed.

(** C12: an authorization that goes through was allowed, held the live fence,
    found the rows of its command unpaid, enabled and untouched at the version
    the gate saw, and made exactly one of the three moves. *)
Theorem authorization_guarded s t a rows rows' :
  record_effect_authorization s t a rows = (rows', Ok tt) →
  allowed (authorized_decision a) = true
  ∧ ∃ p snap, params_of (authorized_job a) (authorized_command a) (authorized_worker a) = Ok p
    ∧ gate_snapshot (authorized_decision a) = Ok snap
    ∧ authorization_found s t p a rows ∧ same_effect rows rows' ∧ instrument rows' = instrument rows
    ∧ authorization_move snap (reconciliation_only a) rows rows'.
Proof.
  intros (p & snap & Hp & Hs & Ha & H)%record_authorization_Ok. split; [done|]. exists p, snap.
  apply authorize_Ok in H as (? & ? & ? & ?). by split_and!.
Qed.

Lemma reexecution_raises s t a rows d old :
  a_status (action rows) = ActionStatus.QUEUED → snapshot (a_evidence (action rows)) = Some old →
  gate_snapshot d = Ok old → decision_aggregate_version d < c_version (case_ rows) →
  decision_aggregate_version (authorized_decision a) = aggregate_version (authorized_context a) →
  ∀ p snap rows', gate_snapshot (authorized_decision a) = Ok snap → authorize s t p a snap rows ≠ Ok (rows', tt).
Proof.
  intros Hst Hev Hd Hv Hctx p snap rows' Hsnap (Hf & _ & _ & Hm)%authorize_Ok.
  destruct Hm as [_ _ Hin|_ _ _ _ _ _ _ [Hn|He] _ _|_ _ Hex _].
  - rewrite Hst in Hin. set_solver.
  - congruence.
  - rewrite Hev in He. injection He as ->. pose proof (gate_snapshot_version _ _ _ Hd Hsnap).
    pose proof (found_version _ _ _ _ _ Hf). lia.
  - congruence.
Qed.

(** A fault, not a guarantee: an action that was executed once and queued
    again, as after a certain failure or a completed negative lookup, is meant
    to be executed again, but no authorization of it goes through: its gate
    evidence is write-once and names the version of the case it was recorded
    at, which every later authorization has passed. *)
Lemma second_execution_refused s t a rows d old :
  a_status (action rows) = ActionStatus.QUEUED → snapshot (a_evidence (action rows)) = Some old →
  gate_snapshot d = Ok old → decision_aggregate_version d < c_version (case_ rows) →
  decision_aggregate_version (authorized_decision a) = aggregate_version (authorized_context a) →
  ∃ e, record_effect_authorization s t a rows = (rows, Raise e).
Proof.
  intros Hst Hev Hd Hv Hctx. unfold record_effect_authorization.
  destruct (raise_if _ _ ≫= _) as [[p snap]|e] eqn:E; [|by exists e]. inv_ok. simplify_eq.
  unfold commit. destruct (link_fate s); [|by eexists|];
    (destruct (authorize s t p a snap rows) as [[rows' []]|e'] eqn:Ha; [|by eexists]; exfalso;
     by eapply (reexecution_raises s t a rows d old)).
Qed.

(** ** Results that cannot be stored *)

(** A queued action cannot be dead-lettered: its case would have to move from
    ACTION_QUEUED to FAILED_SAFE. *)
Lemma queued_escalation_not_stored s t job c res rows :
  disposition res = ESCALATED ∨ disposition res = DEAD_LETTERED → c_state (case_ rows) = ACTION_QUEUED →
  ∀ rows', persist_result s t job c res rows ≠ (rows', Ok tt).
Proof.
  intros Hd Hc rows' (p & _ & [_ (k & H & _) _ _])%persist_result_Ok.
  unfold shape_of in H. rewrite Hc in H. destruct Hd as [Hd|Hd]; rewrite Hd in H; cbn in H; destruct (a_status _); discriminate H.
Qed.

(** Neither can the escalation or the exhaustion of a reconciliation. *)
Lemma reconciled_escalation_not_stored s t job c res rows :
  disposition res = ESCALATED ∨ disposition res = DEAD_LETTERED → c_state (case_ rows) = ACTION_UNCERTAIN →
  ∀ rows', persist_result s t job c res rows ≠ (rows', Ok tt).
Proof.
  intros Hd Hc rows' (p & _ & [_ (k & H & _) _ _])%persist_result_Ok.
  unfold shape_of in H. rewrite Hc in H. destruct Hd as [Hd|Hd]; rewrite Hd in H; cbn in H; destruct (a_status _); discriminate H.
Qed.

(** A reconciliation that found nothing new cannot be stored. *)
Lemma reconciled_requery_not_stored s t job c res rows :
  disposition res = REQUERY_REQUIRED → a_status (action rows) = ActionStatus.RECONCILING →
  ∀ rows', persist_result s t job c res rows ≠ (rows', Ok tt).
Proof.
  intros Hd Hc rows' (p & _ & [_ (k & H & _) _ _])%persist_result_Ok.
  unfold shape_of in H. rewrite Hd, Hc in H. discriminate H.
Qed.

(** A link created for an order that was paid meanwhile cannot be stored. *)
Lemma created_after_payment_not_stored s t job c res rows :
  disposition res = CREATED ∨ disposition res = ADOPTED → order_truth (around rows) ≠ UNPAID →
  ∀ rows', persist_result s t job c res rows ≠ (rows', Ok tt).
Proof.
  intros Hd Ht rows' (p & _ & [_ _ _ H])%persist_result_Ok. destruct (H Hd) as (? & _ & _ & _ & _ & ?). done.
Qed.

(** An execution that was interrupted is never reconciled: the action is still
    EXECUTING, which reconciliation does not accept. *)
Lemma interrupted_not_reconciled s t a rows :
  reconciliation_only a = true → a_status (action rows) = ActionStatus.EXECUTING →
  ∀ rows', record_effect_authorization s t a rows ≠ (rows', Ok tt).
Proof.
  intros Hr Hst rows' (p & snap & _ & _ & _ & (_ & _ & _ & Hm)%authorize_Ok)%record_authorization_Ok.
  destruct Hm as [_ _ Hin|Hf|Hf]; [|congruence..]. rewrite Hst in Hin. set_solver.
Qed.

(** * Witnesses *)
Definition sample_decision : GateDecision :=
  or_default empty_decision
    (context ← effect_context (sample_context ACTION_QUEUED None) sample_now true;
     evaluate_effect sample_policy sample_proposal context (Some sample_plan)).
Definition sample_authorization (reconcile : bool) : EffectAuthorization :=
  mkEffectAuthorization sample_lease sample_command sample_decision (sample_context ACTION_QUEUED None)
    ($"w1") reconcile.
Definition sample_params : EffectParams :=
  or_default (mkEffectParams [] [] [] [] [] 0 [] []) (params_of sample_lease sample_command ($"w1")).

Definition sample_outbox_row : OutboxRow :=
  mkOutboxRow (p_job_id sample_params) (p_merchant_id sample_params) ($"ACTION") ($"action_1") CREATE_COMMAND 1
    (JDict []) ($"key_1") ST_IN_PROGRESS 1 3 0 (Some ($"w1")) (Some (p_lease_token sample_params))
    (Some (instant sample_now + seconds 30)) NORMAL_RETRY (p_delivery_version sample_params)
    None None None None None None 0 0.
Definition sample_jobs : jobs := {[ p_job_id sample_params := sample_outbox_row ]}.

(** A queued action with the gate evidence [e], its case at version 4. *)
Definition sample_effect_rows (e : GateEvidence) : EffectRows :=
  mkEffectRows
    (mkActionRow
       (mkActionIntent ($"action_1") (p_merchant_id sample_params) (p_case_id sample_params)
          (p_action_key sample_params) CREATE_STANDARD_PAYMENT_LINK RAZORPAY_TEST_MODE 3
          (Some (reference_id sample_order)) 0)
       ActionStatus.QUEUED 0 (None, None) e None None RECON_PENDING None (None, None) None None (None, None) 0)
    (mkCaseRow (p_case_id sample_params) (p_merchant_id sample_params) (p_account_id sample_params)
       ACTION_QUEUED 4 1 None (Some ($"action_1")) (None, None) 0 0)
    (mkInstrumentRow ($"instrument_1") (reference_id sample_order) InstrumentStatus.CREATING None None
       RECON_PENDING None 10000 0 0 0)
    (mkSurroundings UNPAID MERCHANT_ACTIVE false true true GateVerdict.ALLOWED None []).
Definition no_evidence : GateEvidence := mkGateEvidence None None [].
Definition sample_effect_session : EffectSession :=
  mkEffectSession (instant sample_now) (instant sample_now) (instant sample_now) (Ok tt) NoFault.

Definition went_through {A} (x : EffectRows * result A) : bool := is_ok (snd x).
Lemma went_through_Ok (x : EffectRows * result unit) : went_through x = true → ∃ rows, x = (rows, Ok tt).
Proof. destruct x as [rows [[]|e]]; [by exists rows|done]. Qed.

Lemma sample_authorized :
  went_through (record_effect_authorization sample_effect_session sample_jobs (sample_authorization false)
                  (sample_effect_rows no_evidence)) = true.
Proof. vm_compute. reflexivity. Qed.

Lemma authorization_guarded_witness :
  ∃ rows', record_effect_authorization sample_effect_session sample_jobs (sample_authorization false)
             (sample_effect_rows no_evidence) = (rows', Ok tt)
           ∧ allowed sample_decision = true.
Proof.
  destruct (went_through_Ok _ sample_authorized) as [rows' H]. exists rows'. split; [exact H|].
  exact (proj1 (authorization_guarded _ _ _ _ _ H)).
Defined.

Definition old_snapshot : json := or_default JNull (gate_snapshot empty_decision).
Definition executed_before : GateEvidence := mkGateEvidence (Some old_snapshot) (Some GateVerdict.ALLOWED) [].

Lemma sample_versions :
  is_ok (gate_snapshot empty_decision) = true
  ∧ decision_aggregate_version sample_decision = aggregate_version (sample_context ACTION_QUEUED None).
Proof. split; vm_compute; reflexivity. Qed.

Lemma second_execution_refused_witness :
  ∃ e, record_effect_authorization sample_effect_session sample_jobs (sample_authorization false)
         (sample_effect_rows executed_before) = (sample_effect_rows executed_before, Raise e).
Proof.
  destruct sample_versions as [Hs Hv].
  apply (second_execution_refused sample_effect_session sample_jobs (sample_authorization false)
           (sample_effect_rows executed_before) empty_decision old_snapshot).
  - reflexivity.
  - reflexivity.
  - exact (or_default_Ok JNull _ Hs).
  - reflexivity.
  - exact Hv.
Defined.
