(* ===== verification/CreateHandler.v ===== *)
(** [services/control_plane/create_effect_worker.py]: the outbox handler
    [CreateStandardPaymentLinkHandler], composed of the command codec, the
    executor and the writer of results; what one delivery calls, in which order,
    and what it answers. *)
From S2P Require Import Prelude PyStr PyTime Json Canonical Values States Actions Gate Text Outbox PaymentLinks Effects.
From S2P Require Import PgOutbox OutboxWorker CommandCodec Executor CreateCommand EffectRows CreateStore.

(** * The handler *)
Definition _job_from_claim (claimed : ClaimedOutboxCommand) (c : CreatePaymentLinkCommand) : result OutboxJob :=
  key ← action_key (proposal c);
  digest ← command_payload_digest c;
  OutboxJob_post_init
    (mkOutboxJob (cmd_job_id claimed) key digest LEASED (cmd_delivery_version claimed) (cmd_attempt_count claimed)
       (cmd_max_attempts claimed) (cmd_created_at claimed) (cmd_claimed_at claimed) None (cmd_retry_mode claimed)
       (Some (cmd_worker_id claimed)) (Some (cmd_lease_token claimed)) (Some (cmd_lease_expires_at claimed))
       None None None 1).

(** The calls of one delivery: those of the handler, and those of its executor. *)
Inductive handler_event :=
  | AdapterOpened (merchant account : pystr) (answer : result unit)
  | EffectCall (e : Executor.event)
  | ResultPersisted (job : OutboxJob) (c : CreatePaymentLinkCommand) (res : ExecutionResult) (answer : result unit)
  | AdapterClosed (answer : result unit).

Abbreviation delivery_prog A := (prog handler_event A) (only parsing).

(** [gate], [repository], [adapter_factory] and [clock]; the repository is four
    ports, the adapter the other three. *)
Record CreateStandardPaymentLinkHandler := mkCreateHandler {
  handler_gate : GatePolicy;
  intents : pystr → pystr → list Executor.event → result (option DurableActionIntent);
  contexts : ActionProposal → pystr → datetime → list Executor.event → result GateContext;
  recorder : EffectAuthorization → list Executor.event → result unit;
  create_link : StandardPaymentLinkRequest → pystr → list Executor.event → result ProviderCreateOutcome;
  lookup_links : pystr → pystr → list Executor.event → result PaymentLinkLookupResult;
  handler_clock : list Executor.event → result datetime;
  adapter_factory : pystr → pystr → list handler_event → result unit;
  result_writer : OutboxJob → CreatePaymentLinkCommand → ExecutionResult → list handler_event → result unit;
  close_adapter : list handler_event → result unit
}.

(** [BackoffPolicy()]. *)
Definition DEFAULT_BACKOFF : BackoffPolicy := mkBackoffPolicy (seconds 1) (minutes 5).

(** The executor of one delivery. *)
Definition executor_of (self : CreateStandardPaymentLinkHandler) : CreatePaymentLinkExecutor :=
  mkExecutor (handler_gate self) (intents self) (contexts self) (create_link self) (lookup_links self)
    (handler_clock self) DEFAULT_BACKOFF (Some (recorder self)).

(** It starts with no call made. *)
Definition executing {A} (m : prog Executor.event A) : delivery_prog A := λ t,
  let '(l, r) := m [] in (t ++ map EffectCall l, r).

Section handler.
Context (nfkd : pystr → pystr) (nesting_limit : nat) (self : CreateStandardPaymentLinkHandler).

Definition INVALID_COMMAND : result HandlerResult := dead_lettered_by ($"invalid_create_payment_link_command").
Definition invalid_command : delivery_prog HandlerResult := pure INVALID_COMMAND.

(** The two [except] clauses around the effect. *)
Definition unavailable (e : py_error) : result HandlerResult :=
  match e with
  | CreateEffectPersistenceError _ => retry_safely ($"create_effect_persistence_unavailable") RECONCILE_ONLY
  | _ => retry_safely ($"create_effect_execution_unavailable") RECONCILE_ONLY
  end.

(** What the result of an execution is answered with. *)
Definition handler_answer (res : ExecutionResult) : result HandlerResult :=
  match Executor.disposition res with
  | CREATED | ADOPTED | SUPPRESSED =>
      reference ← match result_link res with
                  | Some (ch :: rest) => Ok (ch :: rest)
                  | _ => digest ← decision_digest (effect_decision res); Ok ($"suppressed:" ++ digest)
                  end;
      OutboxWorker.succeeded reference
  | REQUEUED | REQUERY_REQUIRED => retry_safely (Executor.result_reason res) (retry_mode (result_job res))
  | _ => dead_lettered_by (Executor.result_reason res)
  end.

(** The body of the [try], once the adapter is open. *)
Definition execute_and_persist (claimed : ClaimedOutboxCommand) (c : CreatePaymentLinkCommand) :
    delivery_prog ExecutionResult :=
  job ← pure (_job_from_claim claimed c);
  res ← executing (execute (executor_of self) job c (cmd_worker_id claimed));
  _ ← call (result_writer self job c res) (ResultPersisted job c res);
  mret res.

Definition effect_of (claimed : ClaimedOutboxCommand) (c : CreatePaymentLinkCommand) : delivery_prog HandlerResult :=
  let merchant := proposal_merchant_id (proposal c) in
  attempt (call (adapter_factory self merchant (provider_account_id c))
             (AdapterOpened merchant (provider_account_id c))) (λ opened,
    match opened with
    | Raise e => pure (unavailable e)
    | Ok _ =>
        attempt (execute_and_persist claimed c) (λ r,
          attempt (call (close_adapter self) AdapterClosed) (λ _,
            match r with
            | Ok res => pure (handler_answer res)
            | Raise e => pure (unavailable e)
            end))
    end).

(** Whether the claimed job is one of the command. *)
Definition foreign_job (claimed : ClaimedOutboxCommand) (c : CreatePaymentLinkCommand) : result bool :=
  if bool_decide (cmd_command_type claimed ≠ CREATE_STANDARD_PAYMENT_LINK_COMMAND_TYPE)
     || negb (cmd_command_schema_version claimed =? COMMAND_SCHEMA_VERSION)
     || bool_decide (cmd_aggregate_type claimed ≠ $"ACTION")
     || bool_decide (cmd_merchant_id claimed ≠ proposal_merchant_id (proposal c))
  then Ok true
  else
    key ← action_key (proposal c);
    Ok (bool_decide (cmd_idempotency_key claimed ≠ $"create-standard-payment-link:" ++ key)).

(** [__call__]. *)
Definition handle (claimed : ClaimedOutboxCommand) : delivery_prog HandlerResult :=
  match decode_create_standard_payment_link_command nfkd nesting_limit (jsonb (cmd_command_payload claimed))
          CREATE_STANDARD_PAYMENT_LINK_COMMAND_TYPE COMMAND_SCHEMA_VERSION with
  | Raise e => if type_or_value_error e then invalid_command else pure (Raise e)
  | Ok c =>
      foreign ← pure (foreign_job claimed c);
      if (foreign : bool) then invalid_command else effect_of claimed c
  end.
End handler.

(** * The calls of one delivery *)

(** ** The authorization *)
Definition auth_of (e : Executor.event) : option (EffectAuthorization * result unit) :=
  match e with AuthorizationRecorded a answer => Some (a, answer) | _ => None end.

Record own_authorization (job : OutboxJob) (a : EffectAuthorization) : Prop := {
  own_job : authorized_job a = job;
  own_mode : reconciliation_only a = bool_decide (retry_mode job = RECONCILE_ONLY);
  own_version : decision_aggregate_version (authorized_decision a) = aggregate_version (authorized_context a)
}.

(** At most one authorization is asked for, with the version of its context. *)
Definition one_authorization (job : OutboxJob) (l : list Executor.event) : Prop :=
  omap auth_of l = [] ∨ ∃ a answer, omap auth_of l = [(a, answer)] ∧ own_authorization job a.

Lemma evaluate_version self stage p c plan d :
  _evaluate self stage p c plan = Ok d → decision_aggregate_version d = aggregate_version c.
Proof. unfold _evaluate. intros H. inv_ok. by subst. Qed.

Lemma no_authorization job l : omap auth_of l = [] → one_authorization job l.
Proof. by left. Qed.

Section authorizations.
Context (self : CreatePaymentLinkExecutor) (job : OutboxJob) (c : CreatePaymentLinkCommand) (w : pystr).

Lemma reconcile_auths now effect t : emits (_reconcile self job c w now effect) t (λ l _, omap auth_of l = []).
Proof. unfold _reconcile. apply emits_call_bind; [intros; by apply emits_pure|done]. Qed.

Lemma allowed_auths now effect t : emits (allowed_effect self job c w now effect) t (λ l _, omap auth_of l = []).
Proof.
  unfold allowed_effect. case_decide; [apply reconcile_auths|].
  destruct (validate_expiry _ _) as [u|[]]; try by apply emits_pure.
  unfold create_effect. apply emits_call_bind; [|done]. intros o _.
  destruct (outcome_status o); [by apply emits_pure..|].
  eapply emits_mono; [apply reconcile_auths|done].
Qed.

Lemma execute_auths t : emits (execute self job c w) t (λ l _, one_authorization job l).
Proof.
  unfold execute. apply emits_read_clock; [intros started _|intros; by left].
  apply emits_pure_bind; [intros _ _|intros; by left].
  apply emits_call_bind; [intros intent _|intros; by left].
  apply emits_pure_bind; [intros failure _|intros; by left].
  apply emits_call_bind; [intros fresh _|intros; by left].
  apply emits_read_clock; [intros now _|intros; by left].
  apply emits_pure_bind; [intros _ _|intros; by left].
  apply emits_pure_bind; [intros context _|intros; by left].
  apply emits_pure_bind; [intros effect Heff|intros; by left].
  destruct failure; [by apply emits_pure; left|].
  destruct (negb _); [by apply emits_pure; left|].
  unfold record_authorization. destruct (authorization_recorder self).
  - set (a := mkEffectAuthorization _ _ _ _ _ _).
    assert (own_authorization job a) as Ha by (split; [done|done|by eapply evaluate_version]).
    apply emits_call_bind; [intros [] _|intros; right; by exists a, (Raise e)].
    eapply emits_mono; [apply allowed_auths|]. intros l r1 Hl. right. exists a, (Ok tt). cbn. by rewrite Hl.
  - apply emits_pure_bind; [intros _ _|by left].
    eapply emits_mono; [apply allowed_auths|]. intros l r1 Hl. left. cbn. by rewrite Hl.
Qed.
End authorizations.

(** ** The result *)
Lemma requeue_disposition self job c w now effect reason mode final res :
  Executor._requeue self job c w now effect reason mode final = Ok res →
  Executor.disposition res = DEAD_LETTERED ∨ Executor.disposition res = final.
Proof. unfold Executor._requeue. intros H. inv_ok. subst. cbn. case_decide; auto. Qed.

(** A result that asks for another query leaves a reconcile-only job. *)
Definition requery_reconciles (res : ExecutionResult) : Prop :=
  Executor.disposition res = REQUERY_REQUIRED → retry_mode (result_job res) = RECONCILE_ONLY.

Lemma settle_requery self job c w now effect lookup res :
  Executor.settle self job c w now effect lookup = Ok res → requery_reconciles res.
Proof.
  unfold Executor.settle, requery_reconciles. intros H. inv_ok. destruct (create_action r).
  - destruct (adopted_link r); [|done]. unfold finish in H. inv_ok. by subst.
  - destruct (requeue_disposition _ _ _ _ _ _ _ _ _ _ H) as [-> | ->]; done.
  - by apply requeue_job in H as (_ & ? & _).
  - unfold _escalate in H. inv_ok. by subst.
Qed.

Lemma execution_requery self job c w l res : execution self job c w l (Ok res) → requery_reconciles res.
Proof.
  intros H. remember (Ok res) as r eqn:Er. destruct H as [l r Hq Hs|pre now effect answer _ _|pre now effect answer _ _ _ _|pre now effect o answer _ _ _ _]; subst.
  - intros Hd. destruct (Hs _ eq_refl) as (_ & _ & _ & [[E _]|[E _]]); congruence.
  - destruct answer; [|done]. by eapply settle_requery.
  - unfold after_create in Er. destruct answer as [o|]; [|done]. rewrite bind_Ok_l in Er. intros Hd. case_decide.
    + destruct (outcome_link o); [|done]. unfold finish in Er. inv_ok. by subst.
    + apply requeue_disposition in Er as [E|E]; congruence.
  - destruct answer; [|done]. by eapply settle_requery.
Qed.

(** ** The trace of a delivery *)
Definition counted {A} (p : A → bool) (l : list A) : nat := length (List.filter p l).
#[global] Arguments counted : simpl never.
Definition creates_link (e : handler_event) : bool := match e with EffectCall (LinkCreated _ _ _) => true | _ => false end.
Definition authorizes (e : handler_event) : bool :=
  match e with EffectCall (AuthorizationRecorded _ _) => true | _ => false end.
Definition persists (e : handler_event) : bool := match e with ResultPersisted _ _ _ _ => true | _ => false end.
Abbreviation no p l := (counted p l = 0%nat) (only parsing).

(** The outcome asks for the effect to be tried again. *)
Definition retries_effect (out : result HandlerResult) : Prop :=
  ∃ h mode, out = Ok h ∧ result_retry_mode h = Some mode ∧ mode ≠ RECONCILE_ONLY.

(** What holds of each call of a delivery and the calls after it. *)
Definition call_ok (claimed : ClaimedOutboxCommand) (out : result HandlerResult) (e : handler_event)
    (later : list handler_event) : Prop :=
  match e with
  | EffectCall (AuthorizationRecorded a answer) =>
      (∃ c job, _job_from_claim claimed c = Ok job ∧ own_authorization job a)
      ∧ no authorizes later
      ∧ (no creates_link later ∨ answer = Ok tt ∧ reconciliation_only a = false)
      ∧ (retries_effect out → ¬ no persists later)
  | EffectCall (LinkCreated _ _ _) => no authorizes later ∧ no creates_link later
  | ResultPersisted job c res answer =>
      _job_from_claim claimed c = Ok job ∧ no authorizes later ∧ no persists later ∧ no creates_link later
      ∧ (retries_effect out → answer = Ok tt ∧ Executor.disposition res = REQUEUED)
  | _ => True
  end.

Fixpoint calls_ok (claimed : ClaimedOutboxCommand) (out : result HandlerResult) (l : list handler_event) : Prop :=
  match l with [] => True | e :: later => call_ok claimed out e later ∧ calls_ok claimed out later end.

Lemma counted_app {A} (p : A → bool) l l' : counted p (l ++ l') = (counted p l + counted p l')%nat.
Proof. unfold counted. by rewrite List.filter_app, length_app. Qed.
Lemma counted_cons {A} (p : A → bool) e l : counted p (e :: l) = ((if p e then 1 else 0) + counted p l)%nat.
Proof. unfold counted. cbn. by destruct (p e). Qed.

Lemma calls_ok_retry claimed out l :
  calls_ok claimed out l → retries_effect out → no persists l → no authorizes l.
Proof.
  intros H Hr. induction l as [|e l IH]; [done|]. destruct H as [He Hl]. rewrite !counted_cons.
  destruct e as [|[]| |]; cbn in *; intros Hp; try done; try by apply IH. by destruct He as (_ & _ & _ & []).
Qed.

(** A delivery as a whole: no create without an authorization, and no further
    try without a stored result. *)
Record delivery_ok (claimed : ClaimedOutboxCommand) (out : result HandlerResult) (l : list handler_event) : Prop := {
  ok_calls : calls_ok claimed out l;
  ok_create : no authorizes l → no creates_link l;
  ok_retry : retries_effect out → ¬ no persists l
}.

Lemma omap_single {A B} (f : A → option B) l x :
  omap f l = [x] → ∃ l1 e l2, l = l1 ++ e :: l2 ∧ f e = Some x ∧ omap f l1 = [] ∧ omap f l2 = [].
Proof.
  induction l as [|e l IH]; [done|]. cbn. destruct (f e) as [y|] eqn:E.
  - intros [= -> Hl]. by exists [], e, l.
  - intros (l1 & e' & l2 & -> & ? & H1 & ?)%IH. exists (e :: l1), e', l2. split_and!; try done. cbn. by rewrite E.
Qed.

Section split.
Implicit Types (l : list Executor.event).
Abbreviation calls l := (map EffectCall l).

Lemma no_auths l : omap auth_of l = [] → no authorizes (calls l).
Proof.
  induction l as [|e l IH]; [done|]. cbn. rewrite counted_cons. destruct e; cbn; intros H; try done; by apply IH.
Qed.

Lemma quiet_creates l : Forall quiet l → no creates_link (calls l).
Proof. induction 1 as [|e l He _ IH]; [done|]. cbn. rewrite counted_cons. destruct e; cbn in *; try done; by destruct He. Qed.

Lemma no_persists l : no persists (calls l).
Proof. induction l; cbn; [done|by rewrite counted_cons]. Qed.

(** An execution without a create, or the create right after its authorization. *)
Definition execution_shape (job : OutboxJob) l : Prop :=
  (no creates_link (calls l) ∧ one_authorization job l)
  ∨ ∃ q a req account answer tl,
      l = q ++ AuthorizationRecorded a (Ok tt) :: LinkCreated req account answer :: tl
      ∧ own_authorization job a ∧ reconciliation_only a = false
      ∧ no creates_link (calls q) ∧ omap auth_of q = [] ∧ no creates_link (calls tl) ∧ omap auth_of tl = [].

Lemma authorized_pre self job c w now effect pre :
  is_Some (authorization_recorder self) → authorized self job c w now effect pre → retry_mode job ≠ RECONCILE_ONLY →
  ∃ q a, pre = q ++ [AuthorizationRecorded a (Ok tt)] ∧ own_authorization job a ∧ reconciliation_only a = false
    ∧ no creates_link (calls q) ∧ omap auth_of q = [].
Proof.
  intros [rc Hrc] [(st & i & f & ctx & -> & _ & _ & Heff) _ _] Hm. unfold recorded. rewrite Hrc.
  eexists _, _. split; [reflexivity|]. split.
  - split; [done|done|]. by eapply evaluate_version.
  - cbn. by rewrite bool_decide_eq_false_2.
Qed.

Lemma execution_split self job c w l r :
  is_Some (authorization_recorder self) → execution self job c w l r → one_authorization job l →
  execution_shape job l.
Proof.
  intros Hrc H Hone. destruct H as [l r Hq _|pre now effect answer Ha _|pre now effect answer Ha Hm _ _|pre now effect o answer Ha Hm _ _].
  - left. split; [by apply quiet_creates|done].
  - left. split; [|done]. rewrite map_app, counted_app, quiet_creates; [done|by eapply authorized_quiet].
  - right. destruct (authorized_pre _ _ _ _ _ _ _ Hrc Ha Hm) as (q & a & -> & ? & ? & ? & ?).
    eexists q, a, _, _, _, []. rewrite <- app_assoc. cbn. by split_and!.
  - right. destruct (authorized_pre _ _ _ _ _ _ _ Hrc Ha Hm) as (q & a & -> & ? & ? & ? & ?).
    eexists q, a, _, _, _, [_]. rewrite <- app_assoc. cbn. by split_and!.
Qed.

(** Calls that are neither authorization nor create. *)
Lemma calls_ok_skip claimed out q rest :
  omap auth_of q = [] → no creates_link (calls q) → calls_ok claimed out rest →
  calls_ok claimed out (calls q ++ rest).
Proof.
  induction q as [|e q IH]; [done|]. cbn. rewrite counted_cons. destruct e; cbn; intros; try done; (split; [done|]); by apply IH.
Qed.

Lemma execution_delivery claimed out c job l rest :
  _job_from_claim claimed c = Ok job → execution_shape job l →
  calls_ok claimed out rest → no authorizes rest → no creates_link rest → (retries_effect out → ¬ no persists rest) →
  delivery_ok claimed out (calls l ++ rest).
Proof.
  intros Hjob Hl Hrest Ha Hc Hp.
  assert (Hretry : retries_effect out → ¬ no persists (calls l ++ rest)).
  { intros H. rewrite counted_app. specialize (Hp H). lia. }
  destruct Hl as [[Hno [Hn|(a & x & Hn & Hown)]]|(q & a & req & acc & x & tl & -> & Hown & Hm & Hq & Hqa & Htl & Htla)].
  - split; [by apply calls_ok_skip|rewrite !counted_app; lia|done].
  - split; [|rewrite !counted_app; lia|done].
    apply omap_single in Hn as (l1 & e & l2 & -> & He & H1 & H2). destruct e; try discriminate He. injection He as -> ->.
    rewrite map_app, counted_app in Hno. cbn in Hno. rewrite counted_cons in Hno. cbn in Hno.
    rewrite map_app, <- app_assoc. apply calls_ok_skip; [done|lia|]. cbn. split; [|apply calls_ok_skip; [done|lia|done]].
    split; [by exists c, job|]. rewrite !counted_app. pose proof (no_auths _ H2). split; [lia|]. split; [left; lia|].
    intros H'. specialize (Hp H'). lia.
  - split; [|intros Hx; exfalso; rewrite map_app, !counted_app in Hx; cbn in Hx; rewrite counted_cons in Hx; cbn in Hx; lia|done].
    rewrite map_app, <- app_assoc. apply calls_ok_skip; [done..|]. cbn. pose proof (no_auths _ Htla).
    rewrite !counted_cons, !counted_app. cbn. split_and!; try lia.
    + by exists c, job.
    + by right.
    + intros H'. specialize (Hp H'). lia.
    + by apply calls_ok_skip.
Qed.
End split.

Lemma emits_executing {A} (m : prog Executor.event A) t (Q : list handler_event → result A → Prop) Q' :
  emits m [] Q' → (∀ l r, Q' l r → Q (map EffectCall l) r) → emits (executing m) t Q.
Proof.
  intros (l & Hl & HQ) H. unfold emits, executing. destruct (m []) as [l' r]. cbn in *. subst. exists (map EffectCall l). auto.
Qed.

Lemma retry_result reason mode h : retry_safely reason mode = Ok h → result_retry_mode h = Some mode.
Proof. by intros ->%handler_result_same. Qed.

Lemma dead_letter_no_retry reason : ¬ retries_effect (dead_lettered_by reason).
Proof. by intros (h & m & ->%handler_result_same & Hm & _). Qed.
Lemma succeeded_no_retry reference : ¬ retries_effect (OutboxWorker.succeeded reference).
Proof. by intros (h & m & ->%handler_result_same & Hm & _). Qed.
Lemma unavailable_no_retry e : ¬ retries_effect (unavailable e).
Proof. intros (h & m & H & Hm & Hn). destruct e; apply retry_result in H; congruence. Qed.
Lemma raise_no_retry e : ¬ retries_effect (Raise e).
Proof. by intros (h & m & H & _). Qed.

Lemma answer_retries res : requery_reconciles res → retries_effect (handler_answer res) → Executor.disposition res = REQUEUED.
Proof.
  intros Hres Hr. unfold handler_answer in Hr. destruct (Executor.disposition res) eqn:Hd; try done.
  1,2,3: exfalso; destruct Hr as (h & m & H & Hm & _); inv_ok;
    match goal with E : OutboxWorker.succeeded _ = Ok _ |- _ => apply handler_result_same in E; by subst end.
  - destruct Hr as (h & m & H & Hm & Hn). apply retry_result in H. specialize (Hres Hd). congruence.
  - by apply dead_letter_no_retry in Hr.
  - by apply dead_letter_no_retry in Hr.
Qed.

(** A delivery that never got to its effect. *)
Lemma idle_delivery claimed out l :
  ¬ retries_effect out → Forall (λ e, match e with AdapterOpened _ _ _ | AdapterClosed _ => True | _ => False end) l →
  delivery_ok claimed out l.
Proof.
  intros Hr Hl. split; [|intros _|done].
  - induction Hl as [|e l He _ IH]; [done|]. by destruct e.
  - induction Hl as [|e l He _ IH]; [done|]. rewrite counted_cons. by destruct e.
Qed.

Lemma calls_ok_opened claimed out m a x l : delivery_ok claimed out l → delivery_ok claimed out (AdapterOpened m a x :: l).
Proof.
  intros [H1 H2 H3]. split; [done|rewrite !counted_cons; cbn; lia|]. intros H. rewrite counted_cons. specialize (H3 H). cbn; lia.
Qed.

Section handle.
Context (nfkd : pystr → pystr) (nesting_limit : nat) (self : CreateStandardPaymentLinkHandler).

Lemma execute_shape job c w t :
  emits (execute (executor_of self) job c w) t (λ l r,
    execution_shape job l ∧ execution (executor_of self) job c w l r).
Proof.
  eapply emits_mono; [apply emits_and; [apply execute_emits|apply execute_auths]|]. cbn. intros l r [Hx Ha].
  split; [eapply (execution_split (executor_of self)); [by eexists|exact Hx|exact Ha]|done].
Qed.

(** The deliveries: refused before any call, failed on the way, or ended with a
    result that the repository was asked to store. *)
Inductive delivery_trace (claimed : ClaimedOutboxCommand) : list handler_event → result HandlerResult → Prop :=
  | trace_refused out : out = INVALID_COMMAND ∨ (∃ e, out = Raise e) → delivery_trace claimed [] out
  | trace_unopened m a e : delivery_trace claimed [AdapterOpened m a (Raise e)] (unavailable e)
  | trace_no_job m a u e x : delivery_trace claimed [AdapterOpened m a (Ok u); AdapterClosed x] (unavailable e)
  | trace_raised m a u c job l e x :
      _job_from_claim claimed c = Ok job → execution_shape job l →
      execution (executor_of self) job c (cmd_worker_id claimed) l (Raise e) →
      delivery_trace claimed (AdapterOpened m a (Ok u) :: map EffectCall l ++ [AdapterClosed x]) (unavailable e)
  | trace_ended m a u c job l res answer x :
      _job_from_claim claimed c = Ok job → execution_shape job l →
      execution (executor_of self) job c (cmd_worker_id claimed) l (Ok res) →
      delivery_trace claimed
        (AdapterOpened m a (Ok u) :: map EffectCall l ++ [ResultPersisted job c res answer; AdapterClosed x])
        match answer with Ok _ => handler_answer res | Raise e => unavailable e end.

Lemma effect_trace claimed c t : emits (effect_of self claimed c) t (delivery_trace claimed).
Proof.
  unfold effect_of. apply emits_attempt, emits_call.
  destruct (adapter_factory _ _ _ _) as [u|e]; [|apply emits_pure; apply trace_unopened].
  apply emits_attempt. unfold execute_and_persist.
  assert (Hclose : ∀ t r, emits (attempt (call (close_adapter self) AdapterClosed) (λ _,
      match r with Ok res => pure (handler_answer res) | Raise e => pure (unavailable e) end)) t
      (λ l out, ∃ x, l = [AdapterClosed x] ∧ out = match r with Ok res => handler_answer res | Raise e => unavailable e end)).
  { intros t' r. apply emits_attempt, emits_call. destruct r; apply emits_pure; by eexists. }
  apply emits_pure_bind.
  2: { intros e _. eapply emits_mono; [apply (Hclose _ (Raise e))|]. cbn. intros l out (x & -> & ->). apply trace_no_job. }
  intros job Hjob. apply emits_bind.
  eapply emits_executing; [apply execute_shape|]. cbn. intros l r [Hshape Hrun]. destruct r as [res|e].
  2: { eapply emits_mono; [apply (Hclose _ (Raise e))|]. cbn. intros l' out (x & -> & ->). by eapply trace_raised. }
  apply emits_call_bind.
  - intros v _. apply emits_ret. eapply emits_mono; [apply (Hclose _ (Ok res))|]. cbn. intros l' out (x & -> & ->).
    rewrite <- app_assoc. exact (trace_ended claimed _ _ u c job l res (Ok v) x Hjob Hshape Hrun).
  - intros e _. eapply emits_mono; [apply (Hclose _ (Raise e))|]. cbn. intros l' out (x & -> & ->).
    rewrite <- app_assoc. exact (trace_ended claimed _ _ u c job l res (Raise e) x Hjob Hshape Hrun).
Qed.

Lemma handle_trace claimed t : emits (handle nfkd nesting_limit self claimed) t (delivery_trace claimed).
Proof.
  unfold handle, invalid_command. destruct (decode_create_standard_payment_link_command _ _ _ _ _) as [c|e].
  - apply emits_pure_bind; [|intros; apply trace_refused; right; by eexists].
    intros [|] _; [|apply effect_trace]. apply emits_pure, trace_refused. by left.
  - destruct (type_or_value_error e); apply emits_pure, trace_refused; [by left|right; by eexists].
Qed.

Lemma trace_delivery claimed l out : delivery_trace claimed l out → delivery_ok claimed out l.
Proof.
  destruct 1 as [out Hr|m a e|m a u e x|m a u c job l e x Hj Hs _|m a u c job l res answer x Hj Hs Hrun].
  - apply idle_delivery; [|done]. destruct Hr as [->|[e ->]]; [apply dead_letter_no_retry|apply raise_no_retry].
  - apply idle_delivery; [apply unavailable_no_retry|by repeat constructor].
  - apply idle_delivery; [apply unavailable_no_retry|by repeat constructor].
  - apply calls_ok_opened. eapply execution_delivery; try done. intros H. by apply unavailable_no_retry in H.
  - apply calls_ok_opened. eapply execution_delivery; try done. cbn. split_and!; try done.
    destruct answer as [[]|e]; intros H; [|by apply unavailable_no_retry in H]. split; [done|].
    apply answer_retries; [by eapply execution_requery|done].
Qed.

Lemma handle_delivery claimed t :
  emits (handle nfkd nesting_limit self claimed) t (λ l out, delivery_ok claimed out l).
Proof. eapply emits_mono; [apply handle_trace|]. cbn. intros. by apply trace_delivery. Qed.
End handle.

(** * Properties *)

(** What the disposition of a result settles the job as. *)
Definition settled_as_disposition (res : ExecutionResult) (h : HandlerResult) : Prop :=
  match OutboxWorker.disposition h with
  | SUCCEEDED => Executor.disposition res ∈ [CREATED; ADOPTED; SUPPRESSED]
  | RETRY => Executor.disposition res = REQUEUED
  | OutboxWorker.DEAD_LETTERED => Executor.disposition res ∈ [ESCALATED; DEAD_LETTERED]
  end.

Lemma answer_disposition res h :
  handler_answer res = Ok h →
  match OutboxWorker.disposition h with
  | SUCCEEDED => Executor.disposition res ∈ [CREATED; ADOPTED; SUPPRESSED]
  | RETRY => Executor.disposition res ∈ [REQUEUED; REQUERY_REQUIRED]
  | OutboxWorker.DEAD_LETTERED => Executor.disposition res ∈ [ESCALATED; DEAD_LETTERED]
  end.
Proof.
  unfold handler_answer. destruct (Executor.disposition res); intros H; inv_ok;
    match goal with
    | E : OutboxWorker.succeeded _ = Ok _ |- _ => apply handler_result_same in E
    | E : retry_safely _ _ = Ok _ |- _ => apply handler_result_same in E
    | E : dead_lettered_by _ = Ok _ |- _ => apply handler_result_same in E
    end; subst; cbn; set_solver.
Qed.

(** C3: a delivery settles its job for good only after the repository stored the
    result: it refuses a payload that is no command of this job without calling
    anything, or answers a result that was stored, as its disposition asks, or
    asks for reconciliation only; and an adapter it opened is closed last. *)
Theorem settlement_after_commit nfkd nesting_limit self claimed t t' h :
  handle nfkd nesting_limit self claimed t = (t', Ok h) →
  ∃ l, t' = t ++ l
  ∧ (INVALID_COMMAND = Ok h ∧ l = []
     ∨ result_retry_mode h = Some RECONCILE_ONLY
     ∨ ∃ c job res, _job_from_claim claimed c = Ok job ∧ ResultPersisted job c res (Ok tt) ∈ l
         ∧ handler_answer res = Ok h ∧ settled_as_disposition res h)
  ∧ ∀ m a, AdapterOpened m a (Ok tt) ∈ l → ∃ x, last l = Some (AdapterClosed x).
Proof.
  intros H. destruct (emits_run _ _ _ _ _ H (handle_trace nfkd nesting_limit self claimed t)) as (l & -> & Hl).
  exists l. split; [done|]. remember (Ok h) as out eqn:Eout.
  destruct Hl as [out Hr|m a e|m a u e x|m a u c job l e x _ _ _|m a u c job l res answer x Hj _ Hrun]; subst.
  - destruct Hr as [Hr|[e ?]]; [|done]. split; [by left|]. by intros m a ?%not_elem_of_nil.
  - split; [right; left; destruct e; apply handler_result_same in Eout; by subst|]. intros m' a' Hin. set_solver.
  - split; [right; left; destruct e; apply handler_result_same in Eout; by subst|]. intros _ _ _. by exists x.
  - split; [right; left; destruct e; apply handler_result_same in Eout; by subst|]. intros _ _ _. exists x.
    by rewrite app_comm_cons, last_snoc.
  - split; [|intros _ _ _; exists x; rewrite app_comm_cons; by rewrite last_app].
    destruct answer as [[]|e]; [|right; left; destruct e; apply handler_result_same in Eout; by subst].
    destruct (decide (result_retry_mode h = Some RECONCILE_ONLY)) as [|Hne]; [by right; left|right; right].
    exists c, job, res. split; [done|]. split; [set_solver|]. split; [done|].
    pose proof (answer_disposition _ _ Eout) as Hd. unfold settled_as_disposition.
    destruct (OutboxWorker.disposition h) eqn:Eh; [done| |done].
    rewrite !elem_of_cons, elem_of_nil in Hd. destruct Hd as [?|[Hq|[]]]; [done|].
    unfold handler_answer in Eout. rewrite Hq in Eout. apply retry_result in Eout.
    rewrite (execution_requery _ _ _ _ _ _ Hrun Hq) in Eout. congruence.
Qed.

(** * Witnesses *)
Definition job_merchant : pystr := $"01ARZ3NDEKTSV4RRFFQ69G5FAV".
Definition job_proposal : ActionProposal :=
  mkActionProposal ($"prop_1") job_merchant ($"case_1") 1 CREATE_STANDARD_PAYMENT_LINK
    (utc 63082281600000000) (utc 63082282500000000) 1 (Some (mkMoney 10000 ($"INR")))
    (Some ($"upi")) (Some 2500) (Some (mkProbability (DFinite false 9 (-1)))) false None.
Definition job_context (state : RecoveryState) : GateContext :=
  mkGateContext job_merchant ($"case_1") (utc 63082281600000000) 4 4 state sample_snapshot true
    (Some (utc 63082281500000000)) false false true false None 0 false 0 false false None true.
Definition job_command : CreatePaymentLinkCommand :=
  mkCreatePaymentLinkCommand job_proposal
    (or_default empty_decision (evaluate_policy sample_policy job_proposal (job_context ASSESSING)))
    sample_create_request ($"acc_1").
Definition job_envelope : list (pystr * json) :=
  or_default [] (encode_create_standard_payment_link_command id job_command).

(** A handler whose provider creates the link at once. *)
Definition job_handler : CreateStandardPaymentLinkHandler :=
  mkCreateHandler sample_policy
    (λ _ _ _, i ← record_intent job_command sample_now; Ok (Some i)) (λ _ _ _ _, Ok (job_context ACTION_QUEUED))
    (λ _ _, Ok tt) (λ _ _ _, Executor.succeeded ($"plink_1")) (λ _ _ _, Ok (mkPaymentLinkLookupResult false []))
    (λ _, Ok sample_now) (λ _ _ _, Ok tt) (λ _ _ _ _, Ok tt) (λ _, Ok tt).

Definition job_key : pystr :=
  $"create-standard-payment-link:" ++ or_default [] (action_key job_proposal).
Definition job_claim : ClaimedOutboxCommand :=
  mkClaimedOutboxCommand ($"01ARZ3NDEKTSV4RRFFQ69G5FAW") job_merchant ($"ACTION") ($"action_1")
    CREATE_STANDARD_PAYMENT_LINK_COMMAND_TYPE 1 job_envelope job_key 1 3 ($"w1") ($"token_1")
    (utc (instant sample_now + seconds 30)) 1 NORMAL_RETRY sample_now sample_now.
Definition job_delivery : list handler_event * result HandlerResult := handle id 100 job_handler job_claim [].

Definition delivery_succeeds (x : list handler_event * result HandlerResult) : bool :=
  match snd x with Ok h => bool_decide (result_reference h = Some ($"plink_1")) | Raise _ => false end.

Lemma delivery_succeeds_Ok x :
  delivery_succeeds x = true → ∃ h, x = (fst x, Ok h) ∧ result_reference h = Some ($"plink_1").
Proof. destruct x as [l [h|e]]; cbn; [|done]. intros H%bool_decide_true_1. by exists h. Qed.

Lemma job_delivered : delivery_succeeds job_delivery = true.
Proof. vm_compute. reflexivity. Qed.

Lemma settlement_after_commit_witness :
  ∃ l h, job_delivery = ([] ++ l, Ok h) ∧ result_reference h = Some ($"plink_1").
Proof.
  destruct (delivery_succeeds_Ok _ job_delivered) as (h & H & Href).
  destruct (settlement_after_commit id 100 job_handler job_claim [] _ h H) as (l & El & _).
  exists l, h. split; [|exact Href]. rewrite <- El. exact H.
Defined.
