(* ===== verification/CreateSystem.v ===== *)
(** Many deliveries at once: workers that claim the job of one create-link
    action from the table of [PgOutbox], run the handler of [CreateHandler] call
    by call and settle, on the rows of the action ([EffectRows]); they crash,
    lose leases, are claimed again, and interleave with every other component.
    The provider is asked for at most one link. *)
From S2P Require Import Prelude PyStr PyTime Json Values States Actions Gate Text Outbox PaymentLinks Effects.
From S2P Require Import PgOutbox OutboxWorker CommandCodec Executor CreateCommand EffectRows CreateStore CreateHandler.

(** * The rows, seen from elsewhere *)
(** What the rest of the program may do to the rows: it never moves the action
    into EXECUTING, which only [record_effect_authorization] does; versions
    grow, an ended action stays ended, and recorded gate evidence stays. *)
Record elsewhere (rows rows' : EffectRows) : Prop := {
  else_version : c_version (case_ rows) <= c_version (case_ rows');
  else_executing : a_status (action rows') = ActionStatus.EXECUTING → a_status (action rows) = ActionStatus.EXECUTING;
  else_ended : action_ended (action rows) = true → action_ended (action rows') = true;
  else_evidence : EffectRows.snapshot (a_evidence (action rows')) = EffectRows.snapshot (a_evidence (action rows))
                  ∨ EffectRows.snapshot (a_evidence (action rows)) = None ∧ action_ended (action rows') = true
}.

#[export] Instance elsewhere_preorder : PreOrder elsewhere.
Proof.
  split.
  - intros rows. split; auto. lia.
  - intros rows1 rows2 rows3 [V1 X1 E1 S1] [V2 X2 E2 S2]. split; [lia|auto|auto|].
    destruct S1 as [S1|[S1 H1]], S2 as [S2|[S2 H2]]; [left; congruence|right; split; [congruence|done]|right; auto..].
Qed.

Lemma elsewhere_action rows r : action rows = r → elsewhere rows (with_action rows r).
Proof. intros <-. split; cbn; auto. lia. Qed.

Lemma write_action_elsewhere s rows new rows' :
  write_action s rows new = Ok rows' →
  (a_status new = ActionStatus.EXECUTING → a_status (action rows) = ActionStatus.EXECUTING) → elsewhere rows rows'.
Proof.
  intros [-> [Hst Hopen Hev Hfirst _ _]]%write_action_Ok Hx. split; cbn; [lia|done|congruence|].
  destruct (EffectRows.snapshot (a_evidence (action rows))) as [old|] eqn:Eo.
  { left. by rewrite Hev. }
  destruct (EffectRows.snapshot (a_evidence new)) as [v|] eqn:En; [right|by left].
  split; [done|]. destruct (Hfirst eq_refl) as [Hn [He|Hc]]; [done| |].
  - specialize (Hx He). congruence.
  - unfold action_ended, stamp_action. cbn. by rewrite Hc.
Qed.

(** Transactions that only do what [elsewhere] allows. *)
Definition keeps {A} (m : txn A) : Prop := ∀ rows rows' a, m rows = Ok (rows', a) → elsewhere rows rows'.

Lemma keeps_bind {A B} (m : txn A) (f : A → txn B) : keeps m → (∀ a, keeps (f a)) → keeps (m ≫= f).
Proof. intros Hm Hf rows rows' b (rows1 & a & H1 & H2)%txn_bind_Ok. etrans; [by eapply Hm|by eapply Hf]. Qed.
Lemma keeps_check {A} (r : result A) : keeps (check r).
Proof. by intros rows rows' a [_ ->]%check_Ok. Qed.
Lemma keeps_ret {A} (a : A) : keeps (mret a).
Proof. by intros rows rows' b [_ ->]%txn_ret_Ok. Qed.
Lemma keeps_lock s p t e1 e2 : keeps (lock_rows s p t e1 e2).
Proof. by intros rows rows' a [-> _]%lock_rows_Ok. Qed.
Lemma keeps_action s where_ f : (∀ r, a_status (f r) ≠ ActionStatus.EXECUTING) → keeps (update_action s where_ f).
Proof.
  intros Hf rows rows' [st|] H.
  - apply update_action_Ok in H as (_ & H & _). eapply write_action_elsewhere; [done|]. intros E. by apply Hf in E.
  - unfold update_action in H. destruct (where_ _); inv_ok; by simplify_eq.
Qed.
Lemma keeps_case s where_ f : keeps (update_case s where_ f).
Proof.
  intros rows rows' [v|] H.
  - apply update_case_Ok in H as (_ & H & _). apply write_case_Ok in H as [-> [Hv _ _]]. split; cbn; auto. lia.
  - unfold update_case in H. destruct (where_ _ _); inv_ok; by simplify_eq.
Qed.
Lemma keeps_instrument s where_ f : keeps (update_instrument s where_ f).
Proof.
  intros rows rows' [v|] H.
  - apply update_instrument_Ok in H as (_ & H & _). apply write_instrument_Ok in H as [-> _]. split; cbn; auto. lia.
  - unfold update_instrument in H. destruct (where_ _); inv_ok; by simplify_eq.
Qed.

Create HintDb keeps.
#[export] Hint Resolve keeps_check keeps_ret keeps_lock keeps_case keeps_instrument : keeps.
#[export] Hint Extern 2 (keeps (_ ≫= _)) => (apply keeps_bind; [|intros ?]) : keeps.
#[export] Hint Extern 2 (keeps (update_action _ _ _)) => (apply keeps_action; intros ?; cbn; try case_bool_decide; done) : keeps.

Lemma keeps_persist s t p res reason at_ : keeps (persist s t p res reason at_).
Proof.
  unfold persist. apply keeps_bind; [auto with keeps|intros rows]. apply keeps_bind; [|auto with keeps].
  assert (Hif : ∀ rows m e op, keeps m → keeps (if_unresolved rows m e op)).
  { intros. unfold if_unresolved. destruct (instrument_in _ _); eauto with keeps. }
  assert (Hfail : keeps (failed s reason at_ rows)).
  { unfold failed, fail_action, fail_instrument, fail_case. eauto 10 with keeps. }
  assert (Hcreated : keeps (created s res at_ rows)).
  { unfold created, complete_action, issue_instrument, activate_instrument, activate_case, move_case.
    destruct (result_link res); [|auto with keeps]. cbv zeta. case_bool_decide; eauto 20 with keeps. }
  destruct (Executor.disposition res); try done.
  - apply keeps_bind; [auto with keeps|intros snap]. unfold suppressed, suppress_action, cancel_queued_action,
      dead_letter_uncertain_action, suppress_instrument, suppress_case. cbv zeta.
    apply keeps_bind; [destruct (a_status (action rows)); eauto 10 with keeps|eauto 10 with keeps].
  - unfold requeued, mark_action_retryable, queue_retryable_action, mark_uncertain_case, queue_uncertain_case,
      requeue_action_from_reconciling, reset_uncertain_instrument, release_action, move_case.
    destruct (a_status (action rows)); eauto 20 with keeps.
  - unfold requery, mark_uncertain_action, mark_uncertain_instrument, mark_uncertain_case, move_case.
    eauto 20 with keeps.
Qed.

(** Storing a result, whether or not the connection survives the commit. *)
Lemma persist_result_elsewhere s t job c res rows rows' answer :
  persist_result s t job c res rows = (rows', answer) → elsewhere rows rows'.
Proof.
  unfold persist_result. destruct (params_of _ _ _) as [p|e]; [|by intros [= <- _]].
  intros [[-> _]|(a & H & _)]%commit_cases; [done|by eapply keeps_persist].
Qed.

(** An authorization leaves the rows alone, or does one of its moves. *)
Lemma record_authorization_cases s t a rows rows' answer :
  record_effect_authorization s t a rows = (rows', answer) →
  (rows' = rows ∧ ∃ e, answer = Raise e)
  ∨ ∃ p snap, params_of (authorized_job a) (authorized_command a) (authorized_worker a) = Ok p
      ∧ gate_snapshot (authorized_decision a) = Ok snap ∧ authorize s t p a snap rows = Ok (rows', tt).
Proof.
  unfold record_effect_authorization.
  destruct (raise_if _ _ ≫= _) as [[p snap]|e] eqn:E; [|intros [= <- <-]; left; by eauto].
  intros [H|([] & H & _)]%commit_cases; [by left|right]. inv_ok. simplify_eq. by exists p, snap.
Qed.

(** * The system *)

(** A delivery in progress: the command it was claimed with, the calls it is
    still to make, each with its answer, and what its handler will return. *)
Record delivery := mkDelivery {
  claimed : ClaimedOutboxCommand;
  calls_left : list handler_event;
  outcome : result HandlerResult
}.

(** The clock of the database, the outbox table, the rows of the action, the
    deliveries in progress by their version, and the creates sent so far. *)
Record system := mkSystem {
  clock : Z;
  outbox : gmap pystr OutboxRow;
  rows_of : EffectRows;
  running : gmap Z delivery;
  sent : list handler_event
}.

(** What a call does to the rows: the repository's two transactions give the
    answers they give; every other port answers as it likes. *)
Definition call_effect (now_ now' : Z) (t : gmap pystr OutboxRow) (e : handler_event) (rows rows' : EffectRows) : Prop :=
  match e with
  | EffectCall (AuthorizationRecorded a answer) =>
      ∃ s, now_ <= fence_now s <= now' ∧ record_effect_authorization s t a rows = (rows', answer)
  | ResultPersisted job c res answer =>
      ∃ s, now_ <= fence_now s <= now' ∧ persist_result s t job c res rows = (rows', answer)
  | _ => rows' = rows
  end.

(** The settlement [poll_once] asks for. *)
Definition settlement_of (backoff : BackoffPolicy) (c : ClaimedOutboxCommand) (h : HandlerResult) : option operation :=
  match OutboxWorker.disposition h with
  | SUCCEEDED => Complete c <$> result_reference h
  | RETRY => match OutboxWorker.result_reason h, result_retry_mode h with
             | Some reason, Some mode => Some (Retry backoff c reason mode)
             | _, _ => None
             end
  | OutboxWorker.DEAD_LETTERED => DeadLetter c <$> OutboxWorker.result_reason h
  end.

Section system.
Context (nfkd : pystr → pystr) (nesting_limit : nat) (job : pystr).

Inductive system_step (x : system) : system → Prop :=
  | claims_job s token worker n d t' b clock' c self l out :
      (* a worker claims the job and starts the handler *)
      session_ok (clock x) s clock' → claim_batch s token worker n d (outbox x) = (t', Ok b) →
      c ∈ commands b → cmd_job_id c = job → handle nfkd nesting_limit self c [] = (l, out) →
      system_step x (mkSystem clock' t' (rows_of x)
                       (<[cmd_delivery_version c := mkDelivery c l out]> (running x)) (sent x))
  | uses_table op a t' clock' :
      (* any other use of the table, by anyone; the job is settled by its deliveries only *)
      step (clock x, outbox x) (op, a) (clock', t') →
      (∀ c, settles_command op = Some c → cmd_job_id c ≠ job) →
      system_step x (mkSystem clock' t' (rows_of x) (running x) (sent x))
  | makes_call v d e l rows' clock' :
      running x !! v = Some d → calls_left d = e :: l → clock x <= clock' →
      call_effect (clock x) clock' (outbox x) e (rows_of x) rows' →
      system_step x (mkSystem clock' (outbox x) rows' (<[v := mkDelivery (claimed d) l (outcome d)]> (running x))
                       (if creates_link e then sent x ++ [e] else sent x))
  | settles v d h backoff op a t' clock' :
      running x !! v = Some d → calls_left d = [] →
      instruction_for (HandlerAnswer <$> outcome d) = Ok h → settlement_of backoff (claimed d) h = Some op →
      step (clock x, outbox x) (op, a) (clock', t') →
      system_step x (mkSystem clock' t' (rows_of x) (delete v (running x)) (sent x))
  | crashes v :
      system_step x (mkSystem (clock x) (outbox x) (rows_of x) (delete v (running x)) (sent x))
  | acts_elsewhere rows' :
      elsewhere (rows_of x) rows' →
      system_step x (mkSystem (clock x) (outbox x) rows' (running x) (sent x)).

(** * The invariant *)

(** Recorded evidence is that of an ended action, or was recorded at an earlier
    version of the case. *)
Definition evidence_past (rows : EffectRows) : Prop :=
  ∀ old, EffectRows.snapshot (a_evidence (action rows)) = Some old →
    action_ended (action rows) = true
    ∨ ∃ d, gate_snapshot d = Ok old ∧ decision_aggregate_version d < c_version (case_ rows).

(** The delivery is about to create: its authorization went through. *)
Definition armed (d : delivery) : Prop := no authorizes (calls_left d) ∧ ¬ no creates_link (calls_left d).

Record delivery_inv (x : system) (v : Z) (d : delivery) : Prop := {
  inv_calls : calls_ok (claimed d) (outcome d) (calls_left d);
  inv_claim : cmd_job_id (claimed d) = job ∧ cmd_delivery_version (claimed d) = v;
  inv_row : ∃ r, outbox x !! job = Some r ∧ v <= row_delivery_version r
            ∧ (v = row_delivery_version r → in_progress r = true → row_retry_mode r = cmd_retry_mode (claimed d));
  inv_requeued : retries_effect (outcome d) → no persists (calls_left d) →
                 ∀ r, outbox x !! job = Some r → v = row_delivery_version r →
                 a_status (action (rows_of x)) ≠ ActionStatus.EXECUTING
}.

(** While the action executes, the job is closed, or waits for a reconciliation,
    or its delivery has its authorization behind it. *)
Definition executing_job (x : system) (r : OutboxRow) : Prop :=
  row_retry_mode r = RECONCILE_ONLY ∨ terminal_row r = true
  ∨ in_progress r = true ∧ ∀ d, running x !! row_delivery_version r = Some d → no authorizes (calls_left d).

Record system_inv (x : system) : Prop := {
  inv_table : table_ok (clock x) (outbox x);
  inv_evidence : evidence_past (rows_of x);
  inv_deliveries : ∀ v d, running x !! v = Some d → delivery_inv x v d;
  inv_executing : a_status (action (rows_of x)) = ActionStatus.EXECUTING →
                  ∃ r, outbox x !! job = Some r ∧ executing_job x r;
  inv_unexecuted : EffectRows.snapshot (a_evidence (action (rows_of x))) = None →
                   sent x = [] ∧ ∀ v d, running x !! v = Some d → ¬ armed d;
  inv_once : (sent x = [] ∧ ∀ v v' d d', running x !! v = Some d → running x !! v' = Some d' → armed d → armed d' → v = v')
             ∨ length (sent x) = 1%nat ∧ ∀ v d, running x !! v = Some d → ¬ armed d
}.
End system.

(** * The row of the job *)
(** What a claim makes of a row. *)
Record row_claimed (r r' : OutboxRow) : Prop := {
  claimed_version : row_delivery_version r' = row_delivery_version r + 1;
  claimed_open : terminal_row r = false;
  claimed_mode : row_retry_mode r' = if (row_max_attempts r <=? row_attempt_count r) || in_progress r
                                     then RECONCILE_ONLY else row_retry_mode r
}.

Section rows.
Context (clock clock' : Z) (s : Session) (t : table).
Context (Hs : session_ok clock s clock') (Ht : table_ok clock t).

Lemma effect_job op t' k r :
  effect s t op t' → t !! k = Some r → (∀ c, settles_command op = Some c → cmd_job_id c ≠ k) →
  ∃ r', t' !! k = Some r' ∧ (r' = r ∨ row_claimed r r').
Proof using Hs Ht.
  intros He Hr Hno. destruct He as [op|r0 Hf _ _|token worker nonce n d _|op c f r0 Hop _ _].
  - exists r. auto.
  - exists r. rewrite lookup_insert_ne by congruence. auto.
  - destruct (decide (k ∈ map row_id (candidates s n t))) as [Hk|Hk].
    + apply list_elem_of_fmap in Hk as (r1 & -> & Hr1).
      destruct (candidates_elem clock s n t Ht r1 Hr1) as (Hr1' & Hdue & _). rewrite Hr in Hr1'. injection Hr1' as <-.
      exists (claimed_as s worker nonce d r). rewrite replace_rows_in; [|by eapply candidates_nodup|done].
      split; [done|right]. split; [done|by eapply due_not_terminal|done].
    + exists r. rewrite replace_rows_other by done. auto.
  - exists r. rewrite lookup_insert_ne by (intros E; by eapply Hno). auto.
Qed.

(** What the settlement of a handler result makes of it. *)
Definition job_settled (c : ClaimedOutboxCommand) (h : HandlerResult) (t' : gmap pystr OutboxRow) : Prop :=
  t' = t
  ∨ ∃ r r', t !! cmd_job_id c = Some r ∧ in_progress r = true ∧ row_delivery_version r = cmd_delivery_version c
      ∧ t' = <[cmd_job_id c := r']> t ∧ row_delivery_version r' = row_delivery_version r + 1
      ∧ (terminal_row r' = true ∨ result_retry_mode h = Some (row_retry_mode r')).

Lemma settled_by_statement name c f h :
  settlement (now s) f → (∀ r, terminal_row (f r) = true ∨ result_retry_mode h = Some (row_retry_mode (f r))) →
  job_settled c h (fst (_settle s name c f t)).
Proof using Hs Ht.
  intros Hf Hr. destruct (settle_table clock clock' s t Hs Ht name c f Hf) as [->|(r & Hc & ->)]; [by left|right].
  unfold current in Hc. destruct (t !! cmd_job_id c) as [r1|]; [|done]. destruct (fenced (now s) c r1) eqn:Hfence; [|done].
  injection Hc as ->. exists r, (settled_as s f r). unfold fenced in Hfence. bools.
  destruct (settlement_fields s f Hf r) as (_ & _ & Hv & _). split_and!; try done. apply Hr.
Qed.

Lemma dead_letter_job c h reason : job_settled c h (fst (dead_letter s c reason t)).
Proof using Hs Ht.
  unfold dead_letter, checked. destruct (_clean_text _ _ _) eqn:E; [|by left].
  apply clean_text_checked in E as [E _]. apply settled_by_statement; [by constructor|by left].
Qed.

Lemma settled_row_of backoff c h op :
  settlement_of backoff c h = Some op → job_settled c h (fst (perform s op t)).
Proof using Hs Ht.
  unfold settlement_of. destruct (OutboxWorker.disposition h).
  - destruct (result_reference h) as [reference|]; [|done]. intros [= <-]. cbn [perform fst].
    unfold complete, checked. destruct (_clean_text _ _ _) eqn:E; [|by left].
    apply clean_text_checked in E as [E _]. apply settled_by_statement; [by constructor|by left].
  - destruct (OutboxWorker.result_reason h) as [reason|]; [|done]. destruct (result_retry_mode h) as [mode|] eqn:Hm; [|done].
    intros [= <-]. cbn [perform fst]. unfold retry, checked. destruct (_clean_text _ _ _) eqn:E; [|by left].
    apply clean_text_checked in E as [E _]. destruct (_ <=? _).
    + destruct (_prefixed_reason _ _); [apply dead_letter_job|by left].
    + destruct (delay_after _ _); [|by left]. apply settled_by_statement; [by constructor|by right].
  - destruct (OutboxWorker.result_reason h) as [reason|]; [|done]. intros [= <-]. apply dead_letter_job.
Qed.
End rows.

(** A claim of a job that executes is for reconciliation only. *)
Lemma executing_reclaimed x r r' : executing_job x r → row_claimed r r' → row_retry_mode r' = RECONCILE_ONLY.
Proof.
  intros Hx [_ Hopen Hm]. rewrite Hm.
  destruct Hx as [Hx|[Hx|[Hx _]]]; [by case_match|congruence|by rewrite Hx, orb_true_r].
Qed.

(** * Every step keeps the invariant *)
Section preserved.
Context (nfkd : pystr → pystr) (nesting_limit : nat) (job : pystr).
Abbreviation inv := (system_inv job).
Implicit Types (x : system) (d : delivery).

Definition with_rows x (clock' : Z) rows' : system := mkSystem clock' (outbox x) rows' (running x) (sent x).
Definition with_table x (clock' : Z) (t' : gmap pystr OutboxRow) : system :=
  mkSystem clock' t' (rows_of x) (running x) (sent x).
Definition with_running x (ds : gmap Z delivery) : system :=
  mkSystem (clock x) (outbox x) (rows_of x) ds (sent x).
Definition advance d (l : list handler_event) : delivery := mkDelivery (claimed d) l (outcome d).

Lemma inv_elsewhere x clock' rows' :
  inv x → clock x <= clock' → elsewhere (rows_of x) rows' → inv (with_rows x clock' rows').
Proof.
  intros [T E D X U O] Hc [V1 X1 E1 S1]. split; cbn; auto.
  - by eapply table_ok_later.
  - intros old Hold. destruct S1 as [S1|[_ S1]]; [|by left]. rewrite S1 in Hold.
    destruct (E _ Hold) as [He|(g & ? & ?)]; [left; by apply E1|right]. exists g. split; [done|lia].
  - intros v d Hd. destruct (D _ _ Hd) as [C L R Q]. split; cbn; auto.
    intros Hx Hp r Hr Hv He. by eapply Q; [..|apply X1].
  - intros Hn. apply U. destruct S1 as [S1|[S1 _]]; [congruence|done].
Qed.

Lemma inv_table_step x clock' t' :
  inv x → table_ok clock' t' →
  (∀ r, outbox x !! job = Some r → ∃ r', t' !! job = Some r' ∧ (r' = r ∨ row_claimed r r')) →
  inv (with_table x clock' t').
Proof.
  intros [T E D X U O] Ht Hrow. split; cbn; auto.
  - intros v d Hd. destruct (D _ _ Hd) as [C L (r & Hr & Hv & Hm) Q].
    destruct (Hrow _ Hr) as (r' & Hr' & [->|[Hver _ _]]).
    + split; cbn; eauto. intros Hx Hp r2 Hr2 Hv2. rewrite Hr' in Hr2. injection Hr2 as <-. by eapply Q.
    + split; cbn; auto.
      * exists r'. split; [done|]. split; [lia|]. intros. lia.
      * intros _ _ r2 Hr2 Hv2. rewrite Hr' in Hr2. injection Hr2 as <-. lia.
  - intros Hx. destruct (X Hx) as (r & Hr & Hj). destruct (Hrow _ Hr) as (r' & Hr' & [->|Hcl]); [by exists r|].
    exists r'. split; [done|]. left. by eapply executing_reclaimed.
Qed.

Lemma inv_drop x v : inv x → inv (with_running x (delete v (running x))).
Proof.
  intros [T E D X U O].
  assert (Hsub : ∀ v' d, delete v (running x) !! v' = Some d → running x !! v' = Some d)
    by (intros v' d [_ H]%lookup_delete_Some; done).
  split; cbn; auto.
  - intros v' d Hd%Hsub. destruct (D _ _ Hd) as [C L R Q]. by split.
  - intros Hx. destruct (X Hx) as (r & Hr & Hj). exists r. split; [done|].
    destruct Hj as [?|[?|[? Hj]]]; [by left|by right; left|right; right]. split; [done|]. intros d Hd%Hsub. by apply Hj.
  - intros Hn. destruct (U Hn) as [? H]. split; [done|]. intros v' d Hd%Hsub. by eapply H.
  - destruct O as [[? H]|[? H]]; [left|right]; (split; [done|]); [intros v1 v2 d1 d2 H1%Hsub H2%Hsub; eauto|intros v' d Hd%Hsub; eauto].
Qed.

Lemma inv_start x v d :
  inv x → delivery_inv job x v d → ¬ armed d →
  (a_status (action (rows_of x)) = ActionStatus.EXECUTING → ∀ r, outbox x !! job = Some r → row_retry_mode r = RECONCILE_ONLY) →
  inv (with_running x (<[v := d]> (running x))).
Proof.
  intros [T E D X U O] Hd Ha Hx.
  assert (Hsub : ∀ v' d', <[v:=d]> (running x) !! v' = Some d' → armed d' → running x !! v' = Some d').
  { intros v' d' [[<- <-]|[_ H]]%lookup_insert_Some; [by intros ?|done]. }
  split; cbn; auto.
  - intros v' d' [[<- <-]|[_ H]]%lookup_insert_Some; [by destruct Hd|]. destruct (D _ _ H). by split.
  - intros He. destruct (X He) as (r & Hr & _). exists r. split; [done|]. left. by apply Hx.
  - intros Hn. destruct (U Hn) as [? H]. split; [done|]. intros v' d' H1 H2. exact (H v' d' (Hsub _ _ H1 H2) H2).
  - destruct O as [[? H]|[? H]]; [left|right]; (split; [done|]).
    + intros v1 v2 d1 d2 H1 H2 A1 A2. exact (H v1 v2 d1 d2 (Hsub _ _ H1 A1) (Hsub _ _ H2 A2) A1 A2).
    + intros v' d' H1 H2. exact (H v' d' (Hsub _ _ H1 H2) H2).
Qed.

Lemma calls_tail claimed out e l : calls_ok claimed out (e :: l) → calls_ok claimed out l.
Proof. by intros [_ ?]. Qed.

Lemma inv_advance x v d e l :
  inv x → running x !! v = Some d → calls_left d = e :: l →
  (retries_effect (outcome d) → no persists l → ∀ r, outbox x !! job = Some r → v = row_delivery_version r →
   a_status (action (rows_of x)) ≠ ActionStatus.EXECUTING) →
  (armed (advance d l) → armed d) →
  inv (with_running x (<[v := advance d l]> (running x))).
Proof.
  intros [T E D X U O] Hd Hl Hq Ha.
  assert (Hsub : ∀ v' d', <[v:=advance d l]> (running x) !! v' = Some d' → armed d' →
            ∃ d0, running x !! v' = Some d0 ∧ armed d0).
  { intros v' d' [[<- <-]|[_ H]]%lookup_insert_Some Harm; [exists d|exists d']; auto. }
  split; cbn; auto.
  - intros v' d' [[<- <-]|[_ H]]%lookup_insert_Some; [|destruct (D _ _ H); by split].
    destruct (D _ _ Hd) as [C L R Q]. split; cbn; auto. rewrite Hl in C. by apply calls_tail in C.
  - intros He. destruct (X He) as (r & Hr & Hj). exists r. split; [done|].
    destruct Hj as [?|[?|[? Hj]]]; [by left|by right; left|right; right]. split; [done|]. cbn.
    intros d' [[Ev <-]|[_ H']]%lookup_insert_Some; [|by apply Hj]. rewrite <- Ev in Hj. specialize (Hj _ Hd).
    rewrite Hl, counted_cons in Hj. cbn. lia.
  - intros Hn. destruct (U Hn) as [? H]. split; [done|]. intros v' d' H1 H2.
    destruct (Hsub _ _ H1 H2) as (d0 & ? & ?). by eapply H.
  - destruct O as [[? H]|[? H]]; [left|right]; (split; [done|]).
    + intros v1 v2 d1 d2 H1 H2 A1 A2. destruct (Hsub _ _ H1 A1) as (e1 & ? & ?), (Hsub _ _ H2 A2) as (e2 & ? & ?). by eapply H.
    + intros v' d' H1 H2. destruct (Hsub _ _ H1 H2) as (d0 & ? & ?). by eapply H.
Qed.

(** ** A call *)
Lemma job_claim_fields c cmd j :
  _job_from_claim c cmd = Ok j →
  job_id j = cmd_job_id c ∧ job_version j = cmd_delivery_version c ∧ retry_mode j = cmd_retry_mode c.
Proof. unfold _job_from_claim, OutboxJob_post_init. intros H. inv_ok. by subst. Qed.

Lemma fence_row s p t rows :
  fence_held s p t rows = true →
  ∃ r, t !! p_job_id p = Some r ∧ in_progress r = true ∧ row_delivery_version r = p_delivery_version p.
Proof. unfold fence_held. destruct (t !! p_job_id p) as [r|]; [|done]. intros H. bools. by exists r. Qed.

Lemma params_fields j c w p : params_of j c w = Ok p → p_job_id p = job_id j ∧ p_delivery_version p = job_version j.
Proof. unfold params_of. intros H. inv_ok. by subst. Qed.

(** A call that changes no row, or only as [elsewhere] may. *)
Lemma inv_plain_call x v d e l clock' rows' :
  inv x → running x !! v = Some d → calls_left d = e :: l → clock x <= clock' →
  elsewhere (rows_of x) rows' →
  (retries_effect (outcome d) → no persists l → ∀ r, outbox x !! job = Some r → v = row_delivery_version r →
   a_status (action rows') ≠ ActionStatus.EXECUTING) →
  (armed (advance d l) → armed d) →
  inv (mkSystem clock' (outbox x) rows' (<[v := advance d l]> (running x)) (sent x)).
Proof.
  intros Hx Hd Hl Hc He Hq Ha. eapply inv_elsewhere in He as Hy; [|done..].
  exact (inv_advance (with_rows x clock' rows') v d e l Hy Hd Hl Hq Ha).
Qed.

Lemma inv_create x v d e l clock' :
  inv x → running x !! v = Some d → calls_left d = e :: l → clock x <= clock' → creates_link e = true →
  inv (mkSystem clock' (outbox x) (rows_of x) (<[v := advance d l]> (running x)) (sent x ++ [e])).
Proof.
  intros Hx Hd Hl Hc He.
  pose proof (inv_calls _ _ _ _ (inv_deliveries _ _ Hx _ _ Hd)) as Hcalls. rewrite Hl in Hcalls.
  assert (no authorizes l ∧ no creates_link l ∧ authorizes e = false ∧ persists e = false) as (Hna & Hnc & Hea & Hep).
  { destruct e as [|[]| |]; try discriminate He. by destruct Hcalls as [[??] _]. }
  assert (Hd_armed : armed d).
  { split; rewrite Hl, counted_cons; [by rewrite Hea|by rewrite He]. }
  assert (Hl_armed : ¬ armed (advance d l)) by (by intros [_ ?]).
  assert (inv (mkSystem clock' (outbox x) (rows_of x) (<[v := advance d l]> (running x)) (sent x))) as [T E D X U O].
  { eapply inv_plain_call; try done. intros Hr Hp r Hrow Hv. eapply (inv_requeued _ _ _ _ (inv_deliveries _ _ Hx _ _ Hd)); try done.
    by rewrite Hl, counted_cons, Hep. }
  split; cbn in *; [done|done| |done| |].
  - intros v' d' H. destruct (D _ _ H). by split.
  - intros Hn. destruct (inv_unexecuted _ _ Hx Hn) as [_ Hu]. by destruct (Hu _ _ Hd).
  - right. destruct (inv_once _ _ Hx) as [[-> Hu]|[_ Hu]]; [|by destruct (Hu _ _ Hd)].
    split; [done|]. intros v' d' [[<- <-]|[Hne H']]%lookup_insert_Some; [done|]. intros Ha'. destruct Hne. by eapply Hu.
Qed.

Lemma starts_reconciliation_elsewhere (rows rows' : EffectRows) :
  a_status (action rows) ∈ [ActionStatus.UNCERTAIN; ActionStatus.RECONCILING] →
  a_status (action rows') = ActionStatus.RECONCILING → case_ rows' = case_ rows →
  a_evidence (action rows') = a_evidence (action rows) → elsewhere rows rows'.
Proof.
  intros Hin Hst Hcase Hev. split; [rewrite Hcase; lia|congruence| |left; by rewrite Hev].
  unfold action_ended. rewrite !elem_of_cons, elem_of_nil in Hin. by destruct Hin as [->|[->|[]]].
Qed.

Lemma inv_authorize x v d a answer l clock' s rows' :
  inv x → running x !! v = Some d → calls_left d = EffectCall (AuthorizationRecorded a answer) :: l →
  clock x <= clock' → record_effect_authorization s (outbox x) a (rows_of x) = (rows', answer) →
  inv (mkSystem clock' (outbox x) rows' (<[v := advance d l]> (running x)) (sent x)).
Proof.
  intros Hx Hd Hl Hc H. pose proof (inv_deliveries _ _ Hx _ _ Hd) as [Hcalls [Hjob Hver] (r & Hr & Hv & Hm) _].
  rewrite Hl in Hcalls. destruct Hcalls as [((c & j & Hj & [Hown Hmode Hdv]) & Hna & Hcr & Hret) _].
  apply job_claim_fields in Hj as (Hid & Hjv & Hjm).
  assert (Hplain : elsewhere (rows_of x) rows' → no creates_link l →
    inv (mkSystem clock' (outbox x) rows' (<[v := advance d l]> (running x)) (sent x))).
  { intros He Hno. eapply inv_plain_call; try done; [|by intros [_ ?]]. intros Hr' Hp. by apply Hret in Hr'. }
  destruct (record_authorization_cases _ _ _ _ _ _ H) as [[-> [e ->]]|(p & snap & Hp & Hsnap & Ha)].
  { apply Hplain; [done|]. by destruct Hcr as [?|[? _]]. }
  apply authorize_Ok in Ha as (Hf & _ & _ & Hmove).
  destruct (params_fields _ _ _ _ Hp) as [Hpid Hpv].
  destruct (fence_row _ _ _ _ (found_fence _ _ _ _ _ Hf)) as (r0 & Hr0 & Hin & Hrv).
  rewrite Hpid, Hown, Hid, Hjob, Hr in Hr0. injection Hr0 as <-. rewrite Hpv, Hown, Hjv, Hver in Hrv.
  destruct Hmove as [Hrec _ Hst Hst' Hcase Hev|Hrec Hst Hcst Hcur Hexec Hcv Hnew Hold _ _|Hrec _ Hst ->].
  - apply Hplain; [by eapply starts_reconciliation_elsewhere|]. destruct Hcr as [?|[_ ?]]; [done|congruence].
  - assert (Hnone : EffectRows.snapshot (a_evidence (action (rows_of x))) = None).
    { destruct Hold as [?|Hsame]; [done|]. exfalso. destruct (inv_evidence _ _ Hx _ Hsame) as [He|(g & Hg & Hgv)].
      - unfold action_ended in He. by rewrite Hcur in He.
      - pose proof (gate_snapshot_version _ _ _ Hg Hsnap). pose proof (found_version _ _ _ _ _ Hf). lia. }
    destruct (inv_unexecuted _ _ Hx Hnone) as [Hsent Hunarmed].
    split; cbn.
    + eapply table_ok_later; [done|apply (inv_table _ _ Hx)].
    + intros old Ho. right. exists (authorized_decision a). split; [congruence|].
      pose proof (found_version _ _ _ _ _ Hf). lia.
    + intros v' d' [[<- <-]|[Hne H']]%lookup_insert_Some.
      * split; cbn; [|done|by exists r|intros Hr' Hp'; by apply Hret in Hr'].
        pose proof (inv_calls _ _ _ _ (inv_deliveries _ _ Hx _ _ Hd)) as Hcalls. rewrite Hl in Hcalls. by apply calls_tail in Hcalls.
      * destruct (inv_deliveries _ _ Hx _ _ H') as [C L R Q]. split; try done. cbn.
        intros _ _ r' Hr' Hv'. rewrite Hr in Hr'. injection Hr' as <-. congruence.
    + intros _. exists r. split; [done|]. right; right. split; [done|]. cbn.
      intros d' [[_ <-]|[Hne _]]%lookup_insert_Some; [done|congruence].
    + intros Hn. congruence.
    + left. split; [done|]. intros v1 v2 d1 d2 [[<- <-]|[_ H1]]%lookup_insert_Some [[<- <-]|[_ H2]]%lookup_insert_Some A1 A2; try done.
      * by destruct (Hunarmed _ _ H2).
      * by destruct (Hunarmed _ _ H1).
      * by destruct (Hunarmed _ _ H1).
  - exfalso. destruct (inv_executing _ _ Hx Hst) as (r' & Hr' & Hexec). rewrite Hr in Hr'. injection Hr' as <-.
    destruct Hexec as [Hrm|[Hterm|[_ Hnoauth]]].
    + rewrite Hm in Hrm by done. rewrite Hjm, Hrm in Hmode. rewrite bool_decide_eq_true_2 in Hmode by done. congruence.
    + unfold terminal_row, in_progress in *. apply bool_decide_true_1 in Hin. by rewrite Hin in Hterm.
    + rewrite Hrv in Hnoauth. specialize (Hnoauth _ Hd). by rewrite Hl in Hnoauth.
Qed.

(** ** The steps *)
Lemma inv_claims_job x s token worker n du t' b clock' c self l out :
  inv x → session_ok (clock x) s clock' → claim_batch s token worker n du (outbox x) = (t', Ok b) →
  c ∈ commands b → cmd_job_id c = job → handle nfkd nesting_limit self c [] = (l, out) →
  inv (mkSystem clock' t' (rows_of x) (<[cmd_delivery_version c := mkDelivery c l out]> (running x)) (sent x)).
Proof.
  intros Hx Hs Hclaim Hin Hjob Hhandle. pose proof (inv_table _ _ Hx) as Ht.
  pose proof (perform_effect _ _ s _ Hs Ht (ClaimBatch token worker n du)) as He. cbn [perform fst] in He.
  rewrite Hclaim in He. cbn [fst] in He.
  assert (table_ok clock' t') as Ht' by (eapply effect_table_ok; [exact Hs|exact Ht| |exact He]; done).
  pose proof (claim_delivers _ _ _ _ Hs Ht _ _ _ _ _ _ _ Hclaim Hin) as (r & r' & Hr & Hr' & _ & _ & Hmax & _ & _ & Hv & Hmode & _ & _ & (Hp & _ & Hv' & _) & _).
  rewrite Hjob in *.
  assert (row_claimed r r') as Hcl.
  { destruct (effect_job _ _ _ _ Hs Ht _ _ _ _ He Hr) as (r2 & Hr2 & [->|Hcl]); [done|rewrite Hr2 in Hr'; injection Hr' as ->; lia|].
    rewrite Hr2 in Hr'. by injection Hr' as ->. }
  assert (inv (with_table x clock' t')) as Hy.
  { apply inv_table_step; [done..|]. intros r0 Hr0. rewrite Hr in Hr0. injection Hr0 as <-. exists r'. auto. }
  destruct (emits_run _ _ _ _ _ Hhandle (handle_delivery nfkd nesting_limit self c [])) as (l' & El & [Hcalls Hcreate Hretry]).
  cbn in El. subst l'.
  eapply (inv_start (with_table x clock' t') (cmd_delivery_version c) (mkDelivery c l out) Hy).
  - split; cbn; [done|done| |intros H H'; by apply Hretry in H].
    exists r'. split; [done|]. split; [lia|]. intros _ _. rewrite (claimed_mode _ _ Hcl), Hmode.
    by replace (row_max_attempts r <=? row_attempt_count r) with false by lia.
  - intros [H H']. by apply Hcreate in H.
  - cbn. intros Hexec r0 Hr0. rewrite Hr' in Hr0. injection Hr0 as <-.
    destruct (inv_executing _ _ Hx Hexec) as (r1 & Hr1 & Hj). rewrite Hr in Hr1. injection Hr1 as <-.
    by eapply executing_reclaimed.
Qed.

Lemma inv_makes_call x v d e l rows' clock' :
  inv x → running x !! v = Some d → calls_left d = e :: l → clock x <= clock' →
  call_effect (clock x) clock' (outbox x) e (rows_of x) rows' →
  inv (mkSystem clock' (outbox x) rows' (<[v := mkDelivery (claimed d) l (outcome d)]> (running x))
         (if creates_link e then sent x ++ [e] else sent x)).
Proof.
  intros Hx Hd Hl Hc He. pose proof (inv_deliveries _ _ Hx _ _ Hd) as [Hcalls _ _ Hq]. rewrite Hl in Hcalls, Hq.
  assert (Hquiet : rows' = rows_of x → authorizes e = false → creates_link e = false → persists e = false →
    inv (mkSystem clock' (outbox x) rows' (<[v := advance d l]> (running x)) (sent x))).
  { intros -> Ha Hcr Hp. eapply inv_plain_call; try done.
    - intros Hr Hpl. apply Hq; [done|]. by rewrite counted_cons, Hp.
    - unfold armed. cbn. by rewrite Hl, !counted_cons, Ha, Hcr. }
  destruct e as [m a y|e|j c res y|y]; cbn [creates_link]; [by apply Hquiet| | |by apply Hquiet].
  - destruct e as [y|? ? y|? ? ? y|a y|r ac y|? ? y]; try by apply Hquiet.
    + destruct He as (s & _ & He). by eapply inv_authorize.
    + cbn in He. subst rows'. by eapply inv_create.
  - destruct He as (s & _ & He). eapply inv_plain_call; try done.
    + by eapply persist_result_elsewhere.
    + intros Hr Hpl r Hrow Hv. destruct Hcalls as [(_ & _ & _ & _ & Hstored) _]. destruct (Hstored Hr) as [-> Hdisp].
      apply persist_result_Ok in He as (p & _ & [_ (k & Hshape & _) _ _]). rewrite Hdisp in Hshape.
      unfold CreateStore.persisted, shape_of in Hshape.
      destruct (a_status (action (rows_of x))), (i_status (instrument (rows_of x))), (c_state (case_ (rows_of x)));
        simplify_eq; congruence.
    + unfold armed. cbn. by rewrite Hl, !counted_cons.
Qed.

Lemma inv_settles x v d h backoff op a t' clock' :
  inv x → running x !! v = Some d → calls_left d = [] →
  instruction_for (HandlerAnswer <$> outcome d) = Ok h → settlement_of backoff (claimed d) h = Some op →
  step (clock x, outbox x) (op, a) (clock', t') →
  inv (mkSystem clock' t' (rows_of x) (delete v (running x)) (sent x)).
Proof.
  intros Hx Hd Hl Hh Hop Hstep. pose proof (inv_deliveries _ _ Hx _ _ Hd) as [_ [Hjob Hver] _ Hq].
  apply step_effect in Hstep as (s & Hs & Hperform & _ & Ht'); [|apply (inv_table _ _ Hx)].
  pose proof (settled_row_of _ _ _ _ Hs (inv_table _ _ Hx) backoff (claimed d) h op Hop) as Hset.
  rewrite Hperform in Hset. cbn [fst] in Hset. eapply (inv_drop _ v) in Hx as Hy.
  destruct Hset as [->|(r & r' & Hr & Hp & Hv & -> & Hv' & Hend)].
  { refine (inv_table_step (with_running x (delete v (running x))) clock' (outbox x) Hy Ht' _).
    intros r Hr. exists r. auto. }
  rewrite Hjob, Hver in *. destruct Hy as [T E D X U O]. cbn in *.
  split; cbn; try done.
  - intros v' d' H. destruct (D _ _ H) as [C L (r0 & Hr0 & Hle & _) Q]. cbn in *. rewrite Hr in Hr0. injection Hr0 as <-.
    split; cbn; [done|done| |].
    + exists r'. rewrite lookup_insert_eq. split; [done|]. split; [lia|]. intros. lia.
    + intros _ _ r0. rewrite lookup_insert_eq. intros [= <-] ?. lia.
  - intros Hexec. exists r'. rewrite lookup_insert_eq. split; [done|].
    destruct Hend as [?|Hmode]; [by right; left|left].
    destruct (decide (row_retry_mode r' = RECONCILE_ONLY)) as [|Hne]; [done|]. exfalso.
    destruct (outcome d) as [h0|e] eqn:Hout.
    + cbn in Hh. injection Hh as ->. eapply (Hq ltac:(by exists h, (row_retry_mode r'))); [by rewrite Hl|done|done|done].
    + cbn in Hh. apply retry_result in Hh. congruence.
Qed.

Lemma inv_step x y : inv x → system_step nfkd nesting_limit job x y → inv y.
Proof.
  intros Hx [s token worker n du t' b clock' c self l out Hs Hclaim Hin Hjob Hh|op a t' clock' Hstep Hno
    |v d e l rows' clock' Hd Hl Hc He|v d h backoff op a t' clock' Hd Hl Hh Hop Hstep|v|rows' He].
  - by eapply inv_claims_job.
  - apply step_effect in Hstep as (s & Hs & _ & He & Ht'); [|apply (inv_table _ _ Hx)].
    apply (inv_table_step x clock' t'); [done..|]. intros r Hr. by eapply (effect_job _ _ _ _ Hs (inv_table _ _ Hx)).
  - by eapply inv_makes_call.
  - by eapply inv_settles.
  - by apply inv_drop.
  - by eapply inv_elsewhere.
Qed.

Lemma inv_steps x y : rtc (system_step nfkd nesting_limit job) x y → inv x → inv y.
Proof. induction 1 as [|x y z H _ IH]; [done|]. intros Hx. eapply IH, inv_step; done. Qed.
End preserved.

Lemma inv_initial job clock0 t0 rows0 :
  table_ok clock0 t0 → EffectRows.snapshot (a_evidence (action rows0)) = None → action_constraints (action rows0) = true →
  system_inv job (mkSystem clock0 t0 rows0 ∅ []).
Proof.
  intros Ht Hn Hc. split; cbn; [done| |by intros ? ?| | |].
  - intros old Ho. congruence.
  - intros Hx. exfalso. assert (action_execution_evidence_ck (action rows0) = true) as E by (unfold action_constraints in Hc; by bools).
    unfold action_execution_evidence_ck in E. rewrite Hx, Hn in E. apply orb_true_iff in E as [E|E]; bools; [set_solver|done].
  - intros _. split; [done|]. by intros ? ?.
  - left. split; [done|]. by intros ? ? ? ?.
Qed.

(** * Properties *)

(** C2: one create per action.  From any reachable table and an action without
    gate evidence, however workers claim the job, call, crash, lose their leases
    and settle, whatever the provider, the loads and the clocks answer, and
    whatever the other components do short of starting the execution: at most
    one create is ever sent for the action, and none before its gate evidence is
    on record. *)
Theorem one_create_per_action nfkd nesting_limit job clock0 t0 rows0 x :
  reachable (clock0, t0) →
  EffectRows.snapshot (a_evidence (action rows0)) = None → action_constraints (action rows0) = true →
  rtc (system_step nfkd nesting_limit job) (mkSystem clock0 t0 rows0 ∅ []) x →
  (length (sent x) <= 1)%nat
  ∧ (sent x ≠ [] → EffectRows.snapshot (a_evidence (action (rows_of x))) ≠ None).
Proof.
  intros Ht%reachable_ok Hn Hc Hsteps. eapply inv_steps in Hsteps; [|by apply inv_initial]. split.
  - destruct (inv_once _ _ Hsteps) as [[-> _]|[-> _]]; cbn; lia.
  - intros Hsent Hnone. by destruct (inv_unexecuted _ _ Hsteps Hnone).
Qed.

(** * Witness: one delivery, up to its settlement *)

(** Perform the next call of delivery [v] with the session [s], when the
    repository gives the answer the call carries. *)
Definition simulate_call (s : EffectSession) (v : Z) (x : system) : option system :=
  d ← running x !! v;
  match calls_left d with
  | [] => None
  | e :: l =>
      let go rows := Some (mkSystem (clock x) (outbox x) rows (<[v := mkDelivery (claimed d) l (outcome d)]> (running x))
                             (if creates_link e then sent x ++ [e] else sent x)) in
      match e with
      | EffectCall (AuthorizationRecorded a (Ok _)) =>
          match record_effect_authorization s (outbox x) a (rows_of x) with (rows, Ok _) => go rows | _ => None end
      | ResultPersisted j c res (Ok _) =>
          match persist_result s (outbox x) j c res (rows_of x) with (rows, Ok _) => go rows | _ => None end
      | EffectCall (AuthorizationRecorded _ _) | ResultPersisted _ _ _ _ => None
      | _ => go (rows_of x)
      end
  end.

Fixpoint simulate (n : nat) (s : EffectSession) (v : Z) (x : system) : option system :=
  match n with O => Some x | S n => simulate_call s v x ≫= simulate n s v end.

Lemma simulate_call_step nfkd limit job s v x y :
  simulate_call s v x = Some y → fence_now s = clock x → system_step nfkd limit job x y.
Proof.
  unfold simulate_call. intros H Hs. apply bind_Some in H as (d & Hd & H). destruct (calls_left d) as [|e l] eqn:Hl; [done|].
  assert (Hgo : ∀ rows, call_effect (clock x) (clock x) (outbox x) e (rows_of x) rows →
    Some (mkSystem (clock x) (outbox x) rows (<[v := mkDelivery (claimed d) l (outcome d)]> (running x))
            (if creates_link e then sent x ++ [e] else sent x)) = Some y → system_step nfkd limit job x y).
  { intros rows He [= <-]. by eapply makes_call; [..|exact He]. }
  destruct e as [|[| | |a [[]|]| |]|j c res [[]|]|]; try discriminate H; try by (eapply Hgo; [|exact H]).
  - destruct (record_effect_authorization _ _ _ _) as [rows [[]|]] eqn:E; [|done].
    eapply Hgo; [|exact H]. exists s. split; [lia|done].
  - destruct (persist_result _ _ _ _ _ _) as [rows [[]|]] eqn:E; [|done].
    eapply Hgo; [|exact H]. exists s. split; [lia|done].
Qed.

Lemma simulate_call_clock s v x y : simulate_call s v x = Some y → clock y = clock x.
Proof.
  unfold simulate_call. intros H. apply bind_Some in H as (d & _ & H). repeat case_match; by simplify_eq.
Qed.

Lemma simulate_steps nfkd limit job n s v x y :
  simulate n s v x = Some y → fence_now s = clock x → rtc (system_step nfkd limit job) x y.
Proof.
  revert x. induction n as [|n IH]; intros x H Hs; cbn in H; [by simplify_eq|].
  apply bind_Some in H as (z & Hz & H). eapply rtc_l; [by eapply simulate_call_step|].
  apply IH; [done|]. by rewrite (simulate_call_clock _ _ _ _ Hz).
Qed.

Definition run_now : Z := instant sample_now.
Definition run_job : pystr := $"01ARZ3NDEKTSV4RRFFQ69G5FAW".
Definition run_row : OutboxRow :=
  new_row run_job job_merchant ($"ACTION") ($"action_1") CREATE_STANDARD_PAYMENT_LINK_COMMAND_TYPE 1
    (JDict job_envelope) job_key 3 run_now run_now run_now.
Definition run_table : gmap pystr OutboxRow := fst (perform (sample_session run_now) (Insert run_row) ∅).
Definition run_claim : gmap pystr OutboxRow * result OutboxClaimBatch :=
  claim_batch (sample_session run_now) (Ok ($"nonce")) ($"w1") 10 (seconds 30) run_table.
Definition run_batch : OutboxClaimBatch := or_default (mkOutboxClaimBatch 0 [] 0) (snd run_claim).
Definition run_command : ClaimedOutboxCommand := default job_claim (head (commands run_batch)).
Definition run_rows : EffectRows :=
  mkEffectRows
    (mkActionRow
       (mkActionIntent ($"action_1") job_merchant ($"case_1") (or_default [] (action_key job_proposal))
          CREATE_STANDARD_PAYMENT_LINK RAZORPAY_TEST_MODE 3 (Some (reference_id sample_create_request)) 0)
       ActionStatus.QUEUED 0 (None, None) no_evidence None None RECON_PENDING None (None, None) None None (None, None) 0)
    (mkCaseRow ($"case_1") job_merchant ($"acc_1") ACTION_QUEUED 4 1 None (Some ($"action_1")) (None, None) 0 0)
    (mkInstrumentRow ($"instrument_1") (reference_id sample_create_request) InstrumentStatus.CREATING None None
       RECON_PENDING None 10000 0 0 0)
    (mkSurroundings UNPAID MERCHANT_ACTIVE false true true GateVerdict.ALLOWED None []).
Definition run_delivery : list handler_event * result HandlerResult := handle id 100 job_handler run_command [].
Definition run_start : system := mkSystem run_now run_table run_rows ∅ [].
Definition run_claimed : system :=
  mkSystem run_now (fst run_claim) run_rows
    (<[cmd_delivery_version run_command := mkDelivery run_command (fst run_delivery) (snd run_delivery)]> ∅) [].
Definition run_session : EffectSession := mkEffectSession run_now run_now run_now (Ok tt) NoFault.

(** All nine calls of the delivery go through. *)
Definition run_end : option system := simulate 9 run_session (cmd_delivery_version run_command) run_claimed.

Definition claim_ok (x : result OutboxClaimBatch) : bool :=
  match x with Ok b => match commands b with c :: _ => bool_decide (cmd_job_id c = run_job) | [] => false end | _ => false end.
Definition end_ok (x : option system) : bool :=
  match x with
  | Some x => bool_decide (length (sent x) = 1%nat) && bool_decide (c_state (case_ (rows_of x)) = ACTIVE)
              && bool_decide (i_link (instrument (rows_of x)) = Some ($"plink_1"))
  | None => false
  end.

Lemma run_claim_ok : claim_ok (snd run_claim) = true.
Proof. vm_compute. reflexivity. Qed.
Lemma run_end_ok : end_ok run_end = true.
Proof. vm_compute. reflexivity. Qed.
Lemma run_rows_ok : action_constraints (action run_rows) = true.
Proof. vm_compute. reflexivity. Qed.

Lemma claim_ok_facts (x : gmap pystr OutboxRow * result OutboxClaimBatch) :
  claim_ok (snd x) = true →
  let b := or_default (mkOutboxClaimBatch 0 [] 0) (snd x) in
  let c := default job_claim (head (commands b)) in
  x = (fst x, Ok b) ∧ c ∈ commands b ∧ cmd_job_id c = run_job.
Proof.
  destruct x as [t [b|e]]; cbn [claim_ok snd fst or_default]; [|discriminate].
  destruct (commands b) as [|c l]; [discriminate|]. intros H. cbn.
  split; [reflexivity|]. split; [by left|exact (bool_decide_true_1 _ H)].
Qed.

Lemma end_ok_facts x :
  end_ok x = true → ∃ y, x = Some y ∧ length (sent y) = 1%nat ∧ c_state (case_ (rows_of y)) = ACTIVE.
Proof.
  destruct x as [y|]; cbn [end_ok]; [|discriminate]. intros H. apply andb_prop in H as [H _].
  apply andb_prop in H as [H1 H2]. exists y. split; [reflexivity|].
  split; [exact (bool_decide_true_1 _ H1)|exact (bool_decide_true_1 _ H2)].
Qed.

Lemma run_table_reachable : reachable (run_now, run_table).
Proof.
  exists run_now. eexists. apply (run_perform (run_now, ∅) [] run_now ∅ run_now (sample_session run_now) (Insert run_row));
    [constructor|by apply sample_session_ok|by left].
Qed.

Lemma run_reaches x : run_end = Some x → rtc (system_step id 100 run_job) run_start x.
Proof.
  intros Hx. destruct (claim_ok_facts _ run_claim_ok) as (Hclaim & Hin & Hjob).
  unfold run_end in Hx. eapply rtc_l; [|exact (simulate_steps id 100 run_job _ _ _ _ x Hx eq_refl)].
  exact (claims_job id 100 run_job run_start (sample_session run_now) (Ok ($"nonce")) ($"w1") 10 (seconds 30)
           (fst run_claim) run_batch run_now run_command job_handler (fst run_delivery) (snd run_delivery)
           (sample_session_ok _ _ (Z.le_refl _)) Hclaim Hin Hjob (surjective_pairing _)).
Qed.

Lemma one_create_per_action_witness :
  ∃ x, rtc (system_step id 100 run_job) run_start x ∧ length (sent x) = 1%nat ∧ (length (sent x) <= 1)%nat.
Proof.
  destruct (end_ok_facts _ run_end_ok) as (x & Hx & Hsent & _). pose proof (run_reaches x Hx) as Hrun.
  exists x. split; [exact Hrun|]. split; [exact Hsent|].
  exact (proj1 (one_create_per_action id 100 run_job run_now run_table run_rows x run_table_reachable eq_refl run_rows_ok Hrun)).
Defined.
