(* ===== verification/ApprovalCommand.v ===== *)
(** [services/control_plane/approval_command.py]: the command with which an
    operator's approval travels to the worker that acts on it, and its decoder. *)
From S2P Require Import Prelude PyStr Sha256 Json Canonical Digest Values PgOutbox CommandCodec.

Definition MATERIALIZE_APPROVED_ACTION_COMMAND_TYPE : pystr := $"MATERIALIZE_APPROVED_ACTION".
Definition MATERIALIZE_APPROVED_ACTION_SCHEMA_VERSION : Z := 1.
Definition MATERIALIZE_SCHEMA : pystr := $"retrywise-materialize-approved-action".

(** [_SUBJECT_RE], [_REASON_RE] under [fullmatch]; [_ULID_RE] is the domain
    [is_ulid], [_DIGEST_RE] is [is_digest]. *)
Definition OPERATOR_PREFIX : pystr := $"operator:".
Definition _SUBJECT_RE (s : pystr) : bool :=
  starts_with OPERATOR_PREFIX s && is_digest (drop (length OPERATOR_PREFIX) s).
Definition _REASON_RE (s : pystr) : bool :=
  match s with
  | c :: rest =>
      is_lower c && (str_len rest <=? 99) && forallb (λ c, is_lower c || is_digit c || one_of ($"_") c) rest
  | [] => false
  end.

Definition codec_refusal (message : string) : py_error := ApprovalCommandCodecError message.

Record MaterializeApprovedActionCommand := mkMaterializeCommand {
  mat_merchant_id : pystr;
  mat_approval_id : pystr;
  mat_operator_subject : pystr;
  mat_reason_code : pystr;
  mat_request_digest : pystr
}.

#[export] Instance MaterializeApprovedActionCommand_eq_dec : EqDecision MaterializeApprovedActionCommand.
Proof. solve_decision. Defined.

Definition _ulid (value : json) (field : string) : result pystr :=
  match value with
  | JStr s => if is_ulid s then Ok s else Raise (codec_refusal (field +:+ " is invalid"))
  | _ => Raise (codec_refusal (field +:+ " is invalid"))
  end.

Definition MaterializeApprovedActionCommand_post_init (c : MaterializeApprovedActionCommand) :
    result MaterializeApprovedActionCommand :=
  _ ← _ulid (JStr (mat_merchant_id c)) "merchant_id";
  _ ← _ulid (JStr (mat_approval_id c)) "approval_id";
  _ ← raise_if (negb (_SUBJECT_RE (mat_operator_subject c))) (codec_refusal "operator_subject is invalid");
  _ ← raise_if (negb (_REASON_RE (mat_reason_code c))) (codec_refusal "reason_code is invalid");
  _ ← raise_if (negb (is_digest (mat_request_digest c)))
        (codec_refusal "request idempotency digest is invalid");
  Ok c.

(** The payload with a given [schema_version]. *)
Definition versioned_primitive (version : json) (c : MaterializeApprovedActionCommand) : list (pystr * json) :=
  [($"approval_id", JStr (mat_approval_id c));
   ($"merchant_id", JStr (mat_merchant_id c));
   ($"operator_subject", JStr (mat_operator_subject c));
   ($"reason_code", JStr (mat_reason_code c));
   ($"request_idempotency_sha256", JStr (mat_request_digest c));
   ($"schema", JStr MATERIALIZE_SCHEMA);
   ($"schema_version", version)].

Definition to_primitive (c : MaterializeApprovedActionCommand) : list (pystr * json) :=
  versioned_primitive (JInt MATERIALIZE_APPROVED_ACTION_SCHEMA_VERSION) c.

Definition payload_digest (c : MaterializeApprovedActionCommand) : result pystr :=
  sha256_hexdigest (pyobj_of_json (JDict (to_primitive c))).

(** [value == 1] for what [json.loads] returns.  The double nearest to a decimal
    is 1.0 exactly between 1 - 2^-54 and 1 + 2^-53, ties going to even. *)
Definition one_below : decimal := DFinite false (10 ^ 54 - 5 ^ 54) (-54).
Definition one_above : decimal := DFinite false (10 ^ 53 + 5 ^ 53) (-53).
Definition equals_one (value : json) : bool :=
  match value with
  | JBool b => b
  | JInt z => z =? 1
  | JFloat text =>
      match decimal_of_str text with Some d => dec_leb one_below d && dec_leb d one_above | None => false end
  | _ => false
  end.

Definition MATERIALIZE_FIELDS : list pystr :=
  [$"approval_id"; $"merchant_id"; $"operator_subject"; $"reason_code"; $"request_idempotency_sha256";
   $"schema"; $"schema_version"].

(** [set(value) == expected]. *)
Definition same_keys (keys expected : list pystr) : bool :=
  forallb (λ k, bool_decide (k ∈ expected)) keys && forallb (λ k, bool_decide (k ∈ keys)) expected.

(** [x if isinstance(x, str) else ""]. *)
Definition text_or_empty (value : json) : pystr := match value with JStr s => s | _ => [] end.

Definition decode_materialize_approved_action_command (value : json) (command_type : pystr)
    (command_schema_version : Z) : result MaterializeApprovedActionCommand :=
  _ ← raise_if (bool_decide (command_type ≠ MATERIALIZE_APPROVED_ACTION_COMMAND_TYPE))
        (codec_refusal "command type is invalid");
  _ ← raise_if (negb (command_schema_version =? MATERIALIZE_APPROVED_ACTION_SCHEMA_VERSION))
        (codec_refusal "command schema version is invalid");
  match value with
  | JDict d =>
      _ ← raise_if (negb (same_keys d.*1 MATERIALIZE_FIELDS))
            (codec_refusal "command payload fields are invalid");
      schema ← item_of d "schema";
      version ← item_of d "schema_version";
      _ ← raise_if (bool_decide (schema ≠ JStr MATERIALIZE_SCHEMA) || negb (equals_one version))
            (codec_refusal "command payload schema is invalid");
      merchant ← item_of d "merchant_id"; merchant ← _ulid merchant "merchant_id";
      approval ← item_of d "approval_id"; approval ← _ulid approval "approval_id";
      subject ← item_of d "operator_subject";
      reason ← item_of d "reason_code";
      digest ← item_of d "request_idempotency_sha256";
      MaterializeApprovedActionCommand_post_init
        (mkMaterializeCommand merchant approval (text_or_empty subject) (text_or_empty reason)
           (text_or_empty digest))
  | _ => Raise (codec_refusal "command payload must be an object")
  end.

(** * A command is what its payload says *)

Definition valid_command (c : MaterializeApprovedActionCommand) : bool :=
  is_ulid (mat_merchant_id c) && is_ulid (mat_approval_id c) && _SUBJECT_RE (mat_operator_subject c)
  && _REASON_RE (mat_reason_code c) && is_digest (mat_request_digest c).

Lemma ulid_Ok v field s : _ulid v field = Ok s ↔ v = JStr s ∧ is_ulid s = true.
Proof.
  destruct v as [| | | |x| |]; cbn; try (split; [discriminate|by intros [? _]]).
  destruct (is_ulid x) eqn:E; split; try discriminate; [by intros [= ->]| |]; intros [[= ->] ?]; congruence.
Qed.

Lemma materialize_post_init_Ok c c' :
  MaterializeApprovedActionCommand_post_init c = Ok c' ↔ c' = c ∧ valid_command c = true.
Proof.
  unfold MaterializeApprovedActionCommand_post_init, valid_command. split.
  - intros H. inv_ok. repeat match goal with E : _ulid _ _ = Ok _ |- _ => apply ulid_Ok in E as [_ ->] end.
    repeat match goal with E : _ulid _ _ = Ok _ |- _ => apply ulid_Ok in E as [[= <-] ?] end.
    bools. subst. split; [done|]. by rewrite !andb_true_iff.
  - rewrite !andb_true_iff. intros [-> [[[[H1 H2] H3] H4] H5]]. cbn [_ulid].
    rewrite H1, bind_Ok_l, H2, bind_Ok_l, H3, H4, H5. done.
Qed.

Lemma same_keys_true keys expected : same_keys keys expected = true ↔ ∀ k, k ∈ keys ↔ k ∈ expected.
Proof.
  unfold same_keys. rewrite andb_true_iff, !forallb_Forall, !Forall_forall. split.
  - intros [H1 H2] k. split; intros Hk; [apply H1 in Hk|apply H2 in Hk]; by apply bool_decide_true_1 in Hk.
  - intros H. split; intros k Hk; apply bool_decide_eq_true_2; by apply H.
Qed.

Lemma item_of_elem d (key : string) v : NoDup d.*1 → item_of d key = Ok v ↔ ($key, v) ∈ d.
Proof.
  intros Hd. unfold item_of. rewrite <- dict_get_iff by done. destruct (dict_get ($key) d); naive_solver.
Qed.

(** A dictionary with the keys of another and all of its items is that one. *)
Lemma dict_Permutation {A} (d e : list (pystr * A)) :
  NoDup d.*1 → NoDup e.*1 → (∀ k, k ∈ d.*1 ↔ k ∈ e.*1) → (∀ kv, kv ∈ e → kv ∈ d) → d ≡ₚ e.
Proof.
  intros Hd He Hk Hin. symmetry. apply submseteq_length_Permutation.
  - apply NoDup_submseteq; [by eapply NoDup_fmap_1|done].
  - rewrite <- (length_fmap fst d), <- (length_fmap fst e). by rewrite (NoDup_Permutation _ _ Hd He Hk).
Qed.

Lemma versioned_keys n c : (versioned_primitive n c).*1 = MATERIALIZE_FIELDS.
Proof. reflexivity. Qed.

Lemma materialize_fields_NoDup : NoDup MATERIALIZE_FIELDS.
Proof. apply (bool_decide_unpack _). vm_compute. exact I. Qed.

Lemma text_or_empty_str (p : pystr → bool) v : p (text_or_empty v) = true → p [] = false → v = JStr (text_or_empty v).
Proof. destruct v; cbn; congruence. Qed.

Lemma decode_materialize_Ok d type version c :
  NoDup d.*1 →
  decode_materialize_approved_action_command (JDict d) type version = Ok c ↔
  type = MATERIALIZE_APPROVED_ACTION_COMMAND_TYPE ∧ version = MATERIALIZE_APPROVED_ACTION_SCHEMA_VERSION
  ∧ valid_command c = true ∧ ∃ n, equals_one n = true ∧ d ≡ₚ versioned_primitive n c.
Proof.
  intros Hd. unfold decode_materialize_approved_action_command. split.
  - intros H. inv_ok. bools. rewrite same_keys_true in *.
    repeat match goal with E : item_of d _ = Ok _ |- _ => apply (item_of_elem d _ _ Hd) in E end.
    repeat match goal with E : _ulid _ _ = Ok _ |- _ => apply ulid_Ok in E as [-> ?] end.
    match goal with E : MaterializeApprovedActionCommand_post_init _ = _ |- _ =>
      apply materialize_post_init_Ok in E as [-> Hv] end.
    pose proof Hv as Hvalid.
    unfold valid_command in Hv. rewrite !andb_true_iff in Hv. cbn [mat_merchant_id mat_approval_id
      mat_operator_subject mat_reason_code mat_request_digest] in Hv. destruct Hv as [[[_ Hs] Hrc] Hg].
    apply text_or_empty_str in Hs; [|reflexivity]. apply text_or_empty_str in Hrc; [|reflexivity].
    apply text_or_empty_str in Hg; [|reflexivity].
    match goal with
      E1 : ($"operator_subject", _) ∈ d, E2 : ($"reason_code", _) ∈ d, E3 : ($"request_idempotency_sha256", _) ∈ d |- _ =>
      rewrite Hs in E1; rewrite Hrc in E2; rewrite Hg in E3 end.
    repeat match goal with E : ¬ (_ ≠ _) |- _ => apply dec_stable in E end. subst.
    split; [done|]. split; [done|]. split; [done|].
    match goal with E : equals_one ?n = true |- _ => exists n; split; [done|] end.
    apply dict_Permutation; [done|rewrite versioned_keys; apply materialize_fields_NoDup|by rewrite versioned_keys|].
    intros kv. unfold versioned_primitive. rewrite !elem_of_cons, elem_of_nil. cbn. naive_solver.
  - intros (-> & -> & Hv & n & Hn & Hp).
    assert (∀ key v, ($key, v) ∈ versioned_primitive n c → item_of d key = Ok v) as Hi.
    { intros key v Hin. apply item_of_elem; [done|]. by rewrite Hp. }
    rewrite bool_decide_false by tauto. cbn [raise_if Z.eqb negb].
    rewrite (proj2 (same_keys_true d.*1 MATERIALIZE_FIELDS)) by (intros k; by rewrite Hp).
    pose proof Hv as Hv'. unfold valid_command in Hv'. rewrite !andb_true_iff in Hv'.
    destruct Hv' as [[[[Hm Ha] _] _] _].
    erewrite (Hi "schema"), (Hi "schema_version"), (Hi "merchant_id"), (Hi "approval_id"),
      (Hi "operator_subject"), (Hi "reason_code"), (Hi "request_idempotency_sha256")
      by (unfold versioned_primitive; rewrite !elem_of_cons; tauto).
    rewrite !bind_Ok_l, bool_decide_false, Hn by tauto. cbn [orb negb raise_if].
    rewrite !bind_Ok_l, (proj2 (ulid_Ok _ _ _) (conj eq_refl Hm)), !bind_Ok_l,
      (proj2 (ulid_Ok _ _ _) (conj eq_refl Ha)), !bind_Ok_l.
    apply materialize_post_init_Ok. by destruct c.
Qed.

(** What the decoder refuses, it refuses with its own error. *)
Definition refuses {A} (m : result A) : Prop := ∀ e, m = Raise e → ∃ message, e = codec_refusal message.

Lemma refuses_bind {A B} (m : result A) (f : A → result B) :
  refuses m → (∀ a, m = Ok a → refuses (f a)) → refuses (m ≫= f).
Proof. intros Hm Hf e. destruct m as [a|e']; [apply (Hf a eq_refl)|]. intros [= ->]. by apply Hm. Qed.

Lemma refuses_raise_if b message : refuses (raise_if b (codec_refusal message)).
Proof. intros e. destruct b; cbn; [|done]. intros [= <-]. eauto. Qed.

Lemma refuses_ulid v field : refuses (_ulid v field).
Proof. intros e. destruct v; cbn; try case_match; intros [= <-]; unfold codec_refusal; eauto. Qed.

Lemma refuses_item d (key : string) : $key ∈ d.*1 → refuses (item_of d key).
Proof.
  intros Hin e. unfold item_of. destruct (dict_get ($key) d) eqn:E; [done|]. exfalso. revert Hin E.
  clear. induction d as [|[k v] d IH]; cbn; [by intros ?%elem_of_nil|]. case_decide; [done|].
  intros [Ek|Hin]%elem_of_cons; [congruence|]. by apply IH.
Qed.

Lemma decode_materialize_refuses v type version :
  refuses (decode_materialize_approved_action_command v type version).
Proof.
  unfold decode_materialize_approved_action_command.
  do 2 (apply refuses_bind; [apply refuses_raise_if|intros ? _]).
  destruct v as [| | | | | |d]; try (intros e [= <-]; by eexists).
  apply refuses_bind; [apply refuses_raise_if|]. intros ? Hk. apply raise_if_Ok, negb_false_iff in Hk. rewrite same_keys_true in Hk.
  assert (∀ key : string, $key ∈ MATERIALIZE_FIELDS → refuses (item_of d key)) as Hi.
  { intros key Hin. apply refuses_item. by apply Hk. }
  repeat (apply refuses_bind; [(apply Hi, (bool_decide_unpack _); vm_compute; exact I) || apply refuses_ulid || apply refuses_raise_if|intros ? _]).
  by intros e.
Qed.

(** a payload is read as a command exactly when it is the command's own
    payload, field for field, under a schema version that equals one: nothing is
    added, dropped or defaulted on the way from the operator's request to the
    worker.  Anything else is refused with the codec's own error. *)
Theorem materialize_command_round_trip d type version :
  NoDup d.*1 →
  refuses (decode_materialize_approved_action_command (JDict d) type version)
  ∧ ∀ c, decode_materialize_approved_action_command (JDict d) type version = Ok c ↔
         type = MATERIALIZE_APPROVED_ACTION_COMMAND_TYPE ∧ version = MATERIALIZE_APPROVED_ACTION_SCHEMA_VERSION
         ∧ valid_command c = true ∧ ∃ n, equals_one n = true ∧ d ≡ₚ versioned_primitive n c.
Proof. intros Hd. split; [apply decode_materialize_refuses|]. intros c. by apply decode_materialize_Ok. Qed.

(** A sample command, with its fields in another order and a boolean for the
    version. *)
Definition sample_materialize : MaterializeApprovedActionCommand :=
  mkMaterializeCommand ($"01ARZ3NDEKTSV4RRFFQ69G5FAV") ($"01ARZ3NDEKTSV4RRFFQ69G5FB5")
    (OPERATOR_PREFIX ++ repeat 97 64) ($"customer_confirmed") (repeat 48 64).

Lemma materialize_command_round_trip_witness :
  NoDup (to_primitive sample_materialize).*1
  ∧ decode_materialize_approved_action_command (JDict (to_primitive sample_materialize))
      MATERIALIZE_APPROVED_ACTION_COMMAND_TYPE 1 = Ok sample_materialize.
Proof.
  assert (H : NoDup (to_primitive sample_materialize).*1) by (apply (bool_decide_unpack _); vm_compute; exact I).
  split; [exact H|].
  apply (proj2 (materialize_command_round_trip (to_primitive sample_materialize) MATERIALIZE_APPROVED_ACTION_COMMAND_TYPE 1 H)).
  split; [reflexivity|]. split; [reflexivity|].
  split; [vm_compute; reflexivity|]. exists (JInt 1). split; [reflexivity|]. reflexivity.
Defined.

(** The version is compared by value: [true] and [1.0] pass for 1. *)
Lemma loose_schema_version :
  decode_materialize_approved_action_command
    (JDict (versioned_primitive (JBool true) sample_materialize)) MATERIALIZE_APPROVED_ACTION_COMMAND_TYPE 1
    = Ok sample_materialize
  ∧ decode_materialize_approved_action_command
      (JDict (versioned_primitive (JFloat ($"1.0")) sample_materialize)) MATERIALIZE_APPROVED_ACTION_COMMAND_TYPE 1
    = Ok sample_materialize.
Proof. split; vm_compute; reflexivity. Qed.
