(* ===== verification/FreshTruth.v ===== *)
(** [services/control_plane/assessment_intent.py]: the fresh reads every
    authorization of an effect rests on: what is asked of the provider and of the
    method-health detector, and what an answer may be.  [AssessmentSource] has
    one member, so the [source] of an answer is not a field here. *)
From S2P Require Import Prelude PyStr PyTime Json Text Values States PgOutbox.

(** [_PROVIDER_ACCOUNT_IDENTIFIER_RE], [_PROVIDER_RESOURCE_ID_RE],
    [_MACHINE_FACT_RE] under [fullmatch]. *)
Definition resource_char (c : Z) : bool := is_alnum c || one_of ($"_-") c.
Definition _PROVIDER_ACCOUNT_IDENTIFIER_RE (s : pystr) : bool :=
  starts_with ($"acc_") s && between 1 124 (str_len (drop 4 s)) && forallb resource_char (drop 4 s).
Definition _PROVIDER_RESOURCE_ID_RE (s : pystr) : bool :=
  match s with
  | c :: rest => (is_upper c || is_lower c) && between 1 127 (str_len rest) && forallb resource_char rest
  | [] => false
  end.
Definition _MACHINE_FACT_RE (s : pystr) : bool :=
  match s with
  | c :: rest => is_lower c && (str_len rest <=? 63) && forallb (λ c, is_lower c || is_digit c || one_of ($"_") c) rest
  | [] => false
  end.

Definition _ulid (value : pystr) (field_name : string) : result pystr :=
  _ ← raise_if (negb (is_ulid value)) (ValueError (field_name +:+ " must be an uppercase Crockford ULID"));
  Ok value.

Definition _clean_text (value : pystr) (field_name : string) (maximum : Z) : result pystr :=
  _ ← raise_if (negb (clean_text maximum value && ascii_str value))
        (ValueError (field_name +:+ " must be clean bounded ASCII text"));
  Ok value.

Definition _optional_resource_id (value : option pystr) (field_name : string) : result (option pystr) :=
  match value with
  | None => Ok None
  | Some value =>
      rendered ← _clean_text value field_name 128;
      _ ← raise_if (negb (_PROVIDER_RESOURCE_ID_RE rendered))
            (ValueError (field_name +:+ " must be an opaque provider resource id"));
      Ok (Some rendered)
  end.

Definition _provider_resource_id (value : option pystr) (field_name : string) : result pystr :=
  rendered ← _optional_resource_id value field_name;
  match rendered with
  | Some rendered => Ok rendered
  | None => Raise (ValueError (field_name +:+ " is required"))
  end.

Definition _aware_utc (value : datetime) (field_name : string) : result datetime :=
  _ ← raise_if (negb (is_aware value)) (ValueError (field_name +:+ " must be timezone-aware"));
  astimezone_utc value.

Definition _nonnegative_integer (value : Z) (field_name : string) : result Z :=
  _ ← raise_if (value <? 0) (ValueError (field_name +:+ " must be a non-negative integer"));
  Ok value.

Definition _positive_integer (value : Z) (field_name : string) : result Z :=
  _ ← raise_if (value <=? 0) (ValueError (field_name +:+ " must be a positive integer"));
  Ok value.

Definition _optional_machine_fact (value : option pystr) (field_name : string) : result (option pystr) :=
  _ ← raise_if (match value with Some v => negb (_MACHINE_FACT_RE v) | None => false end)
        (ValueError (field_name +:+ " must be a canonical machine fact"));
  Ok value.

(** * The provider's truth about a payment *)
Module ProviderPaymentStatus.
Inductive provider_payment_status := CREATED | AUTHORIZED | CAPTURED | REFUNDED | FAILED.
#[global] Instance eq_dec : EqDecision provider_payment_status.
Proof. solve_decision. Defined.
End ProviderPaymentStatus.

Record ProviderTruthQuery := mkProviderTruthQuery {
  q_merchant_id : pystr;
  q_account_id : pystr;
  q_account_identifier : pystr;
  q_credential_version : Z;
  q_payment_record_id : pystr;
  q_payment_id : pystr;
  q_order_id : pystr
}.

Definition ProviderTruthQuery_post_init (q : ProviderTruthQuery) : result ProviderTruthQuery :=
  _ ← _ulid (q_merchant_id q) "merchant_id";
  _ ← _ulid (q_account_id q) "provider_account_id";
  _ ← _ulid (q_payment_record_id q) "payment_record_id";
  _ ← raise_if (negb (_PROVIDER_ACCOUNT_IDENTIFIER_RE (q_account_identifier q)))
        (ValueError "provider_account_identifier is malformed");
  _ ← _positive_integer (q_credential_version q) "credential_binding_version";
  _ ← _provider_resource_id (Some (q_payment_id q)) "provider_payment_id";
  _ ← _provider_resource_id (Some (q_order_id q)) "provider_order_id";
  Ok q.

Record FreshProviderPaymentTruth := mkFreshTruth {
  truth_merchant_id : pystr;
  truth_account_id : pystr;
  truth_credential_version : Z;
  truth_payment_id : pystr;
  truth_order_id : pystr;
  truth_status : ProviderPaymentStatus.provider_payment_status;
  truth_amount_minor : Z;
  truth_currency : pystr;
  truth_captured_minor : Z;
  truth_refunded_minor : Z;
  truth_payment_method : pystr;
  truth_error_source : option pystr;
  truth_error_step : option pystr;
  truth_error_reason : option pystr;
  truth_observed_at : datetime
}.

(** The checks on money and failure facts per status. *)
Definition check_truth_money (t : FreshProviderPaymentTruth) : result unit :=
  let captured := truth_captured_minor t in
  let refunded := truth_refunded_minor t in
  let among l := bool_decide (truth_status t ∈ l) in
  _ ← raise_if ((truth_amount_minor t <? captured) || (captured <? refunded))
        (ValueError "provider money is outside the payment amount");
  _ ← raise_if (among [ProviderPaymentStatus.CREATED; ProviderPaymentStatus.AUTHORIZED; ProviderPaymentStatus.FAILED]
                && (negb (captured =? 0) || negb (refunded =? 0)))
        (ValueError "non-captured provider status cannot contain collected money");
  _ ← raise_if (among [ProviderPaymentStatus.CAPTURED] && (captured =? 0))
        (ValueError "captured provider status requires collected money");
  raise_if (among [ProviderPaymentStatus.REFUNDED] && ((captured =? 0) || (refunded =? 0)))
    (ValueError "refunded provider status requires capture and refund money").

Definition check_truth_errors (t : FreshProviderPaymentTruth) : result unit :=
  source ← _optional_machine_fact (truth_error_source t) "error_source";
  step ← _optional_machine_fact (truth_error_step t) "error_step";
  reason ← _optional_machine_fact (truth_error_reason t) "error_reason";
  let facts := [source; step; reason] in
  let failed := bool_decide (truth_status t = ProviderPaymentStatus.FAILED) in
  _ ← raise_if (failed && existsb (λ f, bool_decide (f = None)) facts)
        (ValueError "failed provider truth requires closed failure facts");
  raise_if (negb failed && existsb (λ f, bool_decide (f ≠ None)) facts)
    (ValueError "non-failed provider truth cannot carry stale failure facts").

Definition FreshProviderPaymentTruth_post_init (t : FreshProviderPaymentTruth) : result FreshProviderPaymentTruth :=
  _ ← _ulid (truth_merchant_id t) "merchant_id";
  _ ← _ulid (truth_account_id t) "provider_account_id";
  _ ← _positive_integer (truth_credential_version t) "credential_binding_version";
  _ ← _provider_resource_id (Some (truth_payment_id t)) "provider_payment_id";
  _ ← _provider_resource_id (Some (truth_order_id t)) "provider_order_id";
  amount ← _positive_integer (truth_amount_minor t) "amount_minor";
  _ ← Money_init amount (truth_currency t);
  _ ← _nonnegative_integer (truth_captured_minor t) "captured_minor";
  _ ← _nonnegative_integer (truth_refunded_minor t) "refunded_minor";
  _ ← check_truth_money t;
  _ ← require_payment_method (truth_payment_method t) "payment_method";
  _ ← check_truth_errors t;
  observed ← _aware_utc (truth_observed_at t) "observed_at";
  Ok (mkFreshTruth (truth_merchant_id t) (truth_account_id t) (truth_credential_version t) (truth_payment_id t)
        (truth_order_id t) (truth_status t) (truth_amount_minor t) (truth_currency t) (truth_captured_minor t)
        (truth_refunded_minor t) (truth_payment_method t) (truth_error_source t) (truth_error_step t)
        (truth_error_reason t) observed).

Definition canonical_payment_state (t : FreshProviderPaymentTruth) : CanonicalPaymentState :=
  match truth_status t with
  | ProviderPaymentStatus.CREATED | ProviderPaymentStatus.FAILED => UNPAID
  | ProviderPaymentStatus.AUTHORIZED => AUTHORIZED
  | _ => if truth_captured_minor t <? truth_amount_minor t then PARTIALLY_PAID else PAID
  end.

(** * The health of a payment method *)
Record MethodHealthQuery := mkMethodHealthQuery {
  hq_merchant_id : pystr;
  hq_account_id : pystr;
  hq_payment_method : pystr;
  hq_incident_id : option pystr
}.

Definition MethodHealthQuery_post_init (q : MethodHealthQuery) : result MethodHealthQuery :=
  _ ← _ulid (hq_merchant_id q) "merchant_id";
  _ ← _ulid (hq_account_id q) "provider_account_id";
  _ ← require_payment_method (hq_payment_method q) "payment_method";
  _ ← match hq_incident_id q with Some i => _ulid i "incident_id" | None => Ok [] end;
  Ok q.

Record FreshMethodHealthTruth := mkFreshHealth {
  health_merchant_id : pystr;
  health_account_id : pystr;
  health_payment_method : pystr;
  health_incident_state : IncidentState;
  health_observed_at : datetime;
  detector_version : pystr;
  threshold_version : pystr;
  health_incident_id : option pystr
}.

Definition FreshMethodHealthTruth_post_init (h : FreshMethodHealthTruth) : result FreshMethodHealthTruth :=
  _ ← _ulid (health_merchant_id h) "merchant_id";
  _ ← _ulid (health_account_id h) "provider_account_id";
  _ ← require_payment_method (health_payment_method h) "payment_method";
  observed ← _aware_utc (health_observed_at h) "method_health_observed_at";
  _ ← require_identifier (detector_version h) "detector_version";
  _ ← require_identifier (threshold_version h) "threshold_version";
  _ ← match health_incident_id h with Some i => _ulid i "incident_id" | None => Ok [] end;
  _ ← raise_if (bool_decide (health_incident_state h ≠ NORMAL) && bool_decide (health_incident_id h = None))
        (ValueError "non-normal method health requires a durable incident id");
  Ok (mkFreshHealth (health_merchant_id h) (health_account_id h) (health_payment_method h)
        (health_incident_state h) observed (detector_version h) (threshold_version h) (health_incident_id h)).

(** * What the money of an answer says *)

(** The state an answer stands for is decided by its money alone, and it is never
    a state in doubt. *)
Lemma canonical_state_money t t' :
  FreshProviderPaymentTruth_post_init t = Ok t' →
  canonical_payment_state t' = canonical_payment_state t ∧ 0 <= truth_captured_minor t <= truth_amount_minor t
  ∧ match canonical_payment_state t with
    | UNPAID | AUTHORIZED => truth_captured_minor t = 0
    | PARTIALLY_PAID => 0 < truth_captured_minor t < truth_amount_minor t
    | PAID => 0 < truth_captured_minor t ∧ truth_captured_minor t = truth_amount_minor t
    | _ => False
    end.
Proof.
  unfold FreshProviderPaymentTruth_post_init. intros H. inv_ok. subst t'. split; [done|].
  repeat match goal with u : unit |- _ => destruct u end.
  match goal with E : check_truth_money t = Ok _ |- _ => unfold check_truth_money in E end.
  unfold _nonnegative_integer, _positive_integer in *. inv_ok. bools.
  unfold canonical_payment_state. destruct (truth_status t);
    repeat match goal with E : context [bool_decide (?x ∈ ?l)] |- _ =>
      let b := eval vm_compute in (bool_decide (x ∈ l)) in change (bool_decide (x ∈ l)) with b in E end;
    cbn [andb] in *; bools; try lia;
    destruct (Z.ltb_spec (truth_captured_minor t) (truth_amount_minor t)); lia.
Qed.
