(* ===== verification/ApprovalRows.v ===== *)
(** The rows an approval works on [infrastructure/postgres/migrations/001_initial.sql]:
    one approval with the decision it is for, its recovery case and what the
    joins find around them, and the tables of actions, instruments and outbox jobs
    it inserts into; constraints, triggers, and transactions over all of it. *)
From S2P Require Import Prelude PyStr PyTime Json Text States Actions PgOutbox EffectRows.

(** * Rows *)
Record ApprovalRow := mkApprovalRow {
  ap_id : pystr;
  ap_merchant_id : pystr;
  ap_case_id : pystr;
  ap_decision_id : pystr;
  ap_version : Z;
  ap_requested_at : Z;
  ap_expires_at : Z;
  ap_verdict : ApprovalVerdict;
  ap_subject : option pystr;
  ap_reason : option pystr;
  ap_acted_at : option Z
}.
#[export] Instance ApprovalRow_eq_dec : EqDecision ApprovalRow.
Proof. solve_decision. Defined.

(** The decision of the approval: same merchant, case and version by its key. *)
Record DecisionRow := mkDecisionRow {
  d_candidates : json;
  d_policy_version : pystr;
  d_selected_action : option ActionType;
  d_planning_verdict : GateVerdict.gate_verdict;
  d_source_label : SourceLabel
}.

(** A recovery case with the columns the approval reads and counts. *)
Record ApprovalCase := mkApprovalCase {
  ac_row : CaseRow;
  ac_order_id : pystr;
  ac_currency : pystr;
  ac_amount_due : Z;
  ac_attempt_count : Z;
  ac_contact_count : Z;
  ac_incident_id : option pystr;
  ac_last_action_at : option Z
}.

Inductive ProviderEnvironment := ENV_TEST | ENV_LIVE.
#[export] Instance ProviderEnvironment_eq_dec : EqDecision ProviderEnvironment.
Proof. solve_decision. Defined.

(** The newest payment of the order. *)
Record PaymentFacts := mkPaymentFacts {
  pay_record_id : pystr;
  pay_payment_id : pystr;
  pay_order_id : pystr;
  pay_method : option pystr
}.

(** Merchant, account, order and payment. *)
Record Place := mkPlace {
  pl_merchant_status : MerchantStatus;
  pl_kill_switch : bool;
  pl_account_identifier : pystr;
  pl_environment : ProviderEnvironment;
  pl_account_enabled : bool;
  pl_credential_version : Z;
  pl_truth : CanonicalPaymentState;
  pl_payment : option PaymentFacts
}.

Record PlannedAction := mkPlannedAction {
  pa_row : ActionRow;
  pa_decision_id : pystr;
  pa_version : Z;
  pa_approval_id : option pystr;
  pa_metadata : json;
  pa_scheduled_at : Z
}.

Record ReservedInstrument := mkReservedInstrument {
  ri_row : InstrumentRow;
  ri_merchant_id : pystr;
  ri_case_id : pystr;
  ri_order_id : pystr;
  ri_account_id : pystr;
  ri_action_id : pystr;
  ri_currency : pystr;
  ri_expires_at : Z
}.

Record ApprovalDb := mkApprovalDb {
  db_approval : ApprovalRow;
  db_decision : DecisionRow;
  db_case : ApprovalCase;
  db_place : Place;
  db_actions : gmap pystr PlannedAction;
  db_instruments : gmap pystr ReservedInstrument;
  db_jobs : gmap pystr OutboxRow
}.

Definition with_approval (db : ApprovalDb) (r : ApprovalRow) : ApprovalDb :=
  mkApprovalDb r (db_decision db) (db_case db) (db_place db) (db_actions db) (db_instruments db) (db_jobs db).
Definition with_db_case (db : ApprovalDb) (c : ApprovalCase) : ApprovalDb :=
  mkApprovalDb (db_approval db) (db_decision db) c (db_place db) (db_actions db) (db_instruments db) (db_jobs db).
Definition with_actions (db : ApprovalDb) (m : gmap pystr PlannedAction) : ApprovalDb :=
  mkApprovalDb (db_approval db) (db_decision db) (db_case db) (db_place db) m (db_instruments db) (db_jobs db).
Definition with_instruments (db : ApprovalDb) (m : gmap pystr ReservedInstrument) : ApprovalDb :=
  mkApprovalDb (db_approval db) (db_decision db) (db_case db) (db_place db) (db_actions db) m (db_jobs db).
Definition with_jobs (db : ApprovalDb) (m : gmap pystr OutboxRow) : ApprovalDb :=
  mkApprovalDb (db_approval db) (db_decision db) (db_case db) (db_place db) (db_actions db) (db_instruments db) m.

(** * Approvals *)
Definition not_blank (s : pystr) : bool := 0 <? str_len (btrim s).

(** [approvals_verdict_ck], [approvals_timeline_ck]. *)
Definition approval_verdict_ck (r : ApprovalRow) : bool :=
  if decide (ap_verdict r = VERDICT_PENDING) then
    bool_decide (ap_subject r = None) && bool_decide (ap_reason r = None) && bool_decide (ap_acted_at r = None)
  else
    when_not_null (λ t, (ap_requested_at r <=? t)
                        && (negb (bool_decide (ap_verdict r = VERDICT_APPROVED)) || (t <=? ap_expires_at r)))
      (ap_acted_at r)
    && when_not_null not_blank (ap_reason r)
    && (bool_decide (ap_verdict r ∈ [VERDICT_EXPIRED; VERDICT_CANCELLED]) || when_not_null not_blank (ap_subject r)).
Definition approval_constraints (r : ApprovalRow) : bool :=
  (0 <=? ap_version r) && (ap_requested_at r <? ap_expires_at r) && approval_verdict_ck r.

(** [enforce_approval_lifecycle] on an UPDATE that keeps the request. *)
Definition approval_lifecycle (old new : ApprovalRow) : result unit :=
  _ ← raise_if (bool_decide (ap_verdict old ≠ VERDICT_PENDING) && bool_decide (new ≠ old))
        (refused "a final approval verdict cannot be changed");
  raise_if (bool_decide (ap_verdict old = VERDICT_PENDING) && bool_decide (ap_verdict new = VERDICT_PENDING)
            && bool_decide (new ≠ old))
    (refused "pending approvals cannot be refreshed in place").

(** [SET verdict = ..., approver_subject = ..., reason_code = ..., acted_at = ...]. *)
Definition act_on (v : ApprovalVerdict) (subject : option pystr) (reason : pystr) (at_ : Z) (r : ApprovalRow) :
    ApprovalRow :=
  mkApprovalRow (ap_id r) (ap_merchant_id r) (ap_case_id r) (ap_decision_id r) (ap_version r) (ap_requested_at r)
    (ap_expires_at r) v subject (Some reason) (Some at_).

(** * Sessions and transactions *)

(** The clock when the rows are locked, when the triggers read it and when they
    stamp a row; the audit appender's answer; the fate of the connection. *)
Record ApprovalSession := mkApprovalSession {
  lock_now : Z;
  trigger_clock : Z;
  stamp_clock : Z;
  audit_reply : result unit;
  connection_fate : fault
}.

Definition db_txn (A : Type) : Type := ApprovalDb → result (ApprovalDb * A).
#[export] Instance db_txn_ret : MRet db_txn := λ A a db, Ok (db, a).
#[export] Instance db_txn_bind : MBind db_txn := λ A B f m db,
  match m db with Ok (db', a) => f a db' | Raise e => Raise e end.
Definition demand {A} (r : result A) : db_txn A := λ db, a ← r; Ok (db, a).
Definition here : db_txn ApprovalDb := λ db, Ok (db, db).

(** [with connection.transaction()]. *)
Definition commit_db {A} (fate : fault) (m : db_txn A) (db : ApprovalDb) : ApprovalDb * result A :=
  match fate with
  | FailsBefore e => (db, Raise e)
  | fate =>
      match m db with
      | Raise e => (db, Raise e)
      | Ok (db', a) => (db', match fate with ReplyLost e => Raise e | _ => Ok a end)
      end
  end.

Section statements.
Context (s : ApprovalSession).

(** [UPDATE retrywise.approvals ... RETURNING verdict]. *)
Definition update_approval (where_ : ApprovalRow → bool) (f : ApprovalRow → ApprovalRow) :
    db_txn (option ApprovalVerdict) := λ db,
  let old := db_approval db in
  if where_ old then
    let new := f old in
    _ ← approval_lifecycle old new;
    _ ← raise_if (negb (approval_constraints new)) violated;
    Ok (with_approval db new, Some (ap_verdict new))
  else Ok (db, None).

(** ** Cases *)
Definition surroundings (db : ApprovalDb) : Surroundings :=
  let pl := db_place db in
  mkSurroundings (pl_truth pl) (pl_merchant_status pl) (pl_kill_switch pl)
    (bool_decide (pl_environment pl = ENV_TEST)) (pl_account_enabled pl) (d_planning_verdict (db_decision db))
    (Some (mkApprovalFacts (ap_verdict (db_approval db)) (ap_acted_at (db_approval db)) (ap_expires_at (db_approval db))))
    [].

(** The lifecycle trigger's checks on counters and on the last action. *)
Definition case_counters (old new : ApprovalCase) : result unit :=
  _ ← raise_if ((ac_attempt_count new <? ac_attempt_count old) || (ac_contact_count new <? ac_contact_count old))
        (refused "recovery case counters cannot decrease");
  raise_if (match ac_last_action_at old with
            | Some t => negb (when_not_null (λ t', t <=? t') (ac_last_action_at new))
            | None => false
            end)
    (refused "last action time cannot regress").

Definition approval_case_constraints (c : ApprovalCase) : bool :=
  case_constraints (ac_row c) && (0 <? ac_amount_due c) && (0 <=? ac_attempt_count c) && (0 <=? ac_contact_count c)
  && eqb (bool_decide (c_last_action_id (ac_row c) ≠ None)) (bool_decide (ac_last_action_at c ≠ None)).

Definition stamp_approval_case (at_ : Z) (c : ApprovalCase) : ApprovalCase :=
  mkApprovalCase (stamp_case at_ (ac_row c)) (ac_order_id c) (ac_currency c) (ac_amount_due c) (ac_attempt_count c)
    (ac_contact_count c) (ac_incident_id c) (ac_last_action_at c).

(** [UPDATE retrywise.recovery_cases ... WHERE id = ... AND merchant_id = ... AND
    state = 'APPROVAL_REQUIRED' AND version = ... RETURNING version]. *)
Definition update_required_case (merchant id : pystr) (version : Z) (f : ApprovalCase → ApprovalCase) :
    db_txn (option Z) := λ db,
  let old := db_case db in
  if bool_decide (c_id (ac_row old) = id) && bool_decide (c_merchant_id (ac_row old) = merchant)
     && bool_decide (c_state (ac_row old) = APPROVAL_REQUIRED) && (c_version (ac_row old) =? version) then
    let new := f old in
    _ ← case_counters old new;
    _ ← case_triggers (trigger_clock s) (surroundings db) (ac_row old) (ac_row new);
    let new := stamp_approval_case (stamp_clock s) new in
    _ ← raise_if (negb (approval_case_constraints new)) violated;
    Ok (with_db_case db new, Some (c_version (ac_row new)))
  else Ok (db, None).

(** The SET clauses of [_QUEUE_CASE] and of [_REJECT_CASE] and [_SUPPRESS_CASE]. *)
Definition queued_case (action : pystr) (at_ : Z) (c : ApprovalCase) : ApprovalCase :=
  let r := ac_row c in
  mkApprovalCase
    (mkCaseRow (c_id r) (c_merchant_id r) (c_account_id r) ACTION_QUEUED (c_version r + 1) (c_observation_contract r)
       (c_observation_deadline r) (Some action) (c_terminal r) (c_created_at r) (c_updated_at r))
    (ac_order_id c) (ac_currency c) (ac_amount_due c) (ac_attempt_count c + 1) (ac_contact_count c) (ac_incident_id c)
    (Some at_).
Definition suppressed_case (reason : pystr) (at_ : Z) (c : ApprovalCase) : ApprovalCase :=
  let r := ac_row c in
  mkApprovalCase (set_case SUPPRESSED_POLICY (c_version r + 1) (Some reason, Some at_) r) (ac_order_id c)
    (ac_currency c) (ac_amount_due c) (ac_attempt_count c) (ac_contact_count c) (ac_incident_id c) (ac_last_action_at c).

(** The rows after an approval was closed. *)
Definition closed_db (v : ApprovalVerdict) (subject : option pystr) (reason : pystr) (at_ : Z)
    (db : ApprovalDb) : ApprovalDb :=
  with_db_case (with_approval db (act_on v subject reason at_ (db_approval db)))
    (stamp_approval_case (stamp_clock s) (suppressed_case reason at_ (db_case db))).

(** ** Actions *)

(** The approval an action names, as the trigger accepts it. *)
Definition approval_is_valid (db : ApprovalDb) (a : PlannedAction) : bool :=
  let ap := db_approval db in
  bool_decide (pa_approval_id a = Some (ap_id ap)) && bool_decide (a_merchant_id (a_intent (pa_row a)) = ap_merchant_id ap)
  && bool_decide (pa_decision_id a = ap_decision_id ap) && bool_decide (a_case_id (a_intent (pa_row a)) = ap_case_id ap)
  && (pa_version a =? ap_version ap) && bool_decide (ap_verdict ap = VERDICT_APPROVED)
  && when_not_null (λ t, t <=? ap_expires_at ap) (ap_acted_at ap)
  && (if decide (a_source_label (a_intent (pa_row a)) = RAZORPAY_TEST_MODE) then trigger_clock s <=? ap_expires_at ap
      else a_created_at (a_intent (pa_row a)) <=? ap_expires_at ap).

(** A row that holds no result. *)
Definition no_results (r : ActionRow) : bool :=
  bool_decide (a_evidence r = mkGateEvidence None None []) && bool_decide (a_attempted r = (None, None))
  && bool_decide (a_completed_at r = None) && bool_decide (a_response r = None) && bool_decide (a_provider_status r = None)
  && bool_decide (a_provider_resource r = None) && bool_decide (a_last_error r = None)
  && bool_decide (a_dead_letter r = (None, None)) && bool_decide (a_reconciliation r = RECON_NOT_REQUIRED).

(** The decision an action is inserted for is the approval's. *)
Definition decision_found (db : ApprovalDb) (a : PlannedAction) : bool :=
  let ap := db_approval db in
  bool_decide (a_merchant_id (a_intent (pa_row a)) = ap_merchant_id ap) && bool_decide (pa_decision_id a = ap_decision_id ap)
  && bool_decide (a_case_id (a_intent (pa_row a)) = ap_case_id ap) && (pa_version a =? ap_version ap)
  && bool_decide (a_source_label (a_intent (pa_row a)) = d_source_label (db_decision db)).

(** [enforce_action_lifecycle] on INSERT. *)
Definition action_insert_trigger (db : ApprovalDb) (a : PlannedAction) : result unit :=
  let r := pa_row a in
  let d := db_decision db in
  let valid := approval_is_valid db a in
  _ ← raise_if (bool_decide (a_status r ≠ ActionStatus.PLANNED) || negb (a_attempt_number r =? 0))
        (refused "actions must start in PLANNED with zero attempts");
  _ ← raise_if (negb (no_results r)) (refused "new actions cannot contain execution results or gate evidence");
  _ ← raise_if (bool_decide (a_action_type (a_intent r) = CREATE_STANDARD_PAYMENT_LINK)
                && negb (when_not_null (btrim_between 1 40) (a_reference (a_intent r))))
        (refused "create-link actions require a reference id of at most 40 characters");
  _ ← raise_if (negb (decision_found db a)) (refused "action decision binding does not exist");
  _ ← raise_if (bool_decide (d_planning_verdict d = GateVerdict.BLOCKED)
                || bool_decide (d_selected_action d ≠ Some (a_action_type (a_intent r))))
        (refused "action does not match an executable decision");
  _ ← raise_if (bool_decide (d_planning_verdict d = GateVerdict.APPROVAL_REQUIRED) && negb valid)
        (refused "action requires a matching unexpired approval verdict");
  raise_if (bool_decide (pa_approval_id a ≠ None) && negb valid)
    (refused "attached approval is not a valid APPROVED verdict").

Definition planned_constraints (a : PlannedAction) : bool :=
  action_constraints (pa_row a) && is_ulid (a_id (a_intent (pa_row a))) && (0 <=? pa_version a)
  && btrim_between 1 200 (a_action_key (a_intent (pa_row a))) && (0 <? a_max_attempts (a_intent (pa_row a)))
  && match pa_metadata a with JDict _ => true | _ => false end.

Definition values_of {A} (m : gmap pystr A) : list A := map snd (map_to_list m).

Definition duplicate : py_error := DatabaseError "duplicate key".

(** [INSERT INTO retrywise.actions ... RETURNING id]. *)
Definition insert_action (a : PlannedAction) : db_txn (option pystr) := λ db,
  let id := a_id (a_intent (pa_row a)) in
  _ ← action_insert_trigger db a;
  _ ← raise_if (negb (planned_constraints a)) violated;
  _ ← raise_if (bool_decide (is_Some (db_actions db !! id))
                || existsb (λ b, bool_decide (a_merchant_id (a_intent (pa_row b)) = a_merchant_id (a_intent (pa_row a)))
                                 && bool_decide (a_action_key (a_intent (pa_row b)) = a_action_key (a_intent (pa_row a))))
                     (values_of (db_actions db)))
        duplicate;
  Ok (with_actions db (<[id := a]> (db_actions db)), Some id).

(** [UPDATE retrywise.actions SET status = 'QUEUED' WHERE id = ... AND status =
    'PLANNED' RETURNING status]: a change the lifecycle trigger lets through, as
    no other column moves. *)
Definition queue_action (merchant id : pystr) : db_txn (option ActionStatus.action_status) := λ db,
  match db_actions db !! id with
  | Some a =>
      if bool_decide (a_merchant_id (a_intent (pa_row a)) = merchant)
         && bool_decide (a_status (pa_row a) = ActionStatus.PLANNED) then
        let new := stamp_action (stamp_clock s) (set_status ActionStatus.QUEUED (pa_row a)) in
        let b := mkPlannedAction new (pa_decision_id a) (pa_version a) (pa_approval_id a) (pa_metadata a) (pa_scheduled_at a) in
        _ ← raise_if (negb (planned_constraints b)) violated;
        Ok (with_actions db (<[id := b]> (db_actions db)), Some (a_status new))
      else Ok (db, None)
  | None => Ok (db, None)
  end.

(** ** Instruments *)
Definition collectable : list InstrumentStatus.instrument_status :=
  [InstrumentStatus.CREATING; InstrumentStatus.UNCERTAIN; InstrumentStatus.ISSUED; InstrumentStatus.ACTIVE;
   InstrumentStatus.CANCEL_PENDING].
Definition collects_for (merchant order cur : pystr) (i : ReservedInstrument) : bool :=
  bool_decide (ri_merchant_id i = merchant) && bool_decide (ri_order_id i = order) && bool_decide (ri_currency i = cur)
  && bool_decide (i_status (ri_row i) ∈ collectable).

(** [recovery_instruments_case_fk], and the trigger's search for the action. *)
Definition instrument_bound (db : ApprovalDb) (i : ReservedInstrument) : bool :=
  let c := db_case db in
  bool_decide (ri_merchant_id i = c_merchant_id (ac_row c)) && bool_decide (ri_case_id i = c_id (ac_row c))
  && bool_decide (ri_order_id i = ac_order_id c) && bool_decide (ri_account_id i = c_account_id (ac_row c))
  && bool_decide (ri_currency i = ac_currency c) && (i_amount_minor (ri_row i) =? ac_amount_due c).
Definition link_action_exists (db : ApprovalDb) (i : ReservedInstrument) : bool :=
  match db_actions db !! ri_action_id i with
  | Some a =>
      bool_decide (a_merchant_id (a_intent (pa_row a)) = ri_merchant_id i)
      && bool_decide (a_case_id (a_intent (pa_row a)) = ri_case_id i)
      && bool_decide (a_action_type (a_intent (pa_row a)) = CREATE_STANDARD_PAYMENT_LINK)
  | None => false
  end.

Definition instrument_insert_trigger (db : ApprovalDb) (i : ReservedInstrument) : result unit :=
  _ ← raise_if (bool_decide (i_status (ri_row i) ≠ InstrumentStatus.CREATING))
        (refused "recovery instruments must start in CREATING");
  _ ← raise_if (bool_decide (i_link (ri_row i) ≠ None))
        (refused "a new recovery instrument cannot preclaim provider ids");
  raise_if (negb (link_action_exists db i)) (refused "recovery instrument requires a create-link action").

Definition reserved_constraints (i : ReservedInstrument) : bool :=
  instrument_constraints (ri_row i) && is_ulid (i_id (ri_row i)) && btrim_between 1 40 (i_reference (ri_row i))
  && (0 <? i_amount_minor (ri_row i)) && (i_created_at (ri_row i) <? ri_expires_at i).

(** The unique keys: id, action, account and reference, collectable per order. *)
Definition instrument_clash (i j : ReservedInstrument) : bool :=
  (bool_decide (ri_merchant_id j = ri_merchant_id i) && bool_decide (ri_action_id j = ri_action_id i))
  || (bool_decide (ri_account_id j = ri_account_id i) && bool_decide (i_reference (ri_row j) = i_reference (ri_row i)))
  || (bool_decide (i_status (ri_row i) ∈ collectable) && collects_for (ri_merchant_id i) (ri_order_id i) (ri_currency i) j).

(** [INSERT INTO retrywise.recovery_instruments ... RETURNING id]. *)
Definition insert_instrument (i : ReservedInstrument) : db_txn (option pystr) := λ db,
  let id := i_id (ri_row i) in
  _ ← instrument_insert_trigger db i;
  _ ← raise_if (negb (reserved_constraints i)) violated;
  _ ← raise_if (bool_decide (is_Some (db_instruments db !! id)) || existsb (instrument_clash i) (values_of (db_instruments db)))
        duplicate;
  _ ← raise_if (negb (instrument_bound db i)) (DatabaseError "foreign key violated");
  Ok (with_instruments db (<[id := i]> (db_instruments db)), Some id).

(** ** Outbox jobs *)
Definition insert_job (r : OutboxRow) : db_txn (option pystr) := λ db,
  jobs ← insert_statement r (db_jobs db);
  Ok (with_jobs db jobs, Some (row_id r)).
End statements.

(** * Lemmas *)

Lemma db_bind_Ok {A B} (m : db_txn A) (f : A → db_txn B) db db' b :
  (m ≫= f) db = Ok (db', b) ↔ ∃ db1 a, m db = Ok (db1, a) ∧ f a db1 = Ok (db', b).
Proof. unfold mbind, db_txn_bind. destruct (m db) as [[db1 a]|e]; naive_solver. Qed.

Lemma demand_Ok {A} (r : result A) db db' a : demand r db = Ok (db', a) ↔ r = Ok a ∧ db' = db.
Proof. unfold demand. destruct r; cbn; naive_solver. Qed.

Lemma db_ret_Ok {A} (a : A) db db' b : (mret a : db_txn A) db = Ok (db', b) ↔ b = a ∧ db' = db.
Proof. unfold mret, db_txn_ret. naive_solver. Qed.

Lemma here_Ok db db' b : here db = Ok (db', b) ↔ b = db ∧ db' = db.
Proof. unfold here. naive_solver. Qed.

Lemma here_bind {B} (f : ApprovalDb → db_txn B) db : (here ≫= f) db = f db db.
Proof. done. Qed.

Lemma demand_bind {A B} (a : A) (f : A → db_txn B) db : (demand (Ok a) ≫= f) db = f a db.
Proof. done. Qed.

(** Decompose a finished transaction into its steps. *)
Ltac db_step :=
  match goal with
  | H : (_ ≫= _) _ = Ok (_, _) |- _ =>
      apply db_bind_Ok in H;
      let db := fresh "db" in let a := fresh "r" in let H1 := fresh "Hs" in destruct H as (db & a & H1 & H)
  | H : demand _ _ = Ok (_, _) |- _ => let Hr := fresh "Hr" in apply demand_Ok in H as [Hr ->]
  | H : mret _ _ = Ok (_, _) |- _ => let Hr := fresh "Hr" in apply db_ret_Ok in H as [Hr ->]
  | H : here _ = Ok (_, _) |- _ => apply here_Ok in H as [-> ->]
  | H : raise_if _ _ = Ok _ |- _ => apply raise_if_Ok in H
  | H : bool_decide (?row ≠ Some _) = false |- _ =>
      apply bool_decide_false_1, dec_stable in H; subst row
  end.

(** A finished transaction, committed or not. *)
Lemma commit_db_cases {A} fate (m : db_txn A) db db' r :
  commit_db fate m db = (db', r) →
  (db' = db ∧ ∃ e, r = Raise e) ∨ (∃ a, m db = Ok (db', a) ∧ (r = Ok a ∨ ∃ e, r = Raise e)).
Proof.
  unfold commit_db. destruct fate; [|intros [= <- <-]; by eauto|];
    (destruct (m db) as [[db1 a]|e'] eqn:E; intros [= <- <-]; [right; exists a; by eauto|by eauto]).
Qed.

(** A connection that neither fails nor loses its reply commits what succeeds. *)
Lemma commit_db_NoFault {A} (m : db_txn A) db :
  commit_db NoFault m db = match m db with Ok (db', a) => (db', Ok a) | Raise e => (db, Raise e) end.
Proof. unfold commit_db. by destruct (m db) as [[]|]. Qed.

Lemma update_approval_Ok where_ f db db' v :
  update_approval where_ f db = Ok (db', Some v) →
  where_ (db_approval db) = true ∧ approval_constraints (f (db_approval db)) = true
  ∧ approval_lifecycle (db_approval db) (f (db_approval db)) = Ok tt
  ∧ db' = with_approval db (f (db_approval db)) ∧ v = ap_verdict (f (db_approval db)).
Proof.
  unfold update_approval. destruct (where_ _); [|done]. intros H. inv_ok. destruct r. bools. simplify_eq. done.
Qed.

Section lemmas.
Context (s : ApprovalSession).

Lemma update_required_case_Ok merchant id version f db db' v :
  update_required_case s merchant id version f db = Ok (db', Some v) →
  c_id (ac_row (db_case db)) = id ∧ c_merchant_id (ac_row (db_case db)) = merchant
  ∧ c_state (ac_row (db_case db)) = APPROVAL_REQUIRED ∧ c_version (ac_row (db_case db)) = version
  ∧ case_triggers (trigger_clock s) (surroundings db) (ac_row (db_case db)) (ac_row (f (db_case db))) = Ok tt
  ∧ approval_case_constraints (stamp_approval_case (stamp_clock s) (f (db_case db))) = true
  ∧ db' = with_db_case db (stamp_approval_case (stamp_clock s) (f (db_case db)))
  ∧ v = c_version (ac_row (f (db_case db))).
Proof.
  unfold update_required_case. destruct (_ && _) eqn:E; [|done]. intros H. inv_ok.
  repeat match goal with u : unit |- _ => destruct u end. bools. simplify_eq. done.
Qed.

Lemma insert_action_Ok a db db' id :
  insert_action s a db = Ok (db', Some id) →
  action_insert_trigger s db a = Ok tt ∧ planned_constraints a = true ∧ db_actions db !! a_id (a_intent (pa_row a)) = None
  ∧ db' = with_actions db (<[a_id (a_intent (pa_row a)) := a]> (db_actions db)) ∧ id = a_id (a_intent (pa_row a)).
Proof.
  unfold insert_action. intros H. inv_ok. repeat match goal with u : unit |- _ => destruct u end. bools. simplify_eq.
  split_and!; try done. by apply eq_None_not_Some.
Qed.

(** The action once it is queued. *)
Definition queued_action (a : PlannedAction) : PlannedAction :=
  mkPlannedAction (stamp_action (stamp_clock s) (set_status ActionStatus.QUEUED (pa_row a))) (pa_decision_id a)
    (pa_version a) (pa_approval_id a) (pa_metadata a) (pa_scheduled_at a).

Lemma queue_action_Ok merchant id db db' st :
  queue_action s merchant id db = Ok (db', Some st) →
  ∃ a, db_actions db !! id = Some a ∧ a_status (pa_row a) = ActionStatus.PLANNED ∧ planned_constraints (queued_action a) = true
       ∧ db' = with_actions db (<[id := queued_action a]> (db_actions db)).
Proof.
  unfold queue_action. destruct (_ !! _) as [a|]; [|done]. destruct (_ && _) eqn:E; [|done]. intros H. inv_ok.
  bools. simplify_eq. by exists a.
Qed.

Lemma insert_instrument_Ok i db db' id :
  insert_instrument i db = Ok (db', Some id) →
  instrument_bound db i = true ∧ reserved_constraints i = true ∧ link_action_exists db i = true
  ∧ existsb (instrument_clash i) (values_of (db_instruments db)) = false
  ∧ db_instruments db !! i_id (ri_row i) = None
  ∧ db' = with_instruments db (<[i_id (ri_row i) := i]> (db_instruments db)) ∧ id = i_id (ri_row i).
Proof.
  unfold insert_instrument, instrument_insert_trigger. intros H. inv_ok.
  repeat match goal with u : unit |- _ => destruct u end. bools. simplify_eq. split_and!; try done.
  by apply eq_None_not_Some.
Qed.

Lemma insert_job_Ok r db db' id :
  insert_job r db = Ok (db', Some id) →
  ∃ jobs, insert_statement r (db_jobs db) = Ok jobs ∧ jobs = <[row_id r := r]> (db_jobs db)
          ∧ db_jobs db !! row_id r = None ∧ row_constraints r = true
          ∧ db' = with_jobs db jobs ∧ id = row_id r.
Proof.
  unfold insert_job. intros H. inv_ok. exists r0. pose proof Hr as Hi. unfold insert_statement in Hi. inv_ok.
  bools. simplify_eq. split_and!; try done. by apply eq_None_not_Some.
Qed.
End lemmas.
