(* ===== verification/ApprovalService.v ===== *)
(** [services/control_plane/approval_service.py]: the service that turns an
    operator's approval into a durable action, after fresh reads and the gate, or
    closes it.  [act] loads the approval in one transaction and settles it in
    another; [db0] and [db] are the database at the two. *)
From S2P Require Import Prelude PyStr Sha256 PyTime Json Canonical Values States Actions Gate Text Outbox.
From S2P Require Import PaymentLinks References PgOutbox CommandCodec Executor CreateCommand EffectRows.
From S2P Require Import FreshTruth ApprovalCommand ApprovalRows.

(** * Snapshots *)
Record _Snapshot := mkSnapshot {
  s_approval_id : pystr;
  s_decision_id : pystr;
  s_decision_version : Z;
  s_requested_at : datetime;
  s_expires_at : datetime;
  s_proposal_value : json;
  s_policy_version : pystr;
  s_case_id : pystr;
  s_order_id : pystr;
  s_account_id : pystr;
  s_currency : pystr;
  s_amount_minor : Z;
  s_case_state : RecoveryState;
  s_case_version : Z;
  s_observation_deadline : option datetime;
  s_attempt_count : Z;
  s_contact_count : Z;
  s_incident_id : option pystr;
  s_merchant_status : MerchantStatus;
  s_merchant_kill_switch : bool;
  s_account_identifier : pystr;
  s_environment : ProviderEnvironment;
  s_account_enabled : bool;
  s_credential_version : Z;
  s_canonical_truth : CanonicalPaymentState;
  s_payment_record_id : pystr;
  s_payment_id : pystr;
  s_payment_order_id : pystr;
  s_payment_method : option pystr;
  s_active_instruments : Z;
  s_database_now : datetime
}.
#[export] Instance Snapshot_eq_dec : EqDecision _Snapshot.
Proof. solve_decision. Defined.

(** A snapshot with another proposal and another clock. *)
Definition with_value (v : json) (now : datetime) (x : _Snapshot) : _Snapshot :=
  mkSnapshot (s_approval_id x) (s_decision_id x) (s_decision_version x) (s_requested_at x) (s_expires_at x) v
    (s_policy_version x) (s_case_id x) (s_order_id x) (s_account_id x) (s_currency x) (s_amount_minor x)
    (s_case_state x) (s_case_version x) (s_observation_deadline x) (s_attempt_count x) (s_contact_count x)
    (s_incident_id x) (s_merchant_status x) (s_merchant_kill_switch x) (s_account_identifier x) (s_environment x)
    (s_account_enabled x) (s_credential_version x) (s_canonical_truth x) (s_payment_record_id x) (s_payment_id x)
    (s_payment_order_id x) (s_payment_method x) (s_active_instruments x) now.

(** [_LOAD_PENDING] and [_LOCK_PENDING], read at [now]: the columns as a snapshot
    whose proposal is the whole array of candidates. *)
Definition pending_row (now : Z) (db : ApprovalDb) (merchant approval : pystr) : option _Snapshot :=
  let ap := db_approval db in
  let c := db_case db in
  let r := ac_row c in
  let pl := db_place db in
  match pl_payment pl with
  | Some pay =>
      if bool_decide (ap_merchant_id ap = merchant) && bool_decide (ap_id ap = approval)
         && bool_decide (ap_verdict ap = VERDICT_PENDING) && bool_decide (c_state r = APPROVAL_REQUIRED)
         && bool_decide (c_merchant_id r = ap_merchant_id ap) && bool_decide (c_id r = ap_case_id ap)
      then
        Some (mkSnapshot (ap_id ap) (ap_decision_id ap) (ap_version ap) (timestamp (ap_requested_at ap))
          (timestamp (ap_expires_at ap)) (d_candidates (db_decision db)) (d_policy_version (db_decision db)) (c_id r)
          (ac_order_id c) (c_account_id r) (ac_currency c) (ac_amount_due c) (c_state r) (c_version r)
          (timestamp <$> c_observation_deadline r) (ac_attempt_count c) (ac_contact_count c) (ac_incident_id c)
          (pl_merchant_status pl) (pl_kill_switch pl) (pl_account_identifier pl) (pl_environment pl)
          (pl_account_enabled pl) (pl_credential_version pl) (pl_truth pl) (pay_record_id pay) (pay_payment_id pay)
          (pay_order_id pay) (pay_method pay)
          (Z.of_nat (length (List.filter (collects_for (c_merchant_id r) (ac_order_id c) (ac_currency c))
                               (values_of (db_instruments db)))))
          (timestamp now))
      else None
  | None => None
  end.

Definition _snapshot (row : option _Snapshot) : result _Snapshot :=
  match row with
  | None => Raise (ApprovalNotFound "approval_not_found")
  | Some x =>
      match s_proposal_value x with
      | JList [candidate] =>
          if forallb is_ulid [s_approval_id x; s_decision_id x; s_case_id x; s_order_id x; s_account_id x;
                              s_payment_record_id x]
          then Ok (with_value candidate (s_database_now x) x)
          else Raise (ApprovalConflict "approval_snapshot_unsafe")
      | _ => Raise (ApprovalConflict "approval_snapshot_unsafe")
      end
  end.

Definition _same_binding (left right : _Snapshot) : bool :=
  bool_decide (with_value JNull (s_database_now right) left = with_value JNull (s_database_now right) right)
  && py_eqb (s_proposal_value left) (s_proposal_value right).

(** * The service *)
Record PostgresApprovalService := mkApprovalService {
  service_gate : GatePolicy;
  truth_reader : ProviderTruthQuery → result FreshProviderPaymentTruth;
  health_reader : MethodHealthQuery → result FreshMethodHealthTruth;
  service_kill_switch : bool;
  service_audits : bool;
  id_factory : nat → result pystr     (* the answers of [id_factory()], in order *)
}.

Record ApprovalActionResult := mkActionResult {
  res_approval_id : pystr;
  res_verdict : ApprovalVerdict;
  res_case_id : pystr;
  res_case_version : Z;
  res_action_id : option pystr;
  res_job_id : option pystr
}.

Definition _ulid (value : pystr) : result pystr :=
  _ ← raise_if (negb (is_ulid value)) (ValueError ""); Ok value.

(** ["operator:" + hashlib.sha256(subject.encode()).hexdigest()]. *)
Definition derived_subject (subject : pystr) : result pystr :=
  encoded ← utf8_encode subject; Ok (OPERATOR_PREFIX ++ sha256_hex encoded).

(** [isoformat().replace("+00:00", "Z")] of a UTC value: the offset ends it. *)
Definition isoformat_z (d : datetime) : pystr :=
  let text := isoformat_utc (wall d) in take (length text - 6) text ++ $"Z".

(** Everything [_approve] has when its transaction starts. *)
Record Materialization := mkMaterialization {
  mz_command : CreatePaymentLinkCommand;
  mz_intent : DurableActionIntent;
  mz_acted_at : datetime;
  mz_key : pystr;
  mz_action_id : pystr;
  mz_instrument_id : pystr;
  mz_job_id : pystr;
  mz_link_expires_at : datetime;
  mz_payload : list (pystr * json)
}.

(** What an approval comes to: an effect, or a closing verdict with its reason. *)
Inductive Settlement :=
  | Materializes (m : Materialization)
  | Closes (verdict : ApprovalVerdict) (reason : pystr) (acted_at : datetime).

Section service.
Context (nfkd : pystr → pystr) (self : PostgresApprovalService).

Definition provider_truth (p : ActionProposal) (x : _Snapshot) : result FreshProviderPaymentTruth :=
  query ← ProviderTruthQuery_post_init
            (mkProviderTruthQuery (proposal_merchant_id p) (s_account_id x) (s_account_identifier x)
               (s_credential_version x) (s_payment_record_id x) (s_payment_id x) (s_payment_order_id x));
  truth_reader self query.

Definition method_health (p : ActionProposal) (x : _Snapshot) (truth : FreshProviderPaymentTruth) :
    result FreshMethodHealthTruth :=
  query ← MethodHealthQuery_post_init
            (mkMethodHealthQuery (proposal_merchant_id p) (s_account_id x) (truth_payment_method truth) (s_incident_id x));
  health_reader self query.

(** [Approval(...)]. *)
Definition approval_of (p : ActionProposal) (x : _Snapshot) (subject : pystr) (acted_at : datetime) : result Approval :=
  key ← action_key p;
  digest ← proposal_digest p;
  approver ← derived_subject subject;
  Approval_post_init
    (mkApproval (s_approval_id x) (proposal_merchant_id p) (proposal_case_id p) key digest (proposal_decision_version p)
       approver acted_at (s_expires_at x) true).

(** [GateContext(...)]. *)
Definition context_of (p : ActionProposal) (x : _Snapshot) (truth : FreshProviderPaymentTruth)
    (health : FreshMethodHealthTruth) (acted_at : datetime) (a : Approval) : result GateContext :=
  due ← Money_init (s_amount_minor x) (s_currency x);
  snap ← ProviderSnapshot_post_init
           (mkProviderSnapshot (canonical_payment_state truth) due (truth_payment_method truth) (truth_observed_at truth)
              (s_active_instruments x) (health_incident_state health) (health_observed_at health));
  GateContext_post_init
    (mkGateContext (proposal_merchant_id p) (proposal_case_id p) acted_at (s_case_version x) (s_case_version x)
       APPROVAL_REQUIRED snap
       (bool_decide (s_merchant_status x = MERCHANT_ACTIVE) && bool_decide (s_environment x = ENV_TEST)
        && s_account_enabled x)
       (s_observation_deadline x) (service_kill_switch self) (s_merchant_kill_switch x) true false None
       (s_contact_count x) false (s_attempt_count x) (requires_approval p) false (Some a) false).

(** [timedelta(hours=24)]. *)
Definition LINK_LIFETIME : timedelta := seconds (24 * 3600).

Definition request_of (p : ActionProposal) (x : _Snapshot) (acted_at : datetime) :
    result (StandardPaymentLinkRequest * datetime) :=
  reference ← make_recovery_reference_id nfkd (proposal_case_id p) (s_account_id x);
  later ← dt_add acted_at LINK_LIFETIME;
  expires ← fromtimestamp (int_timestamp later);
  r ← StandardPaymentLinkRequest_post_init
        (mkStandardPaymentLinkRequest (s_amount_minor x) (s_currency x) reference
           ($"Retry payment for order " ++ s_order_id x) (int_timestamp expires)
           [($"merchant_order_id", s_order_id x); ($"recovery_case_id", proposal_case_id p)] None);
  Ok (r, expires).

(** [_ulid(self._id_factory())], the [n]-th call. *)
Definition new_id (n : nat) : result pystr := id ← id_factory self n; _ulid id.

(** From the allowed decision to the parameters of the transaction. *)
Definition materialization (p : ActionProposal) (d : GateDecision) (x : _Snapshot) (acted_at : datetime) :
    result Materialization :=
  link ← request_of p x acted_at;
  c ← CreatePaymentLinkCommand_post_init (mkCreatePaymentLinkCommand p d (fst link) (s_account_id x));
  intent ← record_intent c acted_at;
  action_id ← new_id 0; instrument_id ← new_id 1; job_id ← new_id 2;
  key ← action_key p;
  payload ← encode_create_standard_payment_link_command nfkd c;
  Ok (mkMaterialization c intent acted_at key action_id instrument_id job_id (snd link) payload).

(** [_approve] up to its transaction. *)
Definition decide_approval (x : _Snapshot) (subject : pystr) : result Settlement :=
  p ← decode_action_proposal (s_proposal_value x);
  truth ← provider_truth p x;
  health ← method_health p x truth;
  let acted_at := dt_max (dt_max (s_database_now x) (truth_observed_at truth)) (health_observed_at health) in
  if dt_leb (s_expires_at x) acted_at || dt_leb (expires_at p) acted_at
  then Ok (Closes VERDICT_EXPIRED ($"approval_expired") acted_at)
  else
    a ← approval_of p x subject acted_at;
    context ← context_of p x truth health acted_at a;
    d ← evaluate_policy (service_gate self) p context;
    if negb (allowed d) then Ok (Closes VERDICT_CANCELLED ($"approved_proposal_no_longer_authorized") acted_at)
    else m ← materialization p d x acted_at; Ok (Materializes m).

(** * The transactions *)
Section transactions.
Context (s : ApprovalSession).

(** [_LOCK_PENDING], and the comparison with what was loaded. *)
Definition lock_again (merchant : pystr) (x : _Snapshot) : db_txn unit :=
  db ← here;
  locked ← demand (_snapshot (pending_row (lock_now s) db merchant (s_approval_id x)));
  demand (raise_if (negb (_same_binding locked x)) (ApprovalConflict "approval_state_changed")).

Definition _one {A} `{!EqDecision A} (row : option A) (expected : A) (operation : string) : result unit :=
  raise_if (bool_decide (row ≠ Some expected)) (ApprovalConflict operation).

(** [WHERE id = ... AND merchant_id = ... AND verdict = 'PENDING']. *)
Definition pending_for (merchant approval : pystr) (r : ApprovalRow) : bool :=
  bool_decide (ap_id r = approval) && bool_decide (ap_merchant_id r = merchant)
  && bool_decide (ap_verdict r = VERDICT_PENDING).

(** [_APPROVE], [_REJECT] and [_CANCEL]. *)
Definition approve_row (merchant approval subject reason : pystr) (at_ : Z) : db_txn (option ApprovalVerdict) :=
  update_approval (λ r, pending_for merchant approval r && (at_ <=? ap_expires_at r))
    (act_on VERDICT_APPROVED (Some subject) reason at_).
Definition close_row (v : ApprovalVerdict) (merchant approval subject reason : pystr) (at_ : Z) :
    db_txn (option ApprovalVerdict) :=
  update_approval (pending_for merchant approval) (act_on v (Some subject) reason at_).

(** [_QUEUE_CASE] and [_REJECT_CASE]. *)
Definition queue_case (merchant case action : pystr) (version at_ : Z) : db_txn (option Z) :=
  update_required_case s merchant case version (queued_case action at_).
Definition reject_case (merchant case reason : pystr) (version at_ : Z) : db_txn (option Z) :=
  update_required_case s merchant case version (suppressed_case reason at_).

(** The rows [_INSERT_ACTION], [_INSERT_INSTRUMENT] and [_INSERT_OUTBOX] insert. *)
Definition intent_metadata (i : DurableActionIntent) : json :=
  JDict [($"action_key", JStr (intent_action_key i));
         ($"executor_payload_sha256", JStr (intent_payload_digest i));
         ($"prior_plan_sha256", JStr (intent_plan_digest i));
         ($"proposal_sha256", JStr (intent_proposal_digest i));
         ($"provider_account_id", JStr (intent_account_id i));
         ($"provider_request_sha256", JStr (intent_request_digest i));
         ($"recorded_at", JStr (isoformat_z (intent_recorded_at i)));
         ($"reference_id", JStr (intent_reference_id i));
         ($"schema", JStr ($"retrywise-durable-action-intent"));
         ($"schema_version", JInt (intent_schema_version i))].

Definition action_row (merchant : pystr) (x : _Snapshot) (m : Materialization) : PlannedAction :=
  let at_ := instant (mz_acted_at m) in
  mkPlannedAction
    (mkActionRow
       (mkActionIntent (mz_action_id m) merchant (s_case_id x) (mz_key m) CREATE_STANDARD_PAYMENT_LINK
          RAZORPAY_TEST_MODE 5 (Some (reference_id (request (mz_command m)))) at_)
       ActionStatus.PLANNED 0 (None, None) (mkGateEvidence None None []) None None RECON_NOT_REQUIRED None (None, None)
       None None (None, None) at_)
    (s_decision_id x) (s_decision_version x) (Some (s_approval_id x)) (intent_metadata (mz_intent m)) at_.

Definition instrument_row (merchant : pystr) (x : _Snapshot) (m : Materialization) : ReservedInstrument :=
  let at_ := instant (mz_acted_at m) in
  mkReservedInstrument
    (mkInstrumentRow (mz_instrument_id m) (reference_id (request (mz_command m))) InstrumentStatus.CREATING None None
       RECON_PENDING None (s_amount_minor x) 0 at_ at_)
    merchant (s_case_id x) (s_order_id x) (s_account_id x) (mz_action_id m) (s_currency x)
    (instant (mz_link_expires_at m)).

Definition effect_job (merchant : pystr) (m : Materialization) : OutboxRow :=
  let at_ := instant (mz_acted_at m) in
  new_row (mz_job_id m) merchant ($"ACTION") (mz_action_id m) CREATE_STANDARD_PAYMENT_LINK_COMMAND_TYPE
    COMMAND_SCHEMA_VERSION (JDict (mz_payload m)) ($"create-standard-payment-link:" ++ mz_key m) 8 at_ at_ at_.

(** [_audit]: the [n]-th id, the derived subject, the appender's answer. *)
Definition _audit (n : nat) (subject : pystr) : db_txn unit :=
  if service_audits self then
    _ ← demand (new_id n);
    _ ← demand (derived_subject subject);
    demand (audit_reply s)
  else mret tt.

Definition materialize (x : _Snapshot) (subject reason : pystr) (m : Materialization) : db_txn ApprovalActionResult :=
  let merchant := proposal_merchant_id (proposal (mz_command m)) in
  let at_ := instant (mz_acted_at m) in
  _ ← lock_again merchant x;
  row ← approve_row merchant (s_approval_id x) subject reason at_;
  _ ← demand (_one row VERDICT_APPROVED "approval_update_failed");
  row ← insert_action s (action_row merchant x m);
  _ ← demand (_one row (mz_action_id m) "approval_action_insert_failed");
  row ← insert_instrument (instrument_row merchant x m);
  _ ← demand (_one row (mz_instrument_id m) "approval_instrument_insert_failed");
  row ← queue_action s merchant (mz_action_id m);
  _ ← demand (_one row ActionStatus.QUEUED "approval_action_queue_failed");
  row ← queue_case merchant (s_case_id x) (mz_action_id m) (s_case_version x) at_;
  _ ← demand (_one row (s_case_version x + 1) "approval_case_queue_failed");
  row ← insert_job (effect_job merchant m);
  _ ← demand (_one row (mz_job_id m) "approval_outbox_insert_failed");
  _ ← _audit 3 subject;
  mret (mkActionResult (s_approval_id x) VERDICT_APPROVED (s_case_id x) (s_case_version x + 1)
          (Some (mz_action_id m)) (Some (mz_job_id m))).

(** The transaction of [_cancel] and of [_reject]; [v_error] and [c_error] are
    what they raise when a statement matches no row. *)
Definition close (v_error c_error : string) (merchant : pystr) (x : _Snapshot) (v : ApprovalVerdict)
    (subject reason : pystr) (at_ : Z) : db_txn ApprovalActionResult :=
  _ ← lock_again merchant x;
  row ← close_row v merchant (s_approval_id x) subject reason at_;
  _ ← demand (_one row v v_error);
  row ← reject_case merchant (s_case_id x) reason (s_case_version x) at_;
  _ ← demand (_one row (s_case_version x + 1) c_error);
  _ ← _audit 0 subject;
  mret (mkActionResult (s_approval_id x) v (s_case_id x) (s_case_version x + 1) None None).

(** The transaction of an approval that was decided. *)
Definition settle (x : _Snapshot) (subject reason : pystr) (outcome : Settlement) : db_txn ApprovalActionResult :=
  match outcome with
  | Materializes m => materialize x subject reason m
  | Closes v reason at_ =>
      p ← demand (decode_action_proposal (s_proposal_value x));
      close "approval_cancellation_failed" "approval_case_cancel_failed" (proposal_merchant_id p) x v subject reason
        (instant at_)
  end.
End transactions.

(** A pure preparation, then its transaction. *)
Definition prepared {A B} (m : result A) (f : A → db_txn B) (fate : fault) (db : ApprovalDb) : ApprovalDb * result B :=
  match m with Raise e => (db, Raise e) | Ok a => commit_db fate (f a) db end.

Definition _approve (s : ApprovalSession) (x : _Snapshot) (subject reason : pystr) (db : ApprovalDb) :
    ApprovalDb * result ApprovalActionResult :=
  prepared (decide_approval x subject) (settle s x subject reason) (connection_fate s) db.

Definition _reject (s : ApprovalSession) (x : _Snapshot) (subject reason : pystr) (db : ApprovalDb) :
    ApprovalDb * result ApprovalActionResult :=
  prepared (p ← decode_action_proposal (s_proposal_value x); _ulid (proposal_merchant_id p))
    (λ merchant, close s "approval_update_failed" "approval_case_reject_failed" merchant x VERDICT_REJECTED subject
                   reason (instant (s_database_now x)))
    (connection_fate s) db.

Definition check_act (merchant approval subject : pystr) (v : ApprovalVerdict) (reason : pystr) : result unit :=
  _ ← _ulid merchant; _ ← _ulid approval;
  _ ← raise_if (bool_decide (v ∉ [VERDICT_APPROVED; VERDICT_REJECTED]))
        (ValueError "verdict must be APPROVED or REJECTED");
  _ ← raise_if (negb (_REASON_RE reason)) (ValueError "reason_code is invalid");
  raise_if (bool_decide (subject = []) || (200 <? str_len subject)) (ValueError "operator_subject is invalid").

(** [act]: [_load] on [db0] at [load_now] over a connection of its own, the rest
    on [db]. *)
Definition act (load_now : Z) (load_fate : option py_error) (db0 : ApprovalDb) (s : ApprovalSession)
    (merchant approval subject : pystr) (v : ApprovalVerdict) (reason : pystr) (db : ApprovalDb) :
    ApprovalDb * result ApprovalActionResult :=
  match
    _ ← check_act merchant approval subject v reason;
    match load_fate with
    | Some e => Raise e
    | None => _snapshot (pending_row load_now db0 merchant approval)
    end
  with
  | Raise e => (db, Raise e)
  | Ok loaded =>
      if decide (v = VERDICT_REJECTED) then _reject s loaded subject reason db
      else _approve s loaded subject reason db
  end.
End service.

(** * What a transaction does *)

(** The database under the lock is the one that was loaded. *)
Definition bound (s : ApprovalSession) (merchant : pystr) (x : _Snapshot) (db : ApprovalDb) : Prop :=
  ∃ row locked, pending_row (lock_now s) db merchant (s_approval_id x) = Some row
    ∧ _snapshot (Some row) = Ok locked ∧ _same_binding locked x = true.

Record bound_facts (merchant : pystr) (x : _Snapshot) (db : ApprovalDb) : Prop := {
  bf_merchant : ap_merchant_id (db_approval db) = merchant;
  bf_approval : s_approval_id x = ap_id (db_approval db);
  bf_pending : ap_verdict (db_approval db) = VERDICT_PENDING;
  bf_state : c_state (ac_row (db_case db)) = APPROVAL_REQUIRED;
  bf_case_merchant : c_merchant_id (ac_row (db_case db)) = merchant;
  bf_case : ap_case_id (db_approval db) = c_id (ac_row (db_case db)) ∧ s_case_id x = c_id (ac_row (db_case db));
  bf_version : s_case_version x = c_version (ac_row (db_case db));
  bf_decision : s_decision_id x = ap_decision_id (db_approval db) ∧ s_decision_version x = ap_version (db_approval db);
  bf_expires : s_expires_at x = timestamp (ap_expires_at (db_approval db));
  bf_order : s_order_id x = ac_order_id (db_case db) ∧ s_account_id x = c_account_id (ac_row (db_case db));
  bf_money : s_currency x = ac_currency (db_case db) ∧ s_amount_minor x = ac_amount_due (db_case db);
  bf_attempts : s_attempt_count x = ac_attempt_count (db_case db);
  bf_place : s_merchant_status x = pl_merchant_status (db_place db)
             ∧ s_merchant_kill_switch x = pl_kill_switch (db_place db)
             ∧ s_environment x = pl_environment (db_place db) ∧ s_account_enabled x = pl_account_enabled (db_place db);
  bf_instruments : s_active_instruments x
    = Z.of_nat (length (List.filter (collects_for (c_merchant_id (ac_row (db_case db))) (ac_order_id (db_case db))
                                       (ac_currency (db_case db))) (values_of (db_instruments db))));
  bf_candidate : ∃ v, d_candidates (db_decision db) = JList [v] ∧ py_eqb v (s_proposal_value x) = true;
  bf_ulids : is_ulid (s_case_id x) = true ∧ is_ulid (s_order_id x) = true ∧ is_ulid (s_account_id x) = true
}.

Lemma bound_elim s merchant x db : bound s merchant x db → bound_facts merchant x db.
Proof.
  intros (row & locked & Hrow & Hlock & Hsame). unfold pending_row in Hrow.
  destruct (pl_payment (db_place db)) as [pay|]; [|done]. destruct (_ && _) eqn:E; [|done]. bools.
  injection Hrow as <-. unfold _snapshot in Hlock. cbn [s_proposal_value] in Hlock.
  destruct (d_candidates (db_decision db)) as [| | | | |l|] eqn:Ed; try done.
  destruct l as [|v [|? ?]]; try done. destruct (forallb _ _) eqn:Eu; [|done]. injection Hlock as <-.
  unfold _same_binding in Hsame. bools.
  match goal with E : with_value _ _ _ = with_value _ _ x |- _ => unfold with_value in E; cbn in E; injection E as E end.
  cbn in Eu. bools. split; try (split_and!); cbn in *; try congruence.
  exists v. by split.
Qed.

(** The rows after an approval became an action. *)
Definition materialized_db (s : ApprovalSession) (merchant : pystr) (x : _Snapshot) (subject reason : pystr)
    (m : Materialization) (db : ApprovalDb) : ApprovalDb :=
  let at_ := instant (mz_acted_at m) in
  mkApprovalDb (act_on VERDICT_APPROVED (Some subject) reason at_ (db_approval db)) (db_decision db)
    (stamp_approval_case (stamp_clock s) (queued_case (mz_action_id m) at_ (db_case db))) (db_place db)
    (<[mz_action_id m := queued_action s (action_row merchant x m)]> (db_actions db))
    (<[mz_instrument_id m := instrument_row merchant x m]> (db_instruments db))
    (<[mz_job_id m := effect_job merchant m]> (db_jobs db)).

Section outcomes.
Context (nfkd : pystr → pystr) (self : PostgresApprovalService) (s : ApprovalSession).

Lemma lock_again_Ok merchant x db db' : lock_again s merchant x db = Ok (db', tt) → db' = db ∧ bound s merchant x db.
Proof.
  unfold lock_again. intros H. repeat db_step. apply negb_false_iff in Hr. split; [done|].
  destruct (pending_row (lock_now s) db merchant (s_approval_id x)) as [row|] eqn:E; [|done]. by exists row, r0.
Qed.

Lemma audit_keeps n subject db db' u : _audit self s n subject db = Ok (db', u) → db' = db.
Proof. unfold _audit. destruct (service_audits self); intros H; by repeat db_step. Qed.

Lemma approval_close_Ok v_error c_error merchant x v subject reason at_ db db' res :
  close self s v_error c_error merchant x v subject reason at_ db = Ok (db', res) →
  bound s merchant x db ∧ db' = closed_db s v (Some subject) reason at_ db
  ∧ approval_constraints (act_on v (Some subject) reason at_ (db_approval db)) = true
  ∧ res = mkActionResult (s_approval_id x) v (s_case_id x) (s_case_version x + 1) None None.
Proof.
  unfold close, close_row, reject_case, _one. intros H. repeat db_step.
  match goal with E : lock_again _ _ _ _ = Ok (_, ?u) |- _ => destruct u; apply lock_again_Ok in E as [-> Hb] end.
  match goal with E : _audit _ _ _ _ _ = _ |- _ => apply audit_keeps in E as -> end.
  match goal with E : update_approval _ _ _ = _ |- _ => apply update_approval_Ok in E as (_ & Hc & _ & -> & _) end.
  match goal with E : update_required_case _ _ _ _ _ _ = _ |- _ =>
    apply update_required_case_Ok in E as (_ & _ & _ & _ & _ & _ & -> & _) end.
  done.
Qed.

Lemma materialize_Ok x subject reason m db db' res :
  materialize self s x subject reason m db = Ok (db', res) →
  let merchant := proposal_merchant_id (proposal (mz_command m)) in
  bound s merchant x db ∧ db' = materialized_db s merchant x subject reason m db
  ∧ instant (mz_acted_at m) <= ap_expires_at (db_approval db)
  ∧ approval_constraints (act_on VERDICT_APPROVED (Some subject) reason (instant (mz_acted_at m)) (db_approval db)) = true
  ∧ action_insert_trigger s (with_approval db (act_on VERDICT_APPROVED (Some subject) reason (instant (mz_acted_at m))
                                                 (db_approval db))) (action_row merchant x m) = Ok tt
  ∧ db_actions db !! mz_action_id m = None ∧ db_instruments db !! mz_instrument_id m = None
  ∧ db_jobs db !! mz_job_id m = None ∧ row_constraints (effect_job merchant m) = true
  ∧ existsb (instrument_clash (instrument_row merchant x m)) (values_of (db_instruments db)) = false
  ∧ planned_constraints (queued_action s (action_row merchant x m)) = true
  ∧ case_triggers (trigger_clock s)
      (surroundings (with_approval db (act_on VERDICT_APPROVED (Some subject) reason (instant (mz_acted_at m))
                                         (db_approval db))))
      (ac_row (db_case db)) (ac_row (queued_case (mz_action_id m) (instant (mz_acted_at m)) (db_case db))) = Ok tt
  ∧ res = mkActionResult (s_approval_id x) VERDICT_APPROVED (s_case_id x) (s_case_version x + 1)
            (Some (mz_action_id m)) (Some (mz_job_id m)).
Proof.
  unfold materialize, approve_row, queue_case, _one. intros H. cbv zeta in H |- *. set (merchant := proposal_merchant_id _) in *. repeat db_step.
  match goal with E : lock_again _ _ _ _ = Ok (_, ?u) |- _ => destruct u; apply lock_again_Ok in E as [-> Hb] end.
  match goal with E : _audit _ _ _ _ _ = _ |- _ => apply audit_keeps in E as -> end.
  match goal with E : update_approval _ _ _ = _ |- _ => apply update_approval_Ok in E as (Hw & Hc & _ & -> & _) end.
  match goal with E : insert_action _ _ _ = _ |- _ => apply insert_action_Ok in E as (Ht & Hpc & Hfa & -> & _) end.
  match goal with E : insert_instrument _ _ = _ |- _ => apply insert_instrument_Ok in E as (_ & _ & _ & Hcl & Hfi & -> & _) end.
  match goal with E : queue_action _ _ _ _ = _ |- _ => apply queue_action_Ok in E as (a & Ha & _ & Hqc & ->) end.
  match goal with E : update_required_case _ _ _ _ _ _ = _ |- _ =>
    apply update_required_case_Ok in E as (_ & _ & _ & _ & Htr & _ & -> & _) end.
  match goal with E : insert_job _ _ = _ |- _ => apply insert_job_Ok in E as (jobs & _ & -> & Hfj & Hrc & -> & _) end.
  cbn in *. rewrite lookup_insert_eq in Ha. injection Ha as <-. bools.
  split; [done|]. split; [|by split_and!].
  unfold materialized_db. by rewrite insert_insert_eq.
Qed.
End outcomes.

(** * What a decision to materialize rests on *)

(** The fresh reads, the context and the gate's decision behind a materialization. *)
Record decided (nfkd : pystr → pystr) (self : PostgresApprovalService) (x : _Snapshot) (subject : pystr)
    (m : Materialization) (p : ActionProposal) (truth : FreshProviderPaymentTruth) (health : FreshMethodHealthTruth)
    (a : Approval) (context : GateContext) (d : GateDecision) : Prop := {
  dc_proposal : decode_action_proposal (s_proposal_value x) = Ok p;
  dc_truth : provider_truth self p x = Ok truth;
  dc_health : method_health self p x truth = Ok health;
  dc_at : mz_acted_at m = dt_max (dt_max (s_database_now x) (truth_observed_at truth)) (health_observed_at health);
  dc_live : instant (mz_acted_at m) < instant (s_expires_at x) ∧ instant (mz_acted_at m) < instant (expires_at p);
  dc_approval : approval_of p x subject (mz_acted_at m) = Ok a;
  dc_context : context_of self p x truth health (mz_acted_at m) a = Ok context;
  dc_decision : evaluate_policy (service_gate self) p context = Ok d;
  dc_allowed : allowed d = true;
  dc_material : materialization nfkd self p d x (mz_acted_at m) = Ok m
}.

Lemma decide_materializes nfkd self x subject m :
  decide_approval nfkd self x subject = Ok (Materializes m) →
  ∃ p truth health a context d, decided nfkd self x subject m p truth health a context d.
Proof.
  unfold decide_approval. intros H.
  apply bind_Ok in H as (p & Hp & H). apply bind_Ok in H as (truth & Ht & H). apply bind_Ok in H as (health & Hh & H).
  set (acted_at := dt_max _ _) in H. destruct (dt_leb (s_expires_at x) acted_at || _) eqn:El; [done|].
  apply bind_Ok in H as (a & Ha & H). apply bind_Ok in H as (context & Hc & H). apply bind_Ok in H as (d & Hd & H).
  destruct (allowed d) eqn:Hal; [|done]. cbn [negb] in H. apply bind_Ok in H as (m' & Hm & H). injection H as ->.
  assert (mz_acted_at m = acted_at) as Hat by (unfold materialization in Hm; inv_ok; by subst).
  exists p, truth, health, a, context, d. unfold dt_leb in El. bools. split; by rewrite ?Hat.
Qed.

(** What a context made of a snapshot says. *)
Lemma context_of_Ok self p x truth health at_ a c :
  context_of self p x truth health at_ a = Ok c →
  aggregate_version c = s_case_version x ∧ 0 <= s_case_version x
  ∧ is_utc (evaluated_at c) = true ∧ instant (evaluated_at c) = instant at_
  ∧ payment_state (Gate.snapshot c) = canonical_payment_state truth
  ∧ amount_due (Gate.snapshot c) = mkMoney (s_amount_minor x) (s_currency x)
  ∧ active_instrument_count (Gate.snapshot c) = s_active_instruments x
  ∧ environment_effects_enabled c = (bool_decide (s_merchant_status x = MERCHANT_ACTIVE)
                                     && bool_decide (s_environment x = ENV_TEST) && s_account_enabled x)
  ∧ global_kill_switch c = service_kill_switch self ∧ Gate.merchant_kill_switch c = s_merchant_kill_switch x
  ∧ attempts_used c = s_attempt_count x ∧ approval c = Some a ∧ recovery_state c = APPROVAL_REQUIRED.
Proof.
  unfold context_of, ProviderSnapshot_post_init, GateContext_post_init, non_negative_integer. intros H. inv_ok.
  match goal with E : Money_init _ _ = Ok _ |- _ => unfold Money_init in E; inv_ok end.
  subst. cbn in *. utc_facts. bools. split_and!; try done; try lia.
Qed.

(** * What [act] does *)

(** A committed settlement of [x]: an effect, or one of the closing verdicts. *)
Inductive settled (nfkd : pystr → pystr) (self : PostgresApprovalService) (s : ApprovalSession) (x : _Snapshot)
    (subject reason : pystr) (asked : ApprovalVerdict) (db db' : ApprovalDb) (res : ApprovalActionResult) : Prop :=
  | settled_effect m :
      asked = VERDICT_APPROVED →
      decide_approval nfkd self x subject = Ok (Materializes m) →
      materialize self s x subject reason m db = Ok (db', res) → settled nfkd self s x subject reason asked db db' res
  | settled_closed merchant v closing at_ v_error c_error :
      (asked = VERDICT_REJECTED ∧ v = VERDICT_REJECTED ∧ closing = reason
       ∨ asked = VERDICT_APPROVED ∧ v ∈ [VERDICT_EXPIRED; VERDICT_CANCELLED]
         ∧ ∃ d, decide_approval nfkd self x subject = Ok (Closes v closing d) ∧ at_ = instant d) →
      close self s v_error c_error merchant x v subject closing at_ db = Ok (db', res) →
      settled nfkd self s x subject reason asked db db' res.

Lemma prepared_cases {A B} (m : result A) (f : A → db_txn B) fate db db' r :
  prepared m f fate db = (db', r) →
  (db' = db ∧ ∃ e, r = Raise e) ∨ ∃ a b, m = Ok a ∧ f a db = Ok (db', b) ∧ (r = Ok b ∨ ∃ e, r = Raise e).
Proof.
  unfold prepared. destruct m as [a|e]; [|intros [= <- <-]; left; by eauto].
  intros [?|(b & ? & ?)]%commit_db_cases; [by left|right; by exists a, b].
Qed.

Lemma decide_closes nfkd self x subject v closing d :
  decide_approval nfkd self x subject = Ok (Closes v closing d) → v ∈ [VERDICT_EXPIRED; VERDICT_CANCELLED].
Proof.
  unfold decide_approval. intros H. do 3 (apply bind_Ok in H as (? & _ & H)). destruct (_ || _); [by injection H as <-; set_solver|].
  do 3 (apply bind_Ok in H as (? & _ & H)). destruct (negb _); [by injection H as <-; set_solver|].
  by apply bind_Ok in H as (? & _ & H).
Qed.

Section act.
Context (nfkd : pystr → pystr) (self : PostgresApprovalService).

Lemma act_cases load_now load_fate db0 s merchant approval subject v reason db db' r :
  act nfkd self load_now load_fate db0 s merchant approval subject v reason db = (db', r) →
  (db' = db ∧ ∃ e, r = Raise e)
  ∨ ∃ x res, _snapshot (pending_row load_now db0 merchant approval) = Ok x
      ∧ check_act merchant approval subject v reason = Ok tt
      ∧ settled nfkd self s x subject reason v db db' res ∧ (r = Ok res ∨ ∃ e, r = Raise e).
Proof.
  unfold act. destruct (check_act merchant approval subject v reason) as [[]|e] eqn:Ec; [|intros [= <- <-]; left; by eauto].
  rewrite bind_Ok_l. destruct load_fate as [e|]; [intros [= <- <-]; left; by eauto|].
  destruct (_snapshot _) as [x|e] eqn:Ex; [|intros [= <- <-]; left; by eauto].
  assert (v ∈ [VERDICT_APPROVED; VERDICT_REJECTED]) as Hv.
  { unfold check_act in Ec. inv_ok. bools. by apply dec_stable. }
  destruct (decide (v = VERDICT_REJECTED)) as [->|Hn].
  - unfold _reject. intros [?|(m & res & Hm & Hc & Hr)]%prepared_cases; [by left|]. right. exists x, res.
    split_and!; try done. eapply settled_closed; [left; by split_and!|exact Hc].
  - assert (v = VERDICT_APPROVED) as -> by set_solver.
    unfold _approve. intros [?|(o & res & Ho & Hc & Hr)]%prepared_cases; [by left|]. right. exists x, res.
    split_and!; try done. destruct o as [m|w closing d]; cbn [settle] in Hc; [by eapply settled_effect|].
    repeat db_step. eapply settled_closed; [|exact Hc]. right. split; [done|].
    split; [by eapply decide_closes|]. by exists d.
Qed.
End act.

Lemma materialization_Ok nfkd self p d x at_ m :
  materialization nfkd self p d x at_ = Ok m →
  ∃ r link_expires, request_of nfkd p x at_ = Ok (r, link_expires)
    ∧ mz_command m = mkCreatePaymentLinkCommand p d r (s_account_id x)
    ∧ record_intent (mz_command m) at_ = Ok (mz_intent m)
    ∧ action_key p = Ok (mz_key m)
    ∧ encode_create_standard_payment_link_command nfkd (mz_command m) = Ok (mz_payload m)
    ∧ is_ulid (mz_action_id m) = true ∧ is_ulid (mz_instrument_id m) = true ∧ is_ulid (mz_job_id m) = true
    ∧ mz_link_expires_at m = link_expires.
Proof.
  unfold materialization, new_id, _ulid, CreatePaymentLinkCommand_post_init. intros H. inv_ok. subst. cbn.
  bools. destruct r as [q expires]. cbn in *. exists q, expires. by split_and!.
Qed.

Section authorized.
Context (nfkd : pystr → pystr) (self : PostgresApprovalService) (s : ApprovalSession).

(** The world an effect was authorized in: what the rows said when they were
    locked, and what the fresh reads said. *)
Record authorized_world (db : ApprovalDb) (p : ActionProposal) (truth : FreshProviderPaymentTruth) : Prop := {
  aw_unpaid : canonical_payment_state truth = UNPAID ∧ pl_truth (db_place db) = UNPAID;
  aw_action : action_type p = CREATE_STANDARD_PAYMENT_LINK;
  aw_amount : amount p = Some (mkMoney (ac_amount_due (db_case db)) (ac_currency (db_case db)));
  aw_alone : ∀ id i, db_instruments db !! id = Some i →
    collects_for (ap_merchant_id (db_approval db)) (ac_order_id (db_case db)) (ac_currency (db_case db)) i = false;
  aw_place : pl_merchant_status (db_place db) = MERCHANT_ACTIVE ∧ pl_environment (db_place db) = ENV_TEST
             ∧ pl_account_enabled (db_place db) = true;
  aw_switches : service_kill_switch self = false ∧ pl_kill_switch (db_place db) = false;
  aw_attempts : ac_attempt_count (db_case db) < max_attempts (service_gate self)
}.

Lemma filter_empty {A} (f : A → bool) (m : gmap pystr A) id a :
  length (List.filter f (values_of m)) = 0%nat → m !! id = Some a → f a = false.
Proof.
  intros H%length_zero_iff_nil Ha. apply not_true_iff_false. intros Hf.
  assert (a ∈ List.filter f (values_of m)) as Hin; [|rewrite H in Hin; by apply elem_of_nil in Hin].
  apply list_elem_of_In, filter_In. split; [|done]. apply list_elem_of_In. unfold values_of.
  apply list_elem_of_fmap. exists (id, a). split; [done|]. by apply elem_of_map_to_list.
Qed.

Lemma materialize_authorized x subject reason m db db' res :
  decide_approval nfkd self x subject = Ok (Materializes m) →
  materialize self s x subject reason m db = Ok (db', res) →
  ∃ p truth health a context d, decided nfkd self x subject m p truth health a context d
    ∧ gate_spec (service_gate self) POLICY p context None ∧ authorized_world db p truth.
Proof.
  intros (p & truth & health & a & context & d & Hd)%decide_materializes (Hb & _ & _ & _ & _ & _ & _ & _ & _ & _ & _ & Htr & _)%materialize_Ok.
  exists p, truth, health, a, context, d. split; [done|]. apply bound_elim in Hb as [].
  pose proof Hd as []. pose proof (proj1 (evaluate_allowed _ _ _ _ _ _ dc_decision0) dc_allowed0) as Hspec.
  split; [done|]. apply context_of_Ok in dc_context0 as (_ & _ & _ & _ & Hst & Hdue & Hcount & Henv & Hg & Hk & Hat & _ & _).
  apply materialization_Ok in dc_material0 as (r & le & Hreq & Hcmd & _ & _ & Henc & _).
  apply encode_Ok in Henc as (? & _ & Hbound & _). rewrite Hcmd in Hbound. cbn.
  destruct Hbound. cbn in bound_type, bound_amount.
  destruct Hspec as []. assert (is_collection p = true) as Hc by (unfold is_collection, mem; by rewrite bound_type).
  destruct (spec_collection Hc) as []. rewrite Hst, Hdue, Hk, Hg, Hat, Hcount, Henv in *.
  destruct bf_place0 as (E1 & E2 & E3 & E4). destruct bf_money0 as [Em1 Em2].
  assert (is_external p = true) as Hx by (unfold is_external, mem; by rewrite bound_type).
  specialize (spec_effects Hx). bools. destruct coll_switches as [Hs1 Hs2].
  split.
  - split; [done|]. unfold case_triggers in Htr. inv_ok. cbn in *.
    match goal with E : _ && bool_decide (pl_truth _ ≠ _) = false |- _ => apply and_false in E; [|by apply bool_decide_eq_true; set_solver] end.
    bools. by apply dec_stable.
  - done.
  - rewrite bound_amount in *. destruct (coll_amount _ eq_refl) as [-> _]. by rewrite Em1, Em2.
  - intros id i Hi. rewrite <- bf_merchant0 in *. rewrite bf_case_merchant0 in *.
    eapply filter_empty; [|exact Hi]. specialize (spec_create bound_type). lia.
  - split_and!; congruence.
  - split; [done|]. congruence.
  - lia.
Qed.
End authorized.

(** A call that raises without losing the reply of its commit changed nothing. *)
Lemma raised_act_unchanged nfkd self load_now load_fate db0 s merchant approval subject v reason db db' e :
  act nfkd self load_now load_fate db0 s merchant approval subject v reason db = (db', Raise e) →
  (∀ e, connection_fate s ≠ ReplyLost e) → db' = db.
Proof.
  intros H Hf. unfold act in H. destruct (_ ≫= _) as [x|]; [|by injection H].
  assert (∀ A B (m : result A) (f : A → db_txn B) db, prepared m f (connection_fate s) db = (db', Raise e) → db' = db) as Hp.
  { intros A B m f d. unfold prepared, commit_db. destruct m; [|by intros [= <-]].
    destruct (connection_fate s) eqn:Es; [| |by destruct (Hf _ eq_refl)];
      repeat case_match; intros ?; by simplify_eq. }
  case_decide; by apply Hp in H.
Qed.

Lemma snapshot_approval now db merchant approval x :
  _snapshot (pending_row now db merchant approval) = Ok x → s_approval_id x = approval ∧ s_database_now x = timestamp now ∧ ap_merchant_id (db_approval db) = merchant.
Proof.
  unfold pending_row. destruct (pl_payment _); [|done]. destruct (_ && _) eqn:E; [|done]. bools. unfold _snapshot.
  cbn [s_proposal_value]. destruct (d_candidates _) as [| | | | |l|]; try done. destruct l as [|? [|? ?]]; try done.
  by destruct (forallb _ _); intros [= <-].
Qed.

(** * The service against what it promises *)

(** What operators see of an approval: its verdict, its case, and which actions,
    instruments and jobs there are. *)
Record ApprovalView := mkView {
  v_verdict : ApprovalVerdict;
  v_state : RecoveryState;
  v_version : Z;
  v_actions : gset pystr;
  v_instruments : gset pystr;
  v_jobs : gset pystr
}.
Definition view (db : ApprovalDb) : ApprovalView :=
  mkView (ap_verdict (db_approval db)) (c_state (ac_row (db_case db))) (c_version (ac_row (db_case db)))
    (dom (db_actions db)) (dom (db_instruments db)) (dom (db_jobs db)).

(** An approval is decided once: it is closed and its case suppressed, or it is
    approved and one new action, one new instrument and one new job appear with
    its case queued. *)
Inductive decides (asked : ApprovalVerdict) : ApprovalView → ApprovalView → Prop :=
  | decides_closed v n A I J :
      (asked = VERDICT_REJECTED ∧ v = VERDICT_REJECTED ∨ asked = VERDICT_APPROVED ∧ v ∈ [VERDICT_EXPIRED; VERDICT_CANCELLED]) →
      decides asked (mkView VERDICT_PENDING APPROVAL_REQUIRED n A I J) (mkView v SUPPRESSED_POLICY (n + 1) A I J)
  | decides_effect n A I J a i j :
      asked = VERDICT_APPROVED → a ∉ A → i ∉ I → j ∉ J →
      decides asked (mkView VERDICT_PENDING APPROVAL_REQUIRED n A I J)
        (mkView VERDICT_APPROVED ACTION_QUEUED (n + 1) ({[a]} ∪ A) ({[i]} ∪ I) ({[j]} ∪ J)).

(** An answer tells what the database holds. *)
Record answers (db : ApprovalDb) (r : ApprovalActionResult) : Prop := {
  ans_approval : res_approval_id r = ap_id (db_approval db);
  ans_verdict : res_verdict r = ap_verdict (db_approval db);
  ans_case : res_case_id r = c_id (ac_row (db_case db)) ∧ res_case_version r = c_version (ac_row (db_case db));
  ans_action : match res_action_id r, res_job_id r with
               | Some a, Some j => res_verdict r = VERDICT_APPROVED ∧ c_last_action_id (ac_row (db_case db)) = Some a
                                   ∧ a ∈ dom (db_actions db) ∧ j ∈ dom (db_jobs db)
               | None, None => res_verdict r ≠ VERDICT_APPROVED
               | _, _ => False
               end
}.

Section settled.
Context (nfkd : pystr → pystr) (self : PostgresApprovalService) (s : ApprovalSession).

Lemma settled_decides x subject reason asked db db' res :
  settled nfkd self s x subject reason asked db db' res → decides asked (view db) (view db') ∧ answers db' res.
Proof.
  intros [m -> _ (Hb & -> & _ & _ & _ & Ha & Hi & Hj & _ & _ & _ & _ & ->)%materialize_Ok
         |merchant v closing at_ v_error c_error Hv (Hb & -> & _ & ->)%approval_close_Ok];
    apply bound_elim in Hb as []; unfold view; rewrite bf_pending0, bf_state0.
  - split.
    + cbn. rewrite !dom_insert_L. constructor; [done|by apply not_elem_of_dom..].
    + split; cbn; try done; [by rewrite bf_version0; destruct bf_case0 as [_ ->]|]. rewrite !dom_insert_L. set_solver.
  - split.
    + cbn. constructor. naive_solver.
    + split; cbn; try done; [by rewrite bf_version0; destruct bf_case0 as [_ ->]|]. destruct Hv as [(_ & -> & _)|(_ & Hv & _)]; [done|set_solver].
Qed.
End settled.

(** An answer of a call tells what the database holds. *)
Lemma act_answers nfkd self load_now load_fate db0 s merchant approval subject v reason db db' res :
  act nfkd self load_now load_fate db0 s merchant approval subject v reason db = (db', Ok res) → answers db' res.
Proof.
  intros [(_ & e & [=])|(x & res' & _ & _ & Hs & Hr)]%act_cases. destruct Hr as [[= <-]|(e & [=])].
  by apply settled_decides in Hs as [_ ?].
Qed.

(** C4: an approval turns into an effect only when the operator asked for it and
    the world still allows it.  If a call of the service leaves other actions
    than it found, then approval was asked for; the approval was pending and
    the case required it under the lock that inserted the action; and the action
    is the one of a decision of the gate on the stored proposal and on reads made
    in this call: unpaid at the provider and in the database, no other
    collectable instrument for the order, the amount due, an active test
    merchant and an enabled account, no kill switch, attempts left. *)
Theorem approval_effect_authorized nfkd self load_now load_fate db0 s merchant approval subject v reason db db' r :
  act nfkd self load_now load_fate db0 s merchant approval subject v reason db = (db', r) →
  db_actions db' ≠ db_actions db →
  v = VERDICT_APPROVED ∧ ap_id (db_approval db) = approval ∧ ap_verdict (db_approval db) = VERDICT_PENDING
  ∧ c_state (ac_row (db_case db)) = APPROVAL_REQUIRED
  ∧ ∃ x m p truth health a context d,
      decided nfkd self x subject m p truth health a context d
      ∧ gate_spec (service_gate self) POLICY p context None ∧ authorized_world self db p truth
      ∧ db' = materialized_db s (ap_merchant_id (db_approval db)) x subject reason m db.
Proof.
  intros [[-> _]|(x & res & Hx & _ & Hs & _)]%act_cases Hn; [done|].
  destruct Hs as [m -> Hd Hm|? ? ? ? ? ? _ (_ & -> & _)%approval_close_Ok]; [|done]. split; [done|].
  pose proof (materialize_authorized nfkd self s x subject reason m db db' res Hd Hm)
    as (p & truth & health & a & context & d & Hdec & Hspec & Hworld).
  apply materialize_Ok in Hm as (Hb & -> & _). apply bound_elim in Hb as [].
  apply snapshot_approval in Hx as [Hx _]. split_and!; [congruence|done..|].
  exists x, m, p, truth, health, a, context, d. split_and!; try done. by rewrite bf_merchant0.
Qed.

(** C10: the service refines the decision of an approval: whatever the reads, the
    clocks and the connection do, a call leaves what operators see as it was or
    decides the pending approval as asked, all of it at once, and an answer it
    returns tells what the database now holds. *)
Theorem act_refines_decision nfkd self load_now load_fate db0 s merchant approval subject v reason db db' r :
  act nfkd self load_now load_fate db0 s merchant approval subject v reason db = (db', r) →
  db' = db ∧ (∃ e, r = Raise e)
  ∨ decides v (view db) (view db') ∧ ∀ res, r = Ok res → answers db' res.
Proof.
  intros [?|(x & res & _ & _ & Hs & Hr)]%act_cases; [by left|right].
  apply settled_decides in Hs as [Hd Ha]. split; [done|]. intros res' ->. by destruct Hr as [[= ->]|(? & ?)].
Qed.

(** The action is created at the instant of the decision, which may be the worker's
    clock, and stamped with the database's when it is queued: a worker clock ahead
    of the database's is refused. *)
Lemma clock_skew_refused self s x subject reason m db db' res :
  materialize self s x subject reason m db = Ok (db', res) → instant (mz_acted_at m) <= stamp_clock s.
Proof.
  intros (_ & _ & _ & _ & _ & _ & _ & _ & _ & _ & H & _)%materialize_Ok. unfold planned_constraints, action_constraints in H.
  bools. cbn in *. lia.
Qed.

(** * A sample *)
Definition sample_at : Z := 63082281600000000.
Definition sample_case : pystr := $"01ARZ3NDEKTSV4RRFFQ69G5FB0".
Definition sample_account : pystr := $"01ARZ3NDEKTSV4RRFFQ69G5FB1".
Definition sample_order_id : pystr := $"01ARZ3NDEKTSV4RRFFQ69G5FB2".
Definition sample_record : pystr := $"01ARZ3NDEKTSV4RRFFQ69G5FB3".
Definition sample_approval_id : pystr := $"01ARZ3NDEKTSV4RRFFQ69G5FB4".
Definition sample_decision_id : pystr := $"01ARZ3NDEKTSV4RRFFQ69G5FB5".
Definition sample_merchant : pystr := $"01ARZ3NDEKTSV4RRFFQ69G5FAV".
Definition approved_proposal : ActionProposal :=
  mkActionProposal ($"prop_1") sample_merchant sample_case 1 CREATE_STANDARD_PAYMENT_LINK
    (utc (sample_at - seconds 30)) (utc (sample_at + seconds 900)) 1 (Some (mkMoney 10000 ($"INR")))
    (Some ($"upi")) (Some 2500) (Some (mkProbability (DFinite false 9 (-1)))) true None.
Definition sample_place : Place :=
  mkPlace MERCHANT_ACTIVE false ($"acc_test1") ENV_TEST true 1 UNPAID
    (Some (mkPaymentFacts sample_record ($"pay_1") ($"order_1") (Some ($"upi")))).
Definition sample_approval_db : ApprovalDb :=
  mkApprovalDb
    (mkApprovalRow sample_approval_id sample_merchant sample_case sample_decision_id 1 (sample_at - seconds 60)
       (sample_at + seconds 600) VERDICT_PENDING None None None)
    (mkDecisionRow (JList [or_default JNull (primitive_json (ActionProposal_to_primitive approved_proposal))]) PINNED_POLICY_VERSION
       (Some CREATE_STANDARD_PAYMENT_LINK) GateVerdict.APPROVAL_REQUIRED RAZORPAY_TEST_MODE)
    (mkApprovalCase
       (mkCaseRow sample_case sample_merchant sample_account APPROVAL_REQUIRED 4 1 (Some (sample_at - seconds 100)) None
          (None, None) (sample_at - seconds 300) (sample_at - seconds 300))
       sample_order_id ($"INR") 10000 0 0 None None)
    sample_place ∅ ∅ ∅.
Definition fresh_truth (q : ProviderTruthQuery) (status : ProviderPaymentStatus.provider_payment_status) (paid : Z) :
    FreshProviderPaymentTruth :=
  mkFreshTruth (q_merchant_id q) (q_account_id q) (q_credential_version q) (q_payment_id q) (q_order_id q) status 10000
    ($"INR") paid 0 ($"upi") None None None (timestamp sample_at).
Definition sample_id (n : nat) : result pystr :=
  Ok ($"01ARZ3NDEKTSV4RRFFQ69G5FC" ++ [48 + Z.of_nat n]).
(** A service whose provider answers [status]. *)
Definition sample_service (status : ProviderPaymentStatus.provider_payment_status) (paid : Z) : PostgresApprovalService :=
  mkApprovalService sample_policy
    (λ q, FreshProviderPaymentTruth_post_init (fresh_truth q status paid))
    (λ q, FreshMethodHealthTruth_post_init
            (mkFreshHealth (hq_merchant_id q) (hq_account_id q) (hq_payment_method q) NORMAL (timestamp sample_at)
               ($"detector-1") ($"thresholds-1") None))
    false true sample_id.
Definition unpaid_service : PostgresApprovalService := sample_service ProviderPaymentStatus.CREATED 0.
Definition sample_approval_session : ApprovalSession := mkApprovalSession sample_at sample_at sample_at (Ok tt) NoFault.
Definition sample_act (self : PostgresApprovalService) (v : ApprovalVerdict) (db : ApprovalDb) :
    ApprovalDb * result ApprovalActionResult :=
  act id self sample_at None db sample_approval_session sample_merchant sample_approval_id ($"operator_1") v
    ($"looks_right") db.

(** A call that answers with [v] and leaves [n] actions. *)
Definition acted (v : ApprovalVerdict) (n : nat) (x : ApprovalDb * result ApprovalActionResult) : bool :=
  match snd x with Ok r => bool_decide (res_verdict r = v) | Raise _ => false end && (size (db_actions (fst x)) =? n)%nat.
Lemma acted_Ok v n x :
  acted v n x = true → ∃ db' res, x = (db', Ok res) ∧ res_verdict res = v ∧ size (db_actions db') = n.
Proof.
  unfold acted. destruct x as [db' [res|e]]; [|done]. cbn. intros [Hv Hn]%andb_prop. exists db', res.
  split; [done|]. split; [by apply bool_decide_eq_true in Hv|by apply Nat.eqb_eq].
Qed.

Lemma sample_approved : acted VERDICT_APPROVED 1 (sample_act unpaid_service VERDICT_APPROVED sample_approval_db) = true.
Proof. vm_compute. reflexivity. Qed.
(** The provider says the order was paid in the meantime. *)
Definition paid_service : PostgresApprovalService := sample_service ProviderPaymentStatus.CAPTURED 10000.
Lemma sample_approval_cancelled : acted VERDICT_CANCELLED 0 (sample_act paid_service VERDICT_APPROVED sample_approval_db) = true.
Proof. vm_compute. reflexivity. Qed.

Lemma approval_effect_authorized_witness :
  ∃ db' r p truth, sample_act unpaid_service VERDICT_APPROVED sample_approval_db = (db', r)
    ∧ authorized_world unpaid_service sample_approval_db p truth.
Proof.
  destruct (acted_Ok _ _ _ sample_approved) as (db' & res & E & _ & Hn).
  destruct (approval_effect_authorized _ _ _ _ _ _ _ _ _ _ _ _ _ _ E)
    as (_ & _ & _ & _ & x & m & p & truth & health & a & context & d & _ & _ & Hw & _).
  - intros Heq. rewrite Heq in Hn. discriminate Hn.
  - exists db', (Ok res), p, truth. split; [exact E|exact Hw].
Defined.

(** An approval whose order was paid meanwhile closes the case. *)
Lemma act_refines_decision_witness :
  ∃ db', decides VERDICT_APPROVED (view sample_approval_db) (view db') ∧ ap_verdict (db_approval db') = VERDICT_CANCELLED.
Proof.
  destruct (acted_Ok _ _ _ sample_approval_cancelled) as (db' & res & E & Hv & _). exists db'.
  destruct (act_refines_decision _ _ _ _ _ _ _ _ _ _ _ _ _ _ E) as [(_ & e & He)|[Hd Ha]]; [discriminate He|].
  split; [exact Hd|]. rewrite <- Hv. symmetry. exact (ans_verdict _ _ (Ha _ eq_refl)).
Defined.
