(* ===== verification/ApprovalRequest.v ===== *)
(** [services/control_plane/approval_request.py]: the service behind the operator
    API.  It records an intent: a rejection closes the approval, an approval is
    queued as a command for the worker; no effect is decided here. *)
From S2P Require Import Prelude PyStr Sha256 PyTime Json States Actions PgOutbox CommandCodec EffectRows.
From S2P Require Import ApprovalCommand ApprovalRows.

(** The two statuses of an answer: a verdict of the approval, or that its command
    is queued. *)
Inductive RequestVerdict := Final (v : ApprovalVerdict) | APPROVAL_QUEUED.

Record ApprovalRequestResult := mkRequestResult {
  rr_approval_id : pystr;
  rr_verdict : RequestVerdict;
  rr_case_id : pystr;
  rr_case_version : Z;
  rr_job_id : option pystr;
  rr_command_status : option RowStatus
}.

Record PostgresApprovalRequestService := mkRequestService {
  request_audits : bool;
  request_ids : nat → result pystr
}.

(** The row of [_LOCK_APPROVAL]. *)
Record LockedApproval := mkLockedApproval {
  l_verdict : ApprovalVerdict;
  l_case_id : pystr;
  l_expires_at : Z;
  l_case_state : RecoveryState;
  l_case_version : Z;
  l_now : Z
}.

Definition lock_approval (now : Z) (merchant approval : pystr) (db : ApprovalDb) : option LockedApproval :=
  let ap := db_approval db in
  let r := ac_row (db_case db) in
  if bool_decide (ap_merchant_id ap = merchant) && bool_decide (ap_id ap = approval)
     && bool_decide (c_merchant_id r = ap_merchant_id ap) && bool_decide (c_id r = ap_case_id ap)
  then Some (mkLockedApproval (ap_verdict ap) (ap_case_id ap) (ap_expires_at ap) (c_state r) (c_version r) now)
  else None.

Definition approval_key (approval : pystr) : pystr := $"materialize-approved-action:" ++ approval.

(** [_EXISTING_COMMAND]; the key is unique. *)
Definition existing_command (merchant key : pystr) (jobs : list OutboxRow) : option OutboxRow :=
  List.find (λ r, bool_decide (row_merchant_id r = merchant) && bool_decide (row_idempotency_key r = key)) jobs.

Definition _ulid (value : pystr) (field : string) : result pystr :=
  _ ← raise_if (negb (is_ulid value)) (ValueError (field +:+ " is invalid")); Ok value.

(** The checks of [act], and the digests derived from the arguments. *)
Definition check_request (merchant approval subject : pystr) (v : ApprovalVerdict) (reason key : pystr) :
    result (pystr * pystr) :=
  _ ← _ulid merchant "merchant_id"; _ ← _ulid approval "approval_id";
  _ ← raise_if (bool_decide (v ∉ [VERDICT_APPROVED; VERDICT_REJECTED]))
        (ValueError "verdict must be APPROVED or REJECTED");
  _ ← raise_if (negb (_REASON_RE reason)) (ValueError "reason_code is invalid");
  _ ← raise_if (bool_decide (subject = []) || (200 <? str_len subject)) (ValueError "operator_subject is invalid");
  _ ← raise_if (bool_decide (key ≠ strip key) || negb (between 16 128 (str_len key)))
        (ValueError "idempotency_key is invalid");
  key_bytes ← utf8_encode key;
  subject_bytes ← utf8_encode subject;
  Ok (sha256_hex key_bytes, OPERATOR_PREFIX ++ sha256_hex subject_bytes).

Section request.
Context (self : PostgresApprovalRequestService) (s : ApprovalSession).

Definition _one {A} `{!EqDecision A} (row : option A) (expected : A) (operation : string) : result unit :=
  raise_if (bool_decide (row ≠ Some expected)) (ApprovalRequestConflict operation).

(** [_REJECT_APPROVAL], [_EXPIRE_APPROVAL]: the latter names no approver. *)
Definition finish_approval (v : ApprovalVerdict) (merchant approval : pystr) (subject : option pystr) (reason : pystr)
    (at_ : Z) : db_txn (option ApprovalVerdict) :=
  update_approval
    (λ r, bool_decide (ap_merchant_id r = merchant) && bool_decide (ap_id r = approval)
          && bool_decide (ap_verdict r = VERDICT_PENDING))
    (act_on v subject reason at_).

(** [_SUPPRESS_CASE]. *)
Definition suppress_required_case (merchant case reason : pystr) (version at_ : Z) : db_txn (option Z) :=
  update_required_case s merchant case version (suppressed_case reason at_).

(** [_audit]: the [n]-th id, then the appender's answer. *)
Definition _audit (n : nat) : db_txn unit :=
  if request_audits self then
    _ ← demand (id ← request_ids self n; _ulid id "audit_entry_id");
    demand (audit_reply s)
  else mret tt.

(** The approval is closed with a verdict and its case suppressed. *)
Definition conclude (v : ApprovalVerdict) (subject : option pystr) (reason : pystr) (v_error c_error : string)
    (merchant approval : pystr) (l : LockedApproval) : db_txn ApprovalRequestResult :=
  row ← finish_approval v merchant approval subject reason (l_now l);
  _ ← demand (_one row v v_error);
  row ← suppress_required_case merchant (l_case_id l) reason (l_case_version l) (l_now l);
  _ ← demand (_one row (l_case_version l + 1) c_error);
  _ ← _audit 0;
  mret (mkRequestResult approval (Final v) (l_case_id l) (l_case_version l + 1) None None).

(** The row of [_INSERT_COMMAND]. *)
Definition command_job (id merchant approval : pystr) (c : MaterializeApprovedActionCommand) (at_ : Z) : OutboxRow :=
  new_row id merchant ($"APPROVAL") approval MATERIALIZE_APPROVED_ACTION_COMMAND_TYPE
    MATERIALIZE_APPROVED_ACTION_SCHEMA_VERSION (JDict (to_primitive c)) (approval_key approval) 8 at_ at_ at_.

Definition queue_command (merchant approval digest subject reason : pystr) (l : LockedApproval) :
    db_txn ApprovalRequestResult :=
  c ← demand (MaterializeApprovedActionCommand_post_init (mkMaterializeCommand merchant approval subject reason digest));
  id ← demand (id ← request_ids self 0; _ulid id "outbox_job_id");
  db ← here;
  match existing_command merchant (approval_key approval) (values_of (db_jobs db)) with
  | Some r =>
      _ ← demand (raise_if (negb (py_eqb (row_command_payload r) (JDict (to_primitive c))))
                    (ApprovalRequestConflict "approval_command_conflict"));
      mret (mkRequestResult approval APPROVAL_QUEUED (l_case_id l) (l_case_version l) (Some (row_id r)) (Some (row_status r)))
  | None =>
      row ← insert_job (command_job id merchant approval c (l_now l));
      _ ← demand (_one row id "approval_command_insert_failed");
      _ ← _audit 1;
      mret (mkRequestResult approval APPROVAL_QUEUED (l_case_id l) (l_case_version l) (Some id) (Some ST_PENDING))
  end.

(** The transaction of [act]. *)
Definition request_transaction (merchant approval digest subject : pystr) (v : ApprovalVerdict) (reason : pystr) :
    db_txn ApprovalRequestResult :=
  db ← here;
  match lock_approval (lock_now s) merchant approval db with
  | None => demand (Raise (ApprovalRequestNotFound "approval_not_found"))
  | Some l =>
      _ ← demand (_ulid (l_case_id l) "recovery_case_id");
      if decide (l_verdict l ≠ VERDICT_PENDING) then
        if decide (l_verdict l = v) then mret (mkRequestResult approval (Final v) (l_case_id l) (l_case_version l) None None)
        else demand (Raise (ApprovalRequestConflict "approval_already_final"))
      else if decide (l_case_state l ≠ APPROVAL_REQUIRED) then demand (Raise (ApprovalRequestConflict "approval_case_not_actionable"))
      else if l_expires_at l <=? l_now l then
        conclude VERDICT_EXPIRED None ($"approval_expired") "approval_expiry_failed" "approval_case_expiry_failed"
          merchant approval l
      else if decide (v = VERDICT_REJECTED) then
        match existing_command merchant (approval_key approval) (values_of (db_jobs db)) with
        | Some _ => demand (Raise (ApprovalRequestConflict "approval_materialization_already_queued"))
        | None =>
            conclude VERDICT_REJECTED (Some subject) reason "approval_rejection_failed" "approval_case_rejection_failed"
              merchant approval l
        end
      else queue_command merchant approval digest subject reason l
  end.

Definition act (merchant approval subject : pystr) (v : ApprovalVerdict) (reason key : pystr) (db : ApprovalDb) :
    ApprovalDb * result ApprovalRequestResult :=
  match check_request merchant approval subject v reason key with
  | Raise e => (db, Raise e)
  | Ok (digest, derived) =>
      commit_db (connection_fate s) (request_transaction merchant approval digest derived v reason) db
  end.
End request.

(** * What a request does *)

(** Whether the rows are those of a pending approval. *)
Record pending_at (merchant approval : pystr) (db : ApprovalDb) : Prop := {
  pa_merchant : ap_merchant_id (db_approval db) = merchant;
  pa_approval : ap_id (db_approval db) = approval;
  pa_pending : ap_verdict (db_approval db) = VERDICT_PENDING;
  pa_required : c_state (ac_row (db_case db)) = APPROVAL_REQUIRED;
  pa_case : ap_case_id (db_approval db) = c_id (ac_row (db_case db))
}.

(** The outcomes of a request, each with its answer. *)
Inductive requested (self : PostgresApprovalRequestService) (s : ApprovalSession)
    (merchant approval digest subject : pystr) (v : ApprovalVerdict) (reason : pystr) (db : ApprovalDb) :
    ApprovalDb → ApprovalRequestResult → Prop :=
  | requested_before :
      ap_merchant_id (db_approval db) = merchant → ap_id (db_approval db) = approval →
      ap_verdict (db_approval db) = v → v ≠ VERDICT_PENDING →
      requested self s merchant approval digest subject v reason db db
        (mkRequestResult approval (Final v) (ap_case_id (db_approval db)) (c_version (ac_row (db_case db))) None None)
  | requested_expired :
      pending_at merchant approval db → ap_expires_at (db_approval db) <= lock_now s →
      let db' := closed_db s VERDICT_EXPIRED None ($"approval_expired") (lock_now s) db in
      requested self s merchant approval digest subject v reason db db'
        (mkRequestResult approval (Final VERDICT_EXPIRED) (ap_case_id (db_approval db)) (c_version (ac_row (db_case db'))) None None)
  | requested_rejected :
      pending_at merchant approval db → lock_now s < ap_expires_at (db_approval db) → v = VERDICT_REJECTED →
      existing_command merchant (approval_key approval) (values_of (db_jobs db)) = None →
      let db' := closed_db s VERDICT_REJECTED (Some subject) reason (lock_now s) db in
      requested self s merchant approval digest subject v reason db db'
        (mkRequestResult approval (Final VERDICT_REJECTED) (ap_case_id (db_approval db)) (c_version (ac_row (db_case db'))) None None)
  | requested_again row :
      pending_at merchant approval db → lock_now s < ap_expires_at (db_approval db) → v ≠ VERDICT_REJECTED →
      existing_command merchant (approval_key approval) (values_of (db_jobs db)) = Some row →
      py_eqb (row_command_payload row)
        (JDict (to_primitive (mkMaterializeCommand merchant approval subject reason digest))) = true →
      requested self s merchant approval digest subject v reason db db
        (mkRequestResult approval APPROVAL_QUEUED (ap_case_id (db_approval db)) (c_version (ac_row (db_case db)))
           (Some (row_id row)) (Some (row_status row)))
  | requested_queued id :
      pending_at merchant approval db → lock_now s < ap_expires_at (db_approval db) → v ≠ VERDICT_REJECTED →
      existing_command merchant (approval_key approval) (values_of (db_jobs db)) = None →
      let c := mkMaterializeCommand merchant approval subject reason digest in
      valid_command c = true → db_jobs db !! id = None → row_constraints (command_job id merchant approval c (lock_now s)) = true →
      requested self s merchant approval digest subject v reason db
        (with_jobs db (<[id := command_job id merchant approval c (lock_now s)]> (db_jobs db)))
        (mkRequestResult approval APPROVAL_QUEUED (ap_case_id (db_approval db)) (c_version (ac_row (db_case db)))
           (Some id) (Some ST_PENDING)).

Section outcomes.
Context (self : PostgresApprovalRequestService) (s : ApprovalSession).

Lemma request_audit_keeps n db db' u : _audit self s n db = Ok (db', u) → db' = db.
Proof. unfold _audit. destruct (request_audits self); intros H; by repeat db_step. Qed.

Lemma conclude_Ok v subject reason v_error c_error merchant approval l db db' r :
  conclude self s v subject reason v_error c_error merchant approval l db = Ok (db', r) →
  db' = closed_db s v subject reason (l_now l) db
  ∧ r = mkRequestResult approval (Final v) (l_case_id l) (l_case_version l + 1) None None.
Proof.
  unfold conclude, finish_approval, suppress_required_case, _one. intros H. repeat db_step.
  match goal with E : _audit _ _ _ _ = _ |- _ => apply request_audit_keeps in E as -> end.
  match goal with E : update_approval _ _ _ = _ |- _ => apply update_approval_Ok in E as (_ & _ & _ & -> & _) end.
  match goal with E : update_required_case _ _ _ _ _ _ = _ |- _ =>
    apply update_required_case_Ok in E as (_ & _ & _ & _ & _ & _ & -> & _) end.
  done.
Qed.

Lemma queue_command_Ok merchant approval digest subject reason l db db' r :
  queue_command self s merchant approval digest subject reason l db = Ok (db', r) →
  let c := mkMaterializeCommand merchant approval subject reason digest in
  valid_command c = true
  ∧ match existing_command merchant (approval_key approval) (values_of (db_jobs db)) with
    | Some row => db' = db ∧ py_eqb (row_command_payload row) (JDict (to_primitive c)) = true
        ∧ r = mkRequestResult approval APPROVAL_QUEUED (l_case_id l) (l_case_version l) (Some (row_id row)) (Some (row_status row))
    | None => ∃ id, let job := command_job id merchant approval c (l_now l) in
        db' = with_jobs db (<[id := job]> (db_jobs db)) ∧ db_jobs db !! id = None ∧ row_constraints job = true
        ∧ r = mkRequestResult approval APPROVAL_QUEUED (l_case_id l) (l_case_version l) (Some id) (Some ST_PENDING)
    end.
Proof.
  unfold queue_command, _one. intros H. cbv zeta. repeat db_step.
  match goal with E : MaterializeApprovedActionCommand_post_init _ = _ |- _ => apply materialize_post_init_Ok in E as [-> ?] end.
  split; [done|]. destruct (existing_command _ _ _) as [row|]; repeat db_step.
  - by match goal with E : negb _ = false |- _ => apply negb_false_iff in E end.
  - match goal with E : _audit _ _ _ _ = _ |- _ => apply request_audit_keeps in E as -> end.
    match goal with E : insert_job _ _ = _ |- _ => apply insert_job_Ok in E as (jobs & _ & -> & ? & ? & -> & _) end.
    by eexists.
Qed.

Lemma request_transaction_Ok merchant approval digest subject v reason db db' r :
  v ∈ [VERDICT_APPROVED; VERDICT_REJECTED] →
  request_transaction self s merchant approval digest subject v reason db = Ok (db', r) →
  requested self s merchant approval digest subject v reason db db' r.
Proof.
  intros Hv H. unfold request_transaction in H. db_step. db_step. unfold lock_approval in H.
  destruct (_ && _) eqn:E; [|by db_step]. bools. repeat db_step. cbn in H.
  case_decide as Hp; [case_decide as Heq; db_step; [|done]|].
  { subst. by constructor; [..|set_solver]. }
  case_decide as Hc; [by db_step|].
  assert (pending_at merchant approval db) as Hpend by (split; congruence).
  destruct (Z.leb_spec (ap_expires_at (db_approval db)) (lock_now s)).
  { apply conclude_Ok in H as [-> ->]. by constructor. }
  case_decide as Hrej; [destruct (existing_command _ _ _) eqn:Ee; [by db_step|]|].
  { apply conclude_Ok in H as [-> ->]. subst v. by constructor. }
  apply queue_command_Ok in H as [Hvalid H].
  destruct (existing_command _ _ _) as [row|] eqn:Ee.
  - destruct H as (-> & ? & ->). by apply requested_again.
  - destruct H as (id & -> & ? & ? & ->). by apply requested_queued.
Qed.

Lemma request_cases merchant approval subject v reason key db db' r :
  act self s merchant approval subject v reason key db = (db', r) →
  (db' = db ∧ ∃ e, r = Raise e)
  ∨ ∃ digest derived res, check_request merchant approval subject v reason key = Ok (digest, derived)
      ∧ requested self s merchant approval digest derived v reason db db' res ∧ (r = Ok res ∨ ∃ e, r = Raise e).
Proof.
  unfold act. destruct (check_request _ _ _ _ _ _) as [[digest derived]|e] eqn:Ec; [|intros [= <- <-]; left; by eauto].
  intros [?|(res & Hres & Hr)]%commit_db_cases; [by left|right]. exists digest, derived, res.
  split; [done|]. split; [|done]. apply request_transaction_Ok; [|done].
  unfold check_request in Ec. inv_ok. bools. by apply dec_stable.
Qed.
End outcomes.
