(* ===== verification/ApprovalEffect.v ===== *)
(** An approved action on its way to the executor: what
    [services/control_plane/approval_service.py] inserts is what
    [services/control_plane/create_effect_worker.py] reads. *)
From S2P Require Import Prelude PyStr PyTime Json Canonical Values States Actions Gate Text Outbox PaymentLinks.
From S2P Require Import PgOutbox CommandCodec Executor CreateCommand EffectRows CreateHandler.
From S2P Require Import FreshTruth ApprovalRows ApprovalService.

(** * What a claim carries over *)
Lemma claimed_identity r c :
  _claimed_from_row r = Ok c →
  cmd_command_type c = row_command_type r ∧ cmd_command_schema_version c = row_command_schema_version r
  ∧ cmd_aggregate_type c = row_aggregate_type r ∧ cmd_aggregate_id c = row_aggregate_id r
  ∧ cmd_merchant_id c = row_merchant_id r ∧ cmd_idempotency_key c = row_idempotency_key r
  ∧ row_command_payload r = JDict (cmd_command_payload c).
Proof.
  intros H. pose proof (claimed_from_row_fields _ _ H) as (_ & _ & Hm & _ & _ & _ & _ & _ & _ & _ & Ht & Hp).
  split_and!; try done; unfold _claimed_from_row, ClaimedOutboxCommand_post_init in H; inv_ok;
    (destruct (row_lease_owner r); [|done]); (destruct (row_lease_token r); [|done]);
    (destruct (row_lease_expires_at r); [|done]); inv_ok; by subst c.
Qed.

(** * The command of a materialization is one the codec keeps *)
Section command.
Context (nfkd : pystr → pystr) (self : PostgresApprovalService).

Lemma request_of_Ok p x at_ r expires :
  request_of nfkd p x at_ = Ok (r, expires) →
  request_ok r ∧ (notes r).*1 = _REQUIRED_NOTE_KEYS ∧ amount_minor r = s_amount_minor x
  ∧ request_currency r = s_currency x ∧ wall at_ < max_wall.
Proof.
  unfold request_of. intros H. inv_ok.
  match goal with E : StandardPaymentLinkRequest_post_init _ = Ok _ |- _ =>
    pose proof E as Hinit; apply request_facts_ok in E as [? _] end.
  match goal with E : dt_add at_ _ = Ok _ |- _ => unfold dt_add in E; destruct (in_range _) eqn:Hin; [|done] end.
  unfold in_range, LINK_LIFETIME, seconds in Hin. simplify_eq. bools. cbn. split_and!; try done; [|lia].
  split; [done| |by cbn]. apply NoDup_cons. split; [set_solver|]. apply NoDup_singleton.
Qed.

Lemma later_of_clocks m x truth health :
  mz_acted_at m = dt_max (dt_max (s_database_now x) (truth_observed_at truth)) (health_observed_at health) →
  instant (s_database_now x) <= instant (mz_acted_at m).
Proof.
  intros ->. unfold dt_max, dt_ltb. repeat case_match; lia.
Qed.

Lemma context_evaluated p x truth health at_ a c :
  context_of self p x truth health at_ a = Ok c →
  0 <= instant at_ → wall at_ < max_wall → stored (evaluated_at c) = true.
Proof.
  unfold context_of, GateContext_post_init. intros H Hlow Hhigh. inv_ok. subst c. cbn in *.
  match goal with E : require_utc at_ _ = Ok ?u |- _ => pose proof (require_utc_Ok _ _ _ E) as (_ & Hu & Hi);
    unfold require_utc in E end. inv_ok.
  unfold stored. rewrite Hu. unfold astimezone_utc in *. destruct (is_utc at_) eqn:E.
  - simplify_eq. apply is_utc_eq in E. rewrite E, instant_utc in Hlow. unfold in_range. lia.
  - case_match; [|done]. by simplify_eq.
Qed.

Lemma materialized_encodable x subject m p truth health a context d :
  GatePolicy_post_init (service_gate self) = Ok (service_gate self) → 0 <= instant (s_database_now x) →
  decided nfkd self x subject m p truth health a context d → encodable (mz_command m).
Proof.
  intros Hgate Hnow []. pose proof dc_context as Hctx. pose proof (later_of_clocks _ _ _ _ dc_at) as Hlate.
  apply decoded_proposal in dc_proposal as [Hp Hc].
  apply materialization_Ok in dc_material as (r & le & Hr & -> & _). apply request_of_Ok in Hr as ([] & Hn & _ & _ & Hw).
  apply context_of_Ok in dc_context as (Hav & Hv & Hu & Hi & _).
  split; cbn; try done.
  - unfold evaluate_policy, _evaluate in dc_decision. inv_ok. subst d. cbn. unfold GatePolicy_post_init in Hgate. inv_ok.
    by match goal with E : require_identifier _ _ = Ok _ |- _ => apply require_identifier_Ok in E as [_ ?] end.
  - rewrite (evaluate_version _ _ _ _ _ _ dc_decision). lia.
  - assert (decision_evaluated_at d = evaluated_at context) as ->.
    { unfold evaluate_policy, _evaluate in dc_decision. inv_ok. by subst d. }
    eapply context_evaluated; [exact Hctx| |done]. lia.
Qed.
End command.

(** * From the service to the executor *)

(** The rows of an approved effect: a queued action without gate evidence that
    carries the intent [i] of [c], and a job that every claim of it, at any
    delivery, hands to the executor as [c]. *)
Record deliverable (nfkd : pystr → pystr) (nesting_limit : nat) (db : ApprovalDb) (action job : pystr)
    (c : CreatePaymentLinkCommand) (i : DurableActionIntent) : Prop := {
  dl_action : ∃ a, db_actions db !! action = Some a ∧ a_status (pa_row a) = ActionStatus.QUEUED
    ∧ pa_metadata a = intent_metadata i ∧ action_key (proposal c) = Ok (a_action_key (a_intent (pa_row a)))
    ∧ a_reference (a_intent (pa_row a)) = Some (reference_id (request c))
    ∧ EffectRows.snapshot (a_evidence (pa_row a)) = None ∧ action_constraints (pa_row a) = true;
  dl_intent : intent_matches i c = Ok true;
  dl_money : amount_minor (request c) = ac_amount_due (db_case db) ∧ request_currency (request c) = ac_currency (db_case db);
  dl_job : ∃ row, db_jobs db !! job = Some row ∧ row_aggregate_id row = action ∧ row_status row = ST_PENDING
    ∧ row_constraints row = true
    ∧ ∀ r claimed, row_identity r = row_identity row → _claimed_from_row r = Ok claimed →
        decode_create_standard_payment_link_command nfkd nesting_limit (jsonb (cmd_command_payload claimed))
          CREATE_STANDARD_PAYMENT_LINK_COMMAND_TYPE COMMAND_SCHEMA_VERSION = Ok c
        ∧ foreign_job claimed c = Ok false
}.

(** C6: what an approval inserts is what the executor reads.  After an answer
    APPROVED the action it names is queued and carries the intent of one
    command; whatever claim of the job it names, at any later delivery, is decoded
    to that command and taken as its own; the intent matches the command,
    and the command asks for the amount due of the case. *)
Theorem approved_effect_deliverable nfkd nesting_limit self load_now load_fate db0 s merchant approval subject reason db db' res :
  GatePolicy_post_init (service_gate self) = Ok (service_gate self) → 0 <= load_now →
  act nfkd self load_now load_fate db0 s merchant approval subject VERDICT_APPROVED reason db = (db', Ok res) →
  res_verdict res = VERDICT_APPROVED →
  ∃ action job c i, res_action_id res = Some action ∧ res_job_id res = Some job
    ∧ deliverable nfkd nesting_limit db' action job c i.
Proof.
  intros Hgate Hnow [(_ & e & [=])|(x & res' & Hx & _ & Hs & Hr)]%act_cases Hv.
  destruct Hr as [[= <-]|(e & [=])]. destruct Hs as [m _ Hd Hm|? v ? ? ? ? Hc (_ & _ & _ & ->)%approval_close_Ok].
  2:{ cbn in Hv. subst v. destruct Hc as [(_ & [=] & _)|(_ & Hc & _)]. set_solver. }
  apply decide_materializes in Hd as (p & truth & health & a & context & d & Hd).
  apply snapshot_approval in Hx as (_ & Hx & _).
  assert (encodable (mz_command m)) as Henc.
  { eapply materialized_encodable; [done| |done]. rewrite Hx. unfold timestamp. by rewrite instant_utc. }
  destruct Hd. apply materialization_Ok in dc_material as (r & le & Hreq & Hcmd & Hint & Hkey & Hpay & _).
  apply materialize_Ok in Hm as (Hb & -> & _ & _ & _ & _ & _ & _ & Hrow & _ & Hplan & _ & ->).
  apply bound_elim in Hb as []. pose proof (request_of_Ok _ _ _ _ _ _ Hreq) as (Hok & _ & Ham & Hcur & _).
  exists (mz_action_id m), (mz_job_id m), (mz_command m), (mz_intent m). split; [done|]. split; [done|]. split.
  - eexists. cbn [db_actions materialized_db]. rewrite lookup_insert_eq. split; [done|]. split_and!; try done; cbn.
    + by rewrite Hcmd.
    + unfold planned_constraints in Hplan. by bools.
  - assert (request_ok (request (mz_command m))) as Hok' by (by rewrite Hcmd).
    exact (proj1 (intent_binds_command _ _ _ _ Hok' Hok' Hint)).
  - rewrite Hcmd. cbn. rewrite Ham, Hcur. destruct bf_money. by split.
  - eexists. cbn [db_jobs materialized_db]. rewrite lookup_insert_eq. split_and!; [done..|].
    intros row claimed Hid Hcl. apply claimed_identity in Hcl as (E1 & E2 & E3 & _ & E4 & E5 & E6).
    unfold row_identity, effect_job, new_row in Hid. cbn in Hid.
    injection Hid as I1 I2 I3 I4 I5 I6 I7 I8 I9 I10.
    rewrite I7 in E6. injection E6 as <-. split; [by apply decode_encoded|].
    unfold foreign_job. rewrite E1, E2, E3, E4, E5, I2, I3, I5, I6, I8, Hcmd. cbn [proposal].
    rewrite !bool_decide_false by tauto. cbn. rewrite Hkey. cbn. by rewrite bool_decide_false by tauto.
Qed.

(** * Witness *)
Lemma approved_effect_deliverable_witness :
  ∃ db' res action job c i, sample_act unpaid_service VERDICT_APPROVED sample_approval_db = (db', Ok res)
    ∧ res_job_id res = Some job ∧ deliverable id 100 db' action job c i.
Proof.
  destruct (acted_Ok _ _ _ sample_approved) as (db' & res & E & Hv & _). unfold sample_act in E.
  destruct (approved_effect_deliverable id 100 unpaid_service sample_at None sample_approval_db
              sample_approval_session sample_merchant sample_approval_id ($"operator_1") ($"looks_right")
              sample_approval_db db' res) as (action & job & c & i & _ & Hj & Hd).
  - vm_compute. reflexivity.
  - vm_compute. discriminate.
  - exact E.
  - exact Hv.
  - exists db', res, action, job, c, i. split; [exact E|]. split; [exact Hj|exact Hd].
Defined.
