(* ===== verification/ApprovalWorker.v ===== *)
(** [services/control_plane/approval_worker.py]: the outbox handler that acts on a
    queued approval, with the probe that tells whether it is already settled. *)
From S2P Require Import Prelude PyStr PyTime Json Text States Actions Outbox PgOutbox OutboxWorker EffectRows.
From S2P Require Import CommandCodec CreateCommand ApprovalCommand ApprovalRows ApprovalService.

(** * The completion probe *)

(** The verdicts as the database writes them, and in lower case. *)
Definition verdict_text (v : ApprovalVerdict) : pystr :=
  match v with
  | VERDICT_PENDING => $"PENDING" | VERDICT_APPROVED => $"APPROVED" | VERDICT_REJECTED => $"REJECTED"
  | VERDICT_EXPIRED => $"EXPIRED" | VERDICT_CANCELLED => $"CANCELLED"
  end.
Definition verdict_casefold (v : ApprovalVerdict) : pystr := casefold (verdict_text v).

(** [_COMPLETION]: the verdict, the action of the approval and its effect job. *)
Definition action_of_approval (db : ApprovalDb) (merchant approval : pystr) : option PlannedAction :=
  List.find (λ a, bool_decide (a_merchant_id (a_intent (pa_row a)) = merchant)
                  && bool_decide (pa_approval_id a = Some approval))
    (values_of (db_actions db)).
Definition effect_job_of (db : ApprovalDb) (a : PlannedAction) : option OutboxRow :=
  List.find (λ r, bool_decide (row_merchant_id r = a_merchant_id (a_intent (pa_row a)))
                  && bool_decide (row_aggregate_type r = $"ACTION")
                  && bool_decide (row_aggregate_id r = a_id (a_intent (pa_row a)))
                  && bool_decide (row_command_type r = CREATE_STANDARD_PAYMENT_LINK_COMMAND_TYPE))
    (values_of (db_jobs db)).
Definition completion_row (db : ApprovalDb) (merchant approval : pystr) :
    option (ApprovalVerdict * option pystr * option pystr) :=
  let ap := db_approval db in
  if bool_decide (ap_merchant_id ap = merchant) && bool_decide (ap_id ap = approval) then
    let a := action_of_approval db merchant approval in
    Some (ap_verdict ap, (λ a, a_id (a_intent (pa_row a))) <$> a, row_id <$> (a ≫= effect_job_of db))
  else None.

(** [PostgresApprovalCompletionProbe.result]; [fate]: what the connection raises. *)
Definition probe (fate : option py_error) (db : ApprovalDb) (c : MaterializeApprovedActionCommand) :
    result (option pystr) :=
  match fate with
  | Some e => Raise e
  | None =>
      match completion_row db (mat_merchant_id c) (mat_approval_id c) with
      | None => Ok None
      | Some (VERDICT_APPROVED, Some action, Some job) => Ok (Some ($"approved:" ++ action ++ $":" ++ job))
      | Some (VERDICT_APPROVED, _, _) => Raise (RuntimeError "approved_action_materialization_incomplete")
      | Some (VERDICT_PENDING, _, _) => Ok None
      | Some (v, _, _) => Ok (Some (verdict_casefold v))
      end
  end.

(** * The handler *)

(** What a delivery meets: what others do to the rows before each of its four
    visits to the database, how the connections fare, and its clock readings. *)
Record ApprovalDelivery := mkApprovalDelivery {
  others : nat → ApprovalDb → ApprovalDb;
  probe_fate : option py_error;
  load_clock : Z;
  load_fault : option py_error;
  act_session : ApprovalSession;
  reprobe_fate : option py_error
}.

Section handler.
Context (nfkd : pystr → pystr) (service : PostgresApprovalService).

Definition INVALID_APPROVAL_COMMAND : result HandlerResult :=
  dead_lettered_by ($"invalid_approval_materialization_command").

Definition foreign_claim (claimed : ClaimedOutboxCommand) (c : MaterializeApprovedActionCommand) : bool :=
  bool_decide (cmd_aggregate_type claimed ≠ $"APPROVAL") || bool_decide (cmd_aggregate_id claimed ≠ mat_approval_id c)
  || bool_decide (cmd_merchant_id claimed ≠ mat_merchant_id c)
  || bool_decide (cmd_idempotency_key claimed ≠ $"materialize-approved-action:" ++ mat_approval_id c).

(** [try: completed = probe.result(command) except Exception: completed = None]. *)
Definition probe_again (v : ApprovalDelivery) (db : ApprovalDb) (c : MaterializeApprovedActionCommand) : option pystr :=
  match probe (reprobe_fate v) db c with Ok completed => completed | Raise _ => None end.

(** The reference of a settled approval. *)
Definition settled_reference (r : ApprovalActionResult) : pystr :=
  let verdict := verdict_casefold (res_verdict r) in
  let reference := match res_action_id r with Some (ch :: rest) => ch :: rest | _ => verdict end in
  $"approval:" ++ res_approval_id r ++ $":" ++ verdict ++ $":" ++ reference.

(** The [except] clauses; [db] is what the second probe sees. *)
Definition after_error (v : ApprovalDelivery) (db : ApprovalDb) (c : MaterializeApprovedActionCommand) (e : py_error) :
    result HandlerResult :=
  match e with
  | ApprovalNotFound _ =>
      match probe_again v db c with
      | Some completed => OutboxWorker.succeeded completed
      | None => dead_lettered_by ($"approval_no_longer_exists")
      end
  | ApprovalConflict reason =>
      match (if String.eqb reason "approval_state_changed" then probe_again v db c else None) with
      | Some completed => OutboxWorker.succeeded completed
      | None => dead_lettered_by (take 500 ($"approval_conflict:" ++ $reason))
      end
  | _ => retry_safely ($"approval_fresh_truth_unavailable") RECONCILE_ONLY
  end.

(** The approval is acted on as its command says. *)
Definition act_on_command (v : ApprovalDelivery) (db0 db : ApprovalDb) (c : MaterializeApprovedActionCommand) :
    ApprovalDb * result ApprovalActionResult :=
  ApprovalService.act nfkd service (load_clock v) (load_fault v) db0 (act_session v) (mat_merchant_id c) (mat_approval_id c)
    (mat_operator_subject c) VERDICT_APPROVED (mat_reason_code c) db.

(** The body of the [try], and what follows it. *)
Definition work_on (v : ApprovalDelivery) (c : MaterializeApprovedActionCommand) (db : ApprovalDb) :
    ApprovalDb * result HandlerResult :=
  let db := others v 0 db in
  match completed ← probe (probe_fate v) db c;
        match completed with Some reference => h ← OutboxWorker.succeeded reference; Ok (Some h) | None => Ok None end with
  | Ok (Some h) => (db, Ok h)
  | Raise e => let db := others v 3 db in (db, after_error v db c e)
  | Ok None =>
      let db0 := others v 1 db in
      match act_on_command v db0 (others v 2 db0) c with
      | (db, Ok r) => (db, OutboxWorker.succeeded (settled_reference r))
      | (db, Raise e) => let db := others v 3 db in (db, after_error v db c e)
      end
  end.

(** [__call__]. *)
Definition handle (v : ApprovalDelivery) (claimed : ClaimedOutboxCommand) (db : ApprovalDb) :
    ApprovalDb * result HandlerResult :=
  match decode_materialize_approved_action_command (JDict (cmd_command_payload claimed)) (cmd_command_type claimed)
          (cmd_command_schema_version claimed) with
  | Raise e => (db, if type_or_value_error e then INVALID_APPROVAL_COMMAND else Raise e)
  | Ok c => if foreign_claim claimed c then (db, INVALID_APPROVAL_COMMAND) else work_on v c db
  end.
End handler.

(** * References a result can carry *)

Lemma ulid_text s : is_ulid s = true → forallb visible s = true ∧ length s = 26%nat.
Proof. intros H. split; [by apply ulid_visible|]. apply ulid_length in H. unfold str_len in H. lia. Qed.

Lemma succeeded_visible s :
  s ≠ [] → forallb visible s = true → str_len s <= 500 →
  succeeded s = Ok (mkHandlerResult SUCCEEDED (Some s) None None).
Proof.
  intros Hne Hv Hl. unfold succeeded, HandlerResult_post_init. cbn [OutboxWorker.disposition result_reference].
  rewrite _clean_text_intro; [done|]. rewrite clean_text_visible by done. by apply Z.leb_le.
Qed.

(** The references of a settled approval are clean. *)
Lemma settled_reference_ok r :
  is_ulid (res_approval_id r) = true → (∀ a, res_action_id r = Some a → is_ulid a = true) →
  succeeded (settled_reference r) = Ok (mkHandlerResult SUCCEEDED (Some (settled_reference r)) None None).
Proof.
  intros [Hv Hl]%ulid_text Ha. unfold settled_reference.
  assert (forallb visible (verdict_casefold (res_verdict r)) = true ∧ (length (verdict_casefold (res_verdict r)) <= 9)%nat) as [Hc Hcl]
    by (destruct (res_verdict r); (split; [vm_compute; reflexivity|apply Nat.leb_le; vm_compute; reflexivity])).
  set (reference := match res_action_id r with Some (ch :: rest) => ch :: rest | _ => _ end).
  assert (forallb visible reference = true ∧ (length reference <= 26)%nat) as [Hr Hrl].
  { subst reference. destruct (res_action_id r) as [[|ch rest]|]; [split; [done|lia]| |split; [done|lia]].
    destruct (ulid_text _ (Ha _ eq_refl)) as [? ->]. split; [done|lia]. }
  clearbody reference. apply succeeded_visible; [done| |].
  - rewrite !forallb_app, Hv, Hc, Hr. done.
  - unfold str_len. rewrite !length_app, Hl. change (length ($"approval:")) with 9%nat. change (length ($":")) with 1%nat. lia.
Qed.

Lemma act_result_ids nfkd self load_now load_fate db0 s merchant approval subject v reason db db' res :
  ApprovalService.act nfkd self load_now load_fate db0 s merchant approval subject v reason db = (db', Ok res) →
  is_ulid (res_approval_id res) = true ∧ ∀ a, res_action_id res = Some a → is_ulid a = true.
Proof.
  intros [(_ & e & [=])|(x & res' & Hx & Hc & Hs & Hr)]%act_cases. destruct Hr as [[= <-]|(e & [=])].
  apply snapshot_approval in Hx as [Hx _]. unfold check_act, ApprovalService._ulid in Hc. inv_ok. subst.
  destruct Hs as [m _ Hd (_ & _ & _ & _ & _ & _ & _ & _ & _ & _ & _ & _ & ->)%materialize_Ok
                 |? ? ? ? ? ? _ (_ & _ & _ & ->)%approval_close_Ok]; cbn; [|split; [by bools|done]].
  apply decide_materializes in Hd as (p & truth & health & a & context & d & []).
  apply materialization_Ok in dc_material as (_ & _ & _ & _ & _ & _ & _ & Hi & _). split; [by bools|]. by intros ? [= <-].
Qed.

(** * What a delivery means *)

(** The approval is final, and approved only with its action and effect job. *)
Record settled_rows (db : ApprovalDb) (approval : pystr) : Prop := {
  sr_approval : ap_id (db_approval db) = approval;
  sr_final : ap_verdict (db_approval db) ≠ VERDICT_PENDING;
  sr_effect : ap_verdict (db_approval db) = VERDICT_APPROVED →
    ∃ id a job r, db_actions db !! id = Some a ∧ pa_approval_id a = Some approval
      ∧ db_jobs db !! job = Some r ∧ row_aggregate_id r = a_id (a_intent (pa_row a))
      ∧ row_command_type r = CREATE_STANDARD_PAYMENT_LINK_COMMAND_TYPE
}.

Lemma find_values {A} (f : A → bool) (m : gmap pystr A) a :
  List.find f (values_of m) = Some a → f a = true ∧ ∃ id, m !! id = Some a.
Proof.
  intros [Hin Hf]%find_some. split; [done|]. apply list_elem_of_In in Hin. unfold values_of in Hin.
  apply list_elem_of_fmap in Hin as ([id a'] & -> & Hin). exists id. by apply elem_of_map_to_list in Hin.
Qed.

Lemma probe_settled fate db c reference :
  probe fate db c = Ok (Some reference) → settled_rows db (mat_approval_id c).
Proof.
  unfold probe. destruct fate; [done|]. unfold completion_row. destruct (_ && _) eqn:E; [|done]. bools.
  destruct (action_of_approval _ _ _) as [a|] eqn:Ea; cbn.
  - destruct (effect_job_of db a) as [r|] eqn:Er; cbn; destruct (ap_verdict (db_approval db)) eqn:Ev; intros H; try done.
    all: split; rewrite ?Ev; try done. intros _.
    apply find_values in Ea as [Ea [id Hid]]. apply find_values in Er as [Er [job Hjob]]. bools.
    by exists id, a, job, r.
  - destruct (ap_verdict (db_approval db)) eqn:Ev; intros H; try done. all: split; rewrite ?Ev; done.
Qed.

Lemma act_settled nfkd self load_now load_fate db0 s merchant approval subject v reason db db' res :
  ApprovalService.act nfkd self load_now load_fate db0 s merchant approval subject v reason db = (db', Ok res) →
  settled_rows db' approval.
Proof.
  intros [(_ & e & [=])|(x & res' & Hx & _ & Hs & _)]%act_cases. apply snapshot_approval in Hx as [Hx _].
  destruct Hs as [m _ _ (Hb & -> & _)%materialize_Ok|merchant' w closing at_ ? ? Hw (Hb & -> & _)%approval_close_Ok];
    apply bound_elim in Hb as []; split; cbn; try done; try congruence.
  - intros _. exists (mz_action_id m). eexists. exists (mz_job_id m). eexists. rewrite !lookup_insert_eq.
    split; [done|]. cbn. split; [congruence|]. by split.
  - destruct Hw as [(_ & -> & _)|(_ & ? & _)]; set_solver.
  - intros ->. destruct Hw as [(_ & ? & _)|(_ & ? & _)]; set_solver.
Qed.

(** What a result of the handler claims about the rows. *)
Definition told (db : ApprovalDb) (c : MaterializeApprovedActionCommand) (h : HandlerResult) : Prop :=
  match OutboxWorker.disposition h with
  | SUCCEEDED => settled_rows db (mat_approval_id c)
  | RETRY => result_retry_mode h = Some RECONCILE_ONLY
  | DEAD_LETTERED => True
  end.

Lemma succeeded_told db c reference h :
  settled_rows db (mat_approval_id c) → succeeded reference = Ok h → told db c h.
Proof. by intros ? ->%handler_result_same. Qed.
Lemma dead_lettered_told db c reason h : dead_lettered_by reason = Ok h → told db c h.
Proof. by intros ->%handler_result_same. Qed.
Lemma retry_told db c reason h : retry_safely reason RECONCILE_ONLY = Ok h → told db c h.
Proof. by intros ->%handler_result_same. Qed.

Lemma after_error_told v db c e h : after_error v db c e = Ok h → told db c h.
Proof.
  assert (∀ reference, probe_again v db c = Some reference → settled_rows db (mat_approval_id c)) as Hp.
  { intros reference. unfold probe_again. destruct (probe _ _ _) eqn:E; [|done]. intros ->. by eapply probe_settled. }
  destruct e as []; cbn [after_error]; try apply retry_told.
  all: repeat case_match; first [apply dead_lettered_told|intros Hs; exact (succeeded_told _ _ _ _ (Hp _ ltac:(done)) Hs)|done].
Qed.

(** A step of the handler under the one commit it makes: what it may leave. *)
Lemma work_told nfkd service v c db db' h :
  work_on nfkd service v c db = (db', Ok h) → told db' c h.
Proof.
  unfold work_on. destruct (_ ≫= _) as [[h'|]|e] eqn:E.
  - intros [= <- <-]. inv_ok. destruct r as [reference|]; inv_ok; [|done]. simplify_eq.
    eapply succeeded_told; [|done]. by eapply probe_settled.
  - destruct (act_on_command _ _ _ _ _ _) as [db2 [r|e]] eqn:Ea.
    + intros [= <- Hs]. eapply succeeded_told; [|exact Hs]. by eapply act_settled.
    + intros [= <- Hs]. by eapply after_error_told.
  - intros [= <- Hs]. by eapply after_error_told.
Qed.

(** Alone, and with its commits acknowledged, a delivery that does not succeed
    changes nothing. *)
Lemma work_unchanged nfkd service v c db db' h :
  (∀ k x, others v k x = x) → (∀ e, connection_fate (act_session v) ≠ ReplyLost e) →
  work_on nfkd service v c db = (db', h) →
  db' = db ∨ ∃ reference, h = Ok (mkHandlerResult SUCCEEDED (Some reference) None None).
Proof.
  intros Ho Hf. unfold work_on. destruct (_ ≫= _) as [[h'|]|e] eqn:E; [intros [= <- <-]; by left| |intros [= <- <-]; left; by rewrite !Ho].
  destruct (act_on_command _ _ _ _ _ _) as [db2 [r|e]] eqn:Ea; intros [= <- <-].
  - right. exists (settled_reference r). pose proof (act_result_ids _ _ _ _ _ _ _ _ _ _ _ _ _ _ Ea) as [? ?].
    by apply settled_reference_ok.
  - left. rewrite Ho. unfold act_on_command in Ea. rewrite !Ho in Ea.
    by eapply raised_act_unchanged in Ea.
Qed.

Lemma own_claim claimed c :
  foreign_claim claimed c = false →
  cmd_aggregate_id claimed = mat_approval_id c ∧ cmd_merchant_id claimed = mat_merchant_id c.
Proof. unfold foreign_claim. intros H. bools. split; by apply dec_stable. Qed.

(** C8: what a delivery of an approval command answers is true.  If it succeeded
    the approval it names is final, and approved only together with an action and
    its effect job; if it asks for a retry it asks to reconcile only; and with
    nobody else at work and the replies of its commits not lost, a delivery that
    did not succeed has changed nothing. *)
Theorem approval_delivery_meaning nfkd service v claimed db db' h :
  handle nfkd service v claimed db = (db', Ok h) →
  (OutboxWorker.disposition h = SUCCEEDED → settled_rows db' (cmd_aggregate_id claimed))
  ∧ (OutboxWorker.disposition h = RETRY → result_retry_mode h = Some RECONCILE_ONLY)
  ∧ ((∀ k x, others v k x = x) → (∀ e, connection_fate (act_session v) ≠ ReplyLost e) →
     OutboxWorker.disposition h ≠ SUCCEEDED → db' = db).
Proof.
  unfold handle. destruct (decode_materialize_approved_action_command _ _ _) as [c|e].
  - destruct (foreign_claim claimed c) eqn:Ef.
    + intros [= <- <-]. by split_and!.
    + intros H. pose proof (work_told _ _ _ _ _ _ _ H) as Ht. unfold told in Ht. apply own_claim in Ef as [Ef _].
      split_and!.
      * intros E. rewrite E in Ht. by rewrite Ef.
      * intros E. by rewrite E in Ht.
      * intros Ho Hf Hn. destruct (work_unchanged _ _ _ _ _ _ _ Ho Hf H) as [?|(reference & [= ->])]; [done|by destruct Hn].
  - destruct (type_or_value_error e); [|done]. intros [= <- <-]. by split_and!.
Qed.

(** * Witness *)
Definition sample_delivery : ApprovalDelivery :=
  mkApprovalDelivery (λ _ x, x) None sample_at None sample_approval_session None.
Definition sample_approval_command : MaterializeApprovedActionCommand :=
  mkMaterializeCommand sample_merchant sample_approval_id (OPERATOR_PREFIX ++ repeat 97 64) ($"looks_right") (repeat 48 64).
Definition sample_approval_claim : ClaimedOutboxCommand :=
  mkClaimedOutboxCommand ($"01ARZ3NDEKTSV4RRFFQ69G5FD0") sample_merchant ($"APPROVAL") sample_approval_id
    MATERIALIZE_APPROVED_ACTION_COMMAND_TYPE 1 (to_primitive sample_approval_command)
    ($"materialize-approved-action:" ++ sample_approval_id) 1 8 ($"w1") ($"token") (utc (sample_at + seconds 60)) 1
    NORMAL_RETRY (utc sample_at) (utc sample_at).
Definition handled_to (d : HandlerDisposition) (x : ApprovalDb * result HandlerResult) : bool :=
  match snd x with Ok h => bool_decide (OutboxWorker.disposition h = d) | Raise _ => false end.
Lemma handled_to_Ok d x : handled_to d x = true → ∃ db' h, x = (db', Ok h) ∧ OutboxWorker.disposition h = d.
Proof. unfold handled_to. destruct x as [db' [h|e]]; [|done]. intros H%bool_decide_eq_true. by exists db', h. Qed.

Lemma sample_delivered :
  handled_to SUCCEEDED (handle id unpaid_service sample_delivery sample_approval_claim sample_approval_db) = true.
Proof. vm_compute. reflexivity. Qed.

Lemma approval_delivery_meaning_witness :
  ∃ db' h, handle id unpaid_service sample_delivery sample_approval_claim sample_approval_db = (db', Ok h)
    ∧ settled_rows db' sample_approval_id.
Proof.
  destruct (handled_to_Ok _ _ sample_delivered) as (db' & h & E & Hd). exists db', h. split; [exact E|].
  exact (proj1 (approval_delivery_meaning _ _ _ _ _ _ _ E) Hd).
Defined.
