(* ===== verification/ApprovalSystem.v ===== *)
(** The approval as a whole: the operator's request
    ([services/control_plane/approval_request.py]), the command it queues, the
    worker ([approval_worker.py]) and the service it calls
    ([approval_service.py]), interleaved with everything else. *)
From S2P Require Import Prelude PyStr Sha256 PyTime Json Digest States Actions Executor Outbox PgOutbox OutboxWorker CommandCodec EffectRows.
From S2P Require Import ApprovalCommand FreshTruth ApprovalRows ApprovalService ApprovalRequest ApprovalWorker ApprovalEffect.

(** * From the operator to the worker *)

Lemma to_primitive_eqb c c' : py_eqb (JDict (to_primitive c)) (JDict (to_primitive c')) = true ↔ c = c'.
Proof.
  assert (∀ c, py_norm (JDict (to_primitive c)) = JDict (to_primitive c)) as Hn by reflexivity.
  unfold py_eqb. rewrite !Hn, bool_decide_eq_true. split; [|by intros ->].
  destruct c, c'. cbn. by intros [= -> -> -> -> ->].
Qed.

(** The key of a command is unique in the table, so a new row is the one found. *)
Lemma existing_command_inserted (jobs : gmap pystr OutboxRow) merchant key r :
  existing_command merchant key (values_of jobs) = None → row_merchant_id r = merchant → row_idempotency_key r = key →
  existing_command merchant key (values_of (<[row_id r := r]> jobs)) = Some r.
Proof.
  intros Hnone Hm Hk. unfold existing_command in *.
  destruct (List.find _ (values_of (<[_ := _]> _))) as [r'|] eqn:E.
  - apply find_some in E as [Hin Hp]. apply list_elem_of_In in Hin. unfold values_of in Hin.
    apply list_elem_of_fmap in Hin as ([id r''] & -> & Hin). apply elem_of_map_to_list in Hin. cbn in *.
    apply lookup_insert_Some in Hin as [[_ ->]|[_ Hin]]; [done|].
    eapply find_none in Hnone; [by rewrite Hnone in Hp|]. apply list_elem_of_In. unfold values_of.
    apply list_elem_of_fmap. exists (id, r''). split; [done|]. by apply elem_of_map_to_list.
  - eapply find_none in E; [|apply list_elem_of_In; unfold values_of; apply list_elem_of_fmap;
      exists (row_id r, r); split; [done|]; apply elem_of_map_to_list, lookup_insert_eq].
    cbn in E. by rewrite Hm, Hk, !bool_decide_true in E.
Qed.

(** Whatever claim of a queued command's row the worker gets, it reads the
    command in it. *)
Lemma queued_command_read id merchant approval c at_ r claimed :
  valid_command c = true → mat_merchant_id c = merchant → mat_approval_id c = approval →
  row_identity r = row_identity (command_job id merchant approval c at_) → _claimed_from_row r = Ok claimed →
  decode_materialize_approved_action_command (JDict (cmd_command_payload claimed)) (cmd_command_type claimed)
    (cmd_command_schema_version claimed) = Ok c
  ∧ foreign_claim claimed c = false.
Proof.
  intros Hv Hm Ha Hid Hcl. apply claimed_identity in Hcl as (E1 & E2 & E3 & E4 & E5 & E6 & E7).
  unfold row_identity, command_job, new_row in Hid. cbn in Hid. injection Hid as I1 I2 I3 I4 I5 I6 I7 I8 I9 I10.
  rewrite I7 in E7. injection E7 as <-. split.
  - apply decode_materialize_Ok; [unfold to_primitive; rewrite versioned_keys; apply materialize_fields_NoDup|]. rewrite E1, E2, I5, I6.
    split_and!; try done. by exists (JInt 1).
  - unfold foreign_claim. rewrite E3, E4, E5, E6, I2, I3, I4, I8, Hm, Ha. unfold approval_key.
    by rewrite !bool_decide_false by tauto.
Qed.

(** The same approval in the same case: nothing the request compares moved. *)
Definition same_request_rows (db db2 : ApprovalDb) : Prop :=
  db_approval db2 = db_approval db ∧ c_id (ac_row (db_case db2)) = c_id (ac_row (db_case db))
  ∧ c_merchant_id (ac_row (db_case db2)) = c_merchant_id (ac_row (db_case db))
  ∧ c_state (ac_row (db_case db2)) = c_state (ac_row (db_case db)).

Section queued.
Context (self : PostgresApprovalRequestService).

(** A later request on a pending approval whose command is queued as [row]. *)
Lemma request_when_queued s merchant approval subject v reason key digest derived db row :
  check_request merchant approval subject v reason key = Ok (digest, derived) →
  pending_at merchant approval db → c_merchant_id (ac_row (db_case db)) = merchant →
  is_ulid (ap_case_id (db_approval db)) = true → lock_now s < ap_expires_at (db_approval db) →
  connection_fate s = NoFault →
  existing_command merchant (approval_key approval) (values_of (db_jobs db)) = Some row →
  ApprovalRequest.act self s merchant approval subject v reason key db
  = if decide (v = VERDICT_REJECTED) then (db, Raise (ApprovalRequestConflict "approval_materialization_already_queued"))
    else match queue_command self s merchant approval digest derived reason
                 (mkLockedApproval VERDICT_PENDING (ap_case_id (db_approval db)) (ap_expires_at (db_approval db))
                    APPROVAL_REQUIRED (c_version (ac_row (db_case db))) (lock_now s)) db with
         | Ok (db', r) => (db', Ok r)
         | Raise e => (db, Raise e)
         end.
Proof.
  intros Hc [] Hm Hu Hlive Hfate Hrow. unfold ApprovalRequest.act. rewrite Hc, Hfate, commit_db_NoFault.
  unfold request_transaction. rewrite here_bind. unfold lock_approval.
  rewrite !bool_decide_true by congruence. cbn [andb]. rewrite pa_pending, pa_required. cbv beta iota.
  unfold ApprovalRequest._ulid at 1. cbn [l_case_id]. rewrite Hu. cbn [negb raise_if]. rewrite bind_Ok_l, demand_bind.
  cbn [l_verdict l_case_state l_expires_at l_now]. rewrite !decide_False by tauto.
  rewrite (proj2 (Z.leb_gt _ _)) by done. rewrite Hrow. by destruct (decide _).
Qed.
End queued.

Lemma request_case_ulid self s merchant approval digest derived v reason db db' res :
  request_transaction self s merchant approval digest derived v reason db = Ok (db', res) →
  is_ulid (ap_case_id (db_approval db)) = true ∧ c_merchant_id (ac_row (db_case db)) = merchant.
Proof.
  unfold request_transaction. rewrite here_bind. unfold lock_approval. destruct (_ && _) eqn:E; [|done]. bools.
  intros H. db_step. db_step. unfold ApprovalRequest._ulid in Hr. cbn in Hr. inv_ok. bools. split; [done|congruence].
Qed.

Lemma queue_command_id self s merchant approval digest derived reason l db db' res :
  queue_command self s merchant approval digest derived reason l db = Ok (db', res) →
  ∃ id, (id ← request_ids self 0; ApprovalRequest._ulid id "outbox_job_id") = Ok id.
Proof.
  unfold queue_command. intros H. db_step. db_step. db_step. db_step. by exists r0.
Qed.

(** The digest of a key is one. *)
Lemma valid_other_digest merchant approval subject v reason key digest digest2 derived :
  check_request merchant approval subject v reason key = Ok (digest2, derived) →
  valid_command (mkMaterializeCommand merchant approval derived reason digest) = true →
  valid_command (mkMaterializeCommand merchant approval derived reason digest2) = true.
Proof.
  unfold check_request, valid_command. intros H. inv_ok. simplify_eq. cbn. rewrite !andb_true_iff. intros [? _].
  split; [done|]. apply is_digest_sha256.
Qed.

(** What the answer to a queued request says, and what it leaves. *)
Lemma queued_cases self s merchant approval subject reason key db db' res :
  existing_command merchant (approval_key approval) (values_of (db_jobs db)) = None →
  ApprovalRequest.act self s merchant approval subject VERDICT_APPROVED reason key db = (db', Ok res) →
  rr_verdict res = APPROVAL_QUEUED →
  ∃ digest derived id, let c := mkMaterializeCommand merchant approval derived reason digest in
    let row := command_job id merchant approval c (lock_now s) in
    check_request merchant approval subject VERDICT_APPROVED reason key = Ok (digest, derived)
    ∧ pending_at merchant approval db ∧ valid_command c = true ∧ db_jobs db !! id = None
    ∧ db' = with_jobs db (<[id := row]> (db_jobs db))
    ∧ res = mkRequestResult approval APPROVAL_QUEUED (ap_case_id (db_approval db)) (c_version (ac_row (db_case db)))
              (Some id) (Some ST_PENDING)
    ∧ is_ulid (ap_case_id (db_approval db)) = true ∧ c_merchant_id (ac_row (db_case db)) = merchant
    ∧ ∃ other, (id ← request_ids self 0; ApprovalRequest._ulid id "outbox_job_id") = Ok other.
Proof.
  intros Hnone H Hq. pose proof H as H'. apply request_cases in H as [(_ & e & [=])|(digest & derived & res' & Hc & Hreq & Hr)].
  destruct Hr as [[= <-]|(e & [=])].
  unfold ApprovalRequest.act in H'. rewrite Hc in H'. apply commit_db_cases in H' as [(_ & e & [=])|(res'' & Htx & Hr)].
  pose proof (request_case_ulid _ _ _ _ _ _ _ _ _ _ _ Htx) as [Hu Hm].
  inversion Hreq as [|? ? Ed Er|? ? ? ? ? Er|row ? ? ? He|id Hp Hlive ? ? c Hv Hfresh Hrc Ed Er]; subst; try done; [congruence|].
  exists digest, derived, id. cbv zeta. split_and!; try done.
  unfold request_transaction in Htx. rewrite here_bind in Htx. destruct Hp. unfold lock_approval in Htx.
  rewrite !bool_decide_true in Htx by congruence. cbn [andb] in Htx. db_step. rewrite decide_False in Htx by (cbn; tauto).
  db_step. rewrite decide_False in Htx by (cbn; tauto). cbn [l_expires_at l_now] in Htx.
  rewrite (proj2 (Z.leb_gt _ _)) in Htx by done. rewrite decide_False in Htx by done. by apply queue_command_id in Htx.
Qed.

(** C7: an approval is queued once, as what the operator said.  A request to
    approve that finds no command queues one row, new and under the approval's
    own key; every claim of it, at any later delivery, is read by the worker as
    this approval, operator and reason.  While approval and case stay as they are,
    the same request again answers with that job and its status and changes
    nothing, one under another idempotency key is a conflict, and a rejection is
    refused. *)
Theorem approval_queued_once self s merchant approval subject reason key db db' res :
  existing_command merchant (approval_key approval) (values_of (db_jobs db)) = None →
  ApprovalRequest.act self s merchant approval subject VERDICT_APPROVED reason key db = (db', Ok res) →
  rr_verdict res = APPROVAL_QUEUED →
  ∃ digest derived job row, let c := mkMaterializeCommand merchant approval derived reason digest in
    check_request merchant approval subject VERDICT_APPROVED reason key = Ok (digest, derived)
    ∧ rr_job_id res = Some job ∧ db_jobs db !! job = None ∧ db' = with_jobs db (<[job := row]> (db_jobs db))
    ∧ existing_command merchant (approval_key approval) (values_of (db_jobs db')) = Some row
    ∧ (∀ r claimed, row_identity r = row_identity row → _claimed_from_row r = Ok claimed →
         decode_materialize_approved_action_command (JDict (cmd_command_payload claimed)) (cmd_command_type claimed)
           (cmd_command_schema_version claimed) = Ok c ∧ foreign_claim claimed c = false)
    ∧ ∀ s2 db2 row2, same_request_rows db db2 → connection_fate s2 = NoFault →
        lock_now s2 < ap_expires_at (db_approval db2) →
        existing_command merchant (approval_key approval) (values_of (db_jobs db2)) = Some row2 →
        row_identity row2 = row_identity row →
        ApprovalRequest.act self s2 merchant approval subject VERDICT_APPROVED reason key db2
          = (db2, Ok (mkRequestResult approval APPROVAL_QUEUED (ap_case_id (db_approval db)) (c_version (ac_row (db_case db2)))
                        (Some job) (Some (row_status row2))))
        ∧ (∀ key2 digest2, check_request merchant approval subject VERDICT_APPROVED reason key2 = Ok (digest2, derived) →
             digest2 ≠ digest →
             ApprovalRequest.act self s2 merchant approval subject VERDICT_APPROVED reason key2 db2
             = (db2, Raise (ApprovalRequestConflict "approval_command_conflict")))
        ∧ ∀ subject2 reason2 key2 x, check_request merchant approval subject2 VERDICT_REJECTED reason2 key2 = Ok x →
            ApprovalRequest.act self s2 merchant approval subject2 VERDICT_REJECTED reason2 key2 db2
            = (db2, Raise (ApprovalRequestConflict "approval_materialization_already_queued")).
Proof.
  intros Hnone H Hq. destruct (queued_cases _ _ _ _ _ _ _ _ _ _ Hnone H Hq)
    as (digest & derived & id & Hc & Hp & Hv & Hfresh & -> & -> & Hu & Hm & other & Hother).
  exists digest, derived, id. eexists. cbv zeta. split; [done|]. split; [done|]. split; [done|]. split; [done|].
  split; [by apply existing_command_inserted|]. split; [intros r claimed; by apply queued_command_read|].
  intros s2 db2 row2 (Ea & Ei & Em & Es) Hfate Hlive Hrow Hid.
  assert (pending_at merchant approval db2) as Hp2 by (destruct Hp; split; congruence).
  assert (c_merchant_id (ac_row (db_case db2)) = merchant) as Hm2 by congruence.
  assert (is_ulid (ap_case_id (db_approval db2)) = true) as Hu2 by congruence.
  unfold row_identity, command_job, new_row in Hid. cbn in Hid. injection Hid as I1 _ _ _ _ _ I7 _ _ _.
  pose proof (request_when_queued self s2 merchant approval) as Hact.
  assert (∀ digest2, valid_command (mkMaterializeCommand merchant approval derived reason digest2) = true →
    queue_command self s2 merchant approval digest2 derived reason
      (mkLockedApproval VERDICT_PENDING (ap_case_id (db_approval db2)) (ap_expires_at (db_approval db2))
         APPROVAL_REQUIRED (c_version (ac_row (db_case db2))) (lock_now s2)) db2
    = if decide (digest2 = digest) then Ok (db2, mkRequestResult approval APPROVAL_QUEUED (ap_case_id (db_approval db))
                  (c_version (ac_row (db_case db2))) (Some id) (Some (row_status row2)))
      else Raise (ApprovalRequestConflict "approval_command_conflict")) as Hqueue.
  { intros digest2 Hv2. unfold queue_command. rewrite (proj2 (materialize_post_init_Ok _ _) (conj eq_refl Hv2)).
    rewrite demand_bind, Hother, demand_bind, here_bind, Hrow, I7. destruct (decide (digest2 = digest)) as [->|Hne].
    - rewrite (proj2 (to_primitive_eqb _ _)) by done. cbn [negb raise_if]. by rewrite demand_bind, I1, Ea.
    - destruct (py_eqb _ _) eqn:E; [|done]. apply to_primitive_eqb in E. by injection E as ->. }
  split_and!.
  - erewrite Hact by done. rewrite decide_False, Hqueue by done. by rewrite decide_True.
  - intros key2 digest2 Hc2 Hne. erewrite Hact by done. rewrite decide_False, Hqueue by (done || by eapply valid_other_digest).
    by rewrite decide_False.
  - intros subject2 reason2 key2 [] Hc2. erewrite Hact by done. by rewrite decide_True.
Qed.

(** * Any interleaving *)

(** The actions that name the approval of the rows. *)
Definition effects (db : ApprovalDb) : gset pystr :=
  dom (filter (λ kv, pa_approval_id kv.2 = Some (ap_id (db_approval db))) (db_actions db)).

(** What everyone else may do: anything to the case, its surroundings, the
    instruments and the jobs, and to the actions but insert one for this approval
    or give it up. *)
Definition elsewhere (db db' : ApprovalDb) : Prop :=
  db_approval db' = db_approval db ∧ effects db' = effects db.

(** A step of the system: a call of either service, over whatever it loaded
    before, or something else. *)
Inductive approval_step : ApprovalDb → ApprovalDb → Prop :=
  | step_request self s merchant approval subject v reason key db db' r :
      ApprovalRequest.act self s merchant approval subject v reason key db = (db', r) → approval_step db db'
  | step_service nfkd self load_now load_fate db0 s merchant approval subject v reason db db' r :
      ApprovalService.act nfkd self load_now load_fate db0 s merchant approval subject v reason db = (db', r) →
      approval_step db db'
  | step_elsewhere db db' : elsewhere db db' → approval_step db db'.

(** The effects of an approval are as many as its verdict says, and none goes. *)
Record decided_rows (db : ApprovalDb) : Prop := {
  dr_effects : size (effects db) = if decide (ap_verdict (db_approval db) = VERDICT_APPROVED) then 1%nat else 0%nat
}.

(** What a step does to the approval: it keeps it, or decides it once. *)
Inductive decision_kept (db db' : ApprovalDb) : Prop :=
  | decision_same : db_approval db' = db_approval db → effects db' = effects db → decision_kept db db'
  | decision_made :
      ap_verdict (db_approval db) = VERDICT_PENDING → ap_verdict (db_approval db') ≠ VERDICT_PENDING →
      ap_id (db_approval db') = ap_id (db_approval db) →
      (if decide (ap_verdict (db_approval db') = VERDICT_APPROVED)
       then (∃ a, (a ∉ effects db) ∧ effects db' = {[a]} ∪ effects db) else effects db' = effects db) →
      decision_kept db db'.

Lemma closed_decision s v subject reason at_ db :
  v ∉ [VERDICT_PENDING; VERDICT_APPROVED] → ap_verdict (db_approval db) = VERDICT_PENDING →
  decision_kept db (closed_db s v subject reason at_ db).
Proof.
  intros Hv Hp. apply decision_made; cbn; try done; [set_solver|]. by rewrite decide_False by set_solver.
Qed.

Lemma request_decision self s merchant approval subject v reason key db db' r :
  ApprovalRequest.act self s merchant approval subject v reason key db = (db', r) → decision_kept db db'.
Proof.
  intros [[-> _]|(digest & derived & res & _ & Hr & _)]%request_cases; [by apply decision_same|].
  destruct Hr as [|[]|[]| |]; try (by apply decision_same); by (apply closed_decision; [set_solver|]).
Qed.

Lemma service_decision nfkd self load_now load_fate db0 s merchant approval subject v reason db db' r :
  ApprovalService.act nfkd self load_now load_fate db0 s merchant approval subject v reason db = (db', r) →
  decision_kept db db'.
Proof.
  intros [[-> _]|(x & res & _ & _ & Hs & _)]%act_cases; [by apply decision_same|].
  destruct Hs as [m -> _ (Hb & -> & _ & _ & _ & Ha & _)%materialize_Ok|merchant' w closing at_ ? ? Hw (Hb & -> & _)%approval_close_Ok];
    apply bound_elim in Hb as [].
  - apply decision_made; cbn; try done. exists (mz_action_id m). unfold effects. split.
    + rewrite elem_of_dom. intros [a [Hin _]%map_lookup_filter_Some]. congruence.
    + cbn. rewrite map_filter_insert_True by (cbn; congruence). by rewrite dom_insert_L.
  - apply closed_decision; [|done]. destruct Hw as [(_ & -> & _)|(_ & ? & _)]; set_solver.
Qed.

Lemma step_decision db db' : approval_step db db' → decision_kept db db'.
Proof.
  intros [?|?|? ? []]; [by eapply request_decision|by eapply service_decision|by apply decision_same].
Qed.

Lemma decision_rows db db' : decision_kept db db' → decided_rows db → decided_rows db'.
Proof.
  intros [E1 E2|Hp Hn _ He] [Hs]; split; [by rewrite E2, E1|]. rewrite decide_False in Hs by congruence.
  case_decide; [|by rewrite He]. destruct He as (a & Ha & ->). rewrite size_union, size_singleton, Hs; [done|set_solver].
Qed.

Lemma decision_final db db' :
  decision_kept db db' → ap_verdict (db_approval db) ≠ VERDICT_PENDING →
  db_approval db' = db_approval db ∧ effects db' = effects db.
Proof. by intros [|?]. Qed.

Lemma run_final db db' :
  rtc approval_step db db' → ap_verdict (db_approval db) ≠ VERDICT_PENDING →
  db_approval db' = db_approval db ∧ effects db' = effects db.
Proof.
  induction 1 as [|x y z Hxy _ IH]; [done|]. intros Hn. destruct (decision_final _ _ (step_decision _ _ Hxy) Hn) as [E1 E2].
  rewrite E1 in IH. destruct (IH Hn) as [-> ->]. by split.
Qed.

(** C5: an approval has one outcome and at most one effect.  However the
    operator's requests, the worker's calls, each over rows it loaded at any
    earlier time, crashes and everything else interleave: at any time the
    approval has one action if it is approved and none otherwise, and once it is
    decided, neither the decision nor its actions ever change. *)
Theorem approval_decided_once db0 db db' :
  ap_verdict (db_approval db0) = VERDICT_PENDING → effects db0 = ∅ →
  rtc approval_step db0 db → rtc approval_step db db' →
  size (effects db') = (if decide (ap_verdict (db_approval db') = VERDICT_APPROVED) then 1%nat else 0%nat)
  ∧ (ap_verdict (db_approval db) ≠ VERDICT_PENDING → db_approval db' = db_approval db ∧ effects db' = effects db).
Proof.
  intros Hp He H1 H2. split; [|by apply run_final].
  assert (decided_rows db0) as H0 by (split; rewrite He, Hp; by rewrite size_empty).
  assert (∀ x y, rtc approval_step x y → decided_rows x → decided_rows y) as Hrun.
  { induction 1 as [|x y z Hxy _ IH]; [done|]. intros Hx. by apply IH, (decision_rows x), Hx; apply step_decision. }
  by destruct (Hrun _ _ H2 (Hrun _ _ H1 H0)).
Qed.

(** * Deliveries *)
Section deliveries.
Context (nfkd : pystr → pystr) (service : PostgresApprovalService).

(** A delivery is a run of the system when what it meets is. *)
Lemma delivery_steps v claimed db db' r :
  (∀ k x, rtc approval_step x (others v k x)) →
  handle nfkd service v claimed db = (db', r) → rtc approval_step db db'.
Proof.
  intros Ho. unfold handle. destruct (decode_materialize_approved_action_command _ _ _) as [c|e]; [|by intros [= <- _]].
  destruct (foreign_claim claimed c); [by intros [= <- _]|]. unfold work_on.
  destruct (_ ≫= _) as [[h|]|e]; [by intros [= <- _]| |].
  - destruct (act_on_command _ _ _ _ _ _) as [db2 [res|e]] eqn:Ea;
      (assert (rtc approval_step db db2) as Hrun;
       [etrans; [apply (Ho 0%nat)|]; etrans; [apply (Ho 1%nat)|]; eapply rtc_r; [apply (Ho 2%nat)|];
        unfold act_on_command in Ea; by eapply step_service|]); intros [= <- _]; [done|].
    etrans; [exact Hrun|apply Ho].
  - intros [= <- _]. etrans; apply Ho.
Qed.

(** The rows before an approval has effects, in a database whose jobs have ids. *)
Record fresh_rows (db : ApprovalDb) : Prop := {
  fr_effects : effects db = ∅;
  fr_jobs : ∀ id r, db_jobs db !! id = Some r → is_ulid (row_id r) = true
}.

Lemma find_inserted {A} (f : A → bool) (m : gmap pystr A) id a :
  f a = true → ∃ b, List.find f (values_of (<[id := a]> m)) = Some b.
Proof.
  intros Hf. destruct (List.find f _) as [b|] eqn:E; [by exists b|]. eapply find_none in E; [by rewrite Hf in E|].
  apply list_elem_of_In. unfold values_of. apply list_elem_of_fmap. exists (id, a). split; [done|].
  apply elem_of_map_to_list, lookup_insert_eq.
Qed.

(** After the decision was committed, the probe tells it. *)
Lemma committed_probe s x subject reason db db' res c :
  settled nfkd service s x subject reason VERDICT_APPROVED db db' res → fresh_rows db →
  s_approval_id x = mat_approval_id c → ap_merchant_id (db_approval db) = mat_merchant_id c →
  ∃ reference, probe None db' c = Ok (Some reference)
    ∧ succeeded reference = Ok (mkHandlerResult SUCCEEDED (Some reference) None None).
Proof.
  intros Hs [He Hj] Hx Hm. unfold probe, completion_row.
  destruct Hs as [m _ Hd (Hb & -> & _)%materialize_Ok|merchant' w closing at_ ? ? Hw (Hb & -> & _)%approval_close_Ok];
    apply bound_elim in Hb as []; cbn [db_approval materialized_db closed_db with_db_case with_approval act_on
      ap_merchant_id ap_id ap_verdict]; rewrite !bool_decide_true by congruence; cbn [andb].
  - set (merchant := proposal_merchant_id (proposal (mz_command m))) in *.
    set (a := queued_action s (action_row merchant x m)).
    assert (action_of_approval (materialized_db s merchant x subject reason m db) (mat_merchant_id c) (mat_approval_id c)
            = Some a) as Ha.
    { unfold action_of_approval. cbn [db_actions materialized_db]. fold a.
      lazymatch goal with |- List.find ?f (values_of (<[?id := _]> ?actions)) = _ =>
        destruct (find_inserted f actions id a) as [b Hb]; [subst a; cbn; by rewrite !bool_decide_true by congruence|] end.
      rewrite Hb. f_equal. apply find_values in Hb as [Hb [id Hid]]. bools.
      apply lookup_insert_Some in Hid as [[_ <-]|[_ Hid]]; [done|].
      exfalso. apply (not_elem_of_empty (C := gset pystr) id). rewrite <- He. unfold effects. apply elem_of_dom. exists b.
      apply map_lookup_filter_Some. split; [done|]. cbn. congruence. }
    rewrite Ha. cbn [fmap option_fmap option_map mbind option_bind].
    unfold effect_job_of at 1. cbn [db_jobs materialized_db].
    lazymatch goal with |- context [List.find ?f (values_of (<[?id := ?row]> ?jobs))] =>
      destruct (find_inserted f jobs id row) as [r Hr]; [subst a; cbn; by rewrite !bool_decide_true by done|] end.
    rewrite Hr. cbn [fmap option_fmap option_map]. eexists. split; [done|].
    apply decide_materializes in Hd as (p & truth & health & ap & context & d & []).
    apply materialization_Ok in dc_material as (_ & _ & _ & _ & _ & _ & _ & Hi1 & _ & Hi3 & _).
    assert (is_ulid (row_id r) = true) as Hi.
    { apply find_values in Hr as [_ [id Hid]]. apply lookup_insert_Some in Hid as [[_ <-]|[_ Hid]]; [done|by eapply Hj]. }
    assert (is_ulid (a_id (a_intent (pa_row a))) = true) as Hia by done. clearbody a.
    apply ulid_text in Hia as [Hv1 Hl1]. apply ulid_text in Hi as [Hv2 Hl2].
    apply succeeded_visible; [done|by rewrite !forallb_app, Hv1, Hv2|].
    unfold str_len. rewrite !length_app, Hl1, Hl2. vm_compute. discriminate.
  - destruct Hw as [(E & _)|(_ & Hw & _)]; [done|]. exists (verdict_casefold w).
    apply elem_of_cons in Hw as [->|[->|Hw]%elem_of_cons]; [by split|by split|set_solver].
Qed.

(** A delivery that changed the rows committed the decision, whatever it answered. *)
Lemma changed_rows_decided v c db db' r :
  (∀ k x, others v k x = x) → work_on nfkd service v c db = (db', r) → db' ≠ db →
  ∃ s x subject reason res, settled nfkd service s x subject reason VERDICT_APPROVED db db' res
    ∧ s_approval_id x = mat_approval_id c ∧ ap_merchant_id (db_approval db) = mat_merchant_id c.
Proof.
  intros Ho. unfold work_on. rewrite !Ho. destruct (_ ≫= _) as [[h|]|e]; [by intros [= <- _]| |by intros [= <- _]].
  destruct (act_on_command _ _ _ _ _ _) as [db2 res] eqn:Ea. intros H Hn.
  assert (db' = db2) as -> by (destruct res; injection H as <- _; by rewrite ?Ho).
  unfold act_on_command in Ea. apply act_cases in Ea as [[-> _]|(x & res' & Hx & _ & Hs & _)]; [done|].
  apply snapshot_approval in Hx as (Hx & _ & Hm). by eexists _, x, _, _, res'.
Qed.
End deliveries.

(** C9: a decision that was committed is never lost, nor made again.  When a
    delivery changed the rows, even if its reply was lost and it answered with a
    retry, the next delivery whose probe gets through answers that it succeeded
    and changes nothing. *)
Theorem committed_approval_redelivered nfkd service v v' claimed c db db' r :
  decode_materialize_approved_action_command (JDict (cmd_command_payload claimed)) (cmd_command_type claimed)
    (cmd_command_schema_version claimed) = Ok c →
  foreign_claim claimed c = false → (∀ k x, others v k x = x) → fresh_rows db →
  handle nfkd service v claimed db = (db', r) → db' ≠ db →
  probe_fate v' = None → others v' 0 db' = db' →
  ∃ reference, handle nfkd service v' claimed db' = (db', Ok (mkHandlerResult SUCCEEDED (Some reference) None None)).
Proof.
  intros Hc Hf Ho Hfresh H Hn Hp Ho'. unfold handle in *. rewrite Hc, Hf in *.
  destruct (changed_rows_decided _ _ _ _ _ _ _ Ho H Hn) as (s & x & subject & reason & res & Hs & Hx & Hm).
  destruct (committed_probe _ _ _ _ _ _ _ _ _ _ Hs Hfresh Hx Hm) as (reference & Hprobe & Hok).
  exists reference. unfold work_on. rewrite Ho', Hp, Hprobe, bind_Ok_l, Hok. done.
Qed.

(** * Witnesses *)
Definition sample_requests : PostgresApprovalRequestService := mkRequestService true sample_id.
Definition sample_key : pystr := $"operator-key-0001".
Definition sample_request (v : ApprovalVerdict) (db : ApprovalDb) : ApprovalDb * result ApprovalRequestResult :=
  ApprovalRequest.act sample_requests sample_approval_session sample_merchant sample_approval_id ($"operator_1") v
    ($"looks_right") sample_key db.
Definition requested_as (v : RequestVerdict) (x : ApprovalDb * result ApprovalRequestResult) : bool :=
  match snd x, v with
  | Ok r, Final w => match rr_verdict r with Final w' => bool_decide (w = w') | APPROVAL_QUEUED => false end
  | Ok r, APPROVAL_QUEUED => match rr_verdict r with Final _ => false | APPROVAL_QUEUED => true end
  | Raise _, _ => false
  end.
Lemma requested_queued_Ok x :
  requested_as APPROVAL_QUEUED x = true → ∃ db' r, x = (db', Ok r) ∧ rr_verdict r = APPROVAL_QUEUED.
Proof.
  unfold requested_as. destruct x as [db' [r|e]]; cbn; [|discriminate]. intros H. exists db', r. split; [reflexivity|].
  destruct (rr_verdict r); [discriminate H|reflexivity].
Qed.
Lemma sample_queued : requested_as APPROVAL_QUEUED (sample_request VERDICT_APPROVED sample_approval_db) = true.
Proof. vm_compute. reflexivity. Qed.

(** The command of the sample is read back from the job it was queued as. *)
Lemma approval_queued_once_witness :
  ∃ db' r job, sample_request VERDICT_APPROVED sample_approval_db = (db', Ok r) ∧ rr_job_id r = Some job
    ∧ db_jobs db' !! job ≠ None.
Proof.
  destruct (requested_queued_Ok _ sample_queued) as (db' & r & E & Hq). unfold sample_request in E.
  destruct (approval_queued_once sample_requests sample_approval_session sample_merchant sample_approval_id ($"operator_1")
              ($"looks_right") sample_key sample_approval_db db' r) as (digest & derived & job & row & _ & Hj & _ & -> & _).
  - vm_compute. reflexivity.
  - exact E.
  - exact Hq.
  - eexists _, r, job. split; [exact E|]. split; [exact Hj|]. cbn. rewrite lookup_insert_eq. discriminate.
Defined.

(** The approval is approved by the service, or rejected by the operator. *)
Definition rejected_db : ApprovalDb := fst (sample_request VERDICT_REJECTED sample_approval_db).
Lemma approval_decided_once_witness :
  (∃ db, rtc approval_step sample_approval_db db ∧ ap_verdict (db_approval db) = VERDICT_APPROVED ∧ size (effects db) = 1%nat)
  ∧ size (effects rejected_db) = 0%nat.
Proof.
  assert (Hp : ap_verdict (db_approval sample_approval_db) = VERDICT_PENDING) by reflexivity.
  assert (He : effects sample_approval_db = ∅) by (vm_compute; reflexivity). split.
  - destruct (acted_Ok _ _ _ sample_approved) as (db & res & E & Hv & _). exists db. unfold sample_act in E.
    assert (Hrun : rtc approval_step sample_approval_db db) by (apply rtc_once; eapply step_service; exact E).
    assert (Ha : ap_verdict (db_approval db) = VERDICT_APPROVED).
    { rewrite <- Hv. symmetry. exact (ans_verdict _ _ (act_answers _ _ _ _ _ _ _ _ _ _ _ _ _ _ E)). }
    split; [exact Hrun|]. split; [exact Ha|].
    pose proof (proj1 (approval_decided_once _ _ _ Hp He (rtc_refl _ _) Hrun)) as Hs. rewrite Ha in Hs. exact Hs.
  - assert (Hrun : rtc approval_step sample_approval_db rejected_db).
    { apply rtc_once. eapply (step_request sample_requests sample_approval_session). apply surjective_pairing. }
    assert (Hr : ap_verdict (db_approval rejected_db) = VERDICT_REJECTED) by (vm_compute; reflexivity).
    pose proof (proj1 (approval_decided_once _ _ _ Hp He Hrun (rtc_refl _ _))) as Hs. rewrite Hr in Hs. exact Hs.
Defined.

(** A delivery whose reply is lost answers with a retry; the next one succeeds. *)
Definition lost_delivery : ApprovalDelivery :=
  mkApprovalDelivery (λ _ x, x) None sample_at None
    (mkApprovalSession sample_at sample_at sample_at (Ok tt) (ReplyLost (DatabaseError "lost"))) None.
Definition lost_run : ApprovalDb * result HandlerResult :=
  handle id unpaid_service lost_delivery sample_approval_claim sample_approval_db.
Lemma lost_retries : (λ x, handled_to RETRY x && (size (db_actions (fst x)) =? 1)%nat) lost_run = true.
Proof. vm_compute. reflexivity. Qed.
Lemma committed_approval_redelivered_witness :
  ∃ reference, handle id unpaid_service sample_delivery sample_approval_claim (fst lost_run)
    = (fst lost_run, Ok (mkHandlerResult SUCCEEDED (Some reference) None None)).
Proof.
  apply (committed_approval_redelivered id unpaid_service lost_delivery sample_delivery sample_approval_claim
           sample_approval_command sample_approval_db (fst lost_run) (snd lost_run)).
  - vm_compute. reflexivity.
  - vm_compute. reflexivity.
  - intros k x. reflexivity.
  - split; [vm_compute; reflexivity|]. intros id r H. discriminate H.
  - apply surjective_pairing.
  - intros E. pose proof (proj2 (andb_prop _ _ lost_retries)) as Hl. rewrite E in Hl. discriminate Hl.
  - reflexivity.
  - reflexivity.
Defined.
